(* ===== verification/_CoqProject ===== *)
-Q . S2P
Prelude.v
RString.v
Regex.v
Fmt.v
Ipc.v
Focus.v
Sway.v
Hoare.v
Samples.v
Cfg.v
Config.v
Util.v
Layout.v
Tree.v
Display.v
Criteria.v
Tests.v
Menu.v
Switch.v
Cycle.v
Handlers.v
Exec.v
Daemon.v
Safety.v
Session.v
BarModule.v
BarModules.v
Bar.v
BarSafety.v
BarThreads.v
BarFresh.v
