(* ===== verification/Prelude.v ===== *)
(** * Swayr and swayrbar

    A model of the window switcher swayr (its daemon swayrd and its client) and of
    the status command swayrbar, translated from the Rust sources, with theorems
    about what they do.

    ** The programs

    swayrd has four threads.  The event thread listens to sway; for a focused, new or
    closed window it updates the focus data, or sends a message about it, and tiles
    the windows automatically if that is configured.  The lock-in thread receives the
    messages and, after a delay, writes the focus ticks.  The main thread accepts
    clients on a socket and executes the commands they send.  The auto-nop thread
    executes a Nop when nothing has happened for a while.  The client swayr sends one
    command.  swayrbar has one thread for each of: clicks, sway's events, ticks, and
    the printing of status lines, for which it asks its modules; the first three send
    the last one refresh events through a channel with 16 places.

    ** How the model is made

    A Rust function that only computes is a function into [outcome] (this file): it
    returns, panics, or never returns.  A function with effects is a function in the
    monad [io] (Sway.v), which passes the trace of the effects so far.  The class
    [Env] and the classes of the same kind give the answers of the outside world as
    functions of that trace, so that the theorems hold for all behaviours of sway, of
    the programs that are run and of the file system.  Shared state is passed
    explicitly; where several threads change it, their steps are interleaved by a
    step function or a step relation and the theorems are about all reachable states
    ([sys_step] in Focus.v, [nop_step] in Daemon.v, [press] in Session.v, [bar_step] in
    BarThreads.v).  Integers are [Z] with their bounds where the
    code depends on them: the [u64] of the focus counter wraps, an [i32] becomes an
    [f32] by rounding, a parsed [u8] must fit.  Maps are [gmap]s, and the vectors
    whose order matters lists.  Strings are byte strings taken to be UTF-8.

    Third-party code is a parameter: sway and swayipc ([Env], [DaemonEnv], [BarIO]),
    the regex crate ([RegexCrate]), rt_format and the printing of floats
    ([RtFormatCrate], [Floats]), toml ([TomlConfig], [ConfigToml], [BarConfigToml]),
    serde's JSON ([JsonCommands], [SwaybarTypes]), Unicode tables ([Unicode]), rand
    ([Env] with [RandLaws]), the battery, sysinfo and chrono crates ([BarEnv]).  What
    the code relies on is a class of laws or a hypothesis of the theorem.

    ** The files

    - Prelude.v: outcomes, the iterator methods that take predicates which may panic,
      stable sorting and maxima under a total comparison, tactics and the hint
      database [swayr].
    - RString.v: the methods of [str] and [char] the sources use.  Regex.v: regexes.
    - Fmt.v: shared/fmt.rs.  Cfg.v: shared/cfg.rs.  Ipc.v: shared/ipc.rs, the nodes
      and their depth-first iterator.
    - Focus.v: focus.rs and the lock-in thread of daemon.rs.
    - Sway.v: effects, environments and the [io] monad.  Hoare.v: rules for calls that
      do not panic and for effects that are not taken back.  Samples.v: environments
      and a tree for concrete inputs.
    - Config.v: config.rs.  Util.v: util.rs.  Layout.v: layout.rs.  Tree.v and
      Display.v: tree.rs.  Criteria.v: criteria.rs.  Tests.v: the unit tests of
      shared/fmt.rs and criteria.rs, evaluated on the model.  Menu.v: what the selection
      menu answers, for every kind of choice.
    - Switch.v, Cycle.v, Handlers.v, Exec.v: cmds.rs, in that order the sequences of
      urgent, matching and recent windows, the cycling commands, all other commands,
      and [exec_swayr_cmd].
    - Daemon.v: the other threads of daemon.rs, client.rs, and what the executables swayr
      and swayrd do once their arguments are parsed.
    - Safety.v: no command and no thread of the daemon panics.  Session.v: a user's
      session, commands and the threads of the focus data together.
    - BarModule.v: swayrbar's module.rs and config.rs.  BarModules.v: module/*.rs.
      Bar.v: bar.rs.  BarSafety.v: when swayrbar does not panic.  BarThreads.v: the
      threads and the channel between them.  BarFresh.v: from a change of sway to the
      status line.

    Definitions have the names of the source.  An auxiliary function stands for the
    body of a loop or a closure, or for the arms of a match; the arms of the macro
    [subst_placeholders!] are functions from names to values.

    ** Interfaces

    [DisplayFormat] (Util.v) is what the selection menu asks of its choices: Tree
    nodes (Display.v), sway commands (Handlers.v) and swayr commands (Exec.v) are
    instances.  [BarModuleFn] (BarModule.v) is swayrbar's module trait and
    [BarModuleLaws] what the rest of swayrbar relies on; each module is an instance
    of both, and the theorems on clicks and status lines are about all modules with
    the laws.  [BarModuleStarts] (Bar.v), [BarModuleSafe] (BarSafety.v) and
    [BarModuleQuiet] (BarThreads.v) add that a module has made its text once it is on a
    status line, that it does not panic, and that it takes back no effect and leaves sending to the
    threads; each module is an instance of all three, and what is proved about the threads
    uses the interfaces alone.  [TomlConfig] (Cfg.v)
    is what loading a file asks of a configuration; both programs' configurations are
    instances.  [runs] (Hoare.v) is the specification of a call by what it may return, [adds]
    by the effects it may add to the trace.

    ** The theorems

    - Focus order (Focus.v, Daemon.v): the tick map that the threads maintain together
      is the list of the most recently used nodes, in every interleaving; the lock-in
      thread refines a buffer with one place; inhibited updates change no tick; each
      event of sway is one action of this model.
    - Sequences (Switch.v, Cycle.v, Exec.v, Daemon.v): which window comes next, that a
      sequence ends, visits everything once and starts anew; what ends a sequence,
      by a command, a Nop or the auto-nop thread; the protocol of the two mutexes.
    - Whole programs (Safety.v, Session.v, Daemon.v, BarSafety.v): with sway up, and so
      on, no command makes the daemon panic on a well-formed tree, and no finite sequence
      of events, requests, automatic Nops and actions of the lock-in thread stops it, but
      for the two commands that may not return, execute-swayr-command and
      configure-outputs; a command the client sends is executed by the daemon of the same
      session; no status line or click stops swayrbar, if its date modules have formats
      and click arguments that strftime knows; pressing the key of a cycling command
      again and again, with sway's focus events and the lock-in thread in between, visits
      every window once and in order.
    - Tree (Ipc.v, Tree.v): the iterator and the maps hold the nodes of the tree, the
      parent search finds the nearest ancestor, the lists that are shown are complete
      and in order.
    - Commands (Handlers.v, Layout.v, Menu.v): no window is lost by tiling, quitting
      hits exactly the chosen windows, automatic tiling follows its integer
      specification, a lost connection stops the re-layout, the menu's answer is the
      choice shown.
    - Criteria (Criteria.v): every way to write a query on one line is parsed to it, a
      line break outside a string is rejected, and evaluation decides the documented
      meaning.
    - Files and formats (Cfg.v, Config.v, Fmt.v).
    - swayrbar (BarModules.v, Bar.v): what refreshes a module, what a click runs.  Its
      threads (BarThreads.v, BarFresh.v): what each has sent is what the configuration and
      the happenings make due, no refresh is lost, doubled or overtaken, the threads do
      not block each other for ever, and once the refreshes for a change of sway are
      printed the last line shows the focused window.

    Some theorems are about behaviour that is not meant: the command menu makes the
    daemon hang, a notification of the auto-nop thread can be lost, brackets are
    escaped twice, a criterion is negated, a loud volume or an invalid date format ends
    the status line, a network's name is cut, and the end of the input makes a thread
    spin.  Others show where the code differs from README: the last recently used window
    is left for the second step of a sequence, a width equal to the minimum counts as too
    small, and a query must be on one line.  The re-layout does not notice commands that
    sway refuses, only a lost connection.

    ** Fuel

    A recursion that is not structural takes fuel and gives [NoReturn] without it.
    The iterator gets the number of nodes plus one, the searches for a parent the size
    of the parent map plus one, the sorted traversal the number of nodes, the parser
    the length of the text plus one, and the choice of the next window two turns;
    that this is always enough is part of the theorems.  Loops that may run for ever
    ([configure_outputs], the threads' main loops) take their fuel as an argument.

    ** What is not modelled

    Log output; failures of writing to the standard output; the parsing of command lines,
    which the clap crate generates from the types; the poisoning of mutexes after a panic,
    and the locks of swayrbar's modules, each held for one build or one click; the time
    that passes, other than as the event that a delay has expired; two commands executed
    by different threads at the same time, which the mutexes exclude. *)

From Stdlib Require Export Ascii.
From stdpp Require Export base tactics list sorting option numbers strings gmap pretty.

(** ** Outcomes: what a call of a Rust function can do

    [Done a] returns [a].  [Panics msg] is a [panic!], a failed [unwrap] or
    [expect], or a failed library assertion.  [NoReturn] is a call that never
    comes back: a loop whose model ran out of fuel, or a thread that locks a
    [Mutex] it already holds. *)
Inductive outcome (A : Type) : Type :=
| Done (a : A)
| Panics (msg : string)
| NoReturn.
Arguments Done {A} _.
Arguments Panics {A} _.
Arguments NoReturn {A}.

#[export] Instance outcome_ret : MRet outcome := λ A a, Done a.
#[export] Instance outcome_bind : MBind outcome := λ A B f m,
  match m with
  | Done a => f a
  | Panics msg => Panics msg
  | NoReturn => NoReturn
  end.
#[export] Instance outcome_fmap : FMap outcome := λ A B f m,
  match m with
  | Done a => Done (f a)
  | Panics msg => Panics msg
  | NoReturn => NoReturn
  end.

(** [Option::expect] and [Option::unwrap]. *)
Definition expect {A} (msg : string) (o : option A) : outcome A :=
  match o with Some a => Done a | None => Panics msg end.

Definition unwrap {A} : option A → outcome A :=
  expect "called `Option::unwrap()` on a `None` value".

Definition is_none {A} (o : option A) : bool :=
  match o with None => true | Some _ => false end.
Definition is_some {A} (o : option A) : bool := negb (is_none o).

(** [Result]. *)
Inductive result (A E : Type) : Type :=
| Ok (a : A)
| Err (e : E).
Arguments Ok {A E} _.
Arguments Err {A E} _.

(** Iterator adaptors whose closure can panic.  [filter_o] is
    [.filter(p).collect()], which runs the closure on every element in order;
    [find_o] and [any_o] stop at the first element that satisfies it. *)
Section Iterators.
Context {A : Type} (p : A → outcome bool).

Fixpoint filter_o (l : list A) : outcome (list A) :=
  match l with
  | [] => Done []
  | x :: l => b ← p x; r ← filter_o l; Done (if b : bool then x :: r else r)
  end.

Fixpoint find_o (l : list A) : outcome (option A) :=
  match l with
  | [] => Done None
  | x :: l => b ← p x; if b : bool then Done (Some x) else find_o l
  end.

Fixpoint any_o (l : list A) : outcome bool :=
  match l with
  | [] => Done false
  | x :: l => b ← p x; if b : bool then Done true else any_o l
  end.
End Iterators.

(** [Iterator::find] with a closure that cannot panic. *)
Fixpoint find {A} (f : A → bool) (l : list A) : option A :=
  match l with
  | [] => None
  | x :: l => if f x then Some x else find f l
  end.

(** [<[T]>::rotate_left(mid)], which asserts [mid <= self.len()]. *)
Definition rotate_left {A} (mid : nat) (l : list A) : outcome (list A) :=
  if decide (mid ≤ length l) then Done (drop mid l ++ take mid l)
  else Panics "assertion failed: mid <= self.len()".

(** ** Sorting and maxima, as Rust's [slice::sort_by] and [Iterator::max_by]

    [sort_by] is a stable sort: an element goes in front of the elements it is
    not greater than, so equal elements keep their order. *)
Section Sort.
Context {A : Type} (cmp : A → A → comparison).

Fixpoint insert_by (x : A) (l : list A) : list A :=
  match l with
  | [] => [x]
  | y :: l' =>
      match cmp x y with
      | Gt => y :: insert_by x l'
      | _ => x :: y :: l'
      end
  end.

Fixpoint sort_by (l : list A) : list A :=
  match l with
  | [] => []
  | x :: l' => insert_by x (sort_by l')
  end.

(** [max_by] keeps the later one of two equal elements. *)
Fixpoint max_by_from (best : A) (l : list A) : A :=
  match l with
  | [] => best
  | y :: l' =>
      max_by_from (match cmp best y with Gt => best | _ => y end) l'
  end.

Definition max_by (l : list A) : option A :=
  match l with
  | [] => None
  | x :: l' => Some (max_by_from x l')
  end.

Definition cmp_le (x y : A) : Prop := cmp x y ≠ Gt.
End Sort.

(** [Ordering::reverse]. *)
Definition reverse_ord : comparison → comparison := CompOpp.

(** The laws of [Ord]-like comparison functions: what [sort_by] asks of its
    argument ("a total order" on the classes of equal elements). *)
Class TotalCmp {A} (cmp : A → A → comparison) : Prop := {
  cmp_opp : ∀ x y, cmp y x = CompOpp (cmp x y);
  cmp_le_trans : ∀ x y z, cmp_le cmp x y → cmp_le cmp y z → cmp_le cmp x z
}.
Arguments cmp_opp {A} cmp {_} x y.
Arguments cmp_le_trans {A} cmp {_} x y z _ _.

(** ** Unsigned machine words *)
Definition u64_max : Z := 2 ^ 64 - 1.
Definition u64_add (x y : Z) : Z := (x + y) `mod` 2 ^ 64.

(** ** Tactics and hints *)
Create HintDb swayr discriminated.

Ltac done_inv :=
  repeat match goal with
  | H : Done _ = Done _ |- _ => injection H as H
  | H : Done _ = Panics _ |- _ => discriminate H
  | H : Done _ = NoReturn |- _ => discriminate H
  | H : Panics _ = Done _ |- _ => discriminate H
  | H : NoReturn = Done _ |- _ => discriminate H
  end; simplify_eq/=.

(** Closes a decidable proposition about concrete values. *)
Ltac decide_now := apply (bool_decide_unpack _); vm_compute; exact I.

(** Case analysis on the scrutinee of a [match] or [if] of the goal. *)
Ltac case_match_eq :=
  match goal with
  | |- context [ match ?x with _ => _ end ] => destruct x eqn:?
  end.

(** ** Lemmas about outcomes *)
Lemma bind_done {A B} (f : A → outcome B) (a : A) : (Done a ≫= f) = f a.
Proof. reflexivity. Qed.

Lemma bind_done_inv {A B} (m : outcome A) (f : A → outcome B) (b : B) :
  (m ≫= f) = Done b → ∃ a, m = Done a ∧ f a = Done b.
Proof. destruct m; cbn; intros; [eauto | discriminate | discriminate]. Qed.

Lemma Done_inj {A} (a b : A) : Done a = Done b → a = b.
Proof. congruence. Qed.

Lemma expect_done {A} msg (o : option A) a : expect msg o = Done a ↔ o = Some a.
Proof. destruct o; cbn; split; congruence. Qed.

Section IteratorFacts.
Context {A : Type} (p : A → outcome bool) (f : A → bool).

Lemma filter_o_done (l : list A) :
  (∀ x, x ∈ l → p x = Done (f x)) →
  filter_o p l = Done (filter (λ x, f x = true) l).
Proof.
  induction l as [|x l IH]; intros Hp; [done|].
  cbn [filter_o]. rewrite Hp by left. cbn [mbind outcome_bind].
  rewrite IH by (intros; apply Hp; by right). cbn [mbind outcome_bind].
  rewrite filter_cons. by destruct (f x).
Qed.

Lemma find_o_done (l : list A) :
  (∀ x, x ∈ l → p x = Done (f x)) → find_o p l = Done (find f l).
Proof.
  induction l as [|x l IH]; intros Hp; [done|].
  cbn. rewrite Hp by left. cbn. destruct (f x); [done|].
  apply IH. intros; apply Hp; by right.
Qed.

Lemma any_o_done (l : list A) :
  (∀ x, x ∈ l → p x = Done (f x)) → any_o p l = Done (existsb f l).
Proof.
  induction l as [|x l IH]; intros Hp; [done|].
  cbn. rewrite Hp by left. cbn. destruct (f x); [done|].
  apply IH. intros; apply Hp; by right.
Qed.
End IteratorFacts.

Lemma rotate_left_done {A} mid (l : list A) :
  mid ≤ length l → rotate_left mid l = Done (drop mid l ++ take mid l).
Proof. intros. unfold rotate_left. by rewrite decide_True. Qed.

Lemma rotate_left_Permutation {A} mid (l l' : list A) :
  rotate_left mid l = Done l' → l' ≡ₚ l.
Proof.
  unfold rotate_left. case_decide; intros; done_inv.
  rewrite Permutation_app_comm. by rewrite take_drop.
Qed.

(** ** Lemmas about [find] *)
Section FindFacts.
Context {A : Type} (f : A → bool).

Lemma find_Some (l : list A) x : find f l = Some x → x ∈ l ∧ f x = true.
Proof.
  induction l as [|y l IH]; cbn; [done|].
  destruct (f y) eqn:E; intros; simplify_eq.
  - split; [left|done].
  - destruct IH; [done|]. split; [by right|done].
Qed.

Lemma find_None (l : list A) : find f l = None ↔ ∀ x, x ∈ l → f x = false.
Proof.
  induction l as [|y l IH]; cbn.
  - split; [|done]. intros _ x Hx. by apply elem_of_nil in Hx.
  - destruct (f y) eqn:E.
    + split; [done|]. intros H. specialize (H y (list_elem_of_here _ _)). congruence.
    + rewrite IH. split; intros H x Hx.
      * apply elem_of_cons in Hx as [->|]; auto.
      * apply H. by right.
Qed.

Lemma find_is_Some (l : list A) x : x ∈ l → f x = true → is_Some (find f l).
Proof.
  intros Hin Hf. destruct (find f l) eqn:E; [eauto|].
  rewrite find_None in E. rewrite E in Hf; done.
Qed.

(** The element found is the first one that satisfies the test. *)
Lemma find_split (l : list A) x :
  find f l = Some x →
  ∃ l1 l2, l = l1 ++ x :: l2 ∧ Forall (λ y, f y = false) l1 ∧ f x = true.
Proof.
  induction l as [|y l IH]; cbn; [done|].
  destruct (f y) eqn:E; intros; simplify_eq.
  - by exists [], l.
  - destruct IH as (l1 & l2 & -> & ? & ?); [done|].
    exists (y :: l1), l2. auto.
Qed.

Lemma find_ext (g : A → bool) (l : list A) :
  (∀ x, x ∈ l → f x = g x) → find f l = find g l.
Proof.
  induction l as [|x l IH]; intros H; cbn; [done|].
  rewrite H by left. rewrite IH; [done|]. intros; apply H; by right.
Qed.
End FindFacts.

Lemma existsb_elem_of {A} (f : A → bool) l :
  existsb f l = true ↔ ∃ x, x ∈ l ∧ f x = true.
Proof.
  rewrite existsb_exists. by setoid_rewrite list_elem_of_In.
Qed.

Lemma NoDup_fmap_inj {A B} (f : A → B) (l : list A) x y :
  NoDup (f <$> l) → x ∈ l → y ∈ l → f x = f y → x = y.
Proof.
  induction l as [|z l IH]; [intros _ Hx; by apply elem_of_nil in Hx|].
  rewrite fmap_cons, NoDup_cons. intros [Hz Hl] Hx Hy E.
  apply elem_of_cons in Hx as [->|Hx], Hy as [->|Hy]; auto.
  - destruct Hz. rewrite E. by apply list_elem_of_fmap_2.
  - destruct Hz. rewrite <-E. by apply list_elem_of_fmap_2.
Qed.

(** ** Lemmas about [sort_by] *)
Section SortFacts.
Context {A : Type} (cmp : A → A → comparison) `{!TotalCmp cmp}.
Implicit Types (x y z : A) (l : list A).

Lemma cmp_refl x : cmp x x = Eq.
Proof. pose proof (cmp_opp cmp x x) as H. by destruct (cmp x x). Qed.

Lemma cmp_gt_le x y : cmp x y = Gt → cmp_le cmp y x.
Proof. intros H. unfold cmp_le. by rewrite (cmp_opp cmp x y), H. Qed.

Lemma cmp_eq_sym x y : cmp x y = Eq → cmp y x = Eq.
Proof. intros H. by rewrite (cmp_opp cmp x y), H. Qed.

Lemma cmp_le_antisym x y : cmp_le cmp x y → cmp_le cmp y x → cmp x y = Eq.
Proof. unfold cmp_le. rewrite (cmp_opp cmp x y). destruct (cmp x y); done. Qed.

Lemma cmp_eq_le x y : cmp x y = Eq → cmp_le cmp x y.
Proof. unfold cmp_le. by intros ->. Qed.

Lemma cmp_eq_trans x y z : cmp x y = Eq → cmp y z = Eq → cmp x z = Eq.
Proof.
  intros H1 H2. apply cmp_le_antisym; apply (cmp_le_trans cmp _ y);
    eauto using cmp_eq_le, cmp_eq_sym.
Qed.

Lemma insert_by_Permutation x l : insert_by cmp x l ≡ₚ x :: l.
Proof.
  induction l as [|y l IH]; cbn; [done|].
  destruct (cmp x y); [done..|]. rewrite IH. constructor.
Qed.

Lemma sort_by_Permutation l : sort_by cmp l ≡ₚ l.
Proof.
  induction l as [|x l IH]; cbn; [done|]. by rewrite insert_by_Permutation, IH.
Qed.

Lemma elem_of_sort_by x l : x ∈ sort_by cmp l ↔ x ∈ l.
Proof. by rewrite sort_by_Permutation. Qed.

Lemma length_sort_by l : length (sort_by cmp l) = length l.
Proof. by rewrite sort_by_Permutation. Qed.

Lemma insert_by_sorted x l :
  StronglySorted (cmp_le cmp) l → StronglySorted (cmp_le cmp) (insert_by cmp x l).
Proof.
  induction 1 as [|y l Hs IH Hall]; cbn; [repeat constructor|].
  destruct (cmp x y) eqn:E.
  1, 2: constructor; [by constructor|]; constructor; [unfold cmp_le; congruence|];
    eapply Forall_impl; [exact Hall|]; intros z Hz;
    apply (cmp_le_trans cmp _ y); [unfold cmp_le; congruence | done].
  constructor; [done|]. rewrite insert_by_Permutation.
  constructor; [by apply cmp_gt_le|done].
Qed.

Lemma sort_by_sorted l : StronglySorted (cmp_le cmp) (sort_by cmp l).
Proof.
  induction l as [|x l IH]; cbn; [constructor|]. by apply insert_by_sorted.
Qed.

(** Stability: the elements equal to any given one keep their order. *)
Lemma insert_by_stable z x l :
  StronglySorted (cmp_le cmp) l →
  filter (λ y, cmp z y = Eq) (insert_by cmp x l)
  = filter (λ y, cmp z y = Eq) (x :: l).
Proof.
  induction 1 as [|y l Hs IH Hall]; cbn [insert_by]; [done|].
  destruct (cmp x y) eqn:E; [done..|].
  rewrite filter_cons, IH, !filter_cons.
  destruct (decide (cmp z y = Eq)) as [Hy|]; [|done].
  destruct (decide (cmp z x = Eq)) as [Hx|]; [|done].
  exfalso. assert (cmp x y = Eq); [|congruence].
  apply (cmp_eq_trans _ z); [by apply cmp_eq_sym | done].
Qed.

Lemma sort_by_stable z l :
  filter (λ y, cmp z y = Eq) (sort_by cmp l) = filter (λ y, cmp z y = Eq) l.
Proof.
  induction l as [|x l IH]; cbn [sort_by]; [done|].
  rewrite insert_by_stable by apply sort_by_sorted.
  rewrite !filter_cons, IH. done.
Qed.

Lemma sort_by_id l : StronglySorted (cmp_le cmp) l → sort_by cmp l = l.
Proof.
  induction 1 as [|x l Hs IH Hall]; cbn; [done|]. rewrite IH.
  destruct l as [|y l]; cbn; [done|].
  apply Forall_cons in Hall as [Hxy _]. unfold cmp_le in Hxy.
  destruct (cmp x y); done.
Qed.

Lemma max_by_from_elem best l : max_by_from cmp best l ∈ best :: l.
Proof.
  revert best. induction l as [|y l IH]; intros best; cbn; [left|].
  specialize (IH (match cmp best y with Gt => best | _ => y end)).
  apply elem_of_cons in IH as [->|?]; [|by do 2 right].
  destruct (cmp best y); [right; left|right; left|left].
Qed.

Lemma max_by_from_ge best l :
  cmp_le cmp best (max_by_from cmp best l)
  ∧ ∀ y, y ∈ l → cmp_le cmp y (max_by_from cmp best l).
Proof.
  revert best. induction l as [|y l IH]; intros best; cbn.
  - split; [by apply cmp_eq_le, cmp_refl|]. intros y Hy. by apply elem_of_nil in Hy.
  - set (b' := match cmp best y with Gt => best | _ => y end).
    destruct (IH b') as [Hb Hl].
    assert (cmp_le cmp best b' ∧ cmp_le cmp y b') as [H1 H2].
    { unfold b'. destruct (cmp best y) eqn:E.
      1, 2: split; [unfold cmp_le; congruence | by apply cmp_eq_le, cmp_refl].
      split; [by apply cmp_eq_le, cmp_refl | by apply cmp_gt_le]. }
    split; [by apply (cmp_le_trans cmp _ b')|].
    intros z Hz. apply elem_of_cons in Hz as [->|]; [by apply (cmp_le_trans cmp _ b') | auto].
Qed.

Lemma max_by_spec l m :
  max_by cmp l = Some m → m ∈ l ∧ ∀ y, y ∈ l → cmp_le cmp y m.
Proof.
  destruct l as [|x l]; cbn; [done|]. intros [= <-].
  split; [apply max_by_from_elem|].
  intros y Hy. destruct (max_by_from_ge x l) as [Hx Hl].
  apply elem_of_cons in Hy as [->|]; auto.
Qed.
End SortFacts.

Lemma sort_by_ext {A} (c1 c2 : A → A → comparison) l :
  (∀ x y, c1 x y = c2 x y) → sort_by c1 l = sort_by c2 l.
Proof.
  intros E. assert (∀ x l, insert_by c1 x l = insert_by c2 x l) as Hi.
  { intros x l'. induction l' as [|y l' IH]; [done|]. cbn. by rewrite E, IH. }
  induction l as [|x l IH]; [done|]. cbn. by rewrite IH, Hi.
Qed.

Lemma max_by_None {A} (cmp : A → A → comparison) l : max_by cmp l = None ↔ l = [].
Proof. by destruct l. Qed.

(** ** More lemmas about [find] *)
Lemma find_fmap {A B} (f : B → bool) (g : A → B) l : find f (g <$> l) = g <$> find (f ∘ g) l.
Proof. induction l as [|x l IH]; cbn; [done|]. by destruct (f (g x)). Qed.

Lemma find_filter {A} (f g : A → bool) l :
  find (λ x, f x && g x) l = find g (filter (λ x, f x = true) l).
Proof.
  induction l as [|x l IH]; [done|]. rewrite filter_cons. cbn.
  destruct (f x); cbn; [|by rewrite decide_False].
  rewrite decide_True by done. cbn. by destruct (g x).
Qed.

(** In a list without duplicates, the first element whose key is not among the
    first [k] is the one after them. *)
Lemma find_not_taken {A} `{EqDecision B} (key : A → B) k l :
  NoDup (key <$> l) →
  find (λ x, negb (bool_decide (key x ∈ take k (key <$> l)))) l = l !! k.
Proof.
  revert k. induction l as [|x l IH]; intros k Hnd; [by destruct k|].
  rewrite fmap_cons in Hnd |- *. apply NoDup_cons in Hnd as [Hx Hnd].
  destruct k as [|k]; cbn [take find]; [by rewrite bool_decide_false by apply not_elem_of_nil|].
  rewrite bool_decide_true by left. cbn [negb].
  change ((x :: l) !! S k) with (l !! k). rewrite <-(IH k Hnd). apply find_ext. intros y Hy. f_equal.
  apply bool_decide_ext. rewrite elem_of_cons. split; [|by right].
  intros [E|]; [|done]. destruct Hx. rewrite <-E. by apply list_elem_of_fmap_2.
Qed.
