(* ===== verification/RString.v ===== *)
(** * Rust strings

    A Rust [String] is its UTF-8 bytes, a Rocq [string].  The functions below are
    those of [std::str] that the two programs call, with the arguments they call
    them with (a pattern is never empty). *)

From S2P Require Import Prelude.

(** Appending reduces on a constructor. *)
#[global] Arguments String.append !_ _ : simpl nomatch.

(** ** Functions of the standard library *)

Definition starts_with (pat s : string) : bool := String.prefix pat s.

Fixpoint contains (pat s : string) : bool :=
  starts_with pat s ||
  match s with
  | EmptyString => false
  | String _ s' => contains pat s'
  end.

(** [str::replace]: the occurrences of [pat] from left to right, not
    overlapping; [skip] bytes of the current one are still to be passed over. *)
Fixpoint replace_from (pat to : string) (skip : nat) (s : string) : string :=
  match s with
  | EmptyString => EmptyString
  | String c s' =>
      match skip with
      | S skip => replace_from pat to skip s'
      | O =>
          if starts_with pat s
          then to +:+ replace_from pat to (String.length pat - 1) s'
          else String c (replace_from pat to 0 s')
      end
  end.

Definition replace (pat to s : string) : string := replace_from pat to 0 s.

Definition drop_bytes (n : nat) (s : string) : string :=
  String.substring n (String.length s - n) s.

(** [str::replacen] with a count of one. *)
Fixpoint replace_first (pat to s : string) : string :=
  if starts_with pat s then to +:+ drop_bytes (String.length pat) s
  else match s with
       | EmptyString => EmptyString
       | String c s' => String c (replace_first pat to s')
       end.

(** [<[String]>::join]. *)
Definition join (sep : string) (l : list string) : string := String.concat sep l.

Definition repeat_str (n : nat) (s : string) : string :=
  foldr String.app EmptyString (replicate n s).

(** [str::split] by a one-byte pattern. *)
Fixpoint split (sep : ascii) (s : string) : list string :=
  match s with
  | EmptyString => [EmptyString]
  | String c s' =>
      if decide (c = sep) then EmptyString :: split sep s'
      else match split sep s' with
           | w :: ws => String c w :: ws
           | [] => [String c EmptyString]
           end
  end.

Definition is_ascii_whitespace (c : ascii) : bool :=
  bool_decide (Ascii.N_of_ascii c ∈ [9%N; 10%N; 12%N; 13%N; 32%N]).

(** [str::split_ascii_whitespace]: the maximal runs of other bytes. *)
Fixpoint split_ascii_whitespace_from (cur : string) (s : string) : list string :=
  match s with
  | EmptyString => if decide (cur = EmptyString) then [] else [cur]
  | String c s' =>
      if is_ascii_whitespace c
      then (if decide (cur = EmptyString) then [] else [cur])
           ++ split_ascii_whitespace_from EmptyString s'
      else split_ascii_whitespace_from (cur +:+ String c EmptyString) s'
  end.
Definition split_ascii_whitespace (s : string) : list string :=
  split_ascii_whitespace_from EmptyString s.

Definition strip_prefix (pat s : string) : option string :=
  if starts_with pat s then Some (drop_bytes (String.length pat) s) else None.

(** *** UTF-8 characters *)

(** A byte [10xxxxxx] continues the character before it. *)
Definition is_continuation (c : ascii) : bool :=
  let n := Ascii.N_of_ascii c in (128 <=? n)%N && (n <? 192)%N.

(** The characters of a string, as the strings of their bytes. *)
Fixpoint chars (s : string) : list string :=
  match s with
  | EmptyString => []
  | String c s' =>
      match chars s', s' with
      | w :: ws, String d _ =>
          if is_continuation d then String c w :: ws
          else String c EmptyString :: w :: ws
      | _, _ => [String c EmptyString]
      end
  end.

Definition of_chars (l : list string) : string := foldr String.app EmptyString l.

(** [String::pop], without the character it returns. *)
Definition pop (s : string) : string := of_chars (removelast (chars s)).

(** A string that begins with a whole character, as every UTF-8 string does. *)
Definition whole_start (s : string) : bool :=
  match s with String c _ => negb (is_continuation c) | EmptyString => true end.

(** [str::lines] and [BufRead::lines]: a line ends with a line feed or a carriage
    return and a line feed; the last one need not. *)
Definition strip_cr (s : string) : string :=
  match reverse (chars s) with
  | c :: l => if decide (c = String "013" EmptyString) then of_chars (reverse l) else s
  | [] => s
  end.
Fixpoint lines_of (parts : list string) : list string :=
  match parts with
  | [] => []
  | [last] => if decide (last = EmptyString) then [] else [last]
  | p :: parts => strip_cr p :: lines_of parts
  end.
Definition lines (s : string) : list string := lines_of (split "010" s).

(** *** Numbers *)
Definition is_digit (c : ascii) : bool :=
  let n := Ascii.N_of_ascii c in (48 <=? n)%N && (n <=? 57)%N.

Definition digit_value (c : ascii) : Z := Z.of_N (Ascii.N_of_ascii c - 48).

(** The value of a string of digits, [None] if it is not one. *)
Fixpoint digits_value (acc : Z) (s : string) : option Z :=
  match s with
  | EmptyString => Some acc
  | String c s' =>
      if is_digit c then digits_value (10 * acc + digit_value c) s' else None
  end.

(** [str::parse] to an integer type with the given bounds: an optional sign, at
    least one digit, and a value within the bounds.  The unsigned types take no
    minus sign. *)
Definition parse_int (lo hi : Z) (s : string) : option Z :=
  let '(sign, ds) :=
    match s with
    | String "+" s' => (1, s')
    | String "-" s' => if (lo <? 0)%Z then (-1, s') else (1, s)
    | _ => (1, s)
    end%Z in
  match ds with
  | EmptyString => None
  | _ =>
      n ← digits_value 0 ds;
      if decide (lo ≤ sign * n ≤ hi)%Z then Some (sign * n)%Z else None
  end.

Definition parse_i32 : string → option Z := parse_int (- 2 ^ 31) (2 ^ 31 - 1).
Definition parse_i64 : string → option Z := parse_int (- 2 ^ 63) (2 ^ 63 - 1).
Definition parse_u8 : string → option Z := parse_int 0 255.

(** [to_string] of an integer. *)
Definition int_to_string (z : Z) : string := pretty z.

(** The double quote and the line feed. *)
Definition dq : string := String (Ascii.ascii_of_nat 34) EmptyString.
Definition nl : string := String (Ascii.ascii_of_nat 10) EmptyString.

(** ** Lemmas *)
Lemma app_nil_str (s : string) : s +:+ "" = s.
Proof. induction s; cbn; congruence. Qed.

Lemma app_assoc_str (a b c : string) : (a +:+ b) +:+ c = a +:+ (b +:+ c).
Proof. induction a; cbn; congruence. Qed.

Lemma drop_bytes_0 s : drop_bytes 0 s = s.
Proof.
  unfold drop_bytes. rewrite Nat.sub_0_r. induction s as [|c s IH]; [done|]. cbn.
  by rewrite IH.
Qed.

Lemma strip_prefix_Some p s s' : strip_prefix p s = Some s' → s = p +:+ s'.
Proof.
  unfold strip_prefix, starts_with. revert s. induction p as [|c p IH]; intros s E.
  - cbn in E. rewrite drop_bytes_0 in E. by destruct s; injection E as <-.
  - destruct s as [|d s]; cbn [String.prefix] in E; [done|].
    destruct (ascii_dec c d) as [->|]; [|done]. cbn. f_equal. apply IH, E.
Qed.

Lemma starts_with_app pat s : starts_with pat (pat +:+ s) = true.
Proof.
  unfold starts_with. induction pat as [|c pat IH]; cbn; [by destruct s|].
  destruct (ascii_dec c c); done.
Qed.

Lemma of_chars_chars s : of_chars (chars s) = s.
Proof.
  induction s as [|c s IH]; [done|]. cbn [chars].
  destruct (chars s) as [|w ws] eqn:E.
  - destruct s; [done|]. cbn in IH. discriminate IH.
  - destruct s as [|d s]; [discriminate E|].
    destruct (is_continuation d); unfold of_chars in *; cbn in *; by rewrite IH.
Qed.

Lemma drop_bytes_app a b : drop_bytes (String.length a) (a +:+ b) = b.
Proof.
  unfold drop_bytes. induction a as [|c a IH]; cbn.
  - rewrite Nat.sub_0_r. by induction b as [|d b IHb]; cbn; [|rewrite IHb].
  - done.
Qed.

(** *** Characters *)
Lemma of_chars_app l1 l2 : of_chars (l1 ++ l2) = of_chars l1 +:+ of_chars l2.
Proof.
  unfold of_chars. induction l1 as [|w l1 IH]; [done|].
  cbn [foldr app]. rewrite IH. symmetry. apply app_assoc_str.
Qed.

Lemma chars_nil s : chars s = [] ↔ s = EmptyString.
Proof.
  split; [|by intros ->]. destruct s as [|c s]; [done|]. cbn.
  destruct (chars s); [done|]. by destruct s; [|destruct (is_continuation _)].
Qed.

Lemma chars_cons c s :
  chars (String c s)
  = if whole_start s then String c EmptyString :: chars s
    else match chars s with w :: ws => String c w :: ws | [] => [] end.
Proof.
  cbn. destruct s as [|d s]; [done|]. cbn [whole_start].
  destruct (chars (String d s)) as [|w ws] eqn:E; [by apply chars_nil in E|].
  by destruct (is_continuation d).
Qed.

Lemma chars_app a b : whole_start b = true → chars (a +:+ b) = chars a ++ chars b.
Proof.
  intros Hb. induction a as [|c a IH]; [done|]. cbn [String.append].
  rewrite !chars_cons. destruct a as [|d a].
  - cbn [String.append]. by rewrite Hb.
  - cbn [String.append whole_start] in *. destruct (negb (is_continuation d)).
    + by rewrite IH.
    + rewrite IH. destruct (chars (String d a)) as [|w ws] eqn:E; [by apply chars_nil in E|].
      done.
Qed.

Lemma pop_nl s : pop (s +:+ nl) = s.
Proof.
  unfold pop. rewrite chars_app by done.
  replace (chars nl) with [nl] by reflexivity.
  rewrite removelast_last. apply of_chars_chars.
Qed.

(** *** The order of strings: byte by byte *)
#[export] Instance string_compare_total : TotalCmp String.compare.
Proof.
  split.
  - intros x y. apply String.compare_antisym.
  - unfold cmp_le. intros x. induction x as [|c x IH]; intros [|d y] [|e z]; cbn; try done.
    unfold Ascii.compare.
    destruct (N.compare_spec (Ascii.N_of_ascii c) (Ascii.N_of_ascii d)) as [E1|E1|E1]; [| |done];
    destruct (N.compare_spec (Ascii.N_of_ascii d) (Ascii.N_of_ascii e)) as [E2|E2|E2];
      intros H1 H2; try done.
    + rewrite E1, E2, N.compare_refl. eauto.
    + by rewrite (proj2 (N.compare_lt_iff _ _)) by lia.
    + by rewrite (proj2 (N.compare_lt_iff _ _)) by lia.
    + by rewrite (proj2 (N.compare_lt_iff _ _)) by lia.
Qed.

(** [split] undoes [join] when the parts do not hold the separator. *)
Fixpoint lacks (sep : ascii) (s : string) : bool :=
  match s with
  | EmptyString => true
  | String c s' => negb (bool_decide (c = sep)) && lacks sep s'
  end.

Lemma split_lacks sep s : lacks sep s = true → split sep s = [s].
Proof.
  induction s as [|c s IH]; [done|]. cbn. intros [Hc Hs]%andb_true_iff.
  apply negb_true_iff, bool_decide_eq_false in Hc. by rewrite decide_False, IH.
Qed.

Lemma split_app_sep sep s t :
  lacks sep s = true → split sep (s +:+ String sep t) = s :: split sep t.
Proof.
  induction s as [|c s IH]; cbn; [intros _; by rewrite decide_True|].
  intros [Hc Hs]%andb_true_iff. apply negb_true_iff, bool_decide_eq_false in Hc.
  by rewrite decide_False, IH.
Qed.

(** A decimal number parsed as a [u8]. *)
Lemma digits_value_mono ds acc n : (0 ≤ acc)%Z → digits_value acc ds = Some n → (acc ≤ n)%Z.
Proof.
  revert acc. induction ds as [|c ds IH]; intros acc Ha; cbn; [by intros [= ->]|].
  destruct (is_digit c) eqn:E; [|done]. intros Hn.
  assert (0 ≤ digit_value c)%Z.
  { unfold is_digit in E. apply andb_true_iff in E as [E1%N.leb_le E2%N.leb_le].
    unfold digit_value. lia. }
  apply IH in Hn; lia.
Qed.

Lemma parse_u8_digits ds n :
  ds ≠ EmptyString → digits_value 0 ds = Some n →
  parse_u8 ds = if decide (n ≤ 255)%Z then Some n else None.
Proof.
  intros Hne Hn. pose proof (digits_value_mono ds 0 n ltac:(lia) Hn) as Hpos.
  destruct ds as [|c ds]; [done|].
  assert (is_digit c = true) as Hc by (cbn in Hn; by destruct (is_digit c)).
  unfold parse_u8, parse_int.
  replace (match String c ds with
           | String "+" s' => (1%Z, s')
           | String "-" s' => if (0 <? 0)%Z then ((-1)%Z, s') else (1%Z, String c ds)
           | _ => (1%Z, String c ds)
           end) with (1%Z, String c ds)
    by (destruct c as [[] [] [] [] [] [] [] []]; done).
  rewrite Hn. cbn [mbind option_bind]. rewrite Z.mul_1_l.
  destruct (decide (n ≤ 255)%Z); [rewrite decide_True by lia|rewrite decide_False by lia]; done.
Qed.
