(* ===== verification/Regex.v ===== *)
(** * The regex crate, as a parameter

    The programs compile patterns and match them; what a pattern means is the
    crate's business.  [captures] gives the groups of the leftmost match, group 0
    first; [rx_replace] replaces the leftmost match by an expanded template;
    [split_matches] cuts a string at its successive matches: each match with its
    groups is preceded by the text before it, and the rest follows the last. *)

From S2P Require Import Prelude RString.

Class RegexCrate := {
  regex : Type;
  rx_new : string → option regex;
  is_match : regex → string → bool;
  captures : regex → string → option (list (option string));
  rx_replace : regex → string → string → string;
  split_matches : regex → string → list (string * list (option string)) * string
}.

(** [Regex::new(p).unwrap()]. *)
Definition rx_unwrap `{RegexCrate} (p : string) : outcome regex :=
  expect "called `Result::unwrap()` on an `Err` value" (rx_new p).

(** A crate in which every pattern stands for itself, for concrete inputs. *)
Definition literal_regexes : RegexCrate := {|
  regex := string;
  rx_new p := Some p;
  is_match p s := contains p s;
  captures p s := if contains p s then Some [Some p] else None;
  rx_replace p s to := replace_first p to s;
  split_matches p s := ([], s)
|}.
