(* ===== verification/Fmt.v ===== *)
(** * Formatting of placeholders (swayr/src/shared/fmt.rs)

    Placeholders [{name:{fmt}clip}] in a format string are replaced by formatted,
    clipped and escaped values.  How floats are printed and the format strings of the
    rt_format crate are parameters. *)

From Stdlib Require Import SpecFloat.
From S2P Require Import Prelude RString Regex.

(** ** Floats

    The two types are those of IEEE 754 with rounding to nearest, ties to even,
    as the specification of floats in the Standard Library computes them. *)
Definition f64 : Type := spec_float.
Definition f32 : Type := spec_float.
Definition f32_of_nat (n : nat) : f32 := binary_normalize 24 128 (Z.of_nat n) 0 false.
Definition f32_add : f32 → f32 → f32 := SFadd 24 128.
Definition f32_mul : f32 → f32 → f32 := SFmul 24 128.
Definition f32_div : f32 → f32 → f32 := SFdiv 24 128.
Definition f64_of_Z (z : Z) : f64 := binary_normalize 53 1024 z 0 false.
Definition f64_mul : f64 → f64 → f64 := SFmul 53 1024.
Definition f64_div : f64 → f64 → f64 := SFdiv 53 1024.

(** [to_string] of the two types. *)
Class Floats := {
  f64_to_string : f64 → string;
  f32_to_string : f32 → string
}.

Inductive FmtArg `{Floats} :=
| I64 (x : Z)
| I32 (x : Z)
| U8 (x : Z)
| F64 (x : f64)
| F32 (x : f32)
| Str (x : string).

Definition FmtArg_to_string `{Floats} (a : FmtArg) : string :=
  match a with
  | Str x => x
  | I64 x | I32 x | U8 x => int_to_string x
  | F64 x => f64_to_string x
  | F32 x => f32_to_string x
  end.

(** *** The rt_format crate

    A format string is parsed to segments: a text, or a specifier that asks for the
    only argument.  A specifier has a format trait, and a width, a precision and the
    like, by which the Standard Library displays a value. *)
Inductive Format :=
| Display | Debug | Octal | LowerHex | UpperHex | Binary | LowerExp | UpperExp.

#[export] Instance Format_eq_dec : EqDecision Format.
Proof. solve_decision. Defined.

Class RtFormatCrate := {
  Specifier : Type;
  spec_format : Specifier → Format;
  parse_segments : string → option (list (string + Specifier));
  display_str : Specifier → string → string;
  display_int : Specifier → Z → string;
  display_f64 : Specifier → f64 → string;
  display_f32 : Specifier → f32 → string
}.

(** [impl FormatArgument for FmtArg]: what is written, or [None] for [fmt::Error]. *)
Section FormatArgument.
Context `{Floats} `{RtFormatCrate}.

Definition supports_format (_ : FmtArg) (spec : Specifier) : bool :=
  bool_decide (spec_format spec = Display).

Definition fmt_display (a : FmtArg) (f : Specifier) : option string :=
  Some match a with
       | Str val => display_str f val
       | I64 val | I32 val | U8 val => display_int f val
       | F64 val => display_f64 f val
       | F32 val => display_f32 f val
       end.

Definition fmt_debug (_ : FmtArg) (_ : Specifier) : option string := None.
Definition fmt_octal (_ : FmtArg) (_ : Specifier) : option string := None.
Definition fmt_lower_hex (_ : FmtArg) (_ : Specifier) : option string := None.
Definition fmt_upper_hex (_ : FmtArg) (_ : Specifier) : option string := None.
Definition fmt_binary (_ : FmtArg) (_ : Specifier) : option string := None.
Definition fmt_lower_exp (_ : FmtArg) (_ : Specifier) : option string := None.
Definition fmt_upper_exp (_ : FmtArg) (_ : Specifier) : option string := None.

(** [ParsedFormat::parse(fmt, &[arg], &NoNamedArguments)]: the crate refuses a
    specifier that the argument does not support. *)
Definition ParsedFormat_parse (fmt : string) (arg : FmtArg) : option (list (string + Specifier)) :=
  segments ← parse_segments fmt;
  if forallb (λ g, match g with inl _ => true | inr spec => supports_format arg spec end) segments
  then Some segments else None.

(** The [Display] of the parsed format calls the method of each specifier's trait. *)
Definition fmt_segment (arg : FmtArg) (g : string + Specifier) : option string :=
  match g with
  | inl text => Some text
  | inr spec =>
      match spec_format spec with
      | Display => fmt_display arg spec
      | Debug => fmt_debug arg spec
      | Octal => fmt_octal arg spec
      | LowerHex => fmt_lower_hex arg spec
      | UpperHex => fmt_upper_hex arg spec
      | Binary => fmt_binary arg spec
      | LowerExp => fmt_lower_exp arg spec
      | UpperExp => fmt_upper_exp arg spec
      end
  end.

Fixpoint fmt_segments (arg : FmtArg) (gs : list (string + Specifier)) : option string :=
  match gs with
  | [] => Some EmptyString
  | g :: gs => s ← fmt_segment arg g; rest ← fmt_segments arg gs; Some (s +:+ rest)
  end.
End FormatArgument.

(** The character at [nth_back(n)] is the last one kept. *)
Definition remove_last_n_chars (s : string) (n : nat) : string :=
  match reverse (chars s) !! n with
  | Some _ => of_chars (take (length (chars s) - n) (chars s))
  | None => EmptyString
  end.

Definition maybe_html_escape (do_it : bool) (text : string) : string :=
  if do_it then replace "&" "&amp;" (replace ">" "&gt;" (replace "<" "&lt;" text)) else text.

Definition PLACEHOLDER_RX : string :=
  "\{(?P<name>[^}:]+)(?::(?P<fmtstr>\{[^}]*\})(?P<clipstr>[^}]*))?\}".

Section Fmt.
Context `{Floats} `{RtFormatCrate} `{RegexCrate}.

Definition rt_format (fmt : string) (arg : FmtArg) (clipped_str : string) : outcome string :=
  match ParsedFormat_parse fmt arg with
  | Some pf =>
      s ← expect "a Display implementation returned an error unexpectedly: Error"
            (fmt_segments arg pf);
      Done (if negb (bool_decide (clipped_str = EmptyString))
               && negb (contains (FmtArg_to_string arg) s)
            then remove_last_n_chars s (length (chars clipped_str)) +:+ clipped_str
            else s)
  | None => Done ("Invalid format string: " +:+ fmt)
  end.

(** The closure of [subst_placeholders!]; [arms] are the macro's arms, whose
    expressions are evaluated when their name comes up.  The groups of the
    pattern are 1 "name", 2 "fmtstr" and 3 "clipstr". *)
Definition subst_match (arms : string → option (outcome FmtArg)) (html_escape : bool)
    (caps : list (option string)) : outcome string :=
  name ← expect "no group at index 'name'" (mjoin (caps !! 1));
  match arms name with
  | Some arg =>
      val ← arg;
      let fmt_str := default "{}" (mjoin (caps !! 2)) in
      let clipped_str := default EmptyString (mjoin (caps !! 3)) in
      text ← rt_format fmt_str val clipped_str;
      Done (maybe_html_escape html_escape text)
  | None => expect "no group at index '0'" (mjoin (caps !! 0))
  end.

Fixpoint subst_matches (arms : string → option (outcome FmtArg)) (html_escape : bool)
    (ms : list (string * list (option string))) (rest : string) : outcome string :=
  match ms with
  | [] => Done rest
  | (before, caps) :: ms =>
      value ← subst_match arms html_escape caps;
      tail ← subst_matches arms html_escape ms rest;
      Done (before +:+ value +:+ tail)
  end.

Definition subst_placeholders (arms : string → option (outcome FmtArg)) (html_escape : bool)
    (fmt_str : string) : outcome string :=
  rx ← rx_unwrap PLACEHOLDER_RX;
  let '(ms, rest) := split_matches rx fmt_str in
  subst_matches arms html_escape ms rest.
End Fmt.

(** ** Reference definitions *)
Definition escape_char (c : ascii) : string :=
  if decide (c = "<"%char) then "&amp;lt;"
  else if decide (c = ">"%char) then "&amp;gt;"
  else if decide (c = "&"%char) then "&amp;"
  else String c EmptyString.

Fixpoint map_chars (f : ascii → string) (s : string) : string :=
  match s with
  | EmptyString => EmptyString
  | String c s' => f c +:+ map_chars f s'
  end.

(** What a format string gives when nothing in it is a known placeholder. *)
Definition match_text (m : string * list (option string)) : string :=
  m.1 +:+ default EmptyString (mjoin (m.2 !! 0)).

(** ** Lemmas *)
Lemma map_chars_app f a b : map_chars f (a +:+ b) = map_chars f a +:+ map_chars f b.
Proof. induction a as [|c a IH]; cbn; [done|]. by rewrite IH, app_assoc_str. Qed.

Lemma map_chars_comp f g s :
  map_chars f (map_chars g s) = map_chars (λ c, map_chars f (g c)) s.
Proof. induction s as [|c s IH]; cbn; [done|]. by rewrite map_chars_app, IH. Qed.

Lemma map_chars_ext f g s : (∀ c, f c = g c) → map_chars f s = map_chars g s.
Proof. intros E. induction s as [|c s IH]; cbn; [done|]. by rewrite E, IH. Qed.

Lemma replace_one_char c to s :
  replace (String c EmptyString) to s
  = map_chars (λ d, if decide (d = c) then to else String d EmptyString) s.
Proof.
  unfold replace. induction s as [|d s IH]; [done|]. cbn [replace_from map_chars].
  cbn [String.length Nat.sub]. rewrite IH. unfold starts_with. cbn [String.prefix].
  destruct (ascii_dec c d) as [->|Hne].
  - rewrite decide_True by done. by destruct s.
  - by rewrite decide_False.
Qed.

Lemma length_chars_app a b :
  whole_start b = true → length (chars (a +:+ b)) = length (chars a) + length (chars b).
Proof. intros. by rewrite chars_app, length_app. Qed.

Lemma length_chars_take k s : length (chars (of_chars (take k (chars s)))) = min k (length (chars s)).
Proof.
  enough (k ≤ length (chars s) → length (chars (of_chars (take k (chars s)))) = k) as Hk.
  { destruct (decide (k ≤ length (chars s))); [rewrite Hk; lia|].
    rewrite take_ge, of_chars_chars; lia. }
  revert k. induction s as [|c s IH]; intros k Hk; [cbn in Hk; destruct k; [done|lia]|].
  destruct k as [|k]; [done|]. rewrite chars_cons in *. destruct (whole_start s) eqn:Es.
  - cbn [length] in Hk. cbn [take of_chars foldr].
    change (foldr String.app "" (take k (chars s))) with (of_chars (take k (chars s))).
    cbn [String.append]. rewrite chars_cons.
    assert (whole_start (of_chars (take k (chars s))) = true) as ->.
    { destruct k as [|k]; [done|]. destruct (chars s) as [|w ws] eqn:E; [done|].
      cbn. rewrite <-(of_chars_chars s), E in Es.
      destruct w as [|d w]; [|done].
      exfalso. destruct s as [|d s]; [done|]. rewrite chars_cons in E.
      destruct (whole_start s); [done|]. by destruct (chars s). }
    cbn [length]. rewrite IH; lia.
  - destruct (chars s) as [|w ws] eqn:E; [by apply chars_nil in E as ->|].
    cbn [take of_chars foldr length] in *.
    change (foldr String.app "" (take k ws)) with (of_chars (take k ws)).
    cbn [String.append]. rewrite chars_cons.
    specialize (IH (S k) Hk). cbn [take of_chars foldr] in IH.
    change (foldr String.app "" (take k ws)) with (of_chars (take k ws)) in IH.
    assert (∃ d w', w = String d w' ∧ is_continuation d = true) as (d & w' & -> & Hd).
    { destruct s as [|d s]; [done|]. rewrite chars_cons in E.
      exists d. cbn in Es. apply negb_false_iff in Es.
      destruct (whole_start s); [injection E as <- _; eauto|].
      destruct (chars s); [done|]. injection E as <- _. eauto. }
    cbn [String.append whole_start] in *. rewrite Hd. cbn [negb].
    destruct (chars (String d _)) as [|x xs]; cbn in IH |- *; lia.
Qed.

Lemma length_remove_last_n_chars s n :
  length (chars (remove_last_n_chars s n)) = length (chars s) - n.
Proof.
  unfold remove_last_n_chars. destruct (reverse (chars s) !! n) eqn:E.
  - rewrite length_chars_take. lia.
  - apply lookup_ge_None_1 in E. rewrite length_reverse in E. cbn. lia.
Qed.

Lemma map_chars_id s : map_chars (λ c, String c EmptyString) s = s.
Proof. induction s as [|c s IH]; cbn; [done|]. by rewrite IH. Qed.

Lemma escape_steps c :
  map_chars (λ d, if decide (d = "&"%char) then "&amp;" else String d EmptyString)
    (map_chars (λ d, if decide (d = ">"%char) then "&gt;" else String d EmptyString)
       (if decide (c = "<"%char) then "&lt;" else String c EmptyString))
  = escape_char c.
Proof.
  unfold escape_char. destruct (decide (c = "<"%char)) as [->|H1]; [reflexivity|].
  cbn [map_chars]. destruct (decide (c = ">"%char)) as [->|H2]; [reflexivity|].
  cbn [String.append map_chars]. by destruct (decide (c = "&"%char)) as [->|H3].
Qed.

(** What the placeholder pattern guarantees of its matches: the text is cut
    without loss, the whole match is group 0 and every match has a name. *)
Class PlaceholderLaws `{RegexCrate} (rx : regex) : Prop := {
  placeholder_cut : ∀ s ms rest, split_matches rx s = (ms, rest) →
    s = foldr String.app rest (match_text <$> ms);
  placeholder_groups : ∀ s ms rest, split_matches rx s = (ms, rest) →
    Forall (λ m, is_Some (mjoin (m.2 !! 0)) ∧ is_Some (mjoin (m.2 !! 1))) ms
}.

Section FmtFacts.
Context `{Floats} `{RtFormatCrate} `{RegexCrate}.

(** The methods that fail are not called on a format the crate accepts. *)
Lemma fmt_segments_supported fmt arg pf :
  ParsedFormat_parse fmt arg = Some pf → ∃ s, fmt_segments arg pf = Some s.
Proof.
  unfold ParsedFormat_parse. destruct (parse_segments fmt) as [gs|]; [|done]. cbn.
  destruct (forallb _ gs) eqn:E; [|done]. intros [= <-].
  induction gs as [|g gs IH]; [by exists EmptyString|].
  cbn in E. apply andb_true_iff in E as [Hg [s Hs]%IH]. cbn [fmt_segments]. rewrite Hs.
  destruct g as [t|spec]; [by eexists|]. cbn [fmt_segment].
  apply bool_decide_eq_true in Hg. rewrite Hg. by eexists.
Qed.

Lemma rt_format_total fmt arg clip : ∃ s, rt_format fmt arg clip = Done s.
Proof.
  unfold rt_format. destruct (ParsedFormat_parse fmt arg) as [pf|] eqn:E; [|by eexists].
  apply fmt_segments_supported in E as [s ->]. by eexists.
Qed.

Lemma subst_matches_unknown arms html ms rest :
  Forall (λ m, is_Some (mjoin (m.2 !! 0)) ∧
     ∃ n, mjoin (m.2 !! 1) = Some n ∧ arms n = None) ms →
  subst_matches arms html ms rest = Done (foldr String.app rest (match_text <$> ms)).
Proof.
  induction 1 as [|[before caps] ms [[t Ht] (n & Hn & Ha)] _ IH]; [done|].
  cbn [subst_matches fmap list_fmap foldr]. unfold subst_match.
  cbn [fst snd] in *. rewrite Hn. cbn [expect]. rewrite bind_done, Ha, Ht.
  cbn [expect]. rewrite bind_done, IH, bind_done.
  assert (match_text (before, caps) = before +:+ t) as ->.
  { unfold match_text. cbn [fst snd]. by rewrite Ht. }
  f_equal. symmetry. apply app_assoc_str.
Qed.

(** ** Claims *)

(** HTML escaping of any text replaces its characters one by one, an angle
    bracket by an entity whose ampersand is itself escaped: the escaped form of
    the less-than sign is the text "&amp;lt;", which markup shows as "&lt;". *)
Theorem maybe_html_escape_chars text :
  maybe_html_escape true text = map_chars escape_char text
  ∧ maybe_html_escape false text = text
  ∧ maybe_html_escape true "<" = "&amp;lt;".
Proof.
  assert (∀ t, maybe_html_escape true t = map_chars escape_char t) as He.
  { intros t. unfold maybe_html_escape.
    change "&" with (String "&" EmptyString). change ">" with (String ">" EmptyString).
    change "<" with (String "<" EmptyString).
    rewrite !replace_one_char, !map_chars_comp. apply map_chars_ext. intros c.
    rewrite <-map_chars_comp. apply escape_steps. }
  split_and!; [apply He|done|rewrite He; reflexivity].
Qed.

(** C35: Formatting never panics: a format string that the crate accepts for an argument
    only asks for the [Display] trait, whose method succeeds, so that the failing
    methods are never called.  When the formatted value lost text and there is a clip
    string, the result is the formatted value with as many characters cut from its end
    as the clip string has, followed by the clip string; it is as wide as the formatted
    value, or as the clip string if that is wider.  Otherwise the formatted value is
    returned as it is, and a string that is not accepted gives an error text. *)
Theorem rt_format_clips fmt arg clip :
  whole_start clip = true →
  match ParsedFormat_parse fmt arg with
  | None => rt_format fmt arg clip = Done ("Invalid format string: " +:+ fmt)
  | Some pf =>
      ∃ s r, fmt_segments arg pf = Some s ∧ rt_format fmt arg clip = Done r
      ∧ if decide (clip ≠ EmptyString ∧ contains (FmtArg_to_string arg) s = false)
        then r = of_chars (take (length (chars s) - length (chars clip)) (chars s)) +:+ clip
             ∧ length (chars r) = max (length (chars s)) (length (chars clip))
        else r = s
  end.
Proof.
  intros Hclip. unfold rt_format.
  destruct (ParsedFormat_parse fmt arg) as [pf|] eqn:Hpf; [|done].
  destruct (fmt_segments_supported fmt arg pf Hpf) as [s Hs]. exists s.
  rewrite Hs. eexists. split; [done|]. split; [reflexivity|].
  destruct (decide _) as [[Hne Hc]|Hn].
  - rewrite bool_decide_false, Hc by done. cbn [negb andb].
    rewrite length_chars_app, length_remove_last_n_chars by done. split; [|lia].
    f_equal. unfold remove_last_n_chars. destruct (reverse (chars s) !! _) eqn:E; [done|].
    apply lookup_ge_None_1 in E. rewrite length_reverse in E.
    by replace (length (chars s) - length (chars clip)) with 0 by lia.
  - destruct (decide (clip = EmptyString)) as [->|Hne]; [done|].
    rewrite bool_decide_false by done. destruct (contains _ s) eqn:Hc; [done|].
    exfalso. by apply Hn.
Qed.

(** Placeholders whose values can be computed are always replaced. *)
Lemma subst_placeholders_total arms html s rx :
  rx_new PLACEHOLDER_RX = Some rx → PlaceholderLaws rx →
  (∀ n o, arms n = Some o → ∃ a, o = Done a) →
  ∃ r, subst_placeholders arms html s = Done r.
Proof.
  intros Hrx Hl Ha. unfold subst_placeholders, rx_unwrap. rewrite Hrx. cbn.
  destruct (split_matches rx s) as [ms rest] eqn:E.
  pose proof (placeholder_groups s ms rest E) as Hg. clear E.
  induction Hg as [|[before caps] ms [[whole Hw] [name Hn]] _ [r IH]]; [by eexists|].
  cbn [subst_matches fst snd] in *. rewrite IH.
  assert (∃ v, subst_match arms html caps = Done v) as [v ->]; [|by eexists].
  unfold subst_match. rewrite Hw, Hn. cbn.
  destruct (arms name) as [o|] eqn:Eo; [|by eexists].
  destruct (Ha _ _ Eo) as [x ->]. cbn.
  destruct (rt_format_total (default "{}" (mjoin (caps !! 2))) x
    (default EmptyString (mjoin (caps !! 3)))) as [t ->]. by eexists.
Qed.

(** A format string whose placeholders are all unknown is returned unchanged,
    whether or not HTML is escaped. *)
Theorem subst_placeholders_unknown arms html s rx :
  rx_new PLACEHOLDER_RX = Some rx → PlaceholderLaws rx →
  (∀ n, arms n = None) →
  subst_placeholders arms html s = Done s.
Proof.
  intros Hrx Hl Ha. unfold subst_placeholders, rx_unwrap. rewrite Hrx. cbn.
  destruct (split_matches rx s) as [ms rest] eqn:E.
  rewrite subst_matches_unknown.
  - f_equal. symmetry. by apply placeholder_cut.
  - eapply Forall_impl; [by apply (placeholder_groups s ms rest)|].
    intros m [Hg [n Hn]]. split; [done|]. by exists n.
Qed.
End FmtFacts.

(** ** Witnesses *)
Definition no_floats : Floats :=
  {| f64_to_string _ := "?"; f32_to_string _ := "?" |}.

(** A crate that knows the formats [{:.3}] and [{}] only; a specifier is the number of
    characters to keep, if it has a precision. *)
Definition three_chars : RtFormatCrate := {|
  Specifier := option nat;
  spec_format _ := Display;
  parse_segments f :=
    if decide (f = "{:.3}") then Some [inr (Some 3)]
    else if decide (f = "{}") then Some [inr None] else None;
  display_str spec s := from_option (λ n, of_chars (take n (chars s))) s spec;
  display_int _ := int_to_string;
  display_f64 _ _ := "?";
  display_f32 _ _ := "?"
|}.

Lemma rt_format_clips_witness :
  ∃ r, @rt_format no_floats three_chars "{:.3}" (Str "sway") "…" = Done r
       ∧ r = "sw…" ∧ length (chars r) = 3.
Proof.
  destruct (@rt_format_clips no_floats three_chars "{:.3}" (Str "sway") "…" eq_refl)
    as (s & r & [= <-] & Hr & Hc).
  exists r. split; [exact Hr|]. exact Hc.
Defined.

Lemma literal_placeholders : @PlaceholderLaws literal_regexes PLACEHOLDER_RX.
Proof. split; intros s ms rest [= <- <-]; [done|constructor]. Qed.

Lemma subst_placeholders_unknown_witness :
  @subst_placeholders no_floats three_chars literal_regexes (λ _, None) true "<b>{x}</b>"
  = Done "<b>{x}</b>".
Proof.
  apply (@subst_placeholders_unknown no_floats three_chars literal_regexes (λ _, None) true
    "<b>{x}</b>" PLACEHOLDER_RX).
  - reflexivity.
  - apply literal_placeholders.
  - reflexivity.
Defined.
