(* ===== verification/Ipc.v ===== *)
(** * Sway's node tree and its traversal (swayr/src/shared/ipc.rs)

    [node] holds the fields of [swayipc::Node] that the two programs read.
    [NodeIter] is the explicit-stack iterator of the source, [get_type] and the
    other functions are the methods of [NodeMethods].  [preorder] is the
    reference traversal that the iterator is proved equal to. *)

From S2P Require Import Prelude.

(** ** Data of the swayipc crate

    Constructors the source never names are collected in [..._other]. *)
Inductive NodeType :=
| NodeType_Root | NodeType_Output | NodeType_Workspace
| NodeType_Con | NodeType_FloatingCon | NodeType_other (debug : string).

Inductive NodeLayout :=
| SplitH | SplitV | Stacked | Tabbed | Layout_None | Layout_other (debug : string).

Inductive ShellType := XdgShell | Xwayland | Shell_other (debug : string).

#[export] Instance NodeType_eq_dec : EqDecision NodeType.
Proof. solve_decision. Defined.
#[export] Instance NodeLayout_eq_dec : EqDecision NodeLayout.
Proof. solve_decision. Defined.
#[export] Instance ShellType_eq_dec : EqDecision ShellType.
Proof. solve_decision. Defined.

Record WindowProperties := { wp_class : option string; wp_instance : option string }.

#[warnings="-register-all"]
Inductive node := Node {
  id : Z;
  name : option string;
  node_type : NodeType;
  layout : NodeLayout;
  rect_width : Z;
  focused : bool;
  urgent : bool;
  marks : list string;
  app_id : option string;
  pid : option Z;
  shell : option ShellType;
  window_properties : option WindowProperties;
  nodes : list node;
  floating_nodes : list node
}.

(** The children in the order in which [tree.rs] walks them. *)
Definition children (n : node) : list node := nodes n ++ floating_nodes n.

Section NodeInd.
Context (P : node → Prop).
Context (step : ∀ n, Forall P (nodes n) → Forall P (floating_nodes n) → P n).

Fixpoint node_ind' (n : node) : P n :=
  let fix all (l : list node) : Forall P l :=
    match l with
    | [] => Forall_nil_2 _
    | c :: l' => Forall_cons_2 _ _ _ (node_ind' c) (all l')
    end in
  match n with
  | Node _ _ _ _ _ _ _ _ _ _ _ _ ns fs as n => step n (all ns) (all fs)
  end.
End NodeInd.

(** ** [NodeIter]

    The head of [stack] is the end of the source's vector, where [push] and
    [pop] work. *)
Record NodeIter := { stack : list node }.

Definition NodeIter_new (n : node) : NodeIter := {| stack := [n] |}.

Definition push_all (st ns : list node) : list node := foldl (λ st n, n :: st) st ns.

Definition NodeIter_next (it : NodeIter) : option (node * NodeIter) :=
  match stack it with
  | n :: st => Some (n, {| stack := push_all (push_all st (floating_nodes n)) (nodes n) |})
  | [] => None
  end.

(** Drives an iterator to its end; [NoReturn] when the fuel does not suffice. *)
Fixpoint NodeIter_collect (fuel : nat) (it : NodeIter) : outcome (list node) :=
  match fuel with
  | O => NoReturn
  | S fuel =>
      match NodeIter_next it with
      | None => Done []
      | Some (n, it) => r ← NodeIter_collect fuel it; Done (n :: r)
      end
  end.

(** The number of nodes of a tree. *)
Fixpoint node_size (n : node) : nat :=
  S (sum_list_with node_size (nodes n) + sum_list_with node_size (floating_nodes n)).

(** [node.iter()] run to its end. *)
Definition iter (n : node) : outcome (list node) :=
  NodeIter_collect (S (node_size n)) (NodeIter_new n).

(** ** [NodeMethods] *)
Inductive Type' := Type_Root | Type_Output | Type_Workspace | Type_Container | Type_Window.

#[export] Instance Type'_eq_dec : EqDecision Type'.
Proof. solve_decision. Defined.

(** The third test of the source names [FloatingCon], which its [match] has
    already taken. *)
Definition get_type (n : node) : outcome Type' :=
  match node_type n with
  | NodeType_Root => Done Type_Root
  | NodeType_Output => Done Type_Output
  | NodeType_Workspace => Done Type_Workspace
  | NodeType_FloatingCon => Done Type_Window
  | _ =>
      if bool_decide (node_type n = NodeType_Con)
         && is_none (name n)
         && is_none (app_id n)
         && is_none (pid n)
         && is_none (shell n)
         && is_none (window_properties n)
         && bool_decide (layout n ≠ Layout_None)
      then Done Type_Container
      else if (bool_decide (node_type n = NodeType_Con)
               || bool_decide (node_type n = NodeType_FloatingCon))
              && is_some (pid n)
      then Done Type_Window
      else Panics "Don't know type of node"
  end.

Definition get_name (n : node) : string :=
  match name n with Some s => s | None => "<unnamed>" end.

Definition get_app_name (n : node) : string :=
  match app_id n with
  | Some a => a
  | None =>
      match window_properties n ≫= wp_class with
      | Some c => c
      | None =>
          match window_properties n ≫= wp_instance with
          | Some i => i
          | None => "<unknown_app>"
          end
      end
  end.

Definition is_scratchpad (n : node) : bool :=
  bool_decide (get_name n = "__i3") || bool_decide (get_name n = "__i3_scratch").

Definition has_type (t : Type') (n : node) : outcome bool :=
  t' ← get_type n; Done (bool_decide (t' = t)).

Definition nodes_of_type (t : Type') (n : node) : outcome (list node) :=
  l ← iter n; filter_o (has_type t) l.

Definition is_floating (n : node) : bool :=
  bool_decide (node_type n = NodeType_FloatingCon).

Definition is_current (n : node) : outcome bool :=
  l ← iter n; Done (existsb focused l).

(** ** Reference definitions *)

(** Depth first, the tiled children before the floating ones, and each group
    from its last child to its first. *)
Fixpoint preorder (n : node) : list node :=
  n :: fold_left (λ acc c, preorder c ++ acc) (nodes n)
         (fold_left (λ acc c, preorder c ++ acc) (floating_nodes n) []).

(** The type of a node whose type is known. *)
Definition type_of (n : node) : Type' :=
  match get_type n with Done t => t | _ => Type_Root end.

Definition is_type (t : Type') (n : node) : bool := bool_decide (type_of n = t).

Definition typable1 (n : node) : Prop := get_type n = Done (type_of n).

(** No node of the tree makes [get_type] panic. *)
Definition typable (n : node) : Prop := Forall typable1 (preorder n).

(** Node ids are unique in the tree. *)
Definition unique_ids (n : node) : Prop := NoDup (id <$> preorder n).

#[export] Instance typable1_dec n : Decision (typable1 n).
Proof.
  unfold typable1, type_of.
  destruct (get_type n); [left | right | right]; done.
Defined.

(** ** Lemmas about the traversal *)
Lemma fold_preorder (l : list node) acc :
  fold_left (λ acc c, preorder c ++ acc) l acc = (reverse l ≫= preorder) ++ acc.
Proof.
  revert acc. induction l as [|c l IH]; intros acc; cbn [fold_left]; [done|].
  rewrite IH, reverse_cons, bind_app. cbn. by rewrite app_nil_r, <-(assoc_L (++)).
Qed.

Lemma preorder_eq n :
  preorder n = n :: (reverse (nodes n) ≫= preorder)
                 ++ (reverse (floating_nodes n) ≫= preorder).
Proof. destruct n. cbn [preorder]. by rewrite !fold_preorder, app_nil_r. Qed.

Lemma preorder_self n : n ∈ preorder n.
Proof. rewrite preorder_eq. left. Qed.

Lemma elem_of_preorder n m :
  m ∈ preorder n ↔ m = n ∨ ∃ c, c ∈ children n ∧ m ∈ preorder c.
Proof.
  rewrite preorder_eq, elem_of_cons, elem_of_app, !list_elem_of_bind.
  unfold children. setoid_rewrite elem_of_reverse. setoid_rewrite elem_of_app.
  split.
  - intros [?|[(?&?&?)|(?&?&?)]]; eauto 6.
  - intros [?|(?&[?|?]&?)]; eauto 6.
Qed.

Lemma preorder_child n c : c ∈ children n → c ∈ preorder n.
Proof. intros. rewrite elem_of_preorder. right. eauto using preorder_self. Qed.

Lemma preorder_trans n m k : m ∈ preorder n → k ∈ preorder m → k ∈ preorder n.
Proof.
  revert m k. induction n as [n IHn IHf] using node_ind'. intros m k.
  rewrite (elem_of_preorder n m). intros [->|(c & Hc & Hm)] Hk; [done|].
  rewrite elem_of_preorder. right. exists c. split; [done|].
  rewrite Forall_forall in IHn, IHf.
  unfold children in Hc. apply elem_of_app in Hc as [Hc|Hc]; eauto.
Qed.

#[export] Hint Resolve preorder_self preorder_child : swayr.

Lemma sum_list_length_bind (l : list node) :
  Forall (λ n, length (preorder n) = node_size n) l →
  length (reverse l ≫= preorder) = sum_list_with node_size l.
Proof.
  induction 1 as [|n l Hn _ IH]; [done|].
  rewrite reverse_cons, bind_app, length_app, IH. cbn.
  rewrite app_nil_r, Hn. lia.
Qed.

Lemma length_preorder n : length (preorder n) = node_size n.
Proof.
  induction n as [n IHn IHf] using node_ind'.
  rewrite preorder_eq. cbn [length]. rewrite length_app.
  rewrite !sum_list_length_bind by done. by destruct n.
Qed.

Lemma push_all_eq st ns : push_all st ns = reverse ns ++ st.
Proof.
  unfold push_all. revert st. induction ns as [|n ns IH]; intros st; [done|].
  cbn [foldl]. rewrite IH, reverse_cons, <-(assoc_L (++)). done.
Qed.

Lemma NodeIter_collect_done fuel st :
  sum_list_with node_size st < fuel →
  NodeIter_collect fuel {| stack := st |} = Done (st ≫= preorder).
Proof.
  revert st. induction fuel as [|fuel IH]; intros st Hf; [lia|].
  destruct st as [|n st]; [done|]. cbn [NodeIter_collect NodeIter_next stack].
  rewrite !push_all_eq, IH.
  - rewrite bind_done, bind_cons, (preorder_eq n), !bind_app.
    cbn [app]. by rewrite <-(assoc_L (++)).
  - rewrite !sum_list_with_app, !sum_list_with_reverse.
    destruct n; cbn in *. lia.
Qed.

Lemma iter_done n : iter n = Done (preorder n).
Proof.
  unfold iter, NodeIter_new. rewrite NodeIter_collect_done by (cbn; lia).
  cbn. by rewrite app_nil_r.
Qed.

Lemma is_current_done n : is_current n = Done (existsb focused (preorder n)).
Proof. unfold is_current. by rewrite iter_done. Qed.

(** ** Lemmas about node types *)
Lemma has_type_done t n : typable1 n → has_type t n = Done (is_type t n).
Proof. unfold has_type, is_type. intros ->. done. Qed.

Lemma typable_elem n m : typable n → m ∈ preorder n → typable1 m.
Proof. unfold typable. rewrite Forall_forall. auto. Qed.

Lemma typable_sub n m : typable n → m ∈ preorder n → typable m.
Proof.
  unfold typable. rewrite !Forall_forall. eauto using preorder_trans.
Qed.

Lemma nodes_of_type_done t n :
  typable n →
  nodes_of_type t n = Done (filter (λ m, is_type t m = true) (preorder n)).
Proof.
  intros Hn. unfold nodes_of_type. rewrite iter_done, bind_done.
  apply filter_o_done. intros m Hm. apply has_type_done. by eapply typable_elem.
Qed.

Lemma type_of_floating n : is_floating n = true → type_of n = Type_Window.
Proof.
  unfold is_floating, type_of, get_type. rewrite bool_decide_eq_true. by intros ->.
Qed.

(** ** Lemmas about ids *)
Lemma unique_ids_inj n m k :
  unique_ids n → m ∈ preorder n → k ∈ preorder n → id m = id k → m = k.
Proof. apply NoDup_fmap_inj. Qed.

Lemma elem_of_preorder_rtc n m :
  m ∈ preorder n ↔ rtc (λ a b, b ∈ children a) n m.
Proof.
  split.
  - revert m. induction n as [n IHn IHf] using node_ind'. intros m Hm.
    rewrite elem_of_preorder in Hm. destruct Hm as [->|(c & Hc & Hm)]; [done|].
    apply (rtc_l _ _ c); [done|]. rewrite Forall_forall in IHn, IHf.
    unfold children in Hc. apply elem_of_app in Hc as [Hc|Hc]; eauto.
  - induction 1 as [|n c m Hc _ IH]; [apply preorder_self|].
    eapply preorder_trans; [by apply preorder_child|done].
Qed.

(** ** Claims *)

(** C28: Running a node's iterator to its end takes one step per node of the
    tree (any fuel above that number gives the same result), visits exactly the
    nodes below the node, each as often as it is in the tree, and yields them in
    the order: the node, then its tiled children from the last to the first, each
    with everything below it, then its floating children in the same way. *)
Theorem NodeIter_preorder n fuel :
  node_size n < fuel →
  ∃ l, NodeIter_collect fuel (NodeIter_new n) = Done l
    ∧ l = n :: (reverse (nodes n) ≫= preorder) ++ (reverse (floating_nodes n) ≫= preorder)
    ∧ length l = node_size n
    ∧ ∀ m, m ∈ l ↔ rtc (λ a b, b ∈ children a) n m.
Proof.
  intros Hf. exists (preorder n). split_and!.
  - unfold NodeIter_new. rewrite NodeIter_collect_done by (cbn; lia).
    cbn. by rewrite app_nil_r.
  - apply preorder_eq.
  - apply length_preorder.
  - apply elem_of_preorder_rtc.
Qed.

Lemma NodeIter_preorder_witness :
  let leaf i := Node i None NodeType_FloatingCon Layout_None 0 false false [] None None
                  None None [] [] in
  let n := Node 1 None NodeType_Workspace SplitH 0 false false [] None None
             None None [leaf 2%Z; leaf 3%Z] [leaf 4%Z] in
  ∃ l, NodeIter_collect 5 (NodeIter_new n) = Done l ∧ id <$> l = [1; 3; 2; 4]%Z.
Proof.
  intros leaf n.
  destruct (NodeIter_preorder n 5) as (l & H & -> & _); [apply Nat.ltb_lt; reflexivity|].
  eexists. split; [exact H|]. reflexivity.
Defined.
