(* ===== verification/Focus.v ===== *)
(** * Focus ticks and the lock-in thread
    (swayr/src/focus.rs, [InhibitState] and [focus_lock_in_handler] of
    swayr/src/daemon.rs)

    [FocusData] is the tick map shared by the daemon's threads together with the
    channel to the lock-in thread.  [lockin_step] is one turn of that thread's
    two nested loops; [sys_step] interleaves it with the threads that send. *)

From S2P Require Import Prelude.

(** ** focus.rs *)
Record FocusEvent := { node_id : Z; ev_focus_ctr : Z }.

Inductive FocusMessage :=
| TickUpdateInhibit
| TickUpdateActivate
| FocusEv (fev : FocusEvent).

#[export] Instance FocusEvent_eq_dec : EqDecision FocusEvent.
Proof. solve_decision. Defined.
#[export] Instance FocusMessage_eq_dec : EqDecision FocusMessage.
Proof. solve_decision. Defined.

(** [focus_tick_by_id] maps [i64] node ids to [u64] ticks; [focus_chan] is the
    queue of the channel, and [receiver_alive] says whether the lock-in thread
    still holds the receiving end. *)
Record FocusData := {
  focus_tick_by_id : gmap Z Z;
  focus_chan : list FocusMessage;
  receiver_alive : bool
}.

Definition set_ticks (ts : gmap Z Z) (fd : FocusData) : FocusData :=
  {| focus_tick_by_id := ts; focus_chan := focus_chan fd;
     receiver_alive := receiver_alive fd |}.

Definition tick_of (ts : gmap Z Z) (id : Z) : Z := default 0%Z (ts !! id).

Definition last_focus_tick (fd : FocusData) (id : Z) : Z :=
  tick_of (focus_tick_by_id fd) id.

Definition update_tick (id focus_val : Z) (ts : gmap Z Z) : gmap Z Z :=
  match ts !! id with
  | Some _ => <[id := focus_val]> ts
  | None => ts
  end.

Definition update_last_focus_tick (id focus_val : Z) (fd : FocusData) : FocusData :=
  set_ticks (update_tick id focus_val (focus_tick_by_id fd)) fd.

Definition remove_focus_data (id : Z) (fd : FocusData) : FocusData :=
  set_ticks (delete id (focus_tick_by_id fd)) fd.

Definition ensure_id (id : Z) (fd : FocusData) : FocusData :=
  match focus_tick_by_id fd !! id with
  | None => set_ticks (<[id := 0%Z]> (focus_tick_by_id fd)) fd
  | Some _ => fd
  end.

(** The state is also returned when the call panics: the threads that go on
    still see it. *)
Definition send (fmsg : FocusMessage) (fd : FocusData) : FocusData * outcome unit :=
  let fd :=
    match fmsg with FocusEv fev => ensure_id (node_id fev) fd | _ => fd end in
  if receiver_alive fd
  then ({| focus_tick_by_id := focus_tick_by_id fd;
           focus_chan := focus_chan fd ++ [fmsg];
           receiver_alive := true |}, Done tt)
  else (fd, Panics "Failed to send focus event over channel").

(** ** The lock-in thread (daemon.rs) *)
Inductive InhibitState := FocusInhibit | FocusActive.

#[export] Instance InhibitState_eq_dec : EqDecision InhibitState.
Proof. solve_decision. Defined.

Definition InhibitState_set (s : InhibitState) : InhibitState :=
  match s with FocusActive => FocusInhibit | FocusInhibit => s end.

Definition InhibitState_clear (s : InhibitState) : InhibitState :=
  match s with FocusInhibit => FocusActive | FocusActive => s end.

(** Where the thread waits: in [recv] of the outer loop, in [recv_timeout] of
    the inner loop with the event [fev], or nowhere since it has returned. *)
Inductive lockin_pos := Outer | Inner (fev : FocusEvent) | Returned.

Record lockin_state := {
  pos : lockin_pos;
  pending_fev : option FocusEvent;
  inhibit : InhibitState
}.

Definition lockin_init : lockin_state :=
  {| pos := Outer; pending_fev := None; inhibit := FocusActive |}.

(** What a wait can end with. *)
Inductive lockin_input := Msg (fmsg : FocusMessage) | Timeout | Disconnected.

#[export] Instance lockin_input_eq_dec : EqDecision lockin_input.
Proof. solve_decision. Defined.

Definition update_focus (fev : option FocusEvent) (ts : gmap Z Z) : gmap Z Z :=
  match fev with
  | Some fev => update_tick (node_id fev) (ev_focus_ctr fev) ts
  | None => ts
  end.

(** A message taken by the outer loop. *)
Definition outer_step (seq_inhibit : bool) (fmsg : FocusMessage)
    (st : lockin_state) (ts : gmap Z Z) : lockin_state * gmap Z Z :=
  match fmsg with
  | TickUpdateInhibit =>
      if seq_inhibit
      then ({| pos := Outer; pending_fev := pending_fev st;
               inhibit := InhibitState_set (inhibit st) |}, ts)
      else (st, ts)
  | TickUpdateActivate =>
      if seq_inhibit
      then ({| pos := Outer; pending_fev := None;
               inhibit := InhibitState_clear (inhibit st) |},
            update_focus (pending_fev st) ts)
      else (st, ts)
  | FocusEv fev =>
      match inhibit st with
      | FocusInhibit =>
          ({| pos := Outer; pending_fev := Some fev; inhibit := FocusInhibit |}, ts)
      | FocusActive =>
          ({| pos := Inner fev; pending_fev := pending_fev st;
              inhibit := FocusActive |}, ts)
      end
  end.

(** What the inner loop's [recv_timeout] returned, while [fev] waits. *)
Definition inner_step (seq_inhibit : bool) (fev : FocusEvent) (inp : lockin_input)
    (st : lockin_state) (ts : gmap Z Z) : lockin_state * gmap Z Z :=
  match inp with
  | Timeout =>
      ({| pos := Outer; pending_fev := pending_fev st; inhibit := inhibit st |},
       update_focus (Some fev) ts)
  | Disconnected =>
      ({| pos := Returned; pending_fev := pending_fev st; inhibit := inhibit st |}, ts)
  | Msg TickUpdateInhibit =>
      if seq_inhibit
      then ({| pos := Outer; pending_fev := Some fev;
               inhibit := InhibitState_set (inhibit st) |}, ts)
      else (st, ts)
  | Msg TickUpdateActivate =>
      if seq_inhibit
      then ({| pos := Outer; pending_fev := pending_fev st;
               inhibit := InhibitState_clear (inhibit st) |},
            update_focus (Some fev) ts)
      else (st, ts)
  | Msg (FocusEv new_fev) =>
      ({| pos := Inner new_fev; pending_fev := pending_fev st; inhibit := inhibit st |}, ts)
  end.

(** One turn of the thread; [None] for an input that cannot end its wait. *)
Definition lockin_step (seq_inhibit : bool) (inp : lockin_input)
    (s : lockin_state * gmap Z Z) : option (lockin_state * gmap Z Z) :=
  let '(st, ts) := s in
  match pos st, inp with
  | Outer, Msg fmsg => Some (outer_step seq_inhibit fmsg st ts)
  | Outer, Disconnected =>
      Some ({| pos := Returned; pending_fev := pending_fev st; inhibit := inhibit st |}, ts)
  | Inner fev, _ => Some (inner_step seq_inhibit fev inp st ts)
  | Outer, Timeout | Returned, _ => None
  end.

(** [focus_lock_in_handler] on a sequence of waits. *)
Fixpoint lockin_run (seq_inhibit : bool) (inps : list lockin_input)
    (s : lockin_state * gmap Z Z) : option (lockin_state * gmap Z Z) :=
  match inps with
  | [] => Some s
  | inp :: inps => s ← lockin_step seq_inhibit inp s; lockin_run seq_inhibit inps s
  end.

(** ** The threads together

    [sys_ctr] is [focus_counter] of the event thread, a [u64].  Each of its
    events adds one to it.  The lock-in thread times out only when the channel
    holds no message. *)
Record system := {
  sys_fdata : FocusData;
  sys_lockin : lockin_state;
  sys_ctr : Z
}.

Definition sys_init : system :=
  {| sys_fdata := {| focus_tick_by_id := ∅; focus_chan := []; receiver_alive := true |};
     sys_lockin := lockin_init;
     sys_ctr := 0 |}.

Definition lockin_turn (seq_inhibit : bool) (inp : lockin_input)
    (chan : list FocusMessage) (s : system) : option system :=
  '(st, ts) ← lockin_step seq_inhibit inp
                (sys_lockin s, focus_tick_by_id (sys_fdata s));
  Some {| sys_fdata := {| focus_tick_by_id := ts; focus_chan := chan;
                          receiver_alive := receiver_alive (sys_fdata s) |};
          sys_lockin := st;
          sys_ctr := sys_ctr s |}.

(** The actions of the threads on [FocusData]: the event thread on a new, closed
    or focused node and on any other counted event, the command threads on an
    executed command, and the lock-in thread. *)
Inductive action :=
| A_new (id : Z)
| A_focus (id : Z)
| A_close (id : Z)
| A_other
| A_command (prev_next : bool)
| A_recv
| A_timeout.

#[export] Instance action_eq_dec : EqDecision action.
Proof. solve_decision. Defined.

Definition with_fdata (fd : FocusData) (ctr : Z) (s : system) : system :=
  {| sys_fdata := fd; sys_lockin := sys_lockin s; sys_ctr := ctr |}.

Definition sys_step (seq_inhibit : bool) (a : action) (s : system) : option system :=
  let fd := sys_fdata s in
  let ctr := u64_add (sys_ctr s) 1 in
  match a with
  | A_new id => Some (with_fdata (ensure_id id fd) ctr s)
  | A_focus id =>
      Some (with_fdata
              (fst (send (FocusEv {| node_id := id; ev_focus_ctr := ctr |}) fd)) ctr s)
  | A_close id => Some (with_fdata (remove_focus_data id fd) ctr s)
  | A_other => Some (with_fdata fd ctr s)
  | A_command prev_next =>
      Some (with_fdata
              (fst (send (if prev_next : bool then TickUpdateInhibit
                          else TickUpdateActivate) fd)) (sys_ctr s) s)
  | A_recv =>
      match focus_chan fd with
      | fmsg :: chan => lockin_turn seq_inhibit (Msg fmsg) chan s
      | [] => None
      end
  | A_timeout =>
      match focus_chan fd, pos (sys_lockin s) with
      | [], Inner _ => lockin_turn seq_inhibit Timeout [] s
      | _, _ => None
      end
  end.

(** States reachable from the start, with the number of steps taken. *)
Inductive reachable (seq_inhibit : bool) : nat → system → Prop :=
| reachable_init : reachable seq_inhibit 0 sys_init
| reachable_step n a s s' :
    reachable seq_inhibit n s → sys_step seq_inhibit a s = Some s' →
    reachable seq_inhibit (S n) s'.

Fixpoint sys_run (seq_inhibit : bool) (acts : list action) (s : system) : option system :=
  match acts with
  | [] => Some s
  | a :: acts => s ← sys_step seq_inhibit a s; sys_run seq_inhibit acts s
  end.

(** ** Abstract specification of the lock-in thread

    The thread is a one-place buffer: a focus event replaces the one that waits,
    the waiting event is committed to the tick map when the delay expires or the
    updates are activated, and it cannot expire while the updates are frozen. *)
Record cell := { slot : option FocusEvent; frozen : bool }.

Definition cell_step (seq_inhibit : bool) (inp : lockin_input)
    (s : cell * gmap Z Z) : option (cell * gmap Z Z) :=
  let '(c, ts) := s in
  match inp with
  | Msg (FocusEv fev) => Some ({| slot := Some fev; frozen := frozen c |}, ts)
  | Msg TickUpdateInhibit =>
      Some ({| slot := slot c; frozen := seq_inhibit || frozen c |}, ts)
  | Msg TickUpdateActivate =>
      Some (if seq_inhibit
            then ({| slot := None; frozen := false |}, update_focus (slot c) ts)
            else (c, ts))
  | Timeout =>
      match slot c with
      | Some fev =>
          if frozen c then None
          else Some ({| slot := None; frozen := false |}, update_focus (Some fev) ts)
      | None => None
      end
  | Disconnected => None
  end.

Fixpoint cell_run (seq_inhibit : bool) (inps : list lockin_input)
    (s : cell * gmap Z Z) : option (cell * gmap Z Z) :=
  match inps with
  | [] => Some s
  | inp :: inps => s ← cell_step seq_inhibit inp s; cell_run seq_inhibit inps s
  end.

(** The event that waits: the inner loop's, or the pending one. *)
Definition held (st : lockin_state) : option FocusEvent :=
  match pos st with Inner fev => Some fev | _ => pending_fev st end.

Definition cell_of (st : lockin_state) : cell :=
  {| slot := held st; frozen := bool_decide (inhibit st = FocusInhibit) |}.

(** A pending event exists only while the updates are inhibited, and the inner
    loop runs only while they are active. *)
Definition lockin_wf (st : lockin_state) : Prop :=
  match pos st with
  | Outer => inhibit st = FocusActive → pending_fev st = None
  | Inner _ => inhibit st = FocusActive ∧ pending_fev st = None
  | Returned => False
  end.

(** The event an input commits. *)
Definition commits (seq_inhibit : bool) (inp : lockin_input) (st : lockin_state)
    : option FocusEvent :=
  match inp with
  | Timeout => held st
  | Msg TickUpdateActivate => if seq_inhibit then held st else None
  | _ => None
  end.

(** The event that waits after an input. *)
Definition held_after (seq_inhibit : bool) (inp : lockin_input) (st : lockin_state)
    : option FocusEvent :=
  match inp with
  | Msg (FocusEv fev) => Some fev
  | Msg TickUpdateActivate => if seq_inhibit then None else held st
  | Timeout => None
  | _ => held st
  end.

(** ** The most-recently-used order as an abstract state

    The nodes with a locked-in focus, the last one first. *)
Definition mru_rel (L : list Z) (ts : gmap Z Z) : Prop :=
  (∀ i, i ∈ L ↔ (0 < tick_of ts i)%Z)
  ∧ StronglySorted (λ i j, (tick_of ts j < tick_of ts i)%Z) L.

Definition mru_remove (i : Z) (L : list Z) : list Z := filter (λ j, j ≠ i) L.
Definition mru_touch (i : Z) (L : list Z) : list Z := i :: mru_remove i L.

Definition action_input (a : action) (s : system) : option lockin_input :=
  match a with
  | A_recv => Msg <$> head (focus_chan (sys_fdata s))
  | A_timeout => Some Timeout
  | _ => None
  end.

(** The event an action commits, if its node still exists. *)
Definition commit_of (seq_inhibit : bool) (a : action) (s : system) : option FocusEvent :=
  inp ← action_input a s;
  fev ← commits seq_inhibit inp (sys_lockin s);
  if decide (is_Some (focus_tick_by_id (sys_fdata s) !! node_id fev))
  then Some fev else None.

Definition mru_step (seq_inhibit : bool) (a : action) (s : system) (L : list Z) : list Z :=
  match a with
  | A_close i => mru_remove i L
  | _ =>
      match commit_of seq_inhibit a s with
      | Some fev => mru_touch (node_id fev) L
      | None => L
      end
  end.

(** ** Lemmas about ticks *)
Lemma tick_of_insert i j v ts :
  tick_of (<[i:=v]> ts) j = if decide (i = j) then v else tick_of ts j.
Proof. unfold tick_of. rewrite lookup_insert. by case_decide. Qed.

Lemma tick_of_delete i j ts :
  tick_of (delete i ts) j = if decide (i = j) then 0%Z else tick_of ts j.
Proof. unfold tick_of. rewrite lookup_delete. by case_decide. Qed.

Lemma tick_of_Some i v ts : ts !! i = Some v → tick_of ts i = v.
Proof. unfold tick_of. by intros ->. Qed.

Lemma update_tick_present id v ts :
  is_Some (ts !! id) → update_tick id v ts = <[id:=v]> ts.
Proof. unfold update_tick. by intros [? ->]. Qed.

Lemma update_tick_absent id v ts : ts !! id = None → update_tick id v ts = ts.
Proof. unfold update_tick. by intros ->. Qed.

Lemma update_tick_dom id v ts : dom (update_tick id v ts) = dom ts.
Proof.
  unfold update_tick. destruct (ts !! id) eqn:E; [|done].
  rewrite dom_insert_L. apply elem_of_dom_2 in E.
  by apply subseteq_union_1_L, singleton_subseteq_l.
Qed.

Lemma update_focus_dom fev ts : dom (update_focus fev ts) = dom ts.
Proof. destruct fev; [apply update_tick_dom | done]. Qed.

Lemma tick_of_ensure id fd j : tick_of (focus_tick_by_id (ensure_id id fd)) j
                               = tick_of (focus_tick_by_id fd) j.
Proof.
  unfold ensure_id. destruct (focus_tick_by_id fd !! id) eqn:E; [done|].
  cbn. rewrite tick_of_insert. case_decide as H; [|done].
  subst. unfold tick_of. by rewrite E.
Qed.

(** ** Lemmas about one turn of the thread *)
Lemma lockin_step_shape seq inp st ts st' ts' :
  lockin_wf st → inp ≠ Disconnected →
  lockin_step seq inp (st, ts) = Some (st', ts') →
  lockin_wf st' ∧ held st' = held_after seq inp st
  ∧ ts' = update_focus (commits seq inp st) ts.
Proof.
  intros Hwf Hd. destruct st as [p pe ih].
  unfold lockin_wf, held_after, commits, held in *. cbn in *.
  destruct p; cbn.
  - destruct inp as [[]| |]; cbn; intros; simplify_eq.
    all: destruct seq, ih; cbn in *; simplify_eq/=; split_and?;
      first [done | auto; discriminate | by auto].
  - destruct Hwf as [-> ->]. destruct inp as [[]| |], seq; cbn; intros;
      simplify_eq/=; done.
  - done.
Qed.

Lemma cell_sim seq inp st ts :
  lockin_wf st → inp ≠ Disconnected →
  prod_map cell_of (λ ts, ts) <$> lockin_step seq inp (st, ts)
  = cell_step seq inp (cell_of st, ts).
Proof.
  intros Hwf Hd. destruct st as [p pe ih]. unfold lockin_wf in Hwf. cbn in Hwf.
  destruct p; [| |done].
  - destruct inp as [[]| |], seq, ih; try rewrite (Hwf eq_refl); cbn; try done.
    all: by destruct pe.
  - destruct Hwf as [-> ->]. destruct inp as [[]| |], seq; cbn; done.
Qed.

Lemma lockin_init_wf : lockin_wf lockin_init.
Proof. done. Qed.
#[export] Hint Resolve lockin_init_wf : swayr.

(** ** Runs of the thread *)
Lemma cell_run_sim seq inps st ts :
  lockin_wf st → Disconnected ∉ inps →
  prod_map cell_of (λ ts, ts) <$> lockin_run seq inps (st, ts)
  = cell_run seq inps (cell_of st, ts).
Proof.
  revert st ts. induction inps as [|inp inps IH]; intros st ts Hwf Hd; [done|].
  rewrite not_elem_of_cons in Hd. destruct Hd as [Hd1 Hd2].
  cbn [lockin_run cell_run]. rewrite <-cell_sim by done.
  destruct (lockin_step seq inp (st, ts)) as [[st' ts']|] eqn:E; [|done].
  cbn. apply lockin_step_shape in E as (Hwf' & _ & _); [|done..]. by apply IH.
Qed.

(** The last focus event of a sequence of messages. *)
Definition last_focus (fev : option FocusEvent) (msgs : list FocusMessage)
    : option FocusEvent :=
  foldl (λ acc m, match m with FocusEv f => Some f | _ => acc end) fev msgs.

Definition is_tick_update (inp : lockin_input) : bool :=
  match inp with
  | Msg TickUpdateInhibit | Msg TickUpdateActivate => true
  | _ => false
  end.

Lemma lockin_run_app seq inps1 inps2 s :
  lockin_run seq (inps1 ++ inps2) s
  = lockin_run seq inps1 s ≫= lockin_run seq inps2.
Proof.
  revert s. induction inps1 as [|inp inps1 IH]; intros s; [done|].
  cbn [app lockin_run]. destruct (lockin_step seq inp s); [|done]. apply IH.
Qed.

Lemma frozen_run pe msgs ts :
  TickUpdateActivate ∉ msgs →
  lockin_run true (Msg <$> msgs)
    ({| pos := Outer; pending_fev := pe; inhibit := FocusInhibit |}, ts)
  = Some ({| pos := Outer; pending_fev := last_focus pe msgs;
             inhibit := FocusInhibit |}, ts).
Proof.
  revert pe. induction msgs as [|m msgs IH]; intros pe Hm; [done|].
  rewrite not_elem_of_cons in Hm. destruct Hm as [Hm1 Hm2].
  destruct m; [|done|]; cbn; by apply IH.
Qed.

Lemma burst_run seq fevs f0 ts :
  lockin_run seq ((λ f, Msg (FocusEv f)) <$> fevs)
    ({| pos := Inner f0; pending_fev := None; inhibit := FocusActive |}, ts)
  = Some ({| pos := Inner (default f0 (last fevs)); pending_fev := None;
             inhibit := FocusActive |}, ts).
Proof.
  revert f0. induction fevs as [|f fevs IH]; intros f0; [done|].
  cbn [fmap list_fmap lockin_run lockin_step pos inner_step inhibit pending_fev mbind option_bind].
  rewrite IH. rewrite last_cons. by destruct (last fevs).
Qed.

(** ** The invariant of the threads together *)
Definition focus_of (m : FocusMessage) : option FocusEvent :=
  match m with FocusEv f => Some f | _ => None end.

(** The focus events on their way: the one that waits, then the channel's. *)
Definition queued (s : system) : list FocusEvent :=
  option_list (held (sys_lockin s)) ++ omap focus_of (focus_chan (sys_fdata s)).

Definition sys_ticks (s : system) : gmap Z Z := focus_tick_by_id (sys_fdata s).

Record sys_inv (n : nat) (s : system) : Prop := {
  inv_wf : lockin_wf (sys_lockin s);
  inv_alive : receiver_alive (sys_fdata s) = true;
  inv_ctr : (0 ≤ sys_ctr s ≤ Z.of_nat n)%Z;
  inv_sorted : StronglySorted (λ f g, ev_focus_ctr f < ev_focus_ctr g)%Z (queued s);
  inv_le : Forall (λ f, 0 < ev_focus_ctr f ≤ sys_ctr s)%Z (queued s);
  inv_ticks : ∀ i, (0 ≤ tick_of (sys_ticks s) i ≤ sys_ctr s)%Z
    ∧ Forall (λ f, tick_of (sys_ticks s) i < ev_focus_ctr f)%Z (queued s)
}.

Lemma turn_inv seq inp chan s s' :
  lockin_wf (sys_lockin s) → inp ≠ Disconnected →
  lockin_turn seq inp chan s = Some s' →
  lockin_wf (sys_lockin s')
  ∧ held (sys_lockin s') = held_after seq inp (sys_lockin s)
  ∧ sys_ticks s' = update_focus (commits seq inp (sys_lockin s)) (sys_ticks s)
  ∧ focus_chan (sys_fdata s') = chan
  ∧ receiver_alive (sys_fdata s') = receiver_alive (sys_fdata s)
  ∧ sys_ctr s' = sys_ctr s.
Proof.
  intros Hwf Hd. unfold lockin_turn.
  destruct (lockin_step _ _ _) as [[st ts]|] eqn:E; [|done]. cbn.
  intros [= <-]. apply lockin_step_shape in E as (? & ? & ?); done.
Qed.

(** A turn takes a prefix of the queue; what it commits is that prefix. *)
Lemma turn_queue seq inp st chan chan' :
  inp = Timeout ∧ chan = [] ∧ chan' = [] ∨ (∃ m, inp = Msg m ∧ chan = m :: chan') →
  ∃ pre, option_list (held st) ++ omap focus_of chan
         = pre ++ option_list (held_after seq inp st) ++ omap focus_of chan'
         ∧ ∀ f, commits seq inp st = Some f → pre = [f].
Proof.
  intros [(-> & -> & ->)|(m & -> & ->)].
  - exists (option_list (held st)). cbn. rewrite app_nil_r. split; [done|].
    by intros f ->.
  - destruct m as [| |f]; cbn.
    + by exists [].
    + destruct seq; [|by exists []]. exists (option_list (held st)). cbn.
      split; [done|]. by intros f ->.
    + exists (option_list (held st)). done.
Qed.

Lemma action_turn seq a s s' :
  sys_step seq a s = Some s' → is_Some (action_input a s) →
  ∃ inp chan', action_input a s = Some inp ∧ inp ≠ Disconnected
    ∧ lockin_turn seq inp chan' s = Some s'
    ∧ (inp = Timeout ∧ focus_chan (sys_fdata s) = [] ∧ chan' = []
       ∨ (∃ m, inp = Msg m ∧ focus_chan (sys_fdata s) = m :: chan')).
Proof.
  intros Hs Hin. destruct a; try (by destruct Hin); cbn in *.
  - destruct (focus_chan (sys_fdata s)) as [|m chan]; [done|].
    exists (Msg m), chan. split_and!; eauto.
  - destruct (focus_chan (sys_fdata s)); [|done].
    destruct (pos (sys_lockin s)); [done| |done].
    exists Timeout, []. split_and!; eauto.
Qed.

Lemma turn_preserves seq n inp chan' s s' :
  sys_inv n s → inp ≠ Disconnected →
  lockin_turn seq inp chan' s = Some s' →
  (inp = Timeout ∧ focus_chan (sys_fdata s) = [] ∧ chan' = []
   ∨ (∃ m, inp = Msg m ∧ focus_chan (sys_fdata s) = m :: chan')) →
  sys_inv (S n) s'.
Proof.
  intros [Hwf Ha Hc Hs Hl Ht] Hd Hturn Hq.
  apply turn_inv in Hturn as (Hwf' & Hh & Hts & Hch & Ha' & Hctr); [|done..].
  apply (turn_queue seq inp (sys_lockin s)) in Hq as (pre & Hpre & Hcom).
  assert (queued s = pre ++ queued s') as Hqueue.
  { unfold queued. by rewrite Hh, Hch. }
  rewrite Hqueue in Hs, Hl, Ht. apply Forall_app in Hl as [Hl1 Hl2].
  apply StronglySorted_app in Hs as (Hcross & _ & Hs).
  split; rewrite ?Ha', ?Hctr; try done; [lia|].
  intros i. destruct (Ht i) as [Ht1 Ht2]. apply Forall_app in Ht2 as [_ Ht2].
  rewrite Hts. destruct (commits seq inp (sys_lockin s)) as [f|]; [|done].
  rewrite (Hcom f eq_refl) in Hl1, Hcross.
  apply Forall_cons in Hl1 as [Hl1 _].
  cbn. unfold update_tick. destruct (sys_ticks s !! node_id f); [|done].
  rewrite !tick_of_insert. case_decide; [|done]. split; [lia|].
  apply Forall_forall. intros g Hg. apply Hcross; [by left|done].
Qed.

Lemma send_alive m fd :
  receiver_alive fd = true →
  fst (send m fd) =
  {| focus_tick_by_id :=
       focus_tick_by_id (match m with FocusEv f => ensure_id (node_id f) fd | _ => fd end);
     focus_chan := focus_chan fd ++ [m];
     receiver_alive := true |}.
Proof.
  intros Ha. unfold send, ensure_id. destruct m as [| |f]; rewrite ?Ha; [done..|].
  destruct (focus_tick_by_id fd !! node_id f); cbn; by rewrite Ha.
Qed.

Lemma ensure_id_chan i fd : focus_chan (ensure_id i fd) = focus_chan fd.
Proof. unfold ensure_id. by destruct (focus_tick_by_id fd !! i). Qed.
Lemma ensure_id_alive i fd : receiver_alive (ensure_id i fd) = receiver_alive fd.
Proof. unfold ensure_id. by destruct (focus_tick_by_id fd !! i). Qed.

(** An action of a sending thread: the waiting events keep, the counter does not
    go down, no tick changes except that of a closed node, and at most the event
    numbered with the new counter joins the queue. *)
Lemma send_preserves n s s' extra :
  sys_inv n s →
  sys_lockin s' = sys_lockin s →
  receiver_alive (sys_fdata s') = true →
  (sys_ctr s ≤ sys_ctr s' ≤ Z.of_nat (S n))%Z →
  (∀ i, tick_of (sys_ticks s') i = 0%Z
        ∨ tick_of (sys_ticks s') i = tick_of (sys_ticks s) i) →
  omap focus_of (focus_chan (sys_fdata s'))
  = omap focus_of (focus_chan (sys_fdata s)) ++ option_list extra →
  (∀ f, extra = Some f → sys_ctr s < ev_focus_ctr f ∧ ev_focus_ctr f = sys_ctr s')%Z →
  sys_inv (S n) s'.
Proof.
  intros [Hwf Ha Hc Hs Hl Ht] Hlock Hal Hctr Htick Hchan Hex.
  assert (queued s' = queued s ++ option_list extra) as Hq.
  { unfold queued. by rewrite Hlock, Hchan, (assoc_L (++)). }
  assert (∀ f, f ∈ option_list extra → extra = Some f) as Helem.
  { intros f Hf. destruct extra; [|by apply elem_of_nil in Hf].
    by apply list_elem_of_singleton in Hf as ->. }
  rewrite Forall_forall in Hl.
  split; rewrite ?Hq, ?Hlock; try done; [lia| | |].
  - apply StronglySorted_app. split_and!; [|done|].
    + intros f g Hf Hg. apply Helem, Hex in Hg. apply Hl in Hf. lia.
    + destruct extra; repeat constructor.
  - apply Forall_app. split.
    + apply Forall_forall. intros f Hf. apply Hl in Hf. lia.
    + apply Forall_forall. intros f Hf. apply Helem, Hex in Hf. lia.
  - intros i. destruct (Ht i) as [Ht1 Ht2]. rewrite Forall_forall in Ht2.
    destruct (Htick i) as [E|E]; rewrite E; (split; [lia|]);
      apply Forall_app; split; apply Forall_forall; intros f Hf.
    all: try (apply Helem, Hex in Hf; lia).
    + apply Hl in Hf. lia.
    + by apply Ht2.
Qed.

Lemma u64_add_small x y : (0 ≤ x + y < 2 ^ 64)%Z → u64_add x y = (x + y)%Z.
Proof. intros. unfold u64_add. by apply Z.mod_small. Qed.

Lemma step_preserves seq n a s s' :
  sys_inv n s → (Z.of_nat (S n) < 2 ^ 64)%Z →
  sys_step seq a s = Some s' → sys_inv (S n) s'.
Proof.
  intros Hinv Hn Hstep. destruct (inv_ctr _ _ Hinv) as [Hc1 Hc2].
  assert (u64_add (sys_ctr s) 1 = sys_ctr s + 1)%Z as Hadd by (apply u64_add_small; lia).
  destruct (action_input a s) as [inp|] eqn:Ea.
  { apply action_turn in Hstep as (? & ? & ? & ? & ? & ?); [|rewrite Ea; eauto].
    by eapply turn_preserves. }
  assert (Ha := inv_alive _ _ Hinv).
  destruct a; cbn in Hstep, Ea; rewrite ?Hadd in Hstep; try discriminate Ea.
  - injection Hstep as <-. eapply (send_preserves n s _ None); cbn;
      rewrite ?ensure_id_alive, ?ensure_id_chan, ?app_nil_r; try done; [lia|].
    intros i. right. unfold sys_ticks; cbn. apply tick_of_ensure.
  - injection Hstep as <-.
    eapply (send_preserves n s _ (Some {| node_id := id; ev_focus_ctr := sys_ctr s + 1 |}));
      unfold with_fdata, sys_ticks; cbn [sys_fdata sys_lockin sys_ctr];
      rewrite ?send_alive by done; cbn; try done; [lia| | |].
    + intros i. right. apply tick_of_ensure.
    + by rewrite omap_app.
    + intros f [= <-]. cbn. lia.
  - injection Hstep as <-. eapply (send_preserves n s _ None); cbn;
      rewrite ?app_nil_r; try done; [lia|].
    intros i. unfold sys_ticks; cbn. rewrite tick_of_delete. case_decide; auto.
  - injection Hstep as <-. eapply (send_preserves n s _ None); cbn;
      rewrite ?app_nil_r; try done; [lia|]. auto.
  - injection Hstep as <-. eapply (send_preserves n s _ None);
      unfold with_fdata, sys_ticks; cbn [sys_fdata sys_lockin sys_ctr];
      rewrite ?send_alive by done; cbn; try done; [lia| |].
    + intros i. right. by destruct prev_next.
    + rewrite omap_app. by destruct prev_next.
  - destruct (focus_chan (sys_fdata s)); [discriminate Hstep|done].
Qed.

Lemma reachable_inv seq n s :
  reachable seq n s → (Z.of_nat n < 2 ^ 64)%Z → sys_inv n s.
Proof.
  induction 1 as [|n a s s' Hr IH Hstep]; intros Hn.
  - split; cbn; [done|done|lia|constructor|constructor|].
    intros i. unfold tick_of, sys_ticks. cbn. rewrite lookup_empty. cbn.
    split; [lia|constructor].
  - eapply step_preserves; [apply IH; lia|lia|done].
Qed.

Lemma sys_run_reachable seq n acts s s' :
  reachable seq n s → sys_run seq acts s = Some s' →
  reachable seq (n + length acts) s'.
Proof.
  revert n s. induction acts as [|a acts IH]; intros n s Hr Hrun; cbn in *.
  - injection Hrun as <-. by rewrite Nat.add_0_r.
  - destruct (sys_step seq a s) as [s1|] eqn:E; [|discriminate Hrun].
    rewrite Nat.add_succ_r, <-Nat.add_succ_l.
    apply (IH _ s1); [by eapply reachable_step|done].
Qed.

(** ** Lemmas about the most-recently-used order *)
Lemma elem_of_mru_remove i j L : j ∈ mru_remove i L ↔ j ≠ i ∧ j ∈ L.
Proof. unfold mru_remove. by rewrite list_elem_of_filter. Qed.

Lemma StronglySorted_filter {A} (R : A → A → Prop) (P : A → Prop)
    `{!∀ x, Decision (P x)} l :
  StronglySorted R l → StronglySorted R (filter P l).
Proof.
  induction 1 as [|x l Hs IH Hall]; [constructor|]. rewrite filter_cons.
  case_decide; [|done]. constructor; [done|].
  rewrite Forall_forall in *. intros y Hy. apply list_elem_of_filter in Hy as [_ Hy]. auto.
Qed.

Lemma StronglySorted_weaken {A} (R R' : A → A → Prop) (l : list A) :
  (∀ x y, x ∈ l → y ∈ l → R x y → R' x y) →
  StronglySorted R l → StronglySorted R' l.
Proof.
  intros HR. induction 1 as [|x l Hs IH Hall]; [constructor|].
  constructor.
  - apply IH. intros y z Hy Hz. apply HR; by right.
  - rewrite Forall_forall in *. intros y Hy. apply HR; [by left|by right|auto].
Qed.

Lemma mru_rel_ext L ts ts' :
  (∀ i, tick_of ts' i = tick_of ts i) → mru_rel L ts → mru_rel L ts'.
Proof.
  intros E [H1 H2]. split; [intros i; by rewrite E|].
  eapply StronglySorted_weaken; [|exact H2]. intros i j _ _. by rewrite !E.
Qed.

Lemma mru_rel_delete i L ts : mru_rel L ts → mru_rel (mru_remove i L) (delete i ts).
Proof.
  intros [H1 H2]. split.
  - intros j. rewrite elem_of_mru_remove, H1, tick_of_delete.
    case_decide; lia.
  - eapply StronglySorted_weaken; [|apply StronglySorted_filter, H2].
    intros j k Hj Hk. apply elem_of_mru_remove in Hj as [Hj _], Hk as [Hk _].
    rewrite !tick_of_delete, !decide_False by congruence. done.
Qed.

Lemma mru_rel_touch i v L ts :
  (0 < v)%Z → (∀ j, tick_of ts j < v)%Z →
  mru_rel L ts → mru_rel (mru_touch i L) (<[i:=v]> ts).
Proof.
  intros Hv Hmax [H1 H2]. split.
  - intros j. unfold mru_touch. rewrite elem_of_cons, elem_of_mru_remove, H1, tick_of_insert.
    destruct (decide (i = j)); lia.
  - constructor.
    + eapply StronglySorted_weaken; [|apply StronglySorted_filter, H2].
      intros j k Hj Hk. apply elem_of_mru_remove in Hj as [Hj _], Hk as [Hk _].
      rewrite !tick_of_insert, !decide_False by congruence. done.
    + apply Forall_forall. intros j Hj. apply elem_of_mru_remove in Hj as [Hj _].
      rewrite !tick_of_insert, decide_False by congruence.
      rewrite decide_True by done. auto.
Qed.

Lemma commits_queued seq inp s f :
  commits seq inp (sys_lockin s) = Some f → f ∈ queued s.
Proof.
  intros Hc. unfold queued. apply elem_of_app. left.
  destruct inp as [[]| |]; cbn in Hc; try discriminate Hc;
    [destruct seq; [|discriminate Hc]|]; rewrite Hc; left.
Qed.

Lemma mru_step_correct seq n a s s' L :
  sys_inv n s → sys_step seq a s = Some s' →
  mru_rel L (sys_ticks s) → mru_rel (mru_step seq a s L) (sys_ticks s').
Proof.
  intros Hinv Hstep HL.
  destruct (action_input a s) as [inp|] eqn:Ea.
  - apply action_turn in Hstep as (? & chan & E & Hd & Hturn & _); [|rewrite Ea; eauto].
    rewrite Ea in E. injection E as <-.
    apply turn_inv in Hturn as (_ & _ & -> & _); [|apply Hinv|done].
    assert (mru_step seq a s L = match commit_of seq a s with
                                 | Some fev => mru_touch (node_id fev) L
                                 | None => L end) as ->.
    { by destruct a. }
    unfold commit_of. rewrite Ea. cbn.
    destruct (commits seq inp (sys_lockin s)) as [f|] eqn:Ec; cbn; [|done].
    apply commits_queued in Ec. case_decide as Hp; fold (sys_ticks s) in Hp.
    + rewrite update_tick_present by done. pose proof (inv_le _ _ Hinv) as Hl.
      rewrite Forall_forall in Hl. apply Hl in Ec as ?.
      apply mru_rel_touch; [lia| |done]. intros j.
      destruct (inv_ticks _ _ Hinv j) as [_ Hj]. rewrite Forall_forall in Hj. auto.
    + rewrite update_tick_absent; [done|]. by apply eq_None_not_Some.
  - assert (Ha := inv_alive _ _ Hinv).
    assert (commit_of seq a s = None) as Hc by (unfold commit_of; by rewrite Ea).
    unfold mru_step. rewrite Hc.
    destruct a; cbn in Hstep, Ea; try discriminate Ea.
    + injection Hstep as <-. eapply mru_rel_ext; [|exact HL].
      intros i. unfold sys_ticks; cbn. apply tick_of_ensure.
    + injection Hstep as <-. eapply mru_rel_ext; [|exact HL].
      intros i. unfold sys_ticks; cbn. rewrite send_alive by done. apply tick_of_ensure.
    + injection Hstep as <-. by apply mru_rel_delete.
    + by injection Hstep as <-.
    + injection Hstep as <-. eapply mru_rel_ext; [|exact HL].
      intros i. unfold sys_ticks; cbn. rewrite send_alive by done. by destruct prev_next.
    + destruct (focus_chan (sys_fdata s)); [discriminate Hstep|done].
Qed.

(** The abstract state along a run. *)
Fixpoint mru_run (seq_inhibit : bool) (acts : list action) (s : system) (L : list Z)
    : list Z :=
  match acts with
  | [] => L
  | a :: acts =>
      match sys_step seq_inhibit a s with
      | Some s' => mru_run seq_inhibit acts s' (mru_step seq_inhibit a s L)
      | None => L
      end
  end.

Lemma mru_run_correct seq n acts s s' L :
  sys_inv n s → (Z.of_nat (n + length acts) < 2 ^ 64)%Z →
  sys_run seq acts s = Some s' → mru_rel L (sys_ticks s) →
  mru_rel (mru_run seq acts s L) (sys_ticks s').
Proof.
  revert n s L. induction acts as [|a acts IH]; intros n s L Hinv Hn Hrun HL; cbn in *.
  - by injection Hrun as <-.
  - destruct (sys_step seq a s) as [s1|] eqn:E; [|discriminate Hrun]. cbn in Hrun.
    apply (IH (S n)); [|lia|done|by eapply mru_step_correct].
    eapply step_preserves; [done|lia|done].
Qed.

(** ** What a closed node leaves behind *)
Lemma close_step_absent seq a s s' i :
  sys_step seq a s = Some s' → a ≠ A_new i → a ≠ A_focus i →
  sys_ticks s !! i = None → sys_ticks s' !! i = None.
Proof.
  intros Hstep Hn Hf Hi.
  assert (∀ j fd, i ≠ j → focus_tick_by_id fd !! i = None →
                  focus_tick_by_id (ensure_id j fd) !! i = None) as Hens.
  { intros j fd Hj Hfd. unfold ensure_id. destruct (focus_tick_by_id fd !! j); [done|].
    cbn. by rewrite lookup_insert_ne. }
  assert (∀ inp chan, lockin_turn seq inp chan s = Some s' → sys_ticks s' !! i = None) as Hturn.
  { intros inp chan. unfold lockin_turn.
    destruct (lockin_step _ _ _) as [[st ts]|] eqn:E; [|done]. cbn. intros [= <-].
    unfold sys_ticks in *. cbn. apply not_elem_of_dom. apply not_elem_of_dom in Hi.
    replace (dom ts) with (dom (focus_tick_by_id (sys_fdata s))); [done|].
    unfold lockin_step in E. destruct (sys_lockin s) as [p pe ih]; cbn in E.
    destruct p, inp as [[]| |]; try discriminate E; destruct seq, ih; cbn in E;
      injection E as <- <-; cbn; rewrite ?update_focus_dom, ?update_tick_dom; done. }
  destruct a; cbn [sys_step] in Hstep; cbn zeta in Hstep;
    try (injection Hstep as <-; unfold sys_ticks in *; cbn).
  - apply Hens; [congruence|done].
  - unfold send. cbn. destruct (receiver_alive _); cbn; (apply Hens; [congruence|done]).
  - rewrite lookup_delete. by case_decide.
  - done.
  - unfold send. by destruct prev_next, (receiver_alive _).
  - destruct (focus_chan (sys_fdata s)); [discriminate Hstep|exact (Hturn _ _ Hstep)].
  - destruct (focus_chan (sys_fdata s)); [|discriminate Hstep].
    destruct (pos (sys_lockin s)); [discriminate Hstep|exact (Hturn _ _ Hstep)|discriminate Hstep].
Qed.

Lemma close_run_absent seq acts s s' i :
  sys_run seq acts s = Some s' → A_new i ∉ acts → A_focus i ∉ acts →
  sys_ticks s !! i = None → sys_ticks s' !! i = None.
Proof.
  revert s. induction acts as [|a acts IH]; intros s Hrun Hn Hf Hi; cbn in Hrun.
  - by injection Hrun as <-.
  - destruct (sys_step seq a s) as [s1|] eqn:E; [|discriminate Hrun]. cbn in Hrun.
    rewrite not_elem_of_cons in Hn, Hf. destruct Hn, Hf.
    apply (IH s1); [done..|]. by eapply close_step_absent.
Qed.

(** ** Properties *)

(** C6: the lock-in thread with its two nested loops, its pending event and its
    inhibit flag behaves, on every sequence of messages and expired delays, like a
    one-place buffer: same possible inputs, same tick maps, and at every point the
    same waiting event and the same frozen flag. *)
Theorem lockin_refines_cell seq inps ts :
  Disconnected ∉ inps →
  prod_map cell_of (λ ts, ts) <$> lockin_run seq inps (lockin_init, ts)
  = cell_run seq inps ({| slot := None; frozen := false |}, ts).
Proof. intros Hd. rewrite cell_run_sim by auto with swayr. done. Qed.

Lemma lockin_refines_cell_witness :
  prod_map cell_of (λ ts, ts) <$>
    lockin_run true [Msg (FocusEv {| node_id := 1; ev_focus_ctr := 5 |});
                     Msg TickUpdateInhibit;
                     Msg (FocusEv {| node_id := 2; ev_focus_ctr := 6 |});
                     Msg TickUpdateActivate] (lockin_init, {[ 1%Z := 0%Z; 2%Z := 0%Z ]})
  = Some ({| slot := None; frozen := false |}, {[ 1%Z := 0%Z; 2%Z := 6%Z ]}).
Proof.
  rewrite lockin_refines_cell.
  - vm_compute. reflexivity.
  - decide_now.
Defined.

(** with [seq_inhibit], from the moment a cycling command has inhibited the
    updates, no message changes a tick until a non-cycling command activates them
    again, however many focus events pass; that command then commits exactly the
    last of those events (or the one that was pending) and nothing else. *)
Theorem inhibit_freezes_ticks pe msgs ts :
  TickUpdateActivate ∉ msgs →
  let st := {| pos := Outer; pending_fev := pe; inhibit := FocusInhibit |} in
  lockin_run true (Msg <$> msgs) (st, ts)
  = Some ({| pos := Outer; pending_fev := last_focus pe msgs;
             inhibit := FocusInhibit |}, ts)
  ∧ lockin_run true (Msg <$> msgs ++ [TickUpdateActivate]) (st, ts)
    = Some (lockin_init, update_focus (last_focus pe msgs) ts).
Proof.
  intros Hm st. split; [by apply frozen_run|].
  rewrite fmap_app, lockin_run_app. unfold st.
  rewrite frozen_run by done. reflexivity.
Qed.

Lemma inhibit_freezes_ticks_witness :
  lockin_run true
    (Msg <$> [FocusEv {| node_id := 1; ev_focus_ctr := 5 |}; TickUpdateInhibit;
              FocusEv {| node_id := 2; ev_focus_ctr := 6 |}] ++ [TickUpdateActivate])
    ({| pos := Outer; pending_fev := None; inhibit := FocusInhibit |},
     {[ 1%Z := 0%Z; 2%Z := 0%Z ]})
  = Some (lockin_init, {[ 1%Z := 0%Z; 2%Z := 6%Z ]}).
Proof.
  destruct (inhibit_freezes_ticks None
    [FocusEv {| node_id := 1; ev_focus_ctr := 5 |}; TickUpdateInhibit;
     FocusEv {| node_id := 2; ev_focus_ctr := 6 |}]
    {[ 1%Z := 0%Z; 2%Z := 0%Z ]}) as [_ H].
  - decide_now.
  - rewrite H. vm_compute. reflexivity.
Defined.

(** without [seq_inhibit] the inhibit and activate messages of the commands
    are ignored: the thread does on any inputs what it does on the same inputs
    with those messages left out. *)
Theorem seq_inhibit_off inps st ts :
  pos st ≠ Returned → Disconnected ∉ inps →
  lockin_run false inps (st, ts)
  = lockin_run false (filter (λ inp, is_tick_update inp = false) inps) (st, ts).
Proof.
  revert st ts. induction inps as [|inp inps IH]; intros st ts Hp Hd; [done|].
  rewrite not_elem_of_cons in Hd. destruct Hd as [Hd1 Hd2].
  rewrite filter_cons. destruct (pos st) eqn:Ep; [| |done].
  all: destruct inp as [[]| |];
    first [rewrite decide_True by done | rewrite decide_False by done];
    cbn; rewrite ?Ep; try done.
  all: try (apply IH; [congruence|done]).
  all: destruct (inhibit st); cbn; apply IH; done.
Qed.

Lemma seq_inhibit_off_witness :
  lockin_run false [Msg TickUpdateInhibit;
                    Msg (FocusEv {| node_id := 1; ev_focus_ctr := 5 |});
                    Msg TickUpdateActivate; Timeout] (lockin_init, {[ 1%Z := 0%Z ]})
  = Some (lockin_init, {[ 1%Z := 5%Z ]}).
Proof.
  rewrite seq_inhibit_off.
  - vm_compute. reflexivity.
  - discriminate.
  - decide_now.
Defined.

(** debouncing.  A burst of focus events that follow each other before the
    lock-in delay expires commits only its last one, when the delay expires. *)
Theorem lockin_debounce seq fevs fev ts :
  lockin_run seq (((λ f, Msg (FocusEv f)) <$> fevs ++ [fev]) ++ [Timeout])
    (lockin_init, ts)
  = Some (lockin_init, update_tick (node_id fev) (ev_focus_ctr fev) ts).
Proof.
  rewrite lockin_run_app. destruct fevs as [|f0 fevs]; [done|].
  cbn [app fmap list_fmap lockin_run lockin_step lockin_init pos outer_step inhibit
       pending_fev mbind option_bind].
  change (?f <$> fevs ++ [fev]) with (f <$> fevs ++ [fev]).
  pose proof (burst_run seq (fevs ++ [fev]) f0 ts) as H.
  cbn [fmap] in H. rewrite H. by rewrite last_snoc.
Qed.

(** C14: over every interleaving of the event thread, the command threads and the
    lock-in thread with fewer than 2^64 steps, the counter does not wrap, the focus
    events still on their way are numbered in increasing order, every one of them is
    newer than every tick of the map, and an event is pending only while updates
    are inhibited. *)
Theorem focus_threads_invariant seq n s :
  reachable seq n s → (Z.of_nat n < 2 ^ 64)%Z → sys_inv n s.
Proof. apply reachable_inv. Qed.

Lemma focus_threads_invariant_witness : ∃ s,
  reachable true 4 s ∧ sys_inv 4 s ∧ sys_ticks s !! 7%Z = Some 2%Z.
Proof.
  assert (∃ s, reachable true 4 s ∧ sys_ticks s !! 7%Z = Some 2%Z) as (s & Hr & Hs).
  { eexists. split.
    - apply (sys_run_reachable true 0 [A_new 7; A_focus 7; A_recv; A_timeout] sys_init);
        [constructor|vm_compute; reflexivity].
    - vm_compute. reflexivity. }
  exists s. split; [exact Hr|]. split; [|exact Hs].
  apply (focus_threads_invariant true); [exact Hr|lia].
Defined.

(** C1: the tick map implements a most-recently-used list.  Along every run of the
    threads with fewer than 2^64 steps, the nodes with a positive tick, taken by
    descending tick, are the abstract list in which a committed focus event moves
    its node to the front, a closed node is taken out and nothing else happens. *)
Theorem mru_refinement seq acts s :
  (Z.of_nat (length acts) < 2 ^ 64)%Z →
  sys_run seq acts sys_init = Some s →
  mru_rel (mru_run seq acts sys_init []) (sys_ticks s).
Proof.
  intros Hn Hrun. eapply (mru_run_correct seq 0); [|done|done|].
  - apply (reachable_inv seq); [constructor|done].
  - split; [|constructor]. intros i. unfold sys_ticks, tick_of. cbn.
    rewrite lookup_empty. cbn. split; [intros H; by apply elem_of_nil in H|lia].
Qed.

Lemma mru_refinement_witness : ∃ s,
  sys_run false [A_new 1; A_new 2; A_focus 1; A_recv; A_timeout; A_focus 2; A_recv;
                 A_timeout; A_focus 1; A_recv; A_timeout] sys_init = Some s
  ∧ mru_rel [1; 2]%Z (sys_ticks s).
Proof.
  eexists. split; [vm_compute; reflexivity|].
  apply (mru_refinement false
    [A_new 1; A_new 2; A_focus 1; A_recv; A_timeout; A_focus 2; A_recv;
     A_timeout; A_focus 1; A_recv; A_timeout]); [cbn; lia|vm_compute; reflexivity].
Defined.

(** a focus event that is locked in late does not bring a closed node back:
    once a node is closed it has no entry in the tick map until sway reports the
    node new or focused again, whatever the threads do in between. *)
Theorem closed_not_resurrected seq i s acts s' :
  A_new i ∉ acts → A_focus i ∉ acts →
  sys_run seq (A_close i :: acts) s = Some s' →
  sys_ticks s' !! i = None.
Proof.
  intros Hn Hf Hrun. cbn [sys_run sys_step mbind option_bind] in Hrun.
  eapply close_run_absent; [exact Hrun|done|done|].
  unfold sys_ticks. cbn. apply lookup_delete_eq.
Qed.

Lemma closed_not_resurrected_witness : ∃ s s',
  sys_run false [A_new 1; A_focus 1] sys_init = Some s
  ∧ sys_run false [A_close 1; A_recv; A_timeout] s = Some s'
  ∧ sys_ticks s' !! 1%Z = None.
Proof.
  eexists _, _. split; [vm_compute; reflexivity|]. split; [vm_compute; reflexivity|].
  match goal with |- sys_ticks ?s' !! _ = _ =>
    apply (closed_not_resurrected false 1
      (default sys_init (sys_run false [A_new 1; A_focus 1] sys_init))
      [A_recv; A_timeout] s') end.
  - decide_now.
  - decide_now.
  - vm_compute. reflexivity.
Defined.
