(* ===== verification/Sway.v ===== *)
(** * The outside world: sway, processes and time

    Every call that leaves the program is an [effect] recorded in a trace, and
    the class [Env] gives what comes back as a function of the trace so far.
    All theorems hold for every environment, so for every behaviour of sway, of
    the menu program and of the random number generator.  [io] is the monad of
    calls that have effects and may panic. *)

From S2P Require Import Prelude Ipc.

(** [swayipc::Output] as far as [configure_outputs] reads it. *)
Record Mode := { mode_width : Z; mode_height : Z }.
Record Output := { output_name : string; output_modes : list Mode }.

(** What makes a module of swayrbar refresh (swayrbar/src/module.rs): it is here
    because the events are sent from thread to thread. *)
Inductive RefreshReason := ClickEvent | SwayEvent.

#[export] Instance RefreshReason_eq_dec : EqDecision RefreshReason.
Proof. solve_decision. Defined.

Definition NameInstanceAndReason : Type := string * string * RefreshReason.

(** [Connect] is [swayipc::Connection::new], [SharedConnect] the opening of the
    lazily initialised connection of ipc.rs; [RunCommand], [GetTree] and
    [GetOutputs] are requests on an open connection; [Spawn] runs a program with
    its arguments and standard input to its end and [SpawnDetached] only starts
    one; those from [PathExists] to [CreateDir] are accesses to the
    file system.  [SetIconMap] writes the static variable with the icons of util.rs:
    a static variable holds what the trace last wrote to it.  The others belong to
    the daemon: the stream of sway events, the socket, and the condition variable of
    the auto-nop thread; and, from [RunOutput] on, to swayrbar. *)
Inductive effect :=
| Connect
| SharedConnect
| GetTree
| GetOutputs
| RunCommand (cmd : string)
| Sleep (millis : Z)
| Spawn (prog : string) (args : list string) (stdin : string)
| SpawnDetached (prog : string) (args : list string)
| PathExists (path : string)
| IsFile (path : string)
| ReadDir (path : string)
| ReadFile (path : string)
| WriteFile (path content : string)
| CreateDir (path : string)
| SetIconMap (m : gmap string string)
| Subscribe
| NextEvent
| RemoveFile (path : string)
| BindSocket (path : string)
| AcceptClient
| NotifyAutoNop
| ConnectSocket (path : string)
| WriteSocket (content : string)
| RunOutput (prog : string) (args : list string)
| RunStatus (prog : string) (args : list string)
| ReadLine
| Println (text : string)
| LocalTime (format : string)
| BatteryManager
| ListBatteries
| RefreshBattery
| RefreshCpu
| RefreshMemory
| SendRefresh (event : option NameInstanceAndReason).

#[export] Instance effect_eq_dec : EqDecision effect.
Proof. solve_decision. Defined.

Abbreviation trace := (list effect).

(** What the outside answers, given the effects up to and including the request.
    [env_run_command] is the result of swayipc's [run_command]: an error of the
    connection, or sway's reply to each command of the text, which may be a refusal;
    a program's output is its standard output.  Environment
    variables do not change while the program runs; the two directories are what
    the directories crate computes.  [env_shuffle] and [env_choose] are the rand crate's [shuffle] and [choose]. *)
Class Env := {
  env_connect : trace → result unit string;
  env_get_tree : trace → result node string;
  env_get_outputs : trace → result (list Output) string;
  env_run_command : trace → result (list (result unit string)) string;
  env_spawn : trace → result string string;
  env_spawn_detached : trace → result unit string;
  env_path_exists : trace → bool;
  env_is_file : trace → bool;
  env_read_dir : trace → result (list string) string;
  env_read_file : trace → result string string;
  env_write_file : trace → result unit string;
  env_create_dir : trace → result unit string;
  env_var : string → option string;
  env_project_config_dir : string → option string;
  env_data_local_dir : option string;
  env_shuffle : trace → list node → list node;
  env_choose : trace → list node → option node
}.

(** ** The monad *)
Definition io (A : Type) : Type := trace → trace * outcome A.

#[export] Instance io_ret : MRet io := λ A a tr, (tr, Done a).
#[export] Instance io_bind : MBind io := λ A B f m tr,
  match m tr with
  | (tr, Done a) => f a tr
  | (tr, Panics msg) => (tr, Panics msg)
  | (tr, NoReturn) => (tr, NoReturn)
  end.

Definition lift {A} (m : outcome A) : io A := λ tr, (tr, m).
Definition panic {A} (msg : string) : io A := lift (Panics msg).
Definition perform (e : effect) : io unit := λ tr, (tr ++ [e], Done tt).
Definition ask {A} (f : trace → A) : io A := λ tr, (tr, Done (f tr)).

(** The [?] operator on a fallible call. *)
Definition bind_ok {A B E} (f : A → io (result B E)) (m : io (result A E))
    : io (result B E) :=
  r ← m;
  match r with
  | Ok a => f a
  | Err e => mret (Err e)
  end.

(** [for x in l { ... }]. *)
Fixpoint for_each {A} (f : A → io unit) (l : list A) : io unit :=
  match l with
  | [] => mret tt
  | x :: l => f x ;; for_each f l
  end.

(** The same with a body that uses [?]. *)
Fixpoint try_for_each {A E} (f : A → io (result unit E)) (l : list A)
    : io (result unit E) :=
  match l with
  | [] => mret (Ok tt)
  | x :: l => bind_ok (λ _, try_for_each f l) (f x)
  end.

Notation "x ←? m ; k" := (bind_ok (λ x, k) m)
  (at level 20, m at level 100, k at level 200, only parsing) : stdpp_scope.

Section Requests.
Context `{Env}.

Definition connection_new : io (result unit string) :=
  perform Connect ;; ask env_connect.

(** All callers look at the outer result alone, with a [?] or to log it: what sway
    replies is dropped. *)
Definition answered (r : result (list (result unit string)) string) : result unit string :=
  match r with Ok _ => Ok tt | Err e => Err e end.

Definition con_run_command (cmd : string) : io (result unit string) :=
  perform (RunCommand cmd) ;; ask (λ tr, answered (env_run_command tr)).

Definition con_get_tree : io (result node string) :=
  perform GetTree ;; ask env_get_tree.

Definition con_get_outputs : io (result (list Output) string) :=
  perform GetOutputs ;; ask env_get_outputs.

Definition sleep (millis : Z) : io unit := perform (Sleep millis).

Definition spawn (prog : string) (args : list string) (stdin : string)
    : io (result string string) :=
  perform (Spawn prog args stdin) ;; ask env_spawn.

Definition spawn_detached (prog : string) (args : list string)
    : io (result unit string) :=
  perform (SpawnDetached prog args) ;; ask env_spawn_detached.

Definition path_exists (path : string) : io bool :=
  perform (PathExists path) ;; ask env_path_exists.

Definition is_file (path : string) : io bool :=
  perform (IsFile path) ;; ask env_is_file.

Definition read_dir (path : string) : io (result (list string) string) :=
  perform (ReadDir path) ;; ask env_read_dir.

Definition read_file (path : string) : io (result string string) :=
  perform (ReadFile path) ;; ask env_read_file.

Definition write_file (path content : string) : io (result unit string) :=
  perform (WriteFile path content) ;; ask env_write_file.

Definition create_dir (path : string) : io (result unit string) :=
  perform (CreateDir path) ;; ask env_create_dir.

(** [Result::unwrap] and [Result::expect]. *)
Definition unwrap_ok {A} (msg : string) (r : result A string) : io A :=
  match r with
  | Ok a => mret a
  | Err e => panic (msg +:+ ": " +:+ e)
  end.

(** [SWAY_IPC_CONNECTION]: opened on first use. *)
Definition shared_connection : io unit :=
  opened ← ask (λ tr, bool_decide (SharedConnect ∈ tr));
  if opened : bool then mret tt
  else
    perform SharedConnect ;;
    r ← ask env_connect;
    match r with
    | Ok _ => mret tt
    | Err _ => panic "Could not open sway IPC connection."
    end.

Definition drop_scratchpads (root : node) : node :=
  {| id := id root; name := name root; node_type := node_type root;
     layout := layout root; rect_width := rect_width root; focused := focused root;
     urgent := urgent root; marks := marks root; app_id := app_id root;
     pid := pid root; shell := shell root; window_properties := window_properties root;
     nodes := filter (λ o, is_scratchpad o = false) (nodes root);
     floating_nodes := floating_nodes root |}.

Definition get_root_node (include_scratchpad : bool) : io node :=
  shared_connection ;;
  r ← con_get_tree;
  match r with
  | Ok root => mret (if include_scratchpad then root else drop_scratchpads root)
  | Err _ => panic "Couldn't get tree"
  end.
End Requests.

(** The sway commands of a trace. *)
Definition command_of (e : effect) : option string :=
  match e with RunCommand cmd => Some cmd | _ => None end.
Definition commands (tr : trace) : list string := omap command_of tr.

(** ** Lemmas about the monad *)
Lemma io_bind_done {A B} (m : io A) (f : A → io B) tr tr' a :
  m tr = (tr', Done a) → (m ≫= f) tr = f a tr'.
Proof. unfold mbind, io_bind. by intros ->. Qed.

Lemma io_bind_inv {A B} (m : io A) (f : A → io B) tr tr' b :
  (m ≫= f) tr = (tr', Done b) → ∃ tr1 a, m tr = (tr1, Done a) ∧ f a tr1 = (tr', Done b).
Proof. unfold mbind, io_bind. destruct (m tr) as [? [a| |]]; naive_solver. Qed.

Lemma io_bind_assoc {A B C} (m : io A) (f : A → io B) (g : B → io C) tr :
  ((m ≫= f) ≫= g) tr = (m ≫= (λ a, f a ≫= g)) tr.
Proof. unfold mbind, io_bind. by destruct (m tr) as [? []]. Qed.

Lemma io_lift_done {A B} (m : outcome A) (f : A → io B) a tr :
  m = Done a → (lift m ≫= f) tr = f a tr.
Proof. by intros ->. Qed.

Lemma commands_app tr1 tr2 : commands (tr1 ++ tr2) = commands tr1 ++ commands tr2.
Proof. apply omap_app. Qed.

Lemma bind_ok_ok {A B E} (m : io (result A E)) (f : A → io (result B E)) tr tr' a :
  m tr = (tr', Done (Ok a)) → bind_ok f m tr = f a tr'.
Proof. intros Hm. unfold bind_ok. by rewrite (io_bind_done _ _ _ _ _ Hm). Qed.

Lemma bind_ok_err {A B E} (m : io (result A E)) (f : A → io (result B E)) tr tr' e :
  m tr = (tr', Done (Err e)) → bind_ok f m tr = (tr', Done (Err e)).
Proof. intros Hm. unfold bind_ok. by rewrite (io_bind_done _ _ _ _ _ Hm). Qed.

Lemma for_each_done {A} (f : A → io unit) (g : A → trace) l tr :
  (∀ x tr, x ∈ l → f x tr = (tr ++ g x, Done tt)) →
  for_each f l tr = (tr ++ (l ≫= g), Done tt).
Proof.
  revert tr. induction l as [|x l IH]; intros tr Hf.
  - cbn. by rewrite app_nil_r.
  - cbn [for_each]. rewrite (io_bind_done _ _ _ _ _ (Hf _ tr ltac:(left))).
    rewrite IH; [by rewrite bind_cons, (assoc_L (++))|].
    intros; apply Hf; by right.
Qed.

Lemma for_each_ext {A} (f g : A → io unit) l tr :
  (∀ x tr, x ∈ l → f x tr = g x tr) → for_each f l tr = for_each g l tr.
Proof.
  revert tr. induction l as [|x l IH]; intros tr Hf; [done|].
  cbn [for_each]. unfold mbind, io_bind. rewrite Hf by left.
  destruct (g x tr) as [? []]; [|done..]. apply IH. intros; apply Hf; by right.
Qed.

(** ** Lemmas about requests *)
Section RequestFacts.
Context `{Env}.

(** The connection never fails; sway may still refuse commands. *)
Definition commands_answered : Prop := ∀ tr, answered (env_run_command tr) = Ok tt.

Lemma con_run_command_eq cmd tr :
  con_run_command cmd tr
  = (tr ++ [RunCommand cmd], Done (answered (env_run_command (tr ++ [RunCommand cmd])))).
Proof. reflexivity. Qed.

(** A command followed by [?], by its outcome. *)
Lemma run_command_ok {B} cmd (f : unit → io (result B string)) tr :
  answered (env_run_command (tr ++ [RunCommand cmd])) = Ok tt →
  bind_ok f (con_run_command cmd) tr = f tt (tr ++ [RunCommand cmd]).
Proof. intros E. apply bind_ok_ok. by rewrite con_run_command_eq, E. Qed.

Lemma run_command_err {B} cmd (f : unit → io (result B string)) tr e :
  answered (env_run_command (tr ++ [RunCommand cmd])) = Err e →
  bind_ok f (con_run_command cmd) tr = (tr ++ [RunCommand cmd], Done (Err e)).
Proof. intros E. apply bind_ok_err. by rewrite con_run_command_eq, E. Qed.

Lemma con_get_tree_eq tr :
  con_get_tree tr = (tr ++ [GetTree], Done (env_get_tree (tr ++ [GetTree]))).
Proof. reflexivity. Qed.

Lemma connection_new_eq tr :
  connection_new tr = (tr ++ [Connect], Done (env_connect (tr ++ [Connect]))).
Proof. reflexivity. Qed.

Lemma spawn_eq prog args stdin tr :
  spawn prog args stdin tr
  = (tr ++ [Spawn prog args stdin], Done (env_spawn (tr ++ [Spawn prog args stdin]))).
Proof. reflexivity. Qed.

(** The effects of a successful [get_root_node]. *)
Definition root_effects (tr : trace) : trace :=
  (if decide (SharedConnect ∈ tr) then [] else [SharedConnect]) ++ [GetTree].

(** The shared connection is open or can be opened. *)
Definition sway_up (tr : trace) : Prop :=
  SharedConnect ∈ tr ∨ env_connect (tr ++ [SharedConnect]) = Ok tt.

Lemma get_root_node_done include_scratchpad root tr :
  sway_up tr →
  env_get_tree (tr ++ root_effects tr) = Ok root →
  get_root_node include_scratchpad tr
  = (tr ++ root_effects tr,
     Done (if include_scratchpad then root else drop_scratchpads root)).
Proof.
  unfold sway_up. intros Hup Ht. unfold get_root_node.
  assert (shared_connection tr
    = (tr ++ (if decide (SharedConnect ∈ tr) then [] else [SharedConnect]), Done tt)) as E.
  { unfold shared_connection, mbind, io_bind, ask. cbn.
    destruct (decide (SharedConnect ∈ tr)) as [Hs|Hs].
    - rewrite bool_decide_true by done. cbn. by rewrite app_nil_r.
    - rewrite bool_decide_false by done. cbn. by destruct Hup as [?| ->]. }
  rewrite (io_bind_done _ _ _ _ _ E), (io_bind_done _ _ _ _ _ (con_get_tree_eq _)).
  unfold root_effects in *. rewrite (assoc_L (++)) in Ht. rewrite Ht.
  by rewrite (assoc_L (++)).
Qed.
End RequestFacts.

(** ** Trees without the scratchpad *)
Lemma preorder_drop_scratchpads r m :
  m ∈ preorder (drop_scratchpads r) → m = drop_scratchpads r ∨ m ∈ preorder r.
Proof.
  rewrite elem_of_preorder. intros [->|(c & Hc & Hm)]; [by left|]. right.
  apply elem_of_preorder. right. exists c. split; [|done].
  unfold children in *. rewrite elem_of_app in Hc |- *. cbn in Hc.
  destruct Hc as [[_ Hc]%list_elem_of_filter|Hc]; auto.
Qed.

Lemma drop_scratchpads_typable r : typable r → typable (drop_scratchpads r).
Proof.
  unfold typable. rewrite !Forall_forall. intros Ht m [->|Hm]%preorder_drop_scratchpads.
  - specialize (Ht r (preorder_self r)). unfold typable1, type_of, get_type in *. exact Ht.
  - auto.
Qed.

Lemma drop_scratchpads_unique r : unique_ids r → unique_ids (drop_scratchpads r).
Proof.
  unfold unique_ids. rewrite !preorder_eq, !fmap_cons. cbn [id drop_scratchpads floating_nodes nodes].
  intros Hu. eapply sublist_NoDup; [exact Hu|]. constructor. apply fmap_sublist.
  apply sublist_app; [|done]. rewrite <-filter_reverse. apply bind_sublist, sublist_filter.
Qed.
