(* ===== verification/Hoare.v ===== *)
(** * Calls that do not panic

    [runs loops m Q]: from every trace the call [m] returns a value with [Q], or, only
    if [loops], it may never return; it never panics.  The rules follow the monad [io],
    and [io_steps] applies them along the structure of a definition. *)

From S2P Require Import Prelude Sway.

Definition runs {A} (loops : bool) (m : io A) (Q : A → Prop) : Prop :=
  ∀ tr, match (m tr).2 with
        | Done a => Q a
        | Panics _ => False
        | NoReturn => loops = true
        end.

Abbreviation safe loops m := (runs loops m (λ _, True)).

Section Rules.
Context {A B : Type} (loops : bool).
Implicit Types (m : io A) (Q : A → Prop).

Lemma runs_ret a Q : Q a → runs loops (mret a) Q.
Proof. by intros Ha tr. Qed.

Lemma runs_bind m (f : A → io B) (Q : B → Prop) :
  runs loops m (λ a, runs loops (f a) Q) → runs loops (m ≫= f) Q.
Proof.
  intros Hm tr. specialize (Hm tr). unfold mbind, io_bind.
  destruct (m tr) as [tr1 [a| |]]; cbn in *; [apply Hm|done..].
Qed.

Lemma runs_mono m (P Q : A → Prop) : runs loops m P → (∀ a, P a → Q a) → runs loops m Q.
Proof. intros Hm Hpq tr. specialize (Hm tr). destruct (m tr).2; auto. Qed.

Lemma runs_lift (o : outcome A) a Q : o = Done a → Q a → runs loops (lift o) Q.
Proof. by intros -> Ha tr. Qed.

Lemma runs_ask (f : trace → A) Q : (∀ tr, Q (f tr)) → runs loops (ask f) Q.
Proof. intros Hf tr. apply Hf. Qed.

Lemma runs_perform e (Q : () → Prop) : Q tt → runs loops (perform e) Q.
Proof. by intros Ha tr. Qed.

(** A call that returns may be used where another could loop. *)
Lemma runs_returns m Q : runs false m Q → runs loops m Q.
Proof. intros Hm tr. specialize (Hm tr). by destruct (m tr).2. Qed.

End Rules.

Lemma runs_bind_ok {A B E} loops (m : io (result A E)) (f : A → io (result B E))
    (Q : result B E → Prop) :
  runs loops m (λ r, match r with Ok a => runs loops (f a) Q | Err e => Q (Err e) end) →
  runs loops (bind_ok f m) Q.
Proof.
  intros Hm. apply runs_bind. eapply runs_mono; [exact Hm|].
  intros [a|e] Ha; [done|by apply runs_ret].
Qed.

Lemma runs_for_each {A} loops (f : A → io ()) l :
  (∀ x, x ∈ l → safe loops (f x)) → safe loops (for_each f l).
Proof.
  induction l as [|x l IH]; intros Hf; [by apply runs_ret|].
  apply runs_bind. eapply runs_mono; [apply Hf; left|]. intros _ _.
  apply IH. intros; apply Hf; by right.
Qed.

Lemma runs_try_for_each {A E} loops (f : A → io (result () E)) l :
  (∀ x, x ∈ l → safe loops (f x)) → safe loops (try_for_each f l).
Proof.
  induction l as [|x l IH]; intros Hf; [by apply runs_ret|].
  apply runs_bind_ok. eapply runs_mono; [apply Hf; left|]. intros [[]|e] _; [|done].
  apply IH. intros; apply Hf; by right.
Qed.

Section Requests.
Context `{Env} (loops : bool).

Lemma runs_request {A} e (f : trace → A) (Q : A → Prop) :
  (∀ tr, Q (f tr)) → runs loops (perform e ;; ask f) Q.
Proof. intros Hf. by apply runs_bind, runs_perform, runs_ask. Qed.

Lemma runs_con_run_command cmd (Q : result () string → Prop) :
  (∀ r, Q r) → runs loops (con_run_command cmd) Q.
Proof. intros HQ. by apply runs_request. Qed.

Lemma runs_sleep millis (Q : () → Prop) : Q tt → runs loops (sleep millis) Q.
Proof. apply runs_perform. Qed.

Lemma runs_is_file path (Q : bool → Prop) : (∀ b, Q b) → runs loops (is_file path) Q.
Proof. intros HQ. by apply runs_request. Qed.

Lemma runs_read_dir path (Q : result (list string) string → Prop) :
  (∀ r, Q r) → runs loops (read_dir path) Q.
Proof. intros HQ. by apply runs_request. Qed.

Lemma runs_read_file path (Q : result string string → Prop) :
  (∀ r, Q r) → runs loops (read_file path) Q.
Proof. intros HQ. by apply runs_request. Qed.

Lemma runs_spawn prog args stdin (Q : result string string → Prop) :
  (∀ r, Q r) → runs loops (spawn prog args stdin) Q.
Proof. intros HQ. by apply runs_request. Qed.
End Requests.

(** One step along the structure of a call. *)
Ltac io_step :=
  match goal with
  | |- runs _ (mret _) _ => apply runs_ret
  | |- runs _ (_ ≫= _) _ => apply runs_bind
  | |- runs _ (bind_ok _ _) _ => apply runs_bind_ok
  | |- runs _ (ask _) _ => apply runs_ask; intros ?
  | |- runs _ (perform _) _ => apply runs_perform
  | |- runs _ (lift (Done _)) _ => eapply runs_lift; [reflexivity|]
  | |- runs _ (con_run_command _) _ => apply runs_con_run_command; intros ?
  | |- runs _ (sleep _) _ => apply runs_sleep
  | |- runs _ (is_file _) _ => apply runs_is_file; intros ?
  | |- runs _ (read_dir _) _ => apply runs_read_dir; intros ?
  | |- runs _ (read_file _) _ => apply runs_read_file; intros ?
  | |- runs _ (spawn _ _ _) _ => apply runs_spawn; intros ?
  | |- runs _ (for_each _ _) _ => apply runs_for_each; intros ? ?
  | |- runs _ (try_for_each _ _) _ => apply runs_try_for_each; intros ? ?
  | |- runs _ (match ?x with _ => _ end) _ => destruct x
  | |- match ?x with _ => _ end => destruct x
  | |- _ → _ => intros ?
  | |- True => exact I
  end.
Ltac io_steps := repeat io_step.

(** ** Which effects a call adds

    Effects are never taken back, and those that [m] adds have [P], whether it returns
    or not. *)
Definition adds {A} (P : effect → Prop) (m : io A) : Prop :=
  ∀ tr, ∃ l, (m tr).1 = tr ++ l ∧ Forall P l.

Section Adds.
Context (P : effect → Prop).

Lemma adds_ret {A} (a : A) : adds P (mret a).
Proof. intros tr. exists []. by rewrite app_nil_r. Qed.

Lemma adds_lift {A} (o : outcome A) : adds P (lift o).
Proof. intros tr. exists []. by rewrite app_nil_r. Qed.

Lemma adds_ask {A} (f : trace → A) : adds P (ask f).
Proof. intros tr. exists []. by rewrite app_nil_r. Qed.

Lemma adds_perform e : P e → adds P (perform e).
Proof. intros He tr. exists [e]. split; [done|]. by constructor. Qed.

Lemma adds_bind {A B} (m : io A) (f : A → io B) :
  adds P m → (∀ a, adds P (f a)) → adds P (m ≫= f).
Proof.
  intros Hm Hf tr. destruct (Hm tr) as (l1 & E1 & H1). unfold mbind, io_bind.
  destruct (m tr) as [tr1 [a| |]]; cbn in *; subst tr1; [|by exists l1..].
  destruct (Hf a (tr ++ l1)) as (l2 & -> & H2). exists (l1 ++ l2).
  split; [by rewrite (assoc_L (++))|by apply Forall_app].
Qed.

Lemma adds_bind_ok {A B E} (m : io (result A E)) (f : A → io (result B E)) :
  adds P m → (∀ a, adds P (f a)) → adds P (bind_ok f m).
Proof. intros Hm Hf. apply adds_bind; [done|]. intros [a|e]; [apply Hf|apply adds_ret]. Qed.

Lemma adds_done {A} (m : io A) tr tr' a :
  adds P m → m tr = (tr', Done a) → ∃ l, tr' = tr ++ l ∧ Forall P l.
Proof. intros Hm E. destruct (Hm tr) as (l & El & Hl). rewrite E in El. by exists l. Qed.
End Adds.

(** One step along the structure of a call. *)
Ltac adds_step :=
  match goal with
  | |- adds _ (mret _) => apply adds_ret
  | |- adds _ (lift _) => apply adds_lift
  | |- adds _ (panic _) => apply adds_lift
  | |- adds _ (ask _) => apply adds_ask
  | |- adds _ (perform _) => apply adds_perform; exact I
  | |- adds _ (_ ≫= _) => apply adds_bind; [|intros ?]
  | |- adds _ (bind_ok _ _) => apply adds_bind_ok; [|intros ?]
  | |- adds _ (match ?x with _ => _ end) => destruct x
  | |- adds _ (let _ := _ in _) => cbv zeta
  end.
Ltac adds_steps := repeat adds_step.
