(* ===== verification/Samples.v ===== *)
(** * Sample trees and environments

    The concrete inputs at which the witnesses of the theorems are evaluated: a
    root with one output, two workspaces and a few windows, and environments in
    which sway answers every request. *)

From S2P Require Import Prelude Ipc Sway.

(** A node with nothing but an id, a name, a type, a layout and children. *)
Definition inner (i : Z) (nm : option string) (t : NodeType) (l : NodeLayout)
    (w : Z) (ns fs : list node) : node :=
  {| id := i; name := nm; node_type := t; layout := l; rect_width := w;
     focused := false; urgent := false; marks := []; app_id := None; pid := None;
     shell := None; window_properties := None; nodes := ns; floating_nodes := fs |}.

Definition window (i : Z) (app : string) (t : NodeType) (w : Z) (foc urg : bool) : node :=
  {| id := i; name := Some ("title of " +:+ app); node_type := t; layout := Layout_None;
     rect_width := w; focused := foc; urgent := urg; marks := []; app_id := Some app;
     pid := Some i; shell := Some XdgShell; window_properties := None;
     nodes := []; floating_nodes := [] |}.

Definition tiled (i : Z) (app : string) (foc urg : bool) : node :=
  window i app NodeType_Con 960 foc urg.
Definition floating (i : Z) (app : string) (foc urg : bool) : node :=
  window i app NodeType_FloatingCon 500 foc urg.

Definition workspace (i : Z) (nm : string) (ns fs : list node) : node :=
  inner i (Some nm) NodeType_Workspace SplitH 1920 ns fs.
Definition container (i : Z) (l : NodeLayout) (ns : list node) : node :=
  inner i None NodeType_Con l 1920 ns [].
Definition output (i : Z) (nm : string) (ws : list node) : node :=
  inner i (Some nm) NodeType_Output (Layout_other "output") 1920 ws [].
Definition root (outs : list node) : node :=
  inner 1 (Some "root") NodeType_Root SplitH 1920 outs [].

Definition scratchpad : node := output 2 "__i3" [workspace 3 "__i3_scratch" [] []].

Definition sample_ws1 : node :=
  workspace 10 "1"
    [tiled 11 "firefox" false false;
     container 12 SplitV [tiled 13 "foot" true false; tiled 14 "foot" false true]]
    [floating 15 "mpv" false false].
Definition sample_ws2 : node :=
  workspace 20 "2" [tiled 21 "emacs" false false] [].
Definition sample_root : node :=
  root [scratchpad; output 5 "eDP-1" [sample_ws1; sample_ws2]].

(** Environments in which the tree does not change, no program but the menu can be
    run, and there are no files; the shuffle does nothing and the choice is the
    first element. *)
Definition env_with (t : node) (run : trace → result (list (result unit string)) string)
    (menu : result string string) : Env := {|
  env_connect _ := Ok tt;
  env_get_tree _ := Ok t;
  env_get_outputs _ := Ok [];
  env_run_command := run;
  env_spawn _ := menu;
  env_spawn_detached _ := Ok tt;
  env_path_exists _ := true;
  env_is_file _ := false;
  env_read_dir _ := Err "no such directory";
  env_read_file _ := Ok EmptyString;
  env_write_file _ := Ok tt;
  env_create_dir _ := Ok tt;
  env_var x := if decide (x = "HOME") then Some "/home/user" else None;
  env_project_config_dir p := Some ("/home/user/.config/" +:+ p);
  env_data_local_dir := Some "/home/user/.local/share";
  env_shuffle _ l := l;
  env_choose _ l := head l
|}.

(** Sway answers everything with success and with the given tree. *)
Definition quiet_env (t : node) : Env := env_with t (λ _, Ok [Ok tt]) (Err "no menu program").

(** The same, but sway refuses every command. *)
Definition refusing_env (t : node) : Env :=
  env_with t (λ _, Ok [Err "refused"]) (Err "no menu program").

(** Sway refuses every command, and the connection breaks with the given one. *)
Definition failing_env (t : node) (cmd : string) : Env :=
  env_with t (λ tr, if decide (list.last tr = Some (RunCommand cmd)) then Err "broken pipe"
                    else Ok [Err "refused"])
    (Err "no menu program").

(** The same, with a menu program that prints the given line. *)
Definition menu_env (t : node) (line : string) : Env := env_with t (λ _, Ok [Ok tt]) (Ok line).

Lemma sample_typable : typable sample_root.
Proof. unfold typable. decide_now. Qed.
