(* ===== verification/Cfg.v ===== *)
(** * Loading and creating configuration files (swayr/src/shared/cfg.rs)

    Generic in the configuration type [T]: the toml crate's printer and parser and
    the default value are the interface [TomlConfig]. *)

From S2P Require Import Prelude RString Ipc Sway.
From S2P Require Samples.

(** [Serialize + DeserializeOwned + Default], with what the toml crate makes of
    them. *)
Class TomlConfig (T : Type) := {
  to_string_pretty : T → option string;
  from_str : string → option T;
  default_config : T
}.

(** [PathBuf::push] and [Path::join]. *)
Definition ends_with_slash (s : string) : bool :=
  match list.last (chars s) with Some c => bool_decide (c = "/") | None => false end.

Definition path_join (base p : string) : string :=
  if starts_with "/" p then p
  else if bool_decide (base = EmptyString) || ends_with_slash base then base +:+ p
  else base +:+ "/" +:+ p.

Section Cfg.
Context `{Env}.

Definition sys_config_path (project : string) : string :=
  "/etc/xdg/" +:+ project +:+ "/config.toml".

Definition get_config_file_path (project : string) : io string :=
  user_config_dir ← lift (expect "" (env_project_config_dir project));
  there ← path_exists user_config_dir;
  if there : bool then mret (path_join user_config_dir "config.toml")
  else
    sys ← path_exists (sys_config_path project);
    if sys : bool then mret (sys_config_path project)
    else
      r ← create_dir user_config_dir;
      unwrap_ok "called `Result::unwrap()` on an `Err` value" r ;;
      mret (path_join user_config_dir "config.toml").

Definition save_config {T} `{TomlConfig T} (project : string) (cfg : T) : io unit :=
  path ← get_config_file_path project;
  content ← lift (expect "Cannot serialize config." (to_string_pretty cfg));
  r ← write_file path content;
  unwrap_ok "called `Result::unwrap()` on an `Err` value" r.

Definition welcome_message (project path : string) : string :=
  if decide (project = "swayr")
  then "Welcome to swayr! "
       +:+ "I've created a fresh config for use with wofi for you in "
       +:+ path +:+ ". Adapt it to your needs."
  else "Welcome to swayrbar! "
       +:+ "I've created a fresh config for for you in "
       +:+ path +:+ ". Adapt it to your needs.".

Definition load_config_file {T} `{TomlConfig T} (config_file : string) : io T :=
  there ← path_exists config_file;
  if there : bool then
    r ← read_file config_file;
    buf ← unwrap_ok "called `Result::unwrap()` on an `Err` value" r;
    mret match from_str buf with Some cfg => cfg | None => default_config end
  else panic ("Config file " +:+ config_file +:+ " does not exist.").

Definition load_config {T} `{TomlConfig T} (project : string) : io T :=
  path ← get_config_file_path project;
  there ← path_exists path;
  (if there : bool then mret tt
   else
     save_config project default_config ;;
     spawn_detached "swaynag"
       ["--background"; "00FF44"; "--text"; "0000CC"; "--message";
        welcome_message project path; "--type"; "warning"; "--dismiss-button"; "Thanks!"] ;;
     mret tt) ;;
  load_config_file path.
End Cfg.

(** ** Reference definitions *)

(** Effects on the file system only, and the notification. *)
Definition config_effect (e : effect) : Prop :=
  match e with
  | PathExists _ | ReadFile _ | WriteFile _ _ | CreateDir _ => True
  | SpawnDetached p _ => p = "swaynag"
  | _ => False
  end.

(** The last write to [path] in a trace. *)
Fixpoint last_written (path : string) (tr : trace) : option string :=
  match tr with
  | [] => None
  | e :: tr =>
      match last_written path tr with
      | Some c => Some c
      | None => match e with
                | WriteFile p c => if decide (p = path) then Some c else None
                | _ => None
                end
      end
  end.

(** What a file holds after a trace that started with the given files. *)
Definition content (files : gmap string string) (tr : trace) (p : string) : option string :=
  match last_written p tr with Some c => Some c | None => files !! p end.

Definition is_dir (dirs : gset string) (tr : trace) (p : string) : Prop :=
  p ∈ dirs ∨ CreateDir p ∈ tr.

(** A file system over which the program is alone: [files] and [dirs] are there
    from the start, what is written can be read back, and writes succeed. *)
Record FileSystem `{Env} (files : gmap string string) (dirs : gset string) : Prop := {
  fs_exists : ∀ tr p, env_path_exists (tr ++ [PathExists p]) = true ↔
    is_Some (content files tr p) ∨ is_dir dirs tr p;
  fs_read : ∀ tr p c, content files tr p = Some c →
    env_read_file (tr ++ [ReadFile p]) = Ok c;
  fs_write : ∀ tr p c, env_write_file (tr ++ [WriteFile p c]) = Ok tt;
  fs_create : ∀ tr p, env_create_dir (tr ++ [CreateDir p]) = Ok tt
}.

(** The file [load_config] settles for. *)
Definition config_path `{Env} (d project : string) (tr : trace) : string :=
  if env_path_exists (tr ++ [PathExists d]) then path_join d "config.toml"
  else if env_path_exists (tr ++ [PathExists d; PathExists (sys_config_path project)])
  then sys_config_path project else path_join d "config.toml".

(** ** Lemmas *)
Lemma last_written_app p tr1 tr2 :
  last_written p (tr1 ++ tr2)
  = match last_written p tr2 with Some c => Some c | None => last_written p tr1 end.
Proof.
  induction tr1 as [|e tr1 IH]; cbn; [by destruct (last_written p tr2)|].
  rewrite IH. by destruct (last_written p tr2).
Qed.

Section CfgFacts.
Context `{Env} (files : gmap string string) (dirs : gset string).
Context (Hfs : FileSystem files dirs).

(** Steps that change nothing a later query could see. *)
Definition harmless (tr' : trace) : Prop :=
  Forall (λ e, match e with PathExists _ | ReadFile _ => True | _ => False end) tr'.

Lemma content_harmless tr tr' p : harmless tr' → content files (tr ++ tr') p = content files tr p.
Proof.
  intros Ht. unfold content. rewrite last_written_app.
  assert (last_written p tr' = None) as ->; [|done].
  induction Ht as [|e tr' He _ IH]; [done|]. cbn. rewrite IH. by destruct e.
Qed.

Lemma is_dir_harmless tr tr' p : harmless tr' → is_dir dirs (tr ++ tr') p ↔ is_dir dirs tr p.
Proof.
  intros Ht. unfold is_dir. rewrite elem_of_app. split; [|intros [?|?]; [by left|by right; left]].
  intros [?|[?|Hin]]; [by left|by right|].
  unfold harmless in Ht. rewrite Forall_forall in Ht. by apply Ht in Hin.
Qed.

Lemma path_exists_eq p tr :
  path_exists p tr = (tr ++ [PathExists p], Done (env_path_exists (tr ++ [PathExists p]))).
Proof. reflexivity. Qed.

Lemma exists_harmless p tr tr' :
  harmless tr' →
  env_path_exists ((tr ++ tr') ++ [PathExists p]) = env_path_exists (tr ++ [PathExists p]).
Proof.
  intros Ht. apply eq_true_iff_eq.
  by rewrite !(fs_exists _ _ Hfs), content_harmless, is_dir_harmless.
Qed.

(** The steps by which the path is found. *)
Lemma get_config_file_path_done project d tr :
  env_project_config_dir project = Some d →
  ∃ tr', get_config_file_path project tr = (tr ++ tr', Done (config_path d project tr))
    ∧ (harmless tr' ∨ ∃ tr'', harmless tr'' ∧ tr' = tr'' ++ [CreateDir d]
         ∧ config_path d project tr = path_join d "config.toml").
Proof.
  intros Hd. unfold get_config_file_path. rewrite Hd.
  rewrite (io_lift_done _ _ d) by done.
  rewrite (io_bind_done _ _ _ _ _ (path_exists_eq d tr)). unfold config_path.
  destruct (env_path_exists (tr ++ [PathExists d])).
  { eexists. split; [done|]. left. by repeat constructor. }
  rewrite (io_bind_done _ _ _ _ _ (path_exists_eq _ _)), <-!(assoc_L (++)). cbn [app].
  destruct (env_path_exists (tr ++ [PathExists d; PathExists (sys_config_path project)])).
  { eexists. split; [done|]. left. by repeat constructor. }
  exists ([PathExists d; PathExists (sys_config_path project)] ++ [CreateDir d]).
  split; [|right; eexists; split; [|done]; by repeat constructor].
  unfold create_dir, perform, ask, mbind, io_bind. cbn.
  rewrite (fs_create _ _ Hfs). cbn. by rewrite <-(assoc_L (++)).
Qed.

Lemma load_config_file_done {T} `{TomlConfig T} p c tr :
  content files tr p = Some c →
  load_config_file p tr
  = (tr ++ [PathExists p; ReadFile p], Done (default default_config (from_str c))).
Proof.
  intros Hc. unfold load_config_file.
  rewrite (io_bind_done _ _ _ _ _ (path_exists_eq p tr)).
  assert (env_path_exists (tr ++ [PathExists p]) = true) as ->.
  { apply (fs_exists _ _ Hfs). left. by rewrite Hc. }
  unfold read_file, perform, ask, mbind, io_bind. cbn. rewrite <-(assoc_L (++)). cbn.
  assert (env_read_file (tr ++ [PathExists p; ReadFile p]) = Ok c) as ->.
  { change [PathExists p; ReadFile p] with ([PathExists p] ++ [ReadFile p]).
    rewrite (assoc_L (++)). apply (fs_read _ _ Hfs). rewrite content_harmless; [done|].
    by repeat constructor. }
  cbn. by destruct (from_str c).
Qed.

(** What [get_config_file_path] does before it answers. *)
Definition searches (d project : string) (tr tr' : trace) : Prop :=
  harmless tr' ∨ ∃ tr'', harmless tr'' ∧ tr' = tr'' ++ [CreateDir d]
    ∧ config_path d project tr = path_join d "config.toml".

Lemma config_path_stable d project tr tr' :
  searches d project tr tr' → config_path d project (tr ++ tr') = config_path d project tr.
Proof.
  intros [Ht|(tr'' & Ht & -> & Hp)].
  - unfold config_path.
    change [PathExists d; PathExists (sys_config_path project)]
      with ([PathExists d] ++ [PathExists (sys_config_path project)]).
    rewrite !(assoc_L (++)).
    assert (harmless [PathExists d]) as Hd by (by repeat constructor).
    rewrite (exists_harmless d tr tr' Ht).
    rewrite (exists_harmless _ (tr ++ tr') _ Hd), (exists_harmless _ tr tr' Ht).
    by rewrite (exists_harmless _ tr _ Hd).
  - rewrite Hp. unfold config_path.
    assert (env_path_exists ((tr ++ tr'' ++ [CreateDir d]) ++ [PathExists d]) = true) as ->;
      [|done].
    apply (fs_exists _ _ Hfs). right. right. apply elem_of_app. right. apply elem_of_app.
    right. left.
Qed.

Lemma content_searches d project tr tr' p :
  searches d project tr tr' → content files (tr ++ tr') p = content files tr p.
Proof.
  intros [Ht|(tr'' & Ht & -> & _)]; [by apply content_harmless|].
  unfold content. rewrite !last_written_app. cbn.
  pose proof (content_harmless [] tr'' p Ht) as Hc. unfold content in Hc. cbn in Hc.
  destruct (last_written p tr'') eqn:E; [|done].
  exfalso. revert E. clear -Ht. induction Ht as [|e tr'' He _ IH]; [done|]. cbn.
  destruct (last_written p tr''); [done|]. by destruct e.
Qed.

Lemma searches_effects d project tr tr' :
  searches d project tr tr' → Forall config_effect tr'.
Proof.
  assert (∀ t, harmless t → Forall config_effect t) as Hh.
  { intros t Ht. eapply Forall_impl; [exact Ht|]. by intros []. }
  intros [Ht|(tr'' & Ht & -> & _)]; [auto|].
  apply Forall_app. split; [auto|]. by repeat constructor.
Qed.

Lemma load_config_done {T} `{TomlConfig T} project d s tr :
  env_project_config_dir project = Some d →
  to_string_pretty default_config = Some s → from_str s = Some default_config →
  ¬ is_dir dirs tr (config_path d project tr) →
  config_path d project tr ≠ d →
  ∃ tr',
    load_config project tr
    = (tr ++ tr', Done match content files tr (config_path d project tr) with
                       | Some c => default default_config (from_str c)
                       | None => default_config
                       end)
    ∧ Forall config_effect tr'
    ∧ content files (tr ++ tr') (config_path d project tr)
      = Some (default s (content files tr (config_path d project tr))).
Proof.
  intros Hd Hp Hf Hnd Hne. unfold load_config.
  destruct (get_config_file_path_done project d tr Hd) as (tr1 & E1 & Hs1).
  rewrite (io_bind_done _ _ _ _ _ E1), (io_bind_done _ _ _ _ _ (path_exists_eq _ _)).
  set (path := config_path d project tr) in *.
  pose proof (content_searches d project tr tr1 path Hs1) as Hc1.
  destruct (content files tr path) as [c|] eqn:Ec.
  - assert (env_path_exists ((tr ++ tr1) ++ [PathExists path]) = true) as ->.
    { apply (fs_exists _ _ Hfs). left. by rewrite Hc1. }
    rewrite (io_bind_done _ _ _ _ _ eq_refl).
    assert (harmless [PathExists path]) as Hh by (by repeat constructor).
    rewrite (load_config_file_done path c) by (by rewrite content_harmless).
    eexists. rewrite <-!(assoc_L (++)). split; [done|]. split.
    + apply Forall_app. split; [by eapply searches_effects|]. by repeat constructor.
    + rewrite (assoc_L (++)), content_harmless by (by repeat constructor).
      by rewrite Hc1.
  - assert (env_path_exists ((tr ++ tr1) ++ [PathExists path]) = false) as ->.
    { apply not_true_is_false. rewrite (fs_exists _ _ Hfs), Hc1.
      intros [[? ?]|Hdir]; [done|]. apply Hnd. destruct Hdir as [?|Hin]; [by left|].
      apply elem_of_app in Hin as [?|Hin]; [by right|]. exfalso.
      destruct Hs1 as [Ht|(tr'' & Ht & -> & _)];
        unfold harmless in Ht; rewrite Forall_forall in Ht; [by apply Ht in Hin|].
      apply elem_of_app in Hin as [Hin|[= ->]%list_elem_of_singleton]; [by apply Ht in Hin|done]. }
    set (tr2 := (tr ++ tr1) ++ [PathExists path]).
    assert (config_path d project tr2 = path) as Hp2.
    { unfold tr2. rewrite config_path_stable by (left; by repeat constructor).
      by rewrite config_path_stable. }
    destruct (get_config_file_path_done project d tr2 Hd) as (tr3 & E3 & Hs3).
    rewrite Hp2 in E3. set (tr4 := (tr2 ++ tr3) ++ [WriteFile path s]).
    assert (save_config project default_config tr2 = (tr4, Done tt)) as Esave.
    { unfold save_config. rewrite (io_bind_done _ _ _ _ _ E3), Hp.
      rewrite (io_lift_done _ _ s) by done.
      unfold write_file, perform, ask, mbind, io_bind. cbn.
      by rewrite (fs_write _ _ Hfs). }
    set (sp := SpawnDetached "swaynag"
       ["--background"; "00FF44"; "--text"; "0000CC"; "--message";
        welcome_message project path; "--type"; "warning"; "--dismiss-button"; "Thanks!"]).
    rewrite (io_bind_done _ _ _ (tr4 ++ [sp]) tt).
    2: { rewrite (io_bind_done _ _ _ _ _ Esave). done. }
    rewrite (load_config_file_done path s).
    2: { unfold content, tr4. rewrite !last_written_app. cbn. by rewrite decide_True. }
    rewrite Hf. exists (tr1 ++ [PathExists path] ++ tr3 ++ [WriteFile path s; sp]
                        ++ [PathExists path; ReadFile path]).
    unfold tr4, tr2. rewrite <-!(assoc_L (++)). split; [done|]. split.
    + repeat (apply Forall_app; split); try (eapply searches_effects; eassumption);
        by repeat constructor.
    + unfold content. rewrite !last_written_app. cbn. by rewrite decide_True.
Qed.
End CfgFacts.

(** ** Claims *)

(** C33: With a working file system [load_config] never panics, whatever text
    the file holds (UTF-8, as all files of the model): it reads the user's file, or the system-wide one when the user's
    directory is missing and there is a system-wide one; an existing file's
    configuration is returned, or the default one when the file does not parse;
    a missing file is created with the default configuration, which is returned.
    Nothing but the file system is touched, apart from a notification. *)
Theorem load_config_total `{Env} {T} `{TomlConfig T} files dirs project d s tr :
  FileSystem files dirs →
  env_project_config_dir project = Some d →
  to_string_pretty default_config = Some s → from_str s = Some default_config →
  ¬ is_dir dirs tr (config_path d project tr) →
  config_path d project tr ≠ d →
  ∃ tr',
    load_config project tr
    = (tr ++ tr', Done match content files tr (config_path d project tr) with
                       | Some c => default default_config (from_str c)
                       | None => default_config
                       end)
    ∧ Forall config_effect tr'
    ∧ content files (tr ++ tr') (config_path d project tr)
      = Some (default s (content files tr (config_path d project tr))).
Proof. intros Hfs. by apply load_config_done. Qed.

(** ** Witness: an empty disk, and strings as configurations *)
Definition empty_disk : Env :=
  let base := Samples.quiet_env Samples.sample_root in {|
  env_connect := @env_connect base;
  env_get_tree := @env_get_tree base;
  env_get_outputs := @env_get_outputs base;
  env_run_command := @env_run_command base;
  env_spawn := @env_spawn base;
  env_spawn_detached _ := Err "no swaynag";
  env_path_exists tr :=
    match list.last tr with
    | Some (PathExists p) =>
        bool_decide (is_Some (content ∅ (removelast tr) p)
                     ∨ p ∈ (∅ : gset string) ∨ CreateDir p ∈ removelast tr)
    | _ => false
    end;
  env_is_file _ := false;
  env_read_dir _ := Err "no such directory";
  env_read_file tr :=
    match list.last tr with
    | Some (ReadFile p) =>
        match content ∅ (removelast tr) p with Some c => Ok c | None => Err "no such file" end
    | _ => Err "no request"
    end;
  env_write_file _ := Ok tt;
  env_create_dir _ := Ok tt;
  env_var := @env_var base;
  env_project_config_dir := @env_project_config_dir base;
  env_data_local_dir := None;
  env_shuffle _ l := l;
  env_choose _ l := head l
|}.

Lemma removelast_snoc {A} (l : list A) x : removelast (l ++ [x]) = l.
Proof. apply removelast_last. Qed.

Lemma empty_disk_fs : @FileSystem empty_disk ∅ ∅.
Proof.
  split; intros; cbn; rewrite ?last_snoc, ?removelast_snoc.
  - apply bool_decide_eq_true.
  - rewrite H. done.
  - done.
  - done.
Qed.

Definition string_config : TomlConfig string :=
  {| to_string_pretty c := Some c; from_str c := Some c; default_config := "default" |}.

Lemma load_config_total_witness :
  ∃ tr', @load_config empty_disk string string_config "swayr" [] = (tr', Done "default")
    ∧ content ∅ tr' "/home/user/.config/swayr/config.toml" = Some "default".
Proof.
  destruct (@load_config_total empty_disk string string_config ∅ ∅ "swayr"
    "/home/user/.config/swayr" "default" []) as (tr' & E & _ & Hc).
  - apply empty_disk_fs.
  - reflexivity.
  - reflexivity.
  - reflexivity.
  - intros [H|H]; [by apply not_elem_of_empty in H|by apply elem_of_nil in H].
  - vm_compute. discriminate.
  - exists tr'. split; [exact E|exact Hc].
Defined.
