(* ===== verification/Config.v ===== *)
(** * The configuration of swayr (swayr/src/config.rs)

    The TOML data with every field optional, its defaults, and the getters, each
    of which falls back to the default of its section and then [expect]s a value.
    Durations are milliseconds. *)

From S2P Require Import Prelude RString.

Record Menu := { executable : option string; args : option (list string) }.

Record Format := {
  output_format : option string;
  workspace_format : option string;
  container_format : option string;
  window_format : option string;
  indent : option string;
  urgency_start : option string;
  urgency_end : option string;
  html_escape : option bool;
  icon_dirs : option (list string);
  fallback_icon : option string
}.

Record Layout := {
  auto_tile : option bool;
  auto_tile_min_window_width_per_output_width : option (list (Z * Z))
}.

Record Focus := { lockin_delay : option Z }.

Record Misc := { auto_nop_delay : option Z; seq_inhibit : option bool }.

Record Config := {
  menu : option Menu;
  format : option Format;
  layout : option Layout;
  focus : option Focus;
  misc : option Misc
}.

(** ** Defaults *)
Definition Menu_default : Menu := {|
  executable := Some "wofi";
  args := Some ["--show=dmenu"; "--allow-markup"; "--allow-images"; "--insensitive";
                "--cache-file=/dev/null"; "--parse-search"; "--height=40%";
                "--prompt={prompt}"]
|}.

Definition id_span : string :=
  "    <span alpha=" +:+ dq +:+ "20000" +:+ dq +:+ ">({id})</span>".

Definition Format_default : Format := {|
  output_format := Some ("{indent}<b>Output {name}</b>" +:+ id_span);
  workspace_format :=
    Some ("{indent}<b>Workspace {name} [{layout}]</b> on output {output_name}" +:+ id_span);
  container_format :=
    Some ("{indent}<b>Container [{layout}]</b> <i>{marks}</i> on workspace {workspace_name}"
          +:+ id_span);
  window_format :=
    Some ("img:{app_icon}:text:{indent}<i>{app_name}</i> — {urgency_start}<b>“{title}”</b>{urgency_end} <i>{marks}</i> on workspace {workspace_name} / {output_name}"
          +:+ id_span);
  indent := Some "    ";
  html_escape := Some true;
  urgency_start :=
    Some ("<span background=" +:+ dq +:+ "darkred" +:+ dq +:+ " foreground="
          +:+ dq +:+ "yellow" +:+ dq +:+ ">");
  urgency_end := Some "</span>";
  icon_dirs := Some ["/usr/share/icons/hicolor/scalable/apps";
                     "/usr/share/icons/hicolor/64x64/apps";
                     "/usr/share/icons/hicolor/48x48/apps";
                     "/usr/share/icons/Adwaita/64x64/apps";
                     "/usr/share/icons/Adwaita/48x48/apps";
                     "/usr/share/pixmaps"];
  fallback_icon := None
|}.

Definition Layout_default : Layout := {|
  auto_tile := Some false;
  auto_tile_min_window_width_per_output_width :=
    Some [(800, 400); (1024, 500); (1280, 600); (1400, 680); (1440, 700); (1600, 780);
          (1920, 920); (2560, 1000); (3440, 1000); (4096, 1200)]%Z
|}.

Definition Focus_default : Focus := {| lockin_delay := Some 750%Z |}.

Definition Misc_default : Misc :=
  {| auto_nop_delay := None; seq_inhibit := Some false |}.

Definition Config_default : Config := {|
  menu := Some Menu_default;
  format := Some Format_default;
  layout := Some Layout_default;
  focus := Some Focus_default;
  misc := Some Misc_default
|}.

(** ** Getters *)

(** [.or_else(|| d)]. *)
Definition or_else {A} (o d : option A) : option A :=
  match o with Some _ => o | None => d end.

Definition get_menu_executable (c : Config) : outcome string :=
  expect "No menu.executable defined!"
    (or_else (menu c ≫= executable) (executable Menu_default)).

Definition get_menu_args (c : Config) : outcome (list string) :=
  expect "No menu.args defined."
    (or_else (menu c ≫= args) (args Menu_default)).

Definition get_format_output_format (c : Config) : outcome string :=
  expect "No format.output_format defined."
    (or_else (format c ≫= output_format) (output_format Format_default)).

Definition get_format_workspace_format (c : Config) : outcome string :=
  expect "No format.workspace_format defined."
    (or_else (format c ≫= workspace_format) (workspace_format Format_default)).

Definition get_format_container_format (c : Config) : outcome string :=
  expect "No format.container_format defined."
    (or_else (format c ≫= container_format) (container_format Format_default)).

Definition get_format_window_format (c : Config) : outcome string :=
  expect "No format.window_format defined."
    (or_else (format c ≫= window_format) (window_format Format_default)).

Definition get_format_indent (c : Config) : outcome string :=
  expect "No format.indent defined."
    (or_else (format c ≫= indent) (indent Format_default)).

Definition get_format_urgency_start (c : Config) : outcome string :=
  expect "No format.urgency_start defined."
    (or_else (format c ≫= urgency_start) (urgency_start Format_default)).

Definition get_format_urgency_end (c : Config) : outcome string :=
  expect "No format.urgency_end defined."
    (or_else (format c ≫= urgency_end) (urgency_end Format_default)).

Definition get_format_html_escape (c : Config) : outcome bool :=
  expect "No format.html_escape defined."
    (or_else (format c ≫= html_escape) (html_escape Format_default)).

(** [home] is the environment variable [HOME]. *)
Fixpoint tilde_expand_file_names (home : option string) (file_names : list string)
    : outcome (list string) :=
  match file_names with
  | [] => Done []
  | file_name :: file_names =>
      f ← (if starts_with "~" file_name
           then h ← expect "$HOME not defined" home; Done (replace_first "~" h file_name)
           else Done file_name);
      r ← tilde_expand_file_names home file_names;
      Done (f :: r)
  end.

Definition get_format_icon_dirs (home : option string) (c : Config)
    : outcome (list string) :=
  match or_else (format c ≫= icon_dirs) (icon_dirs Format_default) with
  | Some dirs => tilde_expand_file_names home dirs
  | None => Panics "No format.icon_dirs defined."
  end.

Definition get_format_fallback_icon (c : Config) : option string :=
  or_else (format c ≫= fallback_icon) (fallback_icon Format_default).

Definition is_layout_auto_tile (c : Config) : outcome bool :=
  expect "No layout.auto_tile defined."
    (or_else (layout c ≫= auto_tile) (auto_tile Layout_default)).

Definition auto_tile_as_map (l : Layout) : option (gmap Z Z) :=
  match auto_tile_min_window_width_per_output_width l with
  | Some vec => Some (foldl (λ m tup, <[tup.1 := tup.2]> m) ∅ vec)
  | None => None
  end.

Definition get_layout_auto_tile_as_map (c : Config) : outcome (gmap Z Z) :=
  expect "No layout.auto_tile_min_window_width_per_output_width defined."
    (or_else (layout c ≫= auto_tile_as_map) (auto_tile_as_map Layout_default)).

Definition get_focus_lockin_delay (c : Config) : outcome Z :=
  expect "No focus.lockin_delay defined."
    (or_else (focus c ≫= lockin_delay) (lockin_delay Focus_default)).

Definition get_misc_auto_nop_delay (c : Config) : option Z :=
  misc c ≫= auto_nop_delay.

Definition get_misc_seq_inhibit (c : Config) : outcome bool :=
  expect "No misc.seq_inhibit defined."
    (or_else (misc c ≫= seq_inhibit) (seq_inhibit Misc_default)).

(** ** Lemmas *)
Lemma expect_or_else {A} msg (o : option A) d :
  expect msg (or_else o (Some d)) = Done (default d o).
Proof. by destruct o. Qed.

Lemma or_else_None {A} (o : option A) : or_else o None = o.
Proof. by destruct o. Qed.

Lemma replace_first_tilde h s :
  starts_with "~" s = true → replace_first "~" h s = h +:+ drop_bytes 1 s.
Proof. intros E. destruct s; cbn in *; [done|]. by rewrite E. Qed.

(** The expansion of one file name. *)
Definition tilde_expand (home f : string) : string :=
  if starts_with "~" f then home +:+ drop_bytes 1 f else f.

Lemma tilde_expand_home home fs :
  tilde_expand_file_names (Some home) fs = Done (tilde_expand home <$> fs).
Proof.
  induction fs as [|f fs IH]; [done|]. cbn [tilde_expand_file_names fmap list_fmap].
  unfold tilde_expand at 1. rewrite IH. destruct (starts_with "~" f) eqn:E; cbn.
  - by rewrite replace_first_tilde.
  - done.
Qed.

Lemma tilde_expand_no_tilde home fs :
  Forall (λ f, starts_with "~" f = false) fs → tilde_expand_file_names home fs = Done fs.
Proof.
  induction 1 as [|f fs Hf _ IH]; [done|].
  cbn [tilde_expand_file_names]. by rewrite Hf, IH.
Qed.

Lemma tilde_expand_no_home fs :
  Exists (λ f, starts_with "~" f = true) fs →
  tilde_expand_file_names None fs = Panics "$HOME not defined".
Proof.
  induction fs as [|f fs IH]; [by intros ?%Exists_nil|].
  rewrite Exists_cons. cbn [tilde_expand_file_names].
  destruct (starts_with "~" f) eqn:E; [done|]. intros [?|Hfs]; [done|].
  by rewrite (IH Hfs).
Qed.

(** In the width map a later entry replaces an earlier one for the same width. *)
Definition last_entry (w : Z) (vec : list (Z * Z)) : option Z :=
  snd <$> last (filter (λ tup, tup.1 = w) vec).

Lemma foldl_insert_lookup vec (m : gmap Z Z) w :
  foldl (λ m tup, <[tup.1 := tup.2]> m) m vec !! w
  = or_else (last_entry w vec) (m !! w).
Proof.
  revert m. induction vec as [|[a b] vec IH]; intros m; [done|].
  cbn [foldl fst snd]. rewrite IH. unfold last_entry. rewrite filter_cons. cbn.
  rewrite lookup_insert. case_decide; [|done]. subst.
  rewrite last_cons. by destruct (last _).
Qed.

(** The value of a field: the configured one, else the default's. *)
Definition configured {S A} (sec : option S) (field : S → option A) (d : A) : A :=
  default d (sec ≫= field).

Definition default_dirs : list string := default [] (icon_dirs Format_default).
Definition default_widths : list (Z * Z) :=
  default [] (auto_tile_min_window_width_per_output_width Layout_default).

Lemma icon_dirs_eq home c :
  get_format_icon_dirs home c
  = tilde_expand_file_names home (configured (format c) icon_dirs default_dirs).
Proof.
  unfold get_format_icon_dirs, configured. by destruct (format c ≫= icon_dirs).
Qed.

Lemma auto_tile_map_eq c :
  ∃ m, get_layout_auto_tile_as_map c = Done m
       ∧ ∀ w, m !! w = last_entry w
           (configured (layout c) auto_tile_min_window_width_per_output_width
              default_widths).
Proof.
  unfold get_layout_auto_tile_as_map, configured, auto_tile_as_map.
  destruct (layout c) as [[? [vec|]]|]; cbn [mbind option_bind or_else expect];
    (eexists; split; [reflexivity|]; intros w).
  all: rewrite foldl_insert_lookup, lookup_empty, or_else_None; reflexivity.
Qed.

(** ** Properties *)

(** no getter of the configuration panics, whatever is left out of the file:
    each returns the configured value, or else the default.  The only exception is
    the list of icon directories, which panics exactly when some directory starts
    with a tilde and [HOME] is not set; otherwise every leading tilde is replaced by
    [HOME].  In the width map the last entry for a width wins. *)
Theorem config_getters_total c h :
  get_menu_executable c = Done (configured (menu c) executable "wofi")
  ∧ (∃ d, get_menu_args c = Done (configured (menu c) args d))
  ∧ (∃ d, get_format_window_format c = Done (configured (format c) window_format d))
  ∧ get_format_indent c = Done (configured (format c) indent "    ")
  ∧ get_format_html_escape c = Done (configured (format c) html_escape true)
  ∧ is_layout_auto_tile c = Done (configured (layout c) auto_tile false)
  ∧ get_focus_lockin_delay c = Done (configured (focus c) lockin_delay 750%Z)
  ∧ get_misc_seq_inhibit c = Done (configured (misc c) seq_inhibit false)
  ∧ get_format_icon_dirs (Some h) c
    = Done (tilde_expand h <$> configured (format c) icon_dirs default_dirs)
  ∧ (get_format_icon_dirs None c = Panics "$HOME not defined"
     ↔ Exists (λ f, starts_with "~" f = true)
         (configured (format c) icon_dirs default_dirs))
  ∧ ∃ m, get_layout_auto_tile_as_map c = Done m
      ∧ ∀ w, m !! w = last_entry w
          (configured (layout c) auto_tile_min_window_width_per_output_width
             default_widths).
Proof.
  split_and!; try apply expect_or_else; try (eexists; apply expect_or_else).
  - by rewrite icon_dirs_eq, tilde_expand_home.
  - rewrite icon_dirs_eq. split; [|apply tilde_expand_no_home].
    destruct (decide (Exists (λ f, starts_with "~" f = true)
      (configured (format c) icon_dirs default_dirs))) as [|Hn]; [done|].
    rewrite tilde_expand_no_tilde; [done|]. apply not_Exists_Forall in Hn; [|apply _].
    eapply Forall_impl; [exact Hn|]. intros f Hf. by apply not_true_iff_false.
  - apply auto_tile_map_eq.
Qed.
