(* ===== verification/Util.v ===== *)
(** * Icons, the socket path and the selection menu (swayr/src/util.rs)

    [select_from_menu] formats the choices, feeds them to the menu program and
    looks up what it prints.  The icons of the desktop entries are collected once,
    in a static variable. *)

From S2P Require Import Prelude RString Regex Config Ipc Sway Cfg.
From S2P Require Samples.

Section Util.
Context `{Env}.

Definition get_swayr_socket_path : string :=
  default "/tmp" (env_var "XDG_RUNTIME_DIR") +:+ "/swayr-"
  +:+ default "unknown" (env_var "WAYLAND_DISPLAY") +:+ ".sock".
End Util.

(** ** Paths, as [std::path] sees them *)
Inductive component := RootDir | CurDir | ParentDir | Normal (s : string).

#[export] Instance component_eq_dec : EqDecision component.
Proof. solve_decision. Defined.

(** Empty and inner "." parts do not count. *)
Definition to_component (s : string) : option component :=
  if decide (s = EmptyString) then None
  else if decide (s = ".") then None
  else if decide (s = "..") then Some ParentDir
  else Some (Normal s).

Definition components (p : string) : list component :=
  let parts := split "/" p in
  (if starts_with "/" p then [RootDir]
   else if bool_decide (head parts = Some ".") then [CurDir] else [])
  ++ omap to_component parts.

Definition component_rank (c : component) : nat :=
  match c with RootDir => 0 | CurDir => 1 | ParentDir => 2 | Normal _ => 3 end.

Definition component_cmp (a b : component) : comparison :=
  match a, b with
  | Normal s, Normal t => String.compare s t
  | _, _ => Nat.compare (component_rank a) (component_rank b)
  end.

Fixpoint components_cmp (a b : list component) : comparison :=
  match a, b with
  | [], [] => Eq
  | [], _ => Lt
  | _, [] => Gt
  | x :: a, y :: b =>
      match component_cmp x y with Eq => components_cmp a b | c => c end
  end.

Definition path_cmp (a b : string) : comparison := components_cmp (components a) (components b).

(** [Vec::dedup]: drops an element equal to the one kept before it. *)
Fixpoint dedup_from (prev : string) (l : list string) : list string :=
  match l with
  | [] => []
  | x :: l =>
      if decide (components x = components prev) then dedup_from prev l
      else x :: dedup_from x l
  end.
Definition dedup (l : list string) : list string :=
  match l with [] => [] | x :: l => x :: dedup_from x l end.

(** [Path::file_name], and its stem and extension. *)
Definition file_name (p : string) : option string :=
  match list.last (components p) with Some (Normal s) => Some s | _ => None end.

Definition stem_and_extension (name : string) : string * option string :=
  match reverse (split "." name) with
  | (ext :: _ :: _) as before =>
      let stem := join "." (reverse (tail before)) in
      if decide (stem = EmptyString) then (name, None) else (stem, Some ext)
  | _ => (name, None)
  end.

Definition extension (p : string) : option string :=
  file_name p ≫= λ n, (stem_and_extension n).2.

(** [e.with_extension("").file_name().unwrap()]. *)
Definition file_name_no_extension (p : string) : outcome string :=
  n ← unwrap (file_name p); Done (stem_and_extension n).1.

(** ** Icons *)
Section Icons.
Context `{Env} `{RegexCrate}.

Definition desktop_entry_folders : list string :=
  let home := match env_data_local_dir with
              | Some d => [path_join d "applications/"] | None => [] end in
  let xdg := match env_var "XDG_DATA_DIRS" with
             | Some ds => (λ dir, path_join dir "applications/") <$> split ":" ds
             | None => [] end in
  dedup (sort_by path_cmp
    (home ++ ["/usr/local/share/applications/"; "/usr/share/applications/"] ++ xdg)).

(** Keeps the elements a test with effects accepts. *)
Fixpoint filter_io {A} (p : A → io bool) (l : list A) : io (list A) :=
  match l with
  | [] => mret []
  | x :: l => b ← p x; r ← filter_io p l; mret (if b : bool then x :: r else r)
  end.

Fixpoint desktop_entries_of (dirs : list string) : io (list string) :=
  match dirs with
  | [] => mret []
  | dir :: dirs =>
      r ← read_dir dir;
      es ← match r with
           | Ok paths =>
               filter_io (λ path,
                 b ← is_file path;
                 mret (b && bool_decide (extension path = Some "desktop"))) paths
           | Err _ => mret []
           end;
      rest ← desktop_entries_of dirs;
      mret (es ++ rest)
  end.

Definition desktop_entries : io (list string) := desktop_entries_of desktop_entry_folders.

(** The first candidate that is a file. *)
Fixpoint find_file (candidates : list string) : io (option string) :=
  match candidates with
  | [] => mret None
  | c :: candidates =>
      b ← is_file c; if b : bool then mret (Some c) else find_file candidates
  end.

Definition find_icon (icon_name : string) (icon_dirs : list string) : io (option string) :=
  find_file (icon_name ::
    (dir ← icon_dirs; ext ← ["png"; "svg"];
     [path_join dir (icon_name +:+ "." +:+ ext)])).

Definition WM_CLASS_OR_ICON_RX : string := "(StartupWMClass|Icon)=(.+)".
Definition REV_DOMAIN_NAME_RX : string := "^(?:[a-zA-Z0-9-]+\.)+([a-zA-Z0-9-]+)$".

(** [cap.get(i).unwrap().as_str()]. *)
Definition group (caps : list (option string)) (i : nat) : outcome string :=
  unwrap (mjoin (caps !! i)).

(** The lines of a desktop file, until both values are known. *)
Fixpoint scan_desktop_file (rx : regex) (icon_dirs : list string) (ls : list string)
    (wm_class icon : option string) : io (option string * option string) :=
  match ls with
  | [] => mret (wm_class, icon)
  | line :: ls =>
      if is_some wm_class && is_some icon then mret (wm_class, icon)
      else
        match captures rx line with
        | Some cap =>
            key ← lift (group cap 1);
            if decide (key = "StartupWMClass")
            then
              v ← lift (group cap 2);
              scan_desktop_file rx icon_dirs ls (Some v) icon
            else
              v ← lift (group cap 2);
              icon_file ← find_icon v icon_dirs;
              scan_desktop_file rx icon_dirs ls wm_class
                (match icon_file with Some f => Some f | None => icon end)
        | None => scan_desktop_file rx icon_dirs ls wm_class icon
        end
  end.

(** The entries a desktop file adds. *)
Definition add_icon (rev_rx : regex) (e : string) (wm_class icon : option string)
    (map : gmap string string) : outcome (gmap string string) :=
  match icon with
  | None => Done map
  | Some icon =>
      let map := match wm_class with Some c => <[c := icon]> map | None => map end in
      desktop_file_name ← file_name_no_extension e;
      map ← match captures rev_rx desktop_file_name with
            | Some caps => n ← group caps 1; Done (<[n := icon]> map)
            | None => Done map
            end;
      Done (<[desktop_file_name := icon]> map)
  end.

Fixpoint add_icons (rx rev_rx : regex) (icon_dirs : list string) (es : list string)
    (map : gmap string string) : io (gmap string string) :=
  match es with
  | [] => mret map
  | e :: es =>
      f ← read_file e;
      match f with
      | Ok text =>
          r ← scan_desktop_file rx icon_dirs (lines text) None None;
          map ← lift (add_icon rev_rx e r.1 r.2 map);
          add_icons rx rev_rx icon_dirs es map
      | Err _ => add_icons rx rev_rx icon_dirs es map
      end
  end.

Definition get_app_id_to_icon_map (icon_dirs : list string) : io (gmap string string) :=
  rx ← lift (rx_unwrap WM_CLASS_OR_ICON_RX);
  rev_rx ← lift (rx_unwrap REV_DOMAIN_NAME_RX);
  es ← desktop_entries;
  add_icons rx rev_rx icon_dirs es ∅.

(** [APP_ID_TO_ICON_MAP]. *)
Definition icon_map_of (tr : trace) : option (gmap string string) :=
  list.last (omap (λ e, match e with SetIconMap m => Some m | _ => None end) tr).

Definition get_icon (app_id : string) (icon_dirs : list string) : io (option string) :=
  opt ← ask icon_map_of;
  match opt with
  | Some m => mret (m !! app_id)
  | None =>
      m ← get_app_id_to_icon_map icon_dirs;
      perform (SetIconMap m) ;;
      mret (m !! app_id)
  end.
End Icons.

(** ** The menu *)

(** [DisplayFormat]. *)
Class DisplayFormat `{Env} (TS : Type) := {
  format_for_display : TS → Config → io string;
  get_indent_level : TS → outcome nat
}.

(** The toml crate on [Config]. *)
Class ConfigToml := {
  config_to_string_pretty : Config → option string;
  config_from_str : string → option Config
}.

#[export] Instance config_toml `{ConfigToml} : TomlConfig Config :=
  {| to_string_pretty := config_to_string_pretty;
     from_str := config_from_str;
     default_config := Config_default |}.

Definition nul : ascii := "000"%char.

Section Menu.
Context `{Env} `{ConfigToml} {TS : Type} `{!DisplayFormat TS}.

Definition load_swayr_config : io Config := load_config "swayr".

(** The entries of one choice: its text up to a NUL, if it has one, and its whole
    text. *)
Definition add_choice (map : gmap string TS) (s : string) (c : TS) : gmap string TS :=
  let map :=
    if contains (String nul EmptyString) s
    then match split nul s with prefix :: _ => <[prefix := c]> map | [] => map end
    else map in
  <[s := c]> map.

Fixpoint format_choices (cfg : Config) (choices : list TS) (map : gmap string TS)
    (strs : list string) : io (gmap string TS * list string) :=
  match choices with
  | [] => mret (map, strs)
  | c :: choices =>
      s ← format_for_display c cfg;
      format_choices cfg choices (add_choice map s c) (strs ++ [s])
  end.

Definition select_from_menu (prompt : string) (choices : list TS) : io (result TS string) :=
  cfg ← load_swayr_config;
  r ← format_choices cfg choices ∅ [];
  let '(map, strs) := r : gmap string TS * list string in
  menu_exec ← lift (get_menu_executable cfg);
  args ← lift (get_menu_args cfg);
  out ← spawn menu_exec (replace "{prompt}" prompt <$> args) (join nl strs);
  match out with
  | Err _ => panic ("Error running " +:+ menu_exec)
  | Ok output =>
      let choice := pop output in
      mret match map !! choice with Some c => Ok c | None => Err choice end
  end.
End Menu.

(** ** Reference definitions *)

(** The lines the menu program may print for a choice. *)
Definition prints (s line : string) : bool :=
  bool_decide (s = line)
  || contains (String nul EmptyString) s && bool_decide (head (split nul s) = Some line).

(** ** Lemmas *)
Lemma split_head sep s : ∃ w ws, split sep s = w :: ws.
Proof.
  induction s as [|c s (w & ws & E)]; cbn; [by exists EmptyString, []|].
  destruct (decide (c = sep)); [by eexists _, _|]. rewrite E. by eexists _, _.
Qed.

Lemma add_choice_lookup {TS} (map : gmap string TS) s c line :
  add_choice map s c !! line = if prints s line then Some c else map !! line.
Proof.
  unfold add_choice, prints.
  destruct (decide (s = line)) as [->|Hne].
  { rewrite bool_decide_true by done. by rewrite lookup_insert_eq. }
  rewrite bool_decide_false, lookup_insert_ne by done. cbn [orb].
  destruct (contains (String nul EmptyString) s); [|done]. cbn [andb].
  destruct (split_head nul s) as (w & ws & E). rewrite E. cbn [head].
  destruct (decide (w = line)) as [->|Hw].
  - rewrite bool_decide_true by done. by rewrite lookup_insert_eq.
  - rewrite bool_decide_false by congruence. by rewrite lookup_insert_ne.
Qed.

Section MenuFacts.
Context `{Env} `{ConfigToml} {TS : Type} `{!DisplayFormat TS}.

(** The texts of the choices, made one after the other. *)
Fixpoint display_all (cfg : Config) (choices : list TS) : io (list string) :=
  match choices with
  | [] => mret []
  | c :: choices =>
      s ← format_for_display c cfg;
      texts ← display_all cfg choices;
      mret (s :: texts)
  end.

(** The last choice whose text may be printed as the line. *)
Definition chosen (line : string) (texts : list string) (choices : list TS) : option TS :=
  snd <$> find (λ p, prints (fst p) line) (reverse (zip texts choices)).

Lemma find_snoc {A} (f : A → bool) l x :
  find f (l ++ [x]) = match find f l with
                      | Some y => Some y
                      | None => if f x then Some x else None
                      end.
Proof. induction l as [|y l IH]; cbn; [by destruct (f x)|]. by destruct (f y). Qed.

Lemma format_choices_spec cfg choices map strs tr :
  match display_all cfg choices tr with
  | (tr', Done texts) =>
      ∃ map', format_choices cfg choices map strs tr = (tr', Done (map', strs ++ texts))
        ∧ ∀ line, map' !! line = match chosen line texts choices with
                                 | Some c => Some c
                                 | None => map !! line
                                 end
  | (tr', Panics msg) => format_choices cfg choices map strs tr = (tr', Panics msg)
  | (tr', NoReturn) => format_choices cfg choices map strs tr = (tr', NoReturn)
  end.
Proof.
  revert map strs tr. induction choices as [|c choices IH]; intros map strs tr.
  { exists map. cbn. by rewrite app_nil_r. }
  cbn [display_all format_choices]. unfold mbind, io_bind.
  destruct (format_for_display c cfg tr) as [tr1 [s|msg|]]; [|done..].
  specialize (IH (add_choice map s c) (strs ++ [s]) tr1).
  destruct (display_all cfg choices tr1) as [tr2 [texts|msg|]]; [|exact IH..].
  destruct IH as (map' & E & Hm). exists map'.
  split; [by rewrite E, <- (assoc_L (++))|]. intros line. rewrite Hm, add_choice_lookup.
  unfold chosen. cbn [zip zip_with]. rewrite reverse_cons, find_snoc. cbn [fst].
  destruct (find _ _); [done|]. by destruct (prints s line).
Qed.

Lemma menu_getters cfg :
  ∃ exec args, get_menu_executable cfg = Done exec ∧ get_menu_args cfg = Done args.
Proof.
  unfold get_menu_executable, get_menu_args.
  destruct (menu cfg ≫= executable), (menu cfg ≫= args); cbn; eauto.
Qed.

End MenuFacts.

Section IconFacts.
Context `{Env} `{RegexCrate}.

(** The desktop entries are read at most once: after a first lookup of an icon
    every later one, of any application and with any directories, has no effect
    and answers from the same map. *)
Theorem get_icon_reads_once app_id dirs tr tr1 tr2 icon app_id' dirs' :
  get_icon app_id dirs tr = (tr1, Done icon) →
  icon_map_of tr2 = None →
  ∃ m : gmap string string, icon = m !! app_id
    ∧ get_icon app_id' dirs' (tr1 ++ tr2) = (tr1 ++ tr2, Done (m !! app_id')).
Proof.
  intros Hg H2. unfold get_icon, ask, perform, mbind, io_bind, mret, io_ret in *.
  unfold icon_map_of in *. cbv beta iota in *. rewrite omap_app.
  apply last_None in H2. rewrite H2, app_nil_r.
  destruct (list.last (omap _ tr)) as [m|] eqn:E.
  - injection Hg as <- <-. exists m. by rewrite E.
  - destruct (get_app_id_to_icon_map dirs tr) as [tr' [m|msg|]]; cbn in Hg; try done.
    injection Hg as <- <-. exists m. split; [done|].
    rewrite omap_app. cbn. by rewrite last_snoc.
Qed.
End IconFacts.

(** ** Witnesses *)
Section Witnesses.

Definition no_toml : ConfigToml :=
  {| config_to_string_pretty _ := Some EmptyString; config_from_str _ := None |}.

Lemma get_icon_reads_once_witness :
  let e := Samples.quiet_env Samples.sample_root in
  ∃ m : gmap string string, None = m !! "firefox"
    ∧ @get_icon e literal_regexes "emacs" [] ((@get_icon e literal_regexes "firefox" [] []).1 ++ [])
      = ((@get_icon e literal_regexes "firefox" [] []).1 ++ [], Done (m !! "emacs")).
Proof.
  intros e.
  apply (@get_icon_reads_once e literal_regexes "firefox" [] []
    (@get_icon e literal_regexes "firefox" [] []).1 [] None "emacs" []).
  - vm_compute. reflexivity.
  - reflexivity.
Defined.
End Witnesses.

Example stem_of_reverse_domain :
  stem_and_extension "org.gnome.eog.desktop" = ("org.gnome.eog", Some "desktop").
Proof. reflexivity. Qed.
