(* ===== verification/Layout.v ===== *)
(** * Auto-tiling and re-layout (swayr/src/layout.rs)

    [auto_tile] walks the outputs of the tree and sends split commands;
    [relayout_current_workspace] moves the windows of the current workspace away
    and hands them to a function that puts them back. *)

From Stdlib Require QArith.
From S2P Require Import Prelude RString Config Ipc Sway.
From S2P Require Samples.

(** ** 32-bit floats

    [z as f32] for an [i32]: 24 bits of mantissa, to nearest, ties to even.  The
    value is always an integer. *)
Definition f32_of_i32 (z : Z) : Z :=
  let a := Z.abs z in
  let ulp := (2 ^ Z.max 0 (Z.log2 a - 23))%Z in
  let q := (a `div` ulp)%Z in
  let r := (a `mod` ulp)%Z in
  let q' := if (ulp <? 2 * r)%Z || ((2 * r =? ulp)%Z && Z.odd q)
            then (q + 1)%Z else q in
  (Z.sgn z * (q' * ulp))%Z.

(** Half of such a value is an [f32], so the division by [2.0] is exact. *)
Definition estimated_width (width : Z) : QArith_base.Q :=
  QArith_base.Qmake (f32_of_i32 width) 2.

Definition f32_as_Q (z : Z) : QArith_base.Q := QArith_base.Qmake (f32_of_i32 z) 1.

(** The split an auto-tiled window gets in a container of the given layout. *)
Definition auto_split (container_layout : NodeLayout) (width min_window_width : Z)
    : option string :=
  let le := QArith_base.Qle_bool (estimated_width width) (f32_as_Q min_window_width) in
  if bool_decide (container_layout = SplitH) && le then Some "splitv"
  else if bool_decide (container_layout = SplitV) && negb le then Some "splith"
  else None.

Definition con_cmd (id : Z) (cmd : string) : string :=
  "[con_id=" +:+ int_to_string id +:+ "] " +:+ cmd.

Section Layout.
Context `{Env}.

(** ** [auto_tile] *)

(** A failing command is only logged. *)
Definition tile_window (container_layout : NodeLayout) (min_window_width : Z)
    (child_win : node) : io unit :=
  match auto_split container_layout (rect_width child_win) min_window_width with
  | Some split => con_run_command (con_cmd (id child_win) split) ;; mret tt
  | None => mret tt
  end.

Definition tile_container (min_window_width : Z) (container : node) : io unit :=
  if is_scratchpad container then mret tt
  else
    for_each (λ n,
      t ← lift (get_type n);
      if decide (t = Type_Window)
      then tile_window (Ipc.layout container) min_window_width n
      else mret tt) (nodes container).

Definition tile_output (res_to_min_width : gmap Z Z) (output : node) : io unit :=
  if decide (node_type output = NodeType_Output) then
    match res_to_min_width !! rect_width output with
    | Some min_window_width =>
        l ← lift (iter output);
        for_each (λ n,
          t ← lift (get_type n);
          if decide (t = Type_Workspace ∨ t = Type_Container)
          then tile_container min_window_width n
          else mret tt) l
    | None => mret tt
    end
  else panic "Child of Root is no Output".

Definition auto_tile (res_to_min_width : gmap Z Z) : io unit :=
  con ← connection_new;
  match con with
  | Ok _ =>
      tree ← con_get_tree;
      match tree with
      | Ok tree => for_each (tile_output res_to_min_width) (nodes tree)
      | Err _ => mret tt
      end
  | Err _ => mret tt
  end.

Definition maybe_auto_tile (config : Config) : io unit :=
  b ← lift (is_layout_auto_tile config);
  if b : bool
  then m ← lift (get_layout_auto_tile_as_map config); auto_tile m
  else mret tt.

(** ** [relayout_current_workspace] *)
Definition SWAYR_TMP_WORKSPACE : string := "✨".

(** The first loop: moves the windows away and returns those moved and the
    focused one. *)
Fixpoint move_away (include_floating : bool) (l : list node)
    (focused_win : option node) (moved_wins : list node)
    : io (result (option node * list node) string) :=
  match l with
  | [] => mret (Ok (focused_win, moved_wins))
  | win :: l =>
      t ← lift (get_type win);
      if decide (t = Type_Window) then
        let focused_win := if focused win then Some win else focused_win in
        if negb include_floating && is_floating win
        then move_away include_floating l focused_win moved_wins
        else
          _ ←? con_run_command (con_cmd (id win)
                 ("move to workspace " +:+ SWAYR_TMP_WORKSPACE));
          move_away include_floating l focused_win (moved_wins ++ [win])
      else move_away include_floating l focused_win moved_wins
  end.

Definition relayout_current_workspace (include_floating : bool)
    (insert_win_fn : list node → io (result unit string)) : io (result unit string) :=
  root ← get_root_node false;
  l ← lift (iter root);
  workspaces ← lift (filter_o (has_type Type_Workspace) l);
  cur_ws ← lift (find_o is_current workspaces);
  match cur_ws with
  | Some cur_ws =>
      con ← connection_new;
      match con with
      | Ok _ =>
          wins ← lift (iter cur_ws);
          r ←? move_away include_floating wins None [];
          let '(focused_win, moved_wins) := r : option node * list node in
          _ ←? insert_win_fn moved_wins;
          sleep 25 ;;
          match focused_win with
          | Some win => _ ←? con_run_command (con_cmd (id win) "focus"); mret (Ok tt)
          | None => mret (Ok tt)
          end
      | Err _ => mret (Err "Cannot create connection.")
      end
  | None => mret (Err "No workspace is focused.")
  end.
End Layout.

(** ** Reference definitions *)

(** The split decision on integers: no rounding, no rationals. *)
Definition wanted_split (container_layout : NodeLayout) (width min_window_width : Z)
    : option string :=
  match container_layout with
  | SplitH => if decide (width ≤ 2 * min_window_width)%Z then Some "splitv" else None
  | SplitV => if decide (2 * min_window_width < width)%Z then Some "splith" else None
  | _ => None
  end.

(** The windows below the workspaces and containers of an output, each with the
    layout of its container. *)
Definition tiled_windows (output : node) : list (NodeLayout * node) :=
  c ← filter (λ n, (is_type Type_Workspace n || is_type Type_Container n)
                   && negb (is_scratchpad n) = true) (preorder output);
  (λ w, (Ipc.layout c, w)) <$> filter (λ n, is_type Type_Window n = true) (nodes c).

Definition auto_tile_spec (res_to_min_width : gmap Z Z) (root : node) : list string :=
  output ← nodes root;
  match res_to_min_width !! rect_width output with
  | None => []
  | Some m =>
      omap (λ '(l, w), con_cmd (id w) <$> wanted_split l (rect_width w) m)
           (tiled_windows output)
  end.

(** Widths that an [f32] holds exactly. *)
Definition f32_exact (z : Z) : Prop := (Z.abs z ≤ 2 ^ 24)%Z.

(** The windows [relayout_current_workspace] moves. *)
Definition windows_to_move (include_floating : bool) (l : list node) : list node :=
  filter (λ n, is_type Type_Window n && (include_floating || negb (is_floating n)) = true) l.

Definition move_cmd (win : node) : string :=
  con_cmd (id win) ("move to workspace " +:+ SWAYR_TMP_WORKSPACE).

(** The last focused window of a list. *)
Definition focused_window (l : list node) : option node :=
  list.last (filter (λ n, is_type Type_Window n && focused n = true) l).

(** ** Lemmas *)
Lemma f32_of_i32_exact z : f32_exact z → f32_of_i32 z = z.
Proof.
  unfold f32_exact, f32_of_i32. intros Hz.
  destruct (decide (Z.abs z = 2 ^ 24)%Z) as [E|Hne].
  - rewrite E. match goal with |- (_ * ?v)%Z = _ => change v with (2 ^ 24)%Z end. lia.
  - assert (Z.log2 (Z.abs z) ≤ 23)%Z as Hl.
    { destruct (decide (Z.abs z = 0)%Z) as [->|]; [done|].
      apply Z.lt_succ_r, Z.log2_lt_pow2; [lia|].
      change (2 ^ Z.succ 23)%Z with (2 ^ 24)%Z. by apply Z.le_neq. }
    replace (Z.max 0 (Z.log2 (Z.abs z) - 23))%Z with 0%Z by lia.
    rewrite Z.pow_0_r, Z.div_1_r, Z.mod_1_r.
    match goal with |- context [if ?b then _ else _] => change b with false end.
    cbv iota. lia.
Qed.

Lemma auto_split_exact l w m :
  f32_exact w → f32_exact m → auto_split l w m = wanted_split l w m.
Proof.
  intros Hw Hm. unfold auto_split, estimated_width, f32_as_Q.
  rewrite !f32_of_i32_exact by done.
  assert (QArith_base.Qle_bool (QArith_base.Qmake w 2) (QArith_base.Qmake m 1)
    = bool_decide (w ≤ 2 * m)%Z) as ->.
  { unfold QArith_base.Qle_bool. cbn [QArith_base.Qnum QArith_base.Qden].
    apply eq_true_iff_eq. rewrite Z.leb_le, bool_decide_eq_true. lia. }
  destruct l; cbn; repeat case_decide; try done; lia.
Qed.

Section LayoutFacts.
Context `{Env}.

Lemma tile_window_done l m w tr :
  tile_window l m w tr
  = (tr ++ from_option (λ s, [RunCommand (con_cmd (id w) s)]) [] (auto_split l (rect_width w) m),
     Done tt).
Proof.
  unfold tile_window. destruct (auto_split _ _ _); cbn; [done|]. by rewrite app_nil_r.
Qed.

Lemma filter_map_bind {A B} (P : A → bool) (g : A → list B) l :
  filter (λ x, P x = true) l ≫= g = l ≫= (λ x, if P x then g x else []).
Proof.
  induction l as [|x l IH]; [done|]. rewrite filter_cons, bind_cons.
  destruct (P x).
  - by rewrite decide_True, bind_cons, IH.
  - by rewrite decide_False, IH.
Qed.

Lemma tile_container_done m c tr :
  Forall typable1 (nodes c) →
  tile_container m c tr
  = (tr ++ (if is_scratchpad c then []
            else filter (λ n, is_type Type_Window n = true) (nodes c) ≫= λ w,
              from_option (λ s, [RunCommand (con_cmd (id w) s)]) []
                (auto_split (Ipc.layout c) (rect_width w) m)),
     Done tt).
Proof.
  intros Ht. unfold tile_container.
  destruct (is_scratchpad c); [cbn; by rewrite app_nil_r|].
  rewrite filter_map_bind. apply for_each_done. intros n tr' Hn.
  rewrite Forall_forall in Ht. rewrite (io_lift_done _ _ _ _ (Ht n Hn)).
  unfold is_type. case_decide as E.
  - rewrite bool_decide_true by done. apply tile_window_done.
  - rewrite bool_decide_false by done. cbn. by rewrite app_nil_r.
Qed.

Lemma commands_map_RunCommand l : commands (RunCommand <$> l) = l.
Proof. unfold commands. induction l; cbn; congruence. Qed.

(** The effects of tiling one output. *)
Lemma tile_output_done res o tr :
  node_type o = NodeType_Output → typable o →
  (∀ m, res !! rect_width o = Some m → f32_exact m) →
  (∀ w, w ∈ preorder o → f32_exact (rect_width w)) →
  tile_output res o tr
  = (tr ++ (RunCommand <$>
      match res !! rect_width o with
      | None => []
      | Some m => omap (λ '(l, w), con_cmd (id w) <$> wanted_split l (rect_width w) m)
                       (tiled_windows o)
      end), Done tt).
Proof.
  intros Ho Ht Hm Hw. unfold tile_output. rewrite decide_True by done.
  destruct (res !! rect_width o) as [m|]; [|cbn; by rewrite app_nil_r].
  rewrite (io_lift_done _ _ _ _ (iter_done o)).
  rewrite (for_each_done _ (λ c,
    if (is_type Type_Workspace c || is_type Type_Container c) && negb (is_scratchpad c)
    then RunCommand <$> omap (λ w, con_cmd (id w) <$> wanted_split (Ipc.layout c) (rect_width w) m)
           (filter (λ n, is_type Type_Window n = true) (nodes c))
    else [])).
  - do 2 f_equal. unfold tiled_windows. rewrite filter_map_bind.
    clear Ht Hw. induction (preorder o) as [|c l IH]; [done|].
    rewrite !bind_cons, omap_app, fmap_app, IH. f_equal.
    destruct (_ && _); [|done]. f_equal.
    induction (filter _ _) as [|w ws IHw]; [done|]. cbn. rewrite <-IHw. by destruct (wanted_split _ _ _).
  - intros c tr' Hc.
    assert (typable1 c) as Hc1 by (by eapply typable_elem).
    rewrite (io_lift_done _ _ _ _ Hc1).
    assert (∀ w, w ∈ nodes c → w ∈ preorder o) as Hsub.
    { intros w Hin. eapply preorder_trans; [exact Hc|].
      apply preorder_child. apply elem_of_app. by left. }
    unfold is_type at 1 2. destruct (decide (_ ∨ _)) as [E|E].
    + rewrite tile_container_done.
      2: { apply Forall_forall. intros w Hin. apply (typable_elem o); auto. }
      replace (bool_decide _ || bool_decide _) with true.
      2: { destruct E as [-> | ->]; done. }
      cbn [andb]. destruct (is_scratchpad c); cbn [negb]; [done|].
      f_equal. f_equal.
      assert (∀ w, w ∈ filter (λ n, is_type Type_Window n = true) (nodes c) →
                   f32_exact (rect_width w)) as Hex.
      { intros w Hin. apply list_elem_of_filter in Hin as [_ Hin]. auto. }
      induction (filter _ _) as [|w ws IHw]; [done|].
      rewrite bind_cons. rewrite IHw by (intros; apply Hex; by right).
      rewrite auto_split_exact by (try apply Hex; try apply Hm; try left; done).
      cbn. by destruct (wanted_split _ _ _).
    + rewrite !bool_decide_false by naive_solver. cbn. by rewrite app_nil_r.
Qed.

Lemma move_away_eq include_floating l fw mw tr :
  (∀ w, w ∈ l → typable1 w) →
  commands_answered →
  move_away include_floating l fw mw tr
  = (tr ++ (RunCommand ∘ move_cmd <$> windows_to_move include_floating l),
     Done (Ok (from_option Some fw (focused_window l),
               mw ++ windows_to_move include_floating l))).
Proof.
  intros Ht Hc. unfold windows_to_move, focused_window.
  revert fw mw tr. induction l as [|w l IH]; intros fw mw tr; cbn [move_away].
  { cbn. by rewrite !app_nil_r. }
  rewrite (io_lift_done _ _ _ _ (Ht w ltac:(left))).
  rewrite !filter_cons.
  assert (is_type Type_Window w = bool_decide (type_of w = Type_Window)) as Ew by done.
  destruct (decide (type_of w = Type_Window)) as [E|E].
  2: { rewrite bool_decide_false in Ew by done. rewrite Ew. cbn [andb].
       apply IH. intros; apply Ht; by right. }
  rewrite bool_decide_true in Ew by done. rewrite Ew. cbn [andb].
  assert (∀ o, from_option Some (if focused w then Some w else fw) (list.last o)
    = from_option Some fw (list.last (if decide (focused w = true) then w :: o else o))) as Hl.
  { intros o. destruct (focused w); [|done].
    rewrite decide_True by done. destruct o as [|x o]; [done|].
    rewrite last_cons_cons. by destruct (list.last (x :: o)) eqn:El; [|apply last_None in El]. }
  destruct (negb include_floating && is_floating w) eqn:Ef.
  - rewrite IH by (intros; apply Ht; by right). rewrite Hl.
    rewrite (decide_False (P := include_floating || negb (is_floating w) = true));
      [done|by destruct include_floating, (is_floating w)].
  - rewrite run_command_ok by apply Hc.
    rewrite IH by (intros; apply Ht; by right). rewrite Hl.
    rewrite (decide_True (P := include_floating || negb (is_floating w) = true));
      [|by destruct include_floating, (is_floating w)].
    cbn [fmap list_fmap]. by rewrite <-!(assoc_L (++)).
Qed.
End LayoutFacts.

Section RelayoutFacts.
Context `{Env}.

(** The current workspace of a tree, as [relayout_current_workspace] finds it. *)
Definition current_workspace_of (root : node) : option node :=
  find (λ w, existsb focused (preorder w))
    (filter (λ n, is_type Type_Workspace n = true) (preorder root)).

(** The trace at which [relayout_current_workspace] starts moving windows. *)
Definition relayout_start (tr : trace) : trace := tr ++ root_effects tr ++ [Connect].

Lemma relayout_unfold include_floating fn root cur_ws tr :
  sway_up tr →
  env_get_tree (tr ++ root_effects tr) = Ok root →
  env_connect (relayout_start tr) = Ok tt →
  typable (drop_scratchpads root) →
  current_workspace_of (drop_scratchpads root) = Some cur_ws →
  relayout_current_workspace include_floating fn tr
  = bind_ok (λ r : option node * list node,
      let '(focused_win, moved_wins) := r in
      _ ←? fn moved_wins;
      sleep 25 ;;
      match focused_win with
      | Some win => _ ←? con_run_command (con_cmd (id win) "focus"); mret (Ok tt)
      | None => mret (Ok tt)
      end) (move_away include_floating (preorder cur_ws) None []) (relayout_start tr).
Proof.
  intros Hup Htree Hcon Ht Hcur. unfold relayout_current_workspace.
  rewrite (io_bind_done _ _ _ _ _ (get_root_node_done false root tr Hup Htree)).
  rewrite (io_lift_done _ _ _ _ (iter_done _)).
  rewrite (io_lift_done _ _ _ _ (filter_o_done _ (is_type Type_Workspace) _
    (λ m Hm, has_type_done _ _ (typable_elem _ _ Ht Hm)))).
  rewrite (io_lift_done _ _ _ _ (find_o_done _ (λ w, existsb focused (preorder w)) _
    (λ m _, is_current_done m))).
  unfold current_workspace_of in Hcur. rewrite Hcur.
  rewrite (io_bind_done _ _ _ _ _ (connection_new_eq _)).
  unfold relayout_start in Hcon. rewrite (assoc_L (++)) in Hcon. rewrite Hcon.
  rewrite (io_lift_done _ _ _ _ (iter_done _)).
  unfold relayout_start. by rewrite (assoc_L (++)).
Qed.

Lemma current_workspace_of_elem root ws :
  current_workspace_of root = Some ws → ws ∈ preorder root ∧ is_type Type_Workspace ws = true.
Proof.
  intros [Hin _]%find_Some. apply list_elem_of_filter in Hin as [??]. done.
Qed.

Lemma move_away_err include_floating l fw mw tr w1 w w2 e :
  (∀ w, w ∈ l → typable1 w) →
  windows_to_move include_floating l = w1 ++ w :: w2 →
  (∀ k, k < length w1 →
     answered (env_run_command (tr ++ take (S k) (RunCommand ∘ move_cmd <$> w1))) = Ok tt) →
  answered (env_run_command (tr ++ (RunCommand ∘ move_cmd <$> w1 ++ [w]))) = Err e →
  move_away include_floating l fw mw tr
  = (tr ++ (RunCommand ∘ move_cmd <$> w1 ++ [w]), Done (Err e)).
Proof.
  intros Ht. unfold windows_to_move.
  revert fw mw tr w1. induction l as [|x l IH]; intros fw mw tr w1 Hw Hk He.
  { by destruct w1. }
  cbn [move_away]. rewrite (io_lift_done _ _ _ _ (Ht x ltac:(left))).
  rewrite filter_cons in Hw.
  assert (is_type Type_Window x = bool_decide (type_of x = Type_Window)) as Ew by done.
  assert (∀ y, y ∈ l → typable1 y) as Ht' by (intros; apply Ht; by right).
  destruct (decide (type_of x = Type_Window)) as [E|E].
  2: { rewrite bool_decide_false in Ew by done. rewrite Ew in Hw. by apply IH. }
  rewrite bool_decide_true in Ew by done. rewrite Ew in Hw. cbn [andb] in Hw.
  destruct (negb include_floating && is_floating x) eqn:Ef.
  { rewrite decide_False in Hw by (by destruct include_floating, (is_floating x)).
    by apply IH. }
  rewrite decide_True in Hw by (by destruct include_floating, (is_floating x)).
  destruct w1 as [|y w1]; injection Hw as -> Hw.
  - by apply run_command_err.
  - rewrite run_command_ok by (apply (Hk 0); cbn; lia).
    rewrite (IH Ht' _ _ _ w1); [by rewrite <-(assoc_L (++))|done| |].
    + intros k Hlt. rewrite <-(assoc_L (++)). apply (Hk (S k)). cbn. lia.
    + rewrite <-(assoc_L (++)). apply He.
Qed.

(** The whole operation when no command fails: the moves away, the effects of
    the insertion function, a pause, and the focus command for the window that had
    the focus. *)
Lemma relayout_done include_floating fn root cur_ws tr tr' :
  sway_up tr →
  env_get_tree (tr ++ root_effects tr) = Ok root →
  env_connect (relayout_start tr) = Ok tt →
  typable (drop_scratchpads root) →
  current_workspace_of (drop_scratchpads root) = Some cur_ws →
  commands_answered →
  fn (windows_to_move include_floating (preorder cur_ws))
     (relayout_start tr ++
        (RunCommand ∘ move_cmd <$> windows_to_move include_floating (preorder cur_ws)))
    = (tr', Done (Ok tt)) →
  relayout_current_workspace include_floating fn tr
  = (tr' ++ [Sleep 25] ++ from_option (λ w, [RunCommand (con_cmd (id w) "focus")]) []
                            (focused_window (preorder cur_ws)), Done (Ok tt)).
Proof.
  intros Hup Htree Hcon Ht Hcur Hcmd Hfn.
  rewrite (relayout_unfold _ _ root cur_ws) by done.
  apply current_workspace_of_elem in Hcur as [Hcur _].
  erewrite bind_ok_ok; [|apply move_away_eq; [|done]].
  2: { intros w Hw. eapply typable_elem; [exact Ht|]. by eapply preorder_trans. }
  cbn [app]. rewrite (bind_ok_ok _ _ _ _ _ Hfn).
  unfold sleep. rewrite (io_bind_done _ _ _ _ _ eq_refl).
  destruct (focused_window _) as [w|]; cbn [from_option]; [|done].
  rewrite run_command_ok by apply Hcmd. cbn. by rewrite <-(assoc_L (++)).
Qed.

(** ** Claims *)

(** C8: On any tree whose root has only outputs as children and whose widths are
    below 2^24, [auto_tile] opens a connection, reads the tree and sends exactly
    the split commands of the specification: "splitv" for a window of a
    horizontally split container whose half width is at most the configured
    minimum of its output, "splith" for a window of a vertically split container
    whose half width is more than it, and nothing for the scratchpad or for an
    output whose width is not configured.  When the half width is exactly the minimum,
    the window is split vertically, where README has it split horizontally.  A failing command stops nothing, and
    the 32-bit float comparison never rounds. *)
Theorem auto_tile_splits res root tr :
  env_connect (tr ++ [Connect]) = Ok tt →
  env_get_tree (tr ++ [Connect; GetTree]) = Ok root →
  typable root →
  Forall (λ o, node_type o = NodeType_Output) (nodes root) →
  map_Forall (λ _ m, f32_exact m) res →
  (∀ w, w ∈ preorder root → f32_exact (rect_width w)) →
  auto_tile res tr
  = (tr ++ [Connect; GetTree] ++ (RunCommand <$> auto_tile_spec res root), Done tt).
Proof.
  intros Hc Ht Hty Ho Hm Hw. unfold auto_tile.
  rewrite (io_bind_done _ _ _ _ _ (connection_new_eq tr)), Hc.
  rewrite (io_bind_done _ _ _ _ _ (con_get_tree_eq _)), <-(assoc_L (++)).
  change ([Connect] ++ [GetTree]) with [Connect; GetTree]. rewrite Ht. unfold auto_tile_spec. rewrite (assoc_L (++)).
  erewrite for_each_done.
  2: { intros o tr' Hin. rewrite Forall_forall in Ho.
       assert (o ∈ preorder root) by (apply preorder_child, elem_of_app; auto).
       apply tile_output_done; eauto using typable_sub.
       intros w Hin'. apply Hw. by eapply preorder_trans. }
  do 2 f_equal. induction (nodes root) as [|o l IH]; [done|].
  rewrite !bind_cons, fmap_app. f_equal. apply IH. by inversion Ho.
Qed.

(** C37: When the connection to sway fails while a window is moved away, re-layout stops
    there: the windows before it have been moved, no later one is, nothing is moved back
    and no window is focused; the error is returned.  When sway answers but refuses
    commands, whichever and however many, re-layout does not notice: every window is
    moved away, the insertion function is run and the focus is given back. *)
Theorem relayout_stops_at_failure include_floating fn root cur_ws tr :
  sway_up tr →
  env_get_tree (tr ++ root_effects tr) = Ok root →
  env_connect (relayout_start tr) = Ok tt →
  typable (drop_scratchpads root) →
  current_workspace_of (drop_scratchpads root) = Some cur_ws →
  let wins := windows_to_move include_floating (preorder cur_ws) in
  (∀ w1 w w2 e,
     wins = w1 ++ w :: w2 →
     (∀ k, k < length w1 → ∃ replies, env_run_command
        (relayout_start tr ++ take (S k) (RunCommand ∘ move_cmd <$> w1)) = Ok replies) →
     env_run_command (relayout_start tr ++ (RunCommand ∘ move_cmd <$> w1 ++ [w])) = Err e →
     relayout_current_workspace include_floating fn tr
     = (relayout_start tr ++ (RunCommand ∘ move_cmd <$> w1 ++ [w]), Done (Err e)))
  ∧ (∀ tr',
     (∀ tr, ∃ replies, env_run_command tr = Ok replies) →
     fn wins (relayout_start tr ++ (RunCommand ∘ move_cmd <$> wins)) = (tr', Done (Ok tt)) →
     relayout_current_workspace include_floating fn tr
     = (tr' ++ [Sleep 25] ++ from_option (λ w, [RunCommand (con_cmd (id w) "focus")]) []
                               (focused_window (preorder cur_ws)), Done (Ok tt))).
Proof.
  intros Hup Htree Hcon Ht Hcur wins. split.
  - intros w1 w w2 e Hw Hk He. rewrite (relayout_unfold _ _ root cur_ws) by done.
    apply current_workspace_of_elem in Hcur as [Hcur _].
    apply bind_ok_err. eapply move_away_err; [|done| |by rewrite He].
    + intros x Hx. eapply typable_elem; [exact Ht|]. by eapply preorder_trans.
    + intros k Hlt. by destruct (Hk k Hlt) as [? ->].
  - intros tr' Ha Hfn. eapply relayout_done; try done.
    intros tr0. by destruct (Ha tr0) as [? ->].
Qed.
End RelayoutFacts.

(** ** Witnesses *)

Lemma auto_tile_splits_witness :
  @auto_tile (Samples.quiet_env Samples.sample_root) {[1920%Z := 450%Z]} []
  = ([Connect; GetTree; RunCommand "[con_id=13] splith"; RunCommand "[con_id=14] splith"],
     Done tt).
Proof.
  etrans; [eapply (@auto_tile_splits (Samples.quiet_env Samples.sample_root)
    {[1920%Z := 450%Z]} Samples.sample_root [])|].
  - reflexivity.
  - reflexivity.
  - apply Samples.sample_typable.
  - decide_now.
  - decide_now.
  - apply Forall_forall. decide_now.
  - vm_compute. reflexivity.
Defined.

Lemma relayout_stops_at_failure_witness :
  @relayout_current_workspace
    (Samples.failing_env Samples.sample_root "[con_id=13] move to workspace ✨")
    false (λ _, mret (Ok tt)) []
  = ([SharedConnect; GetTree; Connect;
      RunCommand "[con_id=14] move to workspace ✨";
      RunCommand "[con_id=13] move to workspace ✨"], Done (Err "broken pipe"))
  ∧ (@relayout_current_workspace (Samples.refusing_env Samples.sample_root)
       false (λ _, mret (Ok tt)) []).2 = Done (Ok tt).
Proof.
  split.
  - edestruct (@relayout_stops_at_failure
      (Samples.failing_env Samples.sample_root "[con_id=13] move to workspace ✨")
      false (λ _, mret (Ok tt)) Samples.sample_root Samples.sample_ws1 []) as [Hs _].
    + right. reflexivity.
    + reflexivity.
    + reflexivity.
    + unfold typable. decide_now.
    + reflexivity.
    + erewrite (Hs [Samples.tiled 14 "foot" false true] (Samples.tiled 13 "foot" true false)
        [Samples.tiled 11 "firefox" false false]); [reflexivity|reflexivity| |reflexivity].
      intros [|k] Hk; [by eexists|cbn in Hk; lia].
  - edestruct (@relayout_stops_at_failure (Samples.refusing_env Samples.sample_root)
      false (λ _, mret (Ok tt)) Samples.sample_root Samples.sample_ws1 []) as [_ Hr].
    + right. reflexivity.
    + reflexivity.
    + reflexivity.
    + unfold typable. decide_now.
    + reflexivity.
    + erewrite Hr; [reflexivity| |reflexivity]. intros tr. by eexists.
Defined.
