(* ===== verification/Tree.v ===== *)
(** * The indexed tree and the lists of nodes shown to the user (swayr/src/tree.rs)

    [get_tree] indexes a node tree by id, the [get_...] operations collect the
    nodes of some kinds, sorted by urgency and by recency of focus. *)

From S2P Require Import Prelude Ipc Focus.
From S2P Require Samples.

(** ** Data *)
Record Tree := { root : node; id_node : gmap Z node; id_parent : gmap Z Z }.

Inductive IndentLevel :=
| Fixed (level : nat)
| WorkspacesZeroWindowsOne
| TreeDepth (offset : nat).

(** [tree] is a reference in the source. *)
Record DisplayNode := { dnode : node; dtree : Tree; indent_level : IndentLevel }.

(** ** Construction *)
Definition init_entry (n : node) (parent : option node)
    (maps : gmap Z node * gmap Z Z) : gmap Z node * gmap Z Z :=
  let '(id_node, id_parent) := maps in
  (<[id n := n]> id_node,
   match parent with Some p => <[id n := id p]> id_parent | None => id_parent end).

Fixpoint init_id_parent (n : node) (parent : option node)
    (maps : gmap Z node * gmap Z Z) : gmap Z node * gmap Z Z :=
  foldl (λ maps c, init_id_parent c (Some n) maps)
    (foldl (λ maps c, init_id_parent c (Some n) maps)
       (init_entry n parent maps) (nodes n))
    (floating_nodes n).

Definition get_tree (root : node) : Tree :=
  let '(id_node, id_parent) := init_id_parent root None (∅, ∅) in
  {| root := root; id_node := id_node; id_parent := id_parent |}.

(** ** Lookups *)
Section Lookups.
Context (t : Tree).

Definition get_node_by_id (i : Z) : outcome node :=
  expect ("No node with id " +:+ pretty i) (id_node t !! i).

Definition get_parent_node (i : Z) : outcome (option node) :=
  match id_parent t !! i with
  | Some pid => Some <$> get_node_by_id pid
  | None => Done None
  end.

(** The recursion of [get_parent_node_of_type], on the fuel. *)
Fixpoint get_parent_node_of_type_from (fuel : nat) (i : Z) (ty : Type')
    : outcome (option node) :=
  match fuel with
  | O => NoReturn
  | S fuel =>
      n ← get_node_by_id i;
      ty' ← get_type n;
      if decide (ty' = ty) then Done (Some n)
      else match id_parent t !! i with
           | Some pid => get_parent_node_of_type_from fuel pid ty
           | None => Done None
           end
  end.

Definition get_parent_node_of_type (i : Z) (ty : Type') : outcome (option node) :=
  get_parent_node_of_type_from (S (size (id_parent t))) i ty.

Definition is_child_of_tiled_container (i : Z) : outcome bool :=
  p ← get_parent_node i;
  Done match p with
       | Some n => bool_decide (layout n = SplitH) || bool_decide (layout n = SplitV)
       | None => false
       end.

Definition is_child_of_tabbed_or_stacked_container (i : Z) : outcome bool :=
  p ← get_parent_node i;
  Done match p with
       | Some n => bool_decide (layout n = Tabbed) || bool_decide (layout n = Stacked)
       | None => false
       end.

(** ** Sorted lists of nodes *)
Definition urgency_and_lru_cmp (fdata : FocusData) (a b : node) : comparison :=
  if urgent a && negb (urgent b) then Lt
  else if negb (urgent a) && urgent b then Gt
  else reverse_ord (last_focus_tick fdata (id a) ?= last_focus_tick fdata (id b))%Z.

Definition sort_by_urgency_and_lru_time_1 (fdata : FocusData) (v : list node) : list node :=
  sort_by (urgency_and_lru_cmp fdata) v.

Definition sorted_nodes_of_type_1 (n : node) (ty : Type') (fdata : FocusData)
    : outcome (list node) :=
  v ← nodes_of_type ty n; Done (sort_by_urgency_and_lru_time_1 fdata v).

Definition sorted_nodes_of_type (ty : Type') (fdata : FocusData) : outcome (list node) :=
  sorted_nodes_of_type_1 (root t) ty fdata.

Definition as_display_nodes (v : list node) (lvl : IndentLevel) : list DisplayNode :=
  (λ n, {| dnode := n; dtree := t; indent_level := lvl |}) <$> v.

Definition get_current_workspace : outcome node :=
  l ← iter (root t);
  ws ← find_o (λ n, ty ← get_type n;
                    if decide (ty = Type_Workspace) then is_current n else Done false) l;
  expect "No current Workspace" ws.

Definition get_outputs : outcome (list DisplayNode) :=
  l ← iter (root t);
  outputs ← filter_o (λ n, ty ← get_type n;
                           Done (bool_decide (ty = Type_Output) && negb (is_scratchpad n))) l;
  Done (as_display_nodes outputs (Fixed 0)).

Definition rotate_if_some (v : list node) : outcome (list node) :=
  match v with [] => Done [] | _ => rotate_left 1 v end.

Definition get_workspaces (fdata : FocusData) : outcome (list DisplayNode) :=
  v ← sorted_nodes_of_type Type_Workspace fdata;
  v ← rotate_if_some v;
  Done (as_display_nodes v (Fixed 0)).

(** The loop of [get_windows] that moves urgent windows from the front of [v] to
    the end of [x]. *)
Fixpoint split_urgent (v x : list node) : list node * list node :=
  match v with
  | w :: v' => if urgent w then split_urgent v' (x ++ [w]) else (v, x)
  | [] => ([], x)
  end.

Definition get_windows (fdata : FocusData) : outcome (list DisplayNode) :=
  v ← sorted_nodes_of_type Type_Window fdata;
  let '(v, x) := split_urgent v [] in
  v ← rotate_if_some v;
  Done (as_display_nodes (x ++ v) (Fixed 0)).

Fixpoint add_workspaces_and_windows (fdata : FocusData) (first : bool)
    (workspaces v : list node) : outcome (list node) :=
  match workspaces with
  | [] => Done v
  | ws :: workspaces =>
      wins ← sorted_nodes_of_type_1 ws Type_Window fdata;
      if first && negb (bool_decide (wins = []))
      then
        wins ← rotate_left 1 wins;
        add_workspaces_and_windows fdata false workspaces (v ++ [ws] ++ wins)
      else add_workspaces_and_windows fdata first workspaces (v ++ [ws] ++ wins)
  end.

Definition get_workspaces_and_windows (fdata : FocusData) : outcome (list DisplayNode) :=
  workspaces ← sorted_nodes_of_type Type_Workspace fdata;
  v ← add_workspaces_and_windows fdata true workspaces [];
  Done (as_display_nodes v WorkspacesZeroWindowsOne).

(** The shared vector is passed through the calls.  The fuel bounds the depth of
    the recursion. *)
Fixpoint push_subtree_sorted (fuel : nat) (fdata : FocusData) (n : node) (v : list node)
    : outcome (list node) :=
  match fuel with
  | O => NoReturn
  | S fuel =>
      foldl (λ v c, v ← v; push_subtree_sorted fuel fdata c v) (Done (v ++ [n]))
        (sort_by_urgency_and_lru_time_1 fdata (nodes n ++ floating_nodes n))
  end.

Definition push_subtrees (fdata : FocusData) (l : list node) : outcome (list node) :=
  foldl (λ v n, v ← v; push_subtree_sorted (node_size n) fdata n v) (Done []) l.

Definition get_outputs_workspaces_containers_and_windows (fdata : FocusData)
    : outcome (list DisplayNode) :=
  outputs ← sorted_nodes_of_type Type_Output fdata;
  v ← push_subtrees fdata outputs;
  Done (as_display_nodes v (TreeDepth 1)).

Definition get_workspaces_containers_and_windows (fdata : FocusData)
    : outcome (list DisplayNode) :=
  workspaces ← sorted_nodes_of_type Type_Workspace fdata;
  v ← push_subtrees fdata workspaces;
  Done (as_display_nodes v (TreeDepth 2)).
End Lookups.

(** ** Indentation *)

(** The loop of [get_indent_level] over the parents of the node. *)
Fixpoint tree_depth (fuel : nat) (t : Tree) (n : node) (depth : nat) : outcome nat :=
  match fuel with
  | O => NoReturn
  | S fuel =>
      p ← get_parent_node t (id n);
      match p with
      | Some p => tree_depth fuel t p (S depth)
      | None => Done depth
      end
  end.

Definition get_indent_level (d : DisplayNode) : outcome nat :=
  match indent_level d with
  | Fixed level => Done level
  | WorkspacesZeroWindowsOne =>
      ty ← get_type (dnode d);
      match ty with
      | Type_Workspace => Done 0
      | Type_Window => Done 1
      | _ => Panics "Only Workspaces and Windows expected. File a bug report!"
      end
  | TreeDepth offset =>
      depth ← tree_depth (S (size (id_parent (dtree d)))) (dtree d) (dnode d) 0;
      Done (if decide (depth < offset) then 0 else depth - offset)
  end.

(** ** Reference definitions *)

(** The nodes below [n] with their parents, in the order in which
    [init_id_parent] meets them. *)
Fixpoint walk (p : option node) (n : node) : list (option node * node) :=
  (p, n) :: (nodes n ≫= walk (Some n)) ++ (floating_nodes n ≫= walk (Some n)).

(** [ancestors r n l]: [l] holds the parent of [n], its parent, and so on up to
    [r]. *)
Inductive ancestors (r : node) : node → list node → Prop :=
| ancestors_root : ancestors r r []
| ancestors_child n c l :
    ancestors r n l → c ∈ children n → ancestors r c (n :: l).

(** The subtree of [n], every node's children sorted. *)
Fixpoint sorted_preorder (fdata : FocusData) (n : node) : list node :=
  n :: (sort_by (λ x y, urgency_and_lru_cmp fdata x.1 y.1)
          (((λ c, (c, sorted_preorder fdata c)) <$> nodes n)
           ++ ((λ c, (c, sorted_preorder fdata c)) <$> floating_nodes n)) ≫= snd).

(** [a] is more recently focused than [b] or as recently. *)
Definition more_recent (fdata : FocusData) (a b : node) : Prop :=
  (last_focus_tick fdata (id b) ≤ last_focus_tick fdata (id a))%Z.

(** ** Lemmas about the maps *)
Lemma init_id_parent_walk n p maps :
  init_id_parent n p maps = foldl (λ m '(p, n), init_entry n p m) maps (walk p n).
Proof.
  revert p maps. induction n as [n IHn IHf] using node_ind'. intros p maps.
  assert (∀ l m, Forall (λ n, ∀ p maps, init_id_parent n p maps
      = foldl (λ m '(p, n), init_entry n p m) maps (walk p n)) l →
    foldl (λ maps c, init_id_parent c (Some n) maps) m l
    = foldl (λ m '(p, n), init_entry n p m) m (l ≫= walk (Some n))) as Hl.
  { intros l m H. revert m. induction H as [|c l Hc _ IH]; intros m; [done|].
    rewrite bind_cons, foldl_app. cbn [foldl]. by rewrite IH, Hc. }
  assert (walk p n = (p, n) :: (nodes n ≫= walk (Some n)) ++ (floating_nodes n ≫= walk (Some n)))
    as -> by (by destruct n).
  cbn [foldl]. rewrite foldl_app, <-!Hl by done. by destruct n.
Qed.

Lemma walk_snd p n : (walk p n).*2 ≡ₚ preorder n.
Proof.
  revert p. induction n as [n IHn IHf] using node_ind'. intros p.
  assert (∀ l, Forall (λ n, ∀ p, (walk p n).*2 ≡ₚ preorder n) l →
    (l ≫= walk (Some n)).*2 ≡ₚ reverse l ≫= preorder) as Hl.
  { induction 1 as [|c l Hc _ IH]; [done|].
    rewrite bind_cons, fmap_app, IH, Hc, reverse_cons, bind_app. cbn.
    by rewrite app_nil_r, Permutation_app_comm. }
  assert (walk p n = (p, n) :: (nodes n ≫= walk (Some n)) ++ (floating_nodes n ≫= walk (Some n)))
    as -> by (by destruct n).
  rewrite preorder_eq, fmap_cons, fmap_app, !Hl by done. done.
Qed.

Lemma elem_of_walk p n q m :
  (q, m) ∈ walk p n ↔ (q = p ∧ m = n) ∨ ∃ k, q = Some k ∧ k ∈ preorder n ∧ m ∈ children k.
Proof.
  revert p q m. induction n as [n IHn IHf] using node_ind'. intros p q m.
  assert (walk p n = (p, n) :: (nodes n ≫= walk (Some n)) ++ (floating_nodes n ≫= walk (Some n)))
    as -> by (by destruct n).
  rewrite elem_of_cons, <-bind_app, list_elem_of_bind. fold (children n).
  assert (∀ c, c ∈ children n → ∀ p q m, (q, m) ∈ walk p c ↔
    (q = p ∧ m = c) ∨ ∃ k, q = Some k ∧ k ∈ preorder c ∧ m ∈ children k) as IH.
  { intros c. rewrite Forall_forall in IHn, IHf. unfold children.
    rewrite elem_of_app. intros [|]; eauto. }
  split.
  - intros [[= -> ->]|(c & Hm & Hc)]; [by left|]. right.
    rewrite IH in Hm by done. destruct Hm as [[-> ->]|(k & -> & Hk & Hm)].
    + exists n. eauto with swayr.
    + exists k. split_and!; [done| |done]. rewrite elem_of_preorder. eauto.
  - intros [[-> ->]|(k & -> & Hk & Hm)]; [by left|]. right.
    rewrite elem_of_preorder in Hk. destruct Hk as [->|(c & Hc & Hk)].
    + exists m. rewrite IH by done. eauto.
    + exists c. rewrite IH by done. eauto 6.
Qed.

Definition entries_ids (l : list (option node * node)) : list Z := (id ∘ snd) <$> l.

Lemma foldl_init_entry_lookup l (a : gmap Z node) (b : gmap Z Z) i :
  NoDup (entries_ids l) →
  let maps := foldl (λ m '(p, n), init_entry n p m) (a, b) l in
  (∀ p n, (p, n) ∈ l → id n = i →
     maps.1 !! i = Some n ∧ maps.2 !! i = match p with Some p => Some (id p) | None => b !! i end)
  ∧ (i ∉ entries_ids l → maps.1 !! i = a !! i ∧ maps.2 !! i = b !! i).
Proof.
  revert a b. induction l as [|[p n] l IH]; intros a b Hnd; cbn -[init_entry].
  { split; [|done]. intros p n Hin. by apply elem_of_nil in Hin. }
  unfold entries_ids in Hnd. rewrite fmap_cons, NoDup_cons in Hnd. destruct Hnd as [Hn Hnd].
  fold (entries_ids l) in Hn, Hnd. cbn in Hn.
  destruct (IH (<[id n:=n]> a)
    (match p with Some p => <[id n := id p]> b | None => b end) Hnd) as [IH1 IH2].
  cbn [init_entry]. split.
  - intros p' n' Hin Hi. apply elem_of_cons in Hin as [[= -> ->]|Hin].
    + subst i. destruct (IH2 Hn) as [-> ->]. rewrite lookup_insert_eq.
      destruct p; [by rewrite lookup_insert_eq|done].
    + destruct (IH1 p' n' Hin Hi) as [-> ->]. split; [done|].
      destruct p' as [p'|]; [done|]. destruct p; [|done].
      apply lookup_insert_ne. intros E. apply Hn. rewrite E, <-Hi.
      by apply (list_elem_of_fmap_2 (id ∘ snd) l (None, n')).
  - intros [Hne Hi]%not_elem_of_cons.
    destruct (IH2 Hi) as [-> ->]. cbn in Hne. rewrite lookup_insert_ne by done.
    split; [done|]. destruct p; [by rewrite lookup_insert_ne|done].
Qed.

Lemma walk_ids p n : unique_ids n → NoDup (entries_ids (walk p n)).
Proof.
  unfold unique_ids, entries_ids. intros H. rewrite list_fmap_compose. by rewrite walk_snd.
Qed.

Lemma id_node_get_tree r i m :
  unique_ids r → id_node (get_tree r) !! i = Some m ↔ m ∈ preorder r ∧ id m = i.
Proof.
  intros Hu. unfold get_tree. rewrite init_id_parent_walk.
  destruct (foldl_init_entry_lookup (walk None r) ∅ ∅ i (walk_ids _ _ Hu)) as [H1 H2].
  destruct (foldl _ _ _) as [a b]. cbn in *.
  assert (∀ m, m ∈ preorder r ↔ ∃ p, (p, m) ∈ walk None r) as Hw.
  { intros k. rewrite <-(walk_snd None r), list_elem_of_fmap. split.
    - intros ([p ?] & -> & ?). eauto.
    - intros [p ?]. by exists (p, k). }
  split.
  - intros Hm. destruct (decide (i ∈ entries_ids (walk None r))) as [Hi|Hi].
    + unfold entries_ids in Hi. apply list_elem_of_fmap in Hi as ([p k] & -> & Hin).
      destruct (H1 p k Hin eq_refl) as [E _]. rewrite E in Hm. simplify_eq.
      split; [apply Hw; eauto|done].
    + destruct (H2 Hi) as [E _]. rewrite E in Hm. by rewrite lookup_empty in Hm.
  - intros [Hm Hi]. apply Hw in Hm as [p Hm]. by destruct (H1 p m Hm Hi).
Qed.

Lemma id_parent_get_tree r i p :
  unique_ids r →
  id_parent (get_tree r) !! i = Some p
  ↔ ∃ n c, n ∈ preorder r ∧ c ∈ children n ∧ id c = i ∧ id n = p.
Proof.
  intros Hu. unfold get_tree. rewrite init_id_parent_walk.
  destruct (foldl_init_entry_lookup (walk None r) ∅ ∅ i (walk_ids _ _ Hu)) as [H1 H2].
  destruct (foldl _ _ _) as [a b]. cbn in *. split.
  - intros Hp. destruct (decide (i ∈ entries_ids (walk None r))) as [Hi|Hi].
    + unfold entries_ids in Hi. apply list_elem_of_fmap in Hi as ([q k] & -> & Hin).
      destruct (H1 q k Hin eq_refl) as [_ E]. cbn in *. rewrite E in Hp.
      destruct q as [q|]; [|by rewrite lookup_empty in Hp]. simplify_eq.
      apply elem_of_walk in Hin as [[? _]|(n & [= ->] & ? & ?)]; [done|]. eauto 7.
    + destruct (H2 Hi) as [_ E]. rewrite E in Hp. by rewrite lookup_empty in Hp.
  - intros (n & c & Hn & Hc & Hi & Hp).
    destruct (H1 (Some n) c) as [_ E]; [|done|by rewrite E, Hp].
    apply elem_of_walk. eauto 6.
Qed.

(** ** Lemmas about ancestors *)
Lemma node_size_pos n : 0 < node_size n.
Proof. destruct n; cbn; lia. Qed.

Lemma sum_list_with_elem {A} (f : A → nat) l x : x ∈ l → f x ≤ sum_list_with f l.
Proof.
  induction l as [|y l IH]; [intros Hx; by apply elem_of_nil in Hx|].
  rewrite elem_of_cons. intros [->|Hx]; cbn; [lia|]. specialize (IH Hx). lia.
Qed.

Lemma node_size_child n c : c ∈ children n → node_size c < node_size n.
Proof.
  unfold children. rewrite elem_of_app.
  intros [H|H]; apply (sum_list_with_elem node_size) in H; destruct n; cbn in *; lia.
Qed.

Lemma node_size_preorder n m : m ∈ preorder n → node_size m ≤ node_size n.
Proof.
  revert m. induction n as [n IHn IHf] using node_ind'. intros m.
  rewrite elem_of_preorder. rewrite Forall_forall in IHn, IHf.
  intros [->|(c & Hc & Hm)]; [done|]. pose proof (node_size_child _ _ Hc).
  unfold children in Hc. apply elem_of_app in Hc as [Hc|Hc];
    [specialize (IHn c Hc m Hm)|specialize (IHf c Hc m Hm)]; lia.
Qed.

Section Ancestors.
Context (r : node).

Lemma ancestors_elem n l : ancestors r n l → n ∈ preorder r.
Proof.
  induction 1 as [|n c l _ IH Hc]; [apply preorder_self|].
  eapply preorder_trans; eauto with swayr.
Qed.

Lemma ancestors_exists n : n ∈ preorder r → ∃ l, ancestors r n l.
Proof.
  rewrite elem_of_preorder_rtc. revert n.
  apply (rtc_ind_r (λ n, ∃ l, ancestors r n l)).
  - eexists. constructor.
  - intros m n _ Hc [l Hl]. eexists. by econstructor.
Qed.

Lemma ancestors_size n l : ancestors r n l → node_size n + length l ≤ node_size r.
Proof.
  induction 1 as [|n c l _ IH Hc]; cbn; [lia|].
  pose proof (node_size_child _ _ Hc). lia.
Qed.

Lemma foldl_init_entry_size l (a : gmap Z node) (b : gmap Z Z) :
  NoDup (entries_ids l) →
  (∀ i, i ∈ entries_ids l → b !! i = None) →
  Forall (λ e, is_Some e.1) l →
  size (foldl (λ m '(p, n), init_entry n p m) (a, b) l).2 = size b + length l.
Proof.
  intros Hnd Hb Hl. revert a b Hnd Hb.
  induction Hl as [|[p n] l [p' Hp] _ IH]; intros a b Hnd Hb; cbn -[init_entry]; [lia|].
  cbn in Hp. subst p. apply NoDup_cons in Hnd as [Hn Hnd]. cbn [init_entry].
  rewrite IH; [|done|].
  - rewrite map_size_insert_None; [lia|]. apply Hb. left.
  - intros i Hi. rewrite lookup_insert_ne; [apply Hb; by right|]. intros <-. by apply Hn.
Qed.

Context (Hu : unique_ids r).
Local Abbreviation t := (get_tree r).

Lemma size_id_parent : S (size (id_parent t)) = node_size r.
Proof.
  rewrite <-length_preorder. rewrite <-(walk_snd None r), length_fmap.
  unfold get_tree. rewrite init_id_parent_walk.
  pose proof (walk_ids None r Hu) as Hnd.
  assert (∃ w, walk None r = (None, r) :: w ∧ Forall (λ e, is_Some e.1) w) as (w & E & Hw).
  { eexists. split; [by destruct r|].
    apply Forall_app; split; apply Forall_bind, Forall_true; intros c;
      apply Forall_forall; intros [q m] Hin%elem_of_walk;
      destruct Hin as [[-> _]|(k & -> & _)]; by eexists. }
  rewrite E in *. cbn -[init_entry]. cbn [init_entry].
  apply NoDup_cons in Hnd as [_ Hnd].
  pose proof (foldl_init_entry_size w (<[id r:=r]> ∅) ∅ Hnd
    (λ i _, lookup_empty i) Hw) as Hs.
  destruct (foldl _ _ _) as [a b]. cbn in *. by rewrite Hs, map_size_empty.
Qed.

Lemma ancestors_fuel n l : ancestors r n l → length l < S (size (id_parent t)).
Proof.
  intros H%ancestors_size. rewrite size_id_parent. pose proof (node_size_pos n). lia.
Qed.

Lemma id_parent_ancestors n l : ancestors r n l → id_parent t !! id n = id <$> head l.
Proof.
  destruct 1 as [|n c l Hn Hc]; cbn.
  - destruct (id_parent t !! id r) as [p|] eqn:E; [|done]. exfalso.
    apply id_parent_get_tree in E as (n & c & Hn & Hc & Hi & _); [|done].
    assert (c = r) as ->.
    { apply (unique_ids_inj r); try done; [|apply preorder_self].
      eapply preorder_trans; eauto with swayr. }
    apply node_size_preorder in Hn. apply node_size_child in Hc. lia.
  - apply id_parent_get_tree; [done|]. exists n, c. eauto using ancestors_elem.
Qed.

Lemma get_node_by_id_done n : n ∈ preorder r → get_node_by_id t (id n) = Done n.
Proof. intros Hn. apply expect_done. by apply id_node_get_tree. Qed.

Lemma get_parent_node_done n l :
  ancestors r n l → get_parent_node t (id n) = Done (head l).
Proof.
  intros H. unfold get_parent_node. rewrite (id_parent_ancestors n l) by done.
  destruct H as [|n c l Hn]; [done|]. cbn.
  by rewrite get_node_by_id_done by by eapply ancestors_elem.
Qed.

Lemma get_parent_node_of_type_from_done fuel n l ty :
  typable r → ancestors r n l → length l < fuel →
  get_parent_node_of_type_from t fuel (id n) ty = Done (find (is_type ty) (n :: l)).
Proof.
  intros Ht. revert n l. induction fuel as [|fuel IH]; intros n l Ha Hf; [lia|].
  pose proof (ancestors_elem _ _ Ha) as Hn. cbn [get_parent_node_of_type_from].
  rewrite get_node_by_id_done, bind_done by done.
  assert (typable1 n) as Htn by by eapply typable_elem.
  rewrite Htn, bind_done. cbn [find]. unfold is_type at 1.
  destruct (decide (type_of n = ty)) as [E|E].
  { by rewrite bool_decide_true. }
  rewrite bool_decide_false by done. rewrite (id_parent_ancestors _ _ Ha).
  destruct Ha as [|p c l Ha Hc]; [done|]. cbn [head fmap option_fmap option_map].
  cbn in Hf. rewrite (IH p l); [done|done|lia].
Qed.

Lemma tree_depth_done fuel n l d :
  ancestors r n l → length l < fuel → tree_depth fuel t n d = Done (d + length l).
Proof.
  revert n l d. induction fuel as [|fuel IH]; intros n l d Ha Hf; [lia|].
  cbn [tree_depth]. rewrite (get_parent_node_done n l) by done. rewrite bind_done.
  destruct Ha as [|p c l Ha Hc]; cbn in *; [f_equal; lia|].
  rewrite (IH p l); [f_equal; lia|done|lia].
Qed.
End Ancestors.

(** ** Lemmas about the orders *)
Lemma reverse_compare_le (x y : Z) : reverse_ord (x ?= y)%Z ≠ Gt ↔ (y ≤ x)%Z.
Proof. unfold reverse_ord. by rewrite <-Z.compare_antisym. Qed.

#[export] Instance urgency_and_lru_cmp_total fdata : TotalCmp (urgency_and_lru_cmp fdata).
Proof.
  split.
  - intros x y. unfold urgency_and_lru_cmp, reverse_ord.
    rewrite (Z.compare_antisym (last_focus_tick fdata (id x)) (last_focus_tick fdata (id y))).
    by destruct (urgent x), (urgent y).
  - intros x y z. unfold cmp_le, urgency_and_lru_cmp.
    destruct (urgent x), (urgent y), (urgent z); cbn [andb negb]; try done;
      rewrite !reverse_compare_le; lia.
Qed.

Lemma urgency_and_lru_le fdata a b :
  cmp_le (urgency_and_lru_cmp fdata) a b →
  (urgent b = true → urgent a = true)
  ∧ (urgent a = urgent b → more_recent fdata a b).
Proof.
  unfold cmp_le, urgency_and_lru_cmp, more_recent.
  destruct (urgent a), (urgent b); cbn [andb negb]; try done;
    rewrite reverse_compare_le; auto.
Qed.

Lemma insert_by_fmap {A B} (f : A → B) (cmp : B → B → comparison) x l :
  f <$> insert_by (λ x y, cmp (f x) (f y)) x l = insert_by cmp (f x) (f <$> l).
Proof.
  induction l as [|y l IH]; [done|]. cbn. destruct (cmp (f x) (f y)); cbn; congruence.
Qed.

Lemma sort_by_fmap {A B} (f : A → B) (cmp : B → B → comparison) l :
  f <$> sort_by (λ x y, cmp (f x) (f y)) l = sort_by cmp (f <$> l).
Proof.
  induction l as [|x l IH]; [done|]. cbn [sort_by]. by rewrite insert_by_fmap, IH.
Qed.

Lemma sorted_preorder_eq fdata n :
  sorted_preorder fdata n
  = n :: (sort_by (urgency_and_lru_cmp fdata) (children n) ≫= sorted_preorder fdata).
Proof.
  assert (sorted_preorder fdata n
    = n :: (sort_by (λ x y, urgency_and_lru_cmp fdata x.1 y.1)
              ((λ c, (c, sorted_preorder fdata c)) <$> children n) ≫= snd)) as ->.
  { unfold children. rewrite fmap_app. by destruct n. }
  f_equal. set (g := λ c, (c, sorted_preorder fdata c)).
  assert (Forall (λ e, e.2 = sorted_preorder fdata e.1)
    (sort_by (λ x y, urgency_and_lru_cmp fdata x.1 y.1) (g <$> children n))) as Hall.
  { rewrite sort_by_Permutation. apply Forall_fmap, Forall_true. done. }
  assert (children n = fst <$> (g <$> children n)) as E.
  { rewrite <-list_fmap_compose. symmetry. apply list_fmap_id. }
  rewrite E at 2. rewrite <-(sort_by_fmap fst (urgency_and_lru_cmp fdata)).
  induction Hall as [|[c l] w Hc _ IH]; [done|]. cbn in Hc. subst l.
  rewrite fmap_cons, !bind_cons. by rewrite IH.
Qed.

Lemma sorted_preorder_Permutation fdata n : sorted_preorder fdata n ≡ₚ preorder n.
Proof.
  induction n as [n IHn IHf] using node_ind'.
  rewrite sorted_preorder_eq, sort_by_Permutation, preorder_eq. constructor.
  unfold children. rewrite bind_app.
  assert (∀ l, Forall (λ n, sorted_preorder fdata n ≡ₚ preorder n) l →
    l ≫= sorted_preorder fdata ≡ₚ reverse l ≫= preorder) as Hl; [|by rewrite !Hl].
  induction 1 as [|c l Hc _ IH]; [done|].
  rewrite bind_cons, Hc, IH, reverse_cons, bind_app. cbn.
  by rewrite app_nil_r, Permutation_app_comm.
Qed.

Lemma push_subtree_sorted_done fuel fdata n v :
  node_size n ≤ fuel →
  push_subtree_sorted fuel fdata n v = Done (v ++ sorted_preorder fdata n).
Proof.
  revert n v. induction fuel as [|fuel IH]; intros n v Hf.
  { pose proof (node_size_pos n). lia. }
  cbn [push_subtree_sorted]. rewrite sorted_preorder_eq.
  unfold sort_by_urgency_and_lru_time_1. fold (children n).
  assert (∀ l w, (∀ c, c ∈ l → node_size c ≤ fuel) →
    foldl (λ v c, v ← v; push_subtree_sorted fuel fdata c v) (Done w) l
    = Done (w ++ (l ≫= sorted_preorder fdata))) as Hl.
  { induction l as [|c l IHl]; intros w Hw; cbn; [by rewrite app_nil_r|].
    rewrite IH by (apply Hw; left). rewrite IHl by (intros; apply Hw; by right).
    by rewrite <-(assoc_L (++)). }
  rewrite Hl.
  - by rewrite <-(assoc_L (++)).
  - intros c Hc. rewrite elem_of_sort_by in Hc. apply node_size_child in Hc. lia.
Qed.

Lemma push_subtrees_done fdata l :
  push_subtrees fdata l = Done (l ≫= sorted_preorder fdata).
Proof.
  unfold push_subtrees.
  assert (∀ w, foldl (λ v n, v ← v; push_subtree_sorted (node_size n) fdata n v) (Done w) l
    = Done (w ++ (l ≫= sorted_preorder fdata))) as H.
  { induction l as [|n l IH]; intros w; cbn; [by rewrite app_nil_r|].
    rewrite push_subtree_sorted_done by done. by rewrite IH, <-(assoc_L (++)). }
  apply H.
Qed.

Lemma sorted_nodes_of_type_done r ty fdata :
  typable r →
  sorted_nodes_of_type (get_tree r) ty fdata
  = Done (sort_by (urgency_and_lru_cmp fdata)
            (filter (λ n, is_type ty n = true) (preorder r))).
Proof.
  intros Ht. unfold sorted_nodes_of_type, sorted_nodes_of_type_1.
  assert (root (get_tree r) = r) as ->.
  { unfold get_tree. by destruct (init_id_parent _ _ _). }
  by rewrite nodes_of_type_done.
Qed.

Lemma split_urgent_spec fdata v x :
  StronglySorted (cmp_le (urgency_and_lru_cmp fdata)) v →
  ∃ u w, v = u ++ w ∧ split_urgent v x = (w, x ++ u)
    ∧ Forall (λ n, urgent n = true) u ∧ Forall (λ n, urgent n = false) w.
Proof.
  intros Hs. revert x. induction Hs as [|n v Hs IH Hall]; intros x; cbn.
  { exists [], []. split_and!; [done|by rewrite app_nil_r|constructor..]. }
  destruct (urgent n) eqn:En.
  - destruct (IH (x ++ [n])) as (u & w & -> & -> & Hu & Hw).
    exists (n :: u), w. rewrite <-(assoc_L (++)). split_and!; by try constructor.
  - exists [], (n :: v). split_and!; [done|by rewrite app_nil_r|constructor|].
    constructor; [done|].
    eapply Forall_impl; [exact Hall|]. intros m Hm.
    destruct (urgency_and_lru_le fdata n m Hm) as [Hu _].
    destruct (urgent m); [|done]. rewrite Hu in En by done. done.
Qed.

Lemma StronglySorted_recent fdata b l :
  StronglySorted (cmp_le (urgency_and_lru_cmp fdata)) l →
  Forall (λ n, urgent n = b) l → StronglySorted (more_recent fdata) l.
Proof.
  induction 1 as [|n l Hs IH Hall]; intros Hu; constructor.
  - apply IH. by inversion Hu.
  - apply Forall_cons in Hu as [Hn Hu]. rewrite Forall_forall in *.
    intros m Hm. apply (urgency_and_lru_le fdata n m); [by auto|].
    by rewrite Hn, (Hu m Hm).
Qed.

Lemma rotate_if_some_cons n v : rotate_if_some (n :: v) = Done (v ++ [n]).
Proof. unfold rotate_if_some. by rewrite rotate_left_done by (cbn; lia). Qed.

(** ** Claims *)

(** C26: In a tree whose node ids are unique, [get_tree] maps exactly the ids of
    the tree's nodes to their nodes, and every non-root node, and nothing else, to
    the id of the node it is a child of (tiled or floating). *)
Theorem get_tree_maps r :
  unique_ids r →
  (∀ i m, id_node (get_tree r) !! i = Some m ↔ m ∈ preorder r ∧ id m = i)
  ∧ (∀ i p, id_parent (get_tree r) !! i = Some p ↔
       ∃ n c, n ∈ preorder r ∧ c ∈ children n ∧ id c = i ∧ id n = p).
Proof.
  intros Hu. split; intros; [by apply id_node_get_tree|by apply id_parent_get_tree].
Qed.

(** The recursion of [get_parent_node_of_type] terminates and answers with
    the nearest node of the type among the node itself, its parent, the parent of
    that and so on up to the root, and with nothing when there is none; it never
    panics in a tree with unique ids and known node types. *)
Theorem get_parent_node_of_type_nearest r n ty :
  unique_ids r → typable r → n ∈ preorder r →
  ∃ l, ancestors r n l
    ∧ get_parent_node_of_type (get_tree r) (id n) ty = Done (find (is_type ty) (n :: l)).
Proof.
  intros Hu Ht Hn. destruct (ancestors_exists r n Hn) as [l Hl]. exists l.
  split; [done|]. apply get_parent_node_of_type_from_done; try done.
  by apply (ancestors_fuel r Hu n).
Qed.

(** C25: [get_windows] returns every window of the tree once, first the urgent
    ones, most recently focused first, then the others in the same order except
    that the most recently focused of them comes last. *)
Theorem get_windows_order r fdata :
  typable r →
  ∃ ds u w, get_windows (get_tree r) fdata = Done ds
  ∧ dnode <$> ds = u ++ w
  ∧ u ++ w ≡ₚ filter (λ n, is_type Type_Window n = true) (preorder r)
  ∧ Forall (λ n, urgent n = true) u ∧ Forall (λ n, urgent n = false) w
  ∧ StronglySorted (more_recent fdata) u
  ∧ (w = [] ∨ ∃ w' m, w = w' ++ [m] ∧ StronglySorted (more_recent fdata) (m :: w'))
  ∧ Forall (λ d, get_indent_level d = Done 0) ds.
Proof.
  intros Ht. unfold get_windows. rewrite sorted_nodes_of_type_done, bind_done by done.
  set (v := filter _ (preorder r)).
  pose proof (sort_by_sorted (urgency_and_lru_cmp fdata) v) as Hs.
  destruct (split_urgent_spec fdata _ [] Hs) as (u & w & Ev & -> & Hu & Hw).
  cbn [app]. rewrite Ev in Hs.
  assert (u ++ w ≡ₚ v) as Hp by (by rewrite <-Ev, sort_by_Permutation).
  apply StronglySorted_app in Hs as (_ & Hsu & Hsw).
  assert (∃ w', rotate_if_some w = Done w' ∧ w' ≡ₚ w ∧ (w' = [] ∨ ∃ w'' m,
    w' = w'' ++ [m] ∧ StronglySorted (more_recent fdata) (m :: w''))) as (w' & -> & Hpw & Hw').
  { destruct w as [|m w'']; [by exists []; auto|]. rewrite rotate_if_some_cons.
    eexists. split; [done|]. split; [by rewrite Permutation_app_comm|]. right.
    exists w'', m. split; [done|]. by apply (StronglySorted_recent _ false). }
  rewrite bind_done. eexists _, u, w'. split; [done|]. unfold as_display_nodes.
  rewrite <-list_fmap_compose. split_and!; try done.
  - apply list_fmap_id.
  - by rewrite Hpw.
  - by rewrite Hpw.
  - by apply (StronglySorted_recent _ true).
  - apply Forall_fmap, Forall_true. done.
Qed.

(** [get_workspaces] returns every workspace once.  Without an urgent one
    they are in order of recency with the most recently focused one last; but when
    some workspace is urgent, it is an urgent one that is moved to the last place. *)
Theorem get_workspaces_order r fdata :
  typable r →
  ∃ ds, get_workspaces (get_tree r) fdata = Done ds
  ∧ dnode <$> ds ≡ₚ filter (λ n, is_type Type_Workspace n = true) (preorder r)
  ∧ (ds ≠ [] → ∃ l m, dnode <$> ds = l ++ [m]
      ∧ (Forall (λ n, urgent n = false) (dnode <$> ds) →
           StronglySorted (more_recent fdata) (m :: l))
      ∧ (Exists (λ n, urgent n = true) (dnode <$> ds) → urgent m = true)).
Proof.
  intros Ht. unfold get_workspaces. rewrite sorted_nodes_of_type_done, bind_done by done.
  set (v := filter _ (preorder r)).
  pose proof (sort_by_sorted (urgency_and_lru_cmp fdata) v) as Hs.
  pose proof (sort_by_Permutation (urgency_and_lru_cmp fdata) v) as Hp.
  destruct (sort_by _ v) as [|m l].
  - eexists. split; [done|]. by rewrite <-Hp.
  - rewrite rotate_if_some_cons, bind_done. eexists. split; [done|].
    unfold as_display_nodes. rewrite <-list_fmap_compose.
    replace (dnode ∘ _ <$> l ++ [m]) with (l ++ [m]) by (symmetry; apply list_fmap_id).
    rewrite (Permutation_app_comm l [m]) at 1. split; [done|]. intros _.
    exists l, m. split; [done|]. rewrite (Permutation_app_comm l [m]). cbn. split.
    + by apply StronglySorted_recent.
    + rewrite Exists_exists. intros (n & Hn & Hun). apply StronglySorted_inv in Hs as [_ Hall].
      apply elem_of_cons in Hn as [->|Hn]; [done|]. rewrite Forall_forall in Hall.
      by apply (urgency_and_lru_le fdata m n); [apply Hall|].
Qed.

(** C30: [get_workspaces_containers_and_windows] terminates and returns the
    subtrees of the sorted workspaces one after the other: every node below a
    workspace once, each directly followed by the subtrees of its children in
    order of urgency and recency. *)
Theorem workspaces_containers_windows_complete r fdata :
  typable r →
  ∃ ds wss, get_workspaces_containers_and_windows (get_tree r) fdata = Done ds
  ∧ wss ≡ₚ filter (λ n, is_type Type_Workspace n = true) (preorder r)
  ∧ StronglySorted (cmp_le (urgency_and_lru_cmp fdata)) wss
  ∧ dnode <$> ds = wss ≫= sorted_preorder fdata
  ∧ dnode <$> ds ≡ₚ wss ≫= preorder
  ∧ ∀ n, ∃ cs, sorted_preorder fdata n = n :: (cs ≫= sorted_preorder fdata)
      ∧ cs ≡ₚ children n ∧ StronglySorted (cmp_le (urgency_and_lru_cmp fdata)) cs.
Proof.
  intros Ht. unfold get_workspaces_containers_and_windows.
  rewrite sorted_nodes_of_type_done, bind_done, push_subtrees_done by done.
  eexists _, _. split; [done|].
  split; [apply sort_by_Permutation|]. split; [apply sort_by_sorted; apply _|].
  unfold as_display_nodes. rewrite <-list_fmap_compose.
  match goal with |- ?x = ?y ∧ _ => assert (x = y) as -> by apply list_fmap_id end.
  split; [done|]. split.
  - induction (sort_by _ _) as [|n l IH]; [done|].
    by rewrite !bind_cons, sorted_preorder_Permutation, IH.
  - intros n. eexists. split; [apply sorted_preorder_eq|].
    split; [apply sort_by_Permutation|apply sort_by_sorted; apply _].
Qed.

(** The indent level of a node shown in a subtree view is its depth below
    the root less the offset, and 0 above it; the loop over the parents
    terminates. *)
Theorem indent_level_is_depth r n offset :
  unique_ids r → n ∈ preorder r →
  ∃ l, ancestors r n l
    ∧ get_indent_level {| dnode := n; dtree := get_tree r; indent_level := TreeDepth offset |}
      = Done (length l - offset).
Proof.
  intros Hu Hn. destruct (ancestors_exists r n Hn) as [l Hl]. exists l.
  split; [done|]. unfold get_indent_level. cbn [indent_level dtree dnode].
  rewrite (tree_depth_done r Hu _ n l) by
    (try done; by apply (ancestors_fuel r Hu n)).
  rewrite bind_done. cbn. case_decide; f_equal; lia.
Qed.

(** ** Witnesses *)
Section Witnesses.
Import Samples.

Lemma sample_unique : unique_ids sample_root.
Proof. unfold unique_ids. decide_now. Qed.

Definition sample_fdata : FocusData :=
  {| focus_tick_by_id := list_to_map [(11, 3); (13, 7); (15, 5); (21, 6); (10, 7)]%Z;
     focus_chan := []; receiver_alive := true |}.

Lemma get_tree_maps_witness :
  id_parent (get_tree sample_root) !! 13%Z = Some 12%Z
  ↔ ∃ n c, n ∈ preorder sample_root ∧ c ∈ children n ∧ id c = 13%Z ∧ id n = 12%Z.
Proof. exact (proj2 (get_tree_maps sample_root sample_unique) 13%Z 12%Z). Defined.

Lemma get_parent_node_of_type_nearest_witness :
  ∃ l, ancestors sample_root (tiled 13 "foot" true false) l
    ∧ get_parent_node_of_type (get_tree sample_root) 13 Type_Workspace
      = Done (find (is_type Type_Workspace) (tiled 13 "foot" true false :: l)).
Proof.
  apply (get_parent_node_of_type_nearest sample_root (tiled 13 "foot" true false)).
  - apply sample_unique.
  - apply sample_typable.
  - apply (list_elem_of_lookup_2 _ 7). reflexivity.
Defined.

Lemma get_windows_order_witness :
  ∃ ds, get_windows (get_tree sample_root) sample_fdata = Done ds
    ∧ id <$> (dnode <$> ds) = [14; 21; 15; 11; 13]%Z.
Proof.
  destruct (get_windows_order sample_root sample_fdata sample_typable)
    as (ds & u & w & E & _).
  exists ds. split; [exact E|].
  assert ((λ ds : list DisplayNode, id <$> (dnode <$> ds)) <$> get_windows (get_tree sample_root) sample_fdata
    = Done [14; 21; 15; 11; 13]%Z) as H by (vm_compute; reflexivity).
  rewrite E in H. exact (Done_inj _ _ H).
Defined.

Lemma get_workspaces_order_witness :
  ∃ ds, get_workspaces (get_tree sample_root) sample_fdata = Done ds.
Proof.
  destruct (get_workspaces_order sample_root sample_fdata sample_typable) as (ds & E & _).
  by exists ds.
Defined.

Lemma workspaces_containers_windows_complete_witness :
  ∃ ds, get_workspaces_containers_and_windows (get_tree sample_root) sample_fdata = Done ds.
Proof.
  destruct (workspaces_containers_windows_complete sample_root sample_fdata sample_typable)
    as (ds & wss & E & _).
  by exists ds.
Defined.

Lemma indent_level_is_depth_witness :
  ∃ l, ancestors sample_root sample_ws2 l
    ∧ get_indent_level {| dnode := sample_ws2; dtree := get_tree sample_root;
                          indent_level := TreeDepth 2 |} = Done (length l - 2).
Proof.
  apply (indent_level_is_depth sample_root sample_ws2 2 sample_unique).
  apply (list_elem_of_lookup_2 _ 2). reflexivity.
Defined.
End Witnesses.
