(* ===== verification/Display.v ===== *)
(** * Formatting nodes for the menu (swayr/src/tree.rs, [DisplayFormat]) *)

From S2P Require Import Prelude RString Regex Fmt Config Ipc Sway Cfg Util Tree.
From S2P Require Samples.

Definition APP_NAME_AND_VERSION_RX : string := "(.+)(-[0-9.]+)".

Definition format_marks (marks : list string) : string :=
  match marks with
  | [] => EmptyString
  | _ => "[" +:+ join ", " marks +:+ "]"
  end.

(** [Debug] of the layouts. *)
Definition layout_debug (l : NodeLayout) : string :=
  match l with
  | SplitH => "SplitH" | SplitV => "SplitV" | Stacked => "Stacked" | Tabbed => "Tabbed"
  | Layout_None => "None" | Layout_other debug => debug
  end.

(** [str::to_lowercase] and [Debug] of strings, which need the Unicode tables of
    the standard library. *)
Class Unicode := { to_lowercase : string → string; str_debug : string → string }.

Section Display.
Context `{Env} `{RegexCrate} `{Floats} `{RtFormatCrate} `{Unicode}.

Definition node_name_or (default : string) (n : option node) : string :=
  match n with Some w => get_name w | None => default end.

(** The placeholders of a node. *)
Definition node_arms (d : DisplayNode) (name : string) : option (outcome FmtArg) :=
  let n := dnode d in
  if decide (name = "id") then Some (Done (I64 (id n)))
  else if decide (name = "app_name") then Some (Done (Str (get_app_name n)))
  else if decide (name = "layout") then Some (Done (Str (layout_debug (Ipc.layout n))))
  else if decide (name = "name" ∨ name = "title") then Some (Done (Str (get_name n)))
  else if decide (name = "output_name")
  then Some (p ← get_parent_node_of_type (dtree d) (id n) Type_Output;
             Done (Str (node_name_or "<no_output>" p)))
  else if decide (name = "workspace_name")
  then Some (p ← get_parent_node_of_type (dtree d) (id n) Type_Workspace;
             Done (Str (node_name_or "<no_workspace>" p)))
  else if decide (name = "marks") then Some (Done (Str (format_marks (marks n))))
  else None.

(** The format for a node of each type. *)
Definition format_of (cfg : Config) (t : Type') : outcome string :=
  match t with
  | Type_Root => Done "Cannot format Root"
  | Type_Output => get_format_output_format cfg
  | Type_Workspace => get_format_workspace_format cfg
  | Type_Container => get_format_container_format cfg
  | Type_Window => get_format_window_format cfg
  end.

(** The icon of an application: by its name, by its name without a version, by
    that in lower case, or the fallback. *)
Definition app_icon (n : node) (app_name_no_version : string) (icon_dirs : list string)
    (fallback_icon : option string) : io string :=
  i ← get_icon (get_app_name n) icon_dirs;
  i ← match i with Some _ => mret i | None => get_icon app_name_no_version icon_dirs end;
  i ← match i with
      | Some _ => mret i
      | None => get_icon (to_lowercase app_name_no_version) icon_dirs
      end;
  mret (default EmptyString match i with Some _ => i | None => fallback_icon end).

Definition DisplayNode_format_for_display (d : DisplayNode) (cfg : Config) : io string :=
  let n := dnode d in
  indent ← lift (get_format_indent cfg);
  html_escape ← lift (get_format_html_escape cfg);
  urgency_start ← lift (get_format_urgency_start cfg);
  urgency_end ← lift (get_format_urgency_end cfg);
  icon_dirs ← lift (get_format_icon_dirs (env_var "HOME") cfg);
  rx ← lift (rx_unwrap APP_NAME_AND_VERSION_RX);
  let app_name_no_version := rx_replace rx (get_app_name n) "$1" in
  t ← lift (get_type n);
  fmt ← lift (format_of cfg t);
  level ← lift (Tree.get_indent_level d);
  icon ← app_icon n app_name_no_version icon_dirs (get_format_fallback_icon cfg);
  let fmt := replace "{indent}" (repeat_str level indent) fmt in
  let fmt := replace "{urgency_start}"
               (if urgent n then urgency_start else EmptyString) fmt in
  let fmt := replace "{urgency_end}"
               (if urgent n then urgency_end else EmptyString) fmt in
  let fmt := replace "{app_icon}" icon fmt in
  lift (subst_placeholders (node_arms d) html_escape fmt).

#[export] Instance DisplayNode_display : DisplayFormat DisplayNode :=
  {| format_for_display := DisplayNode_format_for_display;
     Util.get_indent_level := Tree.get_indent_level |}.
End Display.

(** ** For the witnesses *)

(** ASCII texts in lower case, and [Debug] without quotes. *)
Definition plain_unicode : Unicode := {| to_lowercase s := s; str_debug s := s |}.
