(* ===== verification/Criteria.v ===== *)
(** * Criteria queries (swayr/src/criteria.rs)

    The grammar of the queries as a recursive-descent parser over the rules of the
    source, and their evaluation on a window. *)

From S2P Require Import Prelude RString Regex Ipc Focus Tree.
From S2P Require Samples.

(** ** Syntax trees *)
Inductive OrFocused (A : Type) := Value (a : A) | Focused.
Arguments Value {A} _.
Arguments Focused {A}.

(** [RegexOrFocused], [I64OrFocused] and [ShellTypeOrFocused] are [OrFocused] of a
    regex, a number and a shell type. *)
#[warnings="-register-all"]
Inductive Criterion {regex : Type} :=
| And (criteria : list Criterion)
| Or (criteria : list Criterion)
| Not (crit : Criterion)
| AppId (val : OrFocused regex)
| Class' (val : OrFocused regex)
| Instance' (val : OrFocused regex)
| AppName (val : OrFocused regex)
| Title (val : OrFocused regex)
| ConMark (rx : regex)
| ConId (val : OrFocused Z)
| Pid (pid : Z)
| Workspace (val : OrFocused regex)
| Shell (val : OrFocused ShellType)
| Floating
| Tiling.
Arguments Criterion : clear implicits.

(** ** Parsing

    A parser takes the rest of the input and fails ([None]) or gives a value and
    what is left; it can panic, and it runs out of fuel with [NoReturn]. *)
Definition parser (A : Type) : Type := string → outcome (option (A * string)).

Definition p_ret {A} (a : A) : parser A := λ s, Done (Some (a, s)).

Definition p_bind {A B} (p : parser A) (f : A → parser B) : parser B := λ s,
  r ← p s; match r with Some (a, s') => f a s' | None => Done None end.

(** Ordered choice. *)
Definition p_or {A} (p q : parser A) : parser A := λ s,
  r ← p s; match r with Some r => Done (Some r) | None => q s end.

Definition p_opt {A} (p : parser A) : parser unit := p_or (p_bind p (λ _, p_ret tt)) (p_ret tt).

Definition p_lit (l : string) : parser unit := λ s,
  Done ((λ s', (tt, s')) <$> strip_prefix l s).

Notation "'p:' x ←! p ; k" := (p_bind p (λ x, k))
  (at level 20, p at level 100, x name, k at level 200, only parsing) : stdpp_scope.
Notation "p >>! q" := (p_bind p (λ _, q))
  (at level 60, right associativity, only parsing) : stdpp_scope.
Notation "p </> q" := (p_or p q) (at level 65, right associativity, only parsing) : stdpp_scope.

(** [e ** sep]: as many as there are; the fuel bounds their number. *)
Fixpoint p_more {A} (fuel : nat) (sep : parser unit) (p : parser A) (acc : list A)
    : parser (list A) := λ s,
  match fuel with
  | O => NoReturn
  | S fuel =>
      r ← p_bind sep (λ _, p) s;
      match r with
      | Some (a, s') => p_more fuel sep p (acc ++ [a]) s'
      | None => Done (Some (acc, s))
      end
  end.

Definition p_sep {A} (fuel : nat) (sep : parser unit) (p : parser A) : parser (list A) := λ s,
  r ← p s;
  match r with
  | Some (a, s') => p_more fuel sep p [a] s'
  | None => Done (Some ([], s))
  end.

(** *** Lexical rules *)
Definition is_space (c : ascii) : bool := bool_decide (c = " "%char) || bool_decide (c = "009"%char).

Fixpoint drop_while (f : ascii → bool) (s : string) : string :=
  match s with
  | String c s' => if f c then drop_while f s' else s
  | EmptyString => EmptyString
  end.

Fixpoint take_while (f : ascii → bool) (s : string) : string :=
  match s with
  | String c s' => if f c then String c (take_while f s') else EmptyString
  | EmptyString => EmptyString
  end.

Definition space : parser unit := λ s, Done (Some (tt, drop_while is_space s)).

(** [n:$(['-']?['0'..='9']+) {? n.parse() }]. *)
Definition int_literal (parse : string → option Z) : parser Z := λ s,
  let '(sign, s1) :=
    match s with String "-" s' => ("-", s') | _ => ("", s) end in
  let ds := take_while is_digit s1 in
  Done (if decide (ds = EmptyString) then None
        else n ← parse (sign +:+ ds); Some (n, drop_while is_digit s1)).

Definition i32_literal : parser Z := int_literal parse_i32.
Definition i64_literal : parser Z := int_literal parse_i64.

Definition not_dq (c : ascii) : bool := bool_decide (c ≠ Ascii.ascii_of_nat 34).

Definition string_literal : parser string := λ s,
  Done (s1 ← strip_prefix dq s;
        let str := take_while not_dq s1 in
        rest ← strip_prefix dq (drop_while not_dq s1);
        Some (str, rest)).

Section Parse.
Context `{RegexCrate}.
Local Abbreviation Criterion := (Criterion regex).

Definition regex_from_str (s : string) : outcome regex :=
  match rx_new s with
  | Some rx => Done rx
  | None => rx_unwrap "^__I_WONT_MATCH_A_💩__$"
  end.

Definition p_regex : parser regex :=
  p: s ←! string_literal; λ rest, rx ← regex_from_str s; Done (Some (rx, rest)).

Definition regex_or_focused : parser (OrFocused regex) :=
  (p_lit "__focused__" >>! p_ret Focused)
  </> (p: rx ←! p_regex; p_ret (Value rx)).

Definition i64_or_focused : parser (OrFocused Z) :=
  (p_lit "__focused__" >>! p_ret Focused)
  </> (p: n ←! i64_literal; p_ret (Value n)).

Definition shell_type_or_focused : parser (OrFocused ShellType) :=
  (p_lit (dq +:+ "xdg_shell" +:+ dq) >>! p_ret (Value XdgShell))
  </> (p_lit (dq +:+ "xwayland" +:+ dq) >>! p_ret (Value Xwayland))
  </> (p_lit "__focused__" >>! p_ret Focused).

(** [key space "=" space value]. *)
Definition p_key {A} (key : string) (value : parser A) (f : A → Criterion) : parser Criterion :=
  p_lit key >>! space >>! p_lit "=" >>! space >>! p: v ←! value; p_ret (f v).

Definition simple_criterion : parser Criterion :=
  (p_lit "tiling" >>! p_ret Tiling)
  </> (p_lit "floating" >>! p_ret Floating)
  </> p_key "app_id" regex_or_focused AppId
  </> p_key "class" regex_or_focused Class'
  </> p_key "instance" regex_or_focused Instance'
  </> p_key "app_name" regex_or_focused AppName
  </> p_key "title" regex_or_focused Title
  </> p_key "shell" shell_type_or_focused Shell
  </> p_key "workspace" regex_or_focused Workspace
  </> p_key "con_mark" p_regex ConMark
  </> p_key "con_id" i64_or_focused ConId
  </> p_key "pid" i32_literal Pid.

Fixpoint criterion (fuel : nat) : parser Criterion :=
  match fuel with
  | O => λ _, NoReturn
  | S fuel =>
      let crit := criterion fuel in
      (p_lit "[" >>! space >>!
         p_opt (p_lit "AND" </> p_lit "and" </> p_lit "&&") >>! space >>!
         p: l ←! p_sep fuel space crit;
         space >>! p_lit "]" >>! space >>! p_ret (And l))
      </> (p_lit "[" >>! space >>!
         (p_lit "OR" </> p_lit "or" </> p_lit "||") >>! space >>!
         p: l ←! p_sep fuel space crit;
         space >>! p_lit "]" >>! space >>! p_ret (Or l))
      </> ((p_lit "NOT" </> p_lit "not" </> p_lit "!") >>! space >>!
         p: c ←! crit; space >>! p_ret (Not c))
      </> simple_criterion
  end.

(** The start rule; the whole input has to be consumed. *)
Definition criteria_parser_parse (s : string) : outcome (option Criterion) :=
  r ← (space >>! criterion (S (String.length s))) s;
  Done match r with
       | Some (c, EmptyString) => Some c
       | _ => None
       end.

(** A parse error is logged. *)
Definition parse_criteria (criteria : string) : outcome (option Criterion) :=
  criteria_parser_parse criteria.

(** ** Evaluation *)
Definition is_some_and_rx_matches (s : option string) (rx : regex) : bool :=
  match s with Some s => is_match rx s | None => false end.

Definition are_some_and_equal {A} (eqb : A → A → bool) (a b : option A) : bool :=
  match a, b with Some a, Some b => eqb a b | _, _ => false end.

Definition opt_string_eqb := are_some_and_equal String.eqb.

(** [PartialEq] of the swayipc crate's [Node]. *)
Context (node_eqb : node → node → bool).

Definition wp_class_of (n : node) : option string := window_properties n ≫= wp_class.
Definition wp_instance_of (n : node) : option string := window_properties n ≫= wp_instance.

(** The common shape of the string-valued criteria. *)
Definition eval_string (get : node → option string) (val : OrFocused regex)
    (w : DisplayNode) (focused : option DisplayNode) : bool :=
  match val with
  | Value rx => is_some_and_rx_matches (get (dnode w)) rx
  | Focused =>
      match focused with
      | Some win => opt_string_eqb (get (dnode w)) (get (dnode win))
      | None => false
      end
  end.

(** [iter().all] and [iter().any] stop at the first element that decides. *)
Fixpoint all_o {A} (p : A → outcome bool) (l : list A) : outcome bool :=
  match l with
  | [] => Done true
  | x :: l => b ← p x; if b : bool then all_o p l else Done false
  end.

Definition workspace_of (w : DisplayNode) : outcome (option node) :=
  get_parent_node_of_type (dtree w) (id (dnode w)) Type_Workspace.

Fixpoint eval_criterion (criterion : Criterion) (w : DisplayNode)
    (focused : option DisplayNode) : outcome bool :=
  match criterion with
  | And criteria => all_o (λ crit, eval_criterion crit w focused) criteria
  | Or criteria => any_o (λ crit, eval_criterion crit w focused) criteria
  | Not crit => negb <$> eval_criterion crit w focused
  | AppId val => Done (eval_string app_id val w focused)
  | AppName val =>
      Done match val with
           | Value rx => is_match rx (get_app_name (dnode w))
           | Focused =>
               match focused with
               | Some win => bool_decide (get_app_name (dnode w) ≠ get_app_name (dnode win))
               | None => false
               end
           end
  | Class' val => Done (eval_string wp_class_of val w focused)
  | Instance' val => Done (eval_string wp_instance_of val w focused)
  | Shell val =>
      Done match val with
           | Value t => bool_decide (shell (dnode w) = Some t)
           | Focused =>
               match focused with
               | Some win => are_some_and_equal (λ x y, bool_decide (x = y))
                               (shell (dnode w)) (shell (dnode win))
               | None => false
               end
           end
  | ConId val =>
      Done match val with
           | Value i => (id (dnode w) =? i)%Z
           | Focused => Ipc.focused (dnode w)
           end
  | ConMark rx => Done (existsb (is_match rx) (marks (dnode w)))
  | Pid p => Done (bool_decide (pid (dnode w) = Some p))
  | Workspace val =>
      match val with
      | Value rx =>
          ws ← workspace_of w; Done (is_some_and_rx_matches (get_name <$> ws) rx)
      | Focused =>
          match focused with
          | Some win =>
              a ← workspace_of w; b ← workspace_of win;
              Done (are_some_and_equal node_eqb a b)
          | None => Done false
          end
      end
  | Floating => Done (is_floating (dnode w))
  | Tiling => Done (negb (is_floating (dnode w)))
  | Title val => Done (eval_string name val w focused)
  end.

Definition criterion_to_predicate (criterion : Criterion) (all_windows : list DisplayNode)
    : DisplayNode → outcome bool :=
  let focused := find (λ x, Ipc.focused (dnode x)) all_windows in
  λ w, eval_criterion criterion w focused.
End Parse.

(** ** Reference definitions

    A query is a syntax tree whose regexes are still strings; [writes q s] says
    that [s] is one of the ways to write [q] on one line that the documentation allows:
    spaces and tabs wherever it has blanks, and each keyword in each of its spellings. *)
Fixpoint map_criterion {A B} (f : A → B) (c : Criterion A) : Criterion B :=
  let on v := match v with Value a => Value (f a) | Focused => Focused end in
  match c with
  | And l => And (map_criterion f <$> l)
  | Or l => Or (map_criterion f <$> l)
  | Not c => Not (map_criterion f c)
  | AppId v => AppId (on v)
  | Class' v => Class' (on v)
  | Instance' v => Instance' (on v)
  | AppName v => AppName (on v)
  | Title v => Title (on v)
  | ConMark a => ConMark (f a)
  | ConId v => ConId v
  | Pid p => Pid p
  | Workspace v => Workspace (on v)
  | Shell v => Shell v
  | Floating => Floating
  | Tiling => Tiling
  end.

Definition blank (s : string) : Prop := drop_while is_space s = EmptyString.

Definition writes_string (str s : string) : Prop :=
  take_while not_dq str = str ∧ s = dq +:+ str +:+ dq.

Definition writes_int (parse : string → option Z) (n : Z) (s : string) : Prop :=
  ∃ sign ds, s = sign +:+ ds ∧ (sign = "" ∨ sign = "-") ∧ ds ≠ EmptyString
    ∧ take_while is_digit ds = ds ∧ parse s = Some n.

Definition writes_or_focused {A} (w : A → string → Prop) (v : OrFocused A) (s : string) : Prop :=
  match v with Value a => w a s | Focused => s = "__focused__" end.

Definition writes_shell (t : ShellType) (s : string) : Prop :=
  match t with
  | XdgShell => s = dq +:+ "xdg_shell" +:+ dq
  | Xwayland => s = dq +:+ "xwayland" +:+ dq
  | Shell_other _ => False
  end.

Definition writes_leaf (c : Criterion string) (key : string) (v : string) : Prop :=
  match c with
  | AppId val => key = "app_id" ∧ writes_or_focused writes_string val v
  | Class' val => key = "class" ∧ writes_or_focused writes_string val v
  | Instance' val => key = "instance" ∧ writes_or_focused writes_string val v
  | AppName val => key = "app_name" ∧ writes_or_focused writes_string val v
  | Title val => key = "title" ∧ writes_or_focused writes_string val v
  | Workspace val => key = "workspace" ∧ writes_or_focused writes_string val v
  | Shell val => key = "shell" ∧ writes_or_focused writes_shell val v
  | ConMark a => key = "con_mark" ∧ writes_string a v
  | ConId val => key = "con_id" ∧ writes_or_focused (writes_int parse_i64) val v
  | Pid p => key = "pid" ∧ writes_int parse_i32 p v
  | _ => False
  end.

Inductive writes : Criterion string → string → Prop :=
| writes_tiling : writes Tiling "tiling"
| writes_floating : writes Floating "floating"
| writes_key c key b1 b2 v :
    writes_leaf c key v → blank b1 → blank b2 →
    writes c (key +:+ b1 +:+ "=" +:+ b2 +:+ v)
| writes_and l b1 kw b2 s b3 b4 :
    kw ∈ ["AND"; "and"; "&&"; ""] → writes_list l s →
    blank b1 → blank b2 → blank b3 → blank b4 →
    writes (And l) ("[" +:+ b1 +:+ kw +:+ b2 +:+ s +:+ b3 +:+ "]" +:+ b4)
| writes_or l b1 kw b2 s b3 b4 :
    kw ∈ ["OR"; "or"; "||"] → writes_list l s →
    blank b1 → blank b2 → blank b3 → blank b4 →
    writes (Or l) ("[" +:+ b1 +:+ kw +:+ b2 +:+ s +:+ b3 +:+ "]" +:+ b4)
| writes_not c kw b1 s b2 :
    kw ∈ ["NOT"; "not"; "!"] → writes c s → blank b1 → blank b2 →
    writes (Not c) (kw +:+ b1 +:+ s +:+ b2)
with writes_list : list (Criterion string) → string → Prop :=
| writes_nil : writes_list [] ""
| writes_cons c s l b s' :
    writes c s → writes_list l s' → blank b →
    writes_list (c :: l) (s +:+ b +:+ s').

Scheme writes_mut := Minimality for writes Sort Prop
  with writes_list_mut := Minimality for writes_list Sort Prop.

(** ** Lemmas about strings *)
Lemma strip_prefix_app l s : strip_prefix l (l +:+ s) = Some s.
Proof. unfold strip_prefix. by rewrite starts_with_app, drop_bytes_app. Qed.

Definition starts (f : ascii → bool) (s : string) : bool :=
  match s with String c _ => f c | EmptyString => false end.

Section DropWhile.
Context (f : ascii → bool).

Lemma drop_while_app_all a b :
  drop_while f a = EmptyString → drop_while f (a +:+ b) = drop_while f b.
Proof.
  induction a as [|c a IH]; cbn; [done|]. destruct (f c); [apply IH|done].
Qed.

Lemma drop_while_stop s : starts f s = false → drop_while f s = s.
Proof. destruct s as [|c s]; cbn; [done|]. by intros ->. Qed.

Lemma drop_while_idemp s : drop_while f (drop_while f s) = drop_while f s.
Proof.
  induction s as [|c s IH]; cbn; [done|]. destruct (f c) eqn:E; [done|].
  cbn. by rewrite E.
Qed.

Lemma take_while_app_all a b :
  take_while f a = a → starts f b = false →
  take_while f (a +:+ b) = a ∧ drop_while f (a +:+ b) = b.
Proof.
  intros Ha Hb. induction a as [|c a IH]; cbn in *.
  - destruct b as [|c b]; cbn in *; [done|]. by rewrite Hb.
  - destruct (f c); [|discriminate]. injection Ha as Ha.
    destruct (IH Ha) as [-> ->]. done.
Qed.

Lemma starts_drop_while s : starts f (drop_while f s) = false.
Proof. induction s as [|c s IH]; cbn; [done|]. by destruct (f c) eqn:E; cbn. Qed.
End DropWhile.

Lemma take_drop_while f s : take_while f s +:+ drop_while f s = s.
Proof. induction s as [|c s IH]; [done|]. cbn. destruct (f c); [cbn; by rewrite IH|done]. Qed.

Lemma drop_blank b s : blank b → drop_while is_space (b +:+ s) = drop_while is_space s.
Proof. apply drop_while_app_all. Qed.

Lemma blank_starts_digit b s :
  blank b → starts is_digit s = false → starts is_digit (b +:+ s) = false.
Proof.
  destruct b as [|c b]; [done|]. unfold blank. cbn.
  destruct (is_space c) eqn:E; [|done]. intros _ _.
  unfold is_space in E. rewrite orb_true_iff, !bool_decide_eq_true in E.
  by destruct E as [-> | ->].
Qed.

(** ** Lemmas about the combinators *)
Lemma p_bind_ok {A B} (p : parser A) (f : A → parser B) s a s' :
  p s = Done (Some (a, s')) → p_bind p f s = f a s'.
Proof. unfold p_bind. by intros ->. Qed.

Lemma p_bind_fail {A B} (p : parser A) (f : A → parser B) s :
  p s = Done None → p_bind p f s = Done None.
Proof. unfold p_bind. by intros ->. Qed.

Lemma p_or_fail {A} (p q : parser A) s : p s = Done None → p_or p q s = q s.
Proof. unfold p_or. by intros ->. Qed.

Lemma p_or_ok {A} (p q : parser A) s r :
  p s = Done (Some r) → p_or p q s = Done (Some r).
Proof. unfold p_or. by intros ->. Qed.

Lemma p_lit_ok l s : p_lit l (l +:+ s) = Done (Some (tt, s)).
Proof. unfold p_lit. by rewrite strip_prefix_app. Qed.

Lemma p_bind_space {A} (f : unit → parser A) s :
  p_bind space f s = f tt (drop_while is_space s).
Proof. reflexivity. Qed.

Lemma space_blank b s : blank b → space (b +:+ s) = Done (Some (tt, drop_while is_space s)).
Proof. unfold space. intros. by rewrite drop_blank. Qed.

(** ** The parser on written queries *)
Section Completeness.
Context `{RegexCrate} (fallback : regex).
Context (Hfallback : rx_new "^__I_WONT_MATCH_A_💩__$" = Some fallback).

(** What the parser makes of a regex in a query. *)
Definition compile (s : string) : regex := default fallback (rx_new s).

Lemma regex_from_str_done s : regex_from_str s = Done (compile s).
Proof.
  unfold regex_from_str, compile, rx_unwrap. destruct (rx_new s); [done|].
  by rewrite Hfallback.
Qed.

(** [value] reads [v] as [x], whatever follows except a digit. *)
Definition reads {A} (value : parser A) (v : string) (x : A) : Prop :=
  starts is_space v = false ∧ v ≠ EmptyString
  ∧ ∀ rest, starts is_digit rest = false → value (v +:+ rest) = Done (Some (x, rest)).

Lemma string_literal_reads str s : writes_string str s → reads string_literal s str.
Proof.
  intros [Hs ->]. split; [done|]. split; [done|]. intros rest _.
  unfold string_literal. rewrite !app_assoc_str, strip_prefix_app.
  cbn [mbind option_bind].
  destruct (take_while_app_all not_dq str (dq +:+ rest) Hs eq_refl) as [-> ->].
  by rewrite strip_prefix_app.
Qed.

Lemma p_regex_reads str s : writes_string str s → reads p_regex s (compile str).
Proof.
  intros (? & ? & Hr)%string_literal_reads. split_and!; [done..|]. intros rest Hd.
  unfold p_regex. erewrite p_bind_ok by (by apply Hr). cbn.
  by rewrite regex_from_str_done.
Qed.

Lemma focused_reads {A} (p q : parser (OrFocused A)) :
  p = p_or (p_lit "__focused__" >>! p_ret Focused) q → reads p "__focused__" Focused.
Proof.
  intros ->. split; [done|]. split; [done|]. intros rest _. apply p_or_ok.
  by rewrite (p_bind_ok _ _ _ _ _ (p_lit_ok _ _)).
Qed.

Lemma regex_or_focused_reads v s :
  writes_or_focused writes_string v s →
  reads regex_or_focused s match v with Value a => Value (compile a) | Focused => Focused end.
Proof.
  destruct v as [a|]; cbn; [|by intros ->; eapply focused_reads].
  intros Hw. destruct (p_regex_reads a s Hw) as (H1 & H2 & Hr). split_and!; [done..|].
  intros rest Hd. unfold regex_or_focused.
  rewrite p_or_fail by (destruct Hw as [_ ->]; reflexivity).
  by erewrite p_bind_ok by (by apply Hr).
Qed.

Lemma int_literal_reads parse n s : writes_int parse n s → reads (int_literal parse) s n.
Proof.
  intros (sign & ds & -> & Hsign & Hne & Hds & Hp).
  destruct ds as [|d ds]; [done|].
  assert (is_digit d = true) as Hd.
  { cbn in Hds. by destruct (is_digit d). }
  assert (d ≠ "-"%char) as Hm by (by intros ->).
  assert (is_space d = false) as Hsp.
  { unfold is_space. apply orb_false_iff. split; apply bool_decide_false; by intros ->. }
  split; [by destruct Hsign as [-> | ->]|].
  split; [by destruct Hsign as [-> | ->]|]. intros rest Hr.
  unfold int_literal.
  destruct (take_while_app_all is_digit (String d ds) rest Hds Hr) as [Ht Hdr].
  assert (match sign +:+ String d ds +:+ rest with
          | String "-" s' => ("-", s') | _ => ("", sign +:+ String d ds +:+ rest) end
          = (sign, String d ds +:+ rest)) as E.
  { destruct Hsign as [-> | ->]; [|done]. cbn.
    destruct d as [[] [] [] [] [] [] [] []]; try done. }
  rewrite app_assoc_str, E, Ht, Hdr, decide_False by done. by rewrite Hp.
Qed.

Lemma i64_or_focused_reads v s :
  writes_or_focused (writes_int parse_i64) v s → reads i64_or_focused s v.
Proof.
  destruct v as [n|]; cbn; [|by intros ->; eapply focused_reads].
  intros Hw. destruct (int_literal_reads _ n s Hw) as (H1 & H2 & Hr). split_and!; [done..|].
  intros rest Hd. unfold i64_or_focused. rewrite p_or_fail.
  - by erewrite p_bind_ok by (by apply Hr).
  - destruct Hw as (sign & ds & -> & [-> | ->] & Hne & Hds & _); [|reflexivity].
    destruct ds as [|d ds]; [done|]. cbn in Hds.
    destruct d as [[] [] [] [] [] [] [] []]; try done.
Qed.

Lemma shell_reads v s :
  writes_or_focused writes_shell v s → reads shell_type_or_focused s v.
Proof.
  destruct v as [[]|]; cbn; intros Hw; subst; try done;
    (split; [done|]; split; [done|]; intros rest _; unfold shell_type_or_focused;
     repeat (rewrite p_or_fail by reflexivity); try apply p_or_ok;
     by rewrite (p_bind_ok _ _ _ _ _ (p_lit_ok _ _))).
Qed.

(** A key with its value, whatever the alternatives before it. *)
Lemma p_key_reads {A} key (value : parser A) f b1 b2 v x rest :
  reads value v x → blank b1 → blank b2 → starts is_digit rest = false →
  p_key key value f ((key +:+ b1 +:+ "=" +:+ b2 +:+ v) +:+ rest) = Done (Some (f x, rest)).
Proof.
  intros (Hv & Hne & Hr) Hb1 Hb2 Hd. unfold p_key. rewrite !app_assoc_str.
  rewrite (p_bind_ok _ _ _ _ _ (p_lit_ok _ _)).
  rewrite (p_bind_ok _ _ _ _ _ (space_blank _ _ Hb1)).
  rewrite drop_while_stop by done.
  rewrite (p_bind_ok _ _ _ _ _ (p_lit_ok _ _)).
  rewrite (p_bind_ok _ _ _ _ _ (space_blank _ _ Hb2)).
  rewrite drop_while_stop by (by destruct v).
  by rewrite (p_bind_ok _ _ _ _ _ (Hr rest Hd)).
Qed.

Lemma simple_criterion_key c key b1 b2 v rest :
  writes_leaf c key v → blank b1 → blank b2 → starts is_digit rest = false →
  simple_criterion ((key +:+ b1 +:+ "=" +:+ b2 +:+ v) +:+ rest)
  = Done (Some (map_criterion compile c, rest)).
Proof.
  intros Hw Hb1 Hb2 Hd. unfold simple_criterion.
  destruct c; cbn in Hw; try done; destruct Hw as [-> Hw];
    repeat (rewrite p_or_fail by reflexivity);
    try (apply p_or_ok); cbn [map_criterion]; apply p_key_reads;
    eauto using regex_or_focused_reads, i64_or_focused_reads, shell_reads,
      p_regex_reads, int_literal_reads.
Qed.
End Completeness.

Lemma length_app_str a b : String.length (a +:+ b) = String.length a + String.length b.
Proof. induction a; cbn; congruence. Qed.

(** What a written query starts with, and does not start with. *)
Lemma writes_head c s rest :
  writes c s →
  starts is_space (s +:+ rest) = false ∧ starts is_digit (s +:+ rest) = false
  ∧ s ≠ EmptyString
  ∧ p_lit "AND" (s +:+ rest) = Done None ∧ p_lit "and" (s +:+ rest) = Done None
  ∧ p_lit "&&" (s +:+ rest) = Done None.
Proof.
  destruct 1 as [| |c key b1 b2 v Hw _ _|l b1 kw b2 s b3 b4 _ _ _ _ _ _
    |l b1 kw b2 s b3 b4 _ _ _ _ _ _|c kw b1 s b2 Hkw _ _ _].
  1, 2, 4, 5: by split_and!.
  - destruct c; cbn in Hw; try done; destruct Hw as [-> _]; by split_and!.
  - rewrite !elem_of_cons, elem_of_nil in Hkw.
    destruct Hkw as [->|[->|[->|[]]]]; by split_and!.
Qed.

Section Completeness2.
Context `{RegexCrate} (fallback : regex).
Context (Hfallback : rx_new "^__I_WONT_MATCH_A_💩__$" = Some fallback).
Local Abbreviation mc := (map_criterion (compile fallback)).

(** What [c] leaves of the text after it: the combinators take the blanks. *)
Definition after {A} (c : Criterion A) (rest : string) : string :=
  match c with And _ | Or _ | Not _ => drop_while is_space rest | _ => rest end.

Lemma drop_after {A} (c : Criterion A) rest :
  drop_while is_space (after c rest) = drop_while is_space rest.
Proof. destruct c; cbn; by rewrite ?drop_while_idemp. Qed.

Lemma criterion_stop fuel c s :
  c ∈ ["]"; "O"; "o"; "|"]%char → criterion (S fuel) (String c s) = Done None.
Proof.
  rewrite !elem_of_cons, elem_of_nil.
  intros [->|[->|[->|[->|[]]]]]; reflexivity.
Qed.

(** The query is read back from its text, by enough fuel, before any [rest]. *)
Definition reads_query (c : Criterion string) (s : string) : Prop :=
  ∀ fuel rest, String.length s < fuel → starts is_digit rest = false →
    criterion fuel (s +:+ rest) = Done (Some (mc c, after c rest)).

Definition reads_list (l : list (Criterion string)) (s : string) : Prop :=
  ∀ fuel n acc x rest, String.length s < fuel → String.length s < n →
    drop_while is_space x = drop_while is_space (s +:+ rest) →
    starts is_digit rest = false →
    starts (λ c, bool_decide (c = "]"%char)) (drop_while is_space rest) = true →
    ∃ r, p_more n space (criterion fuel) acc x = Done (Some (acc ++ (mc <$> l), r))
      ∧ drop_while is_space r = drop_while is_space rest.

Lemma reads_list_nil : reads_list [] "".
Proof.
  intros [|fuel] [|n] acc x rest Hf Hn Hx Hd Hr; cbn in Hf, Hn; try lia.
  exists x. split; [|done]. cbn [fmap list_fmap]. rewrite app_nil_r.
  cbn [p_more]. rewrite p_bind_space, Hx. cbn [String.append].
  destruct (drop_while is_space rest) as [|c r]; [done|]. cbn in Hr.
  apply bool_decide_eq_true in Hr as ->.
  rewrite criterion_stop by left. done.
Qed.

Lemma reads_list_cons c s l b s' :
  writes c s → reads_query c s → writes_list l s' → reads_list l s' → blank b →
  reads_list (c :: l) (s +:+ b +:+ s').
Proof.
  intros Hw Hc Hwl Hl Hb fuel [|n] acc x rest Hf Hn Hx Hd Hr; [lia|].
  rewrite !length_app_str in Hf, Hn. rewrite !app_assoc_str in Hx.
  destruct (writes_head c s (b +:+ s' +:+ rest) Hw) as (Hsp & _ & Hne & _).
  rewrite (drop_while_stop _ (s +:+ _)) in Hx by done.
  assert (starts is_digit (b +:+ s' +:+ rest) = false) as Hd'.
  { apply blank_starts_digit; [done|]. destruct Hwl as [|c' s1 l' b' s2 Hw' _ _]; [done|].
    rewrite app_assoc_str. apply (writes_head c' s1 _ Hw'). }
  cbn [p_more]. rewrite p_bind_space, Hx, Hc, bind_done by (done || lia).
  assert (0 < String.length s) by (destruct s; [done|cbn; lia]).
  destruct (Hl fuel n (acc ++ [mc c]) (after c (b +:+ s' +:+ rest)) rest)
    as (r & Hr' & Hdr); [lia|lia|by rewrite drop_after, drop_blank|done|done|].
  exists r. split; [|done]. rewrite Hr'. cbn [fmap list_fmap]. by rewrite <-(assoc_L (++)).
Qed.

(** [p_sep] is [p_more] when no blank comes first. *)
Lemma p_sep_more {A} n (p : parser A) x :
  starts is_space x = false → p_sep n space p x = p_more (S n) space p [] x.
Proof.
  intros Hx. unfold p_sep. cbn [p_more]. by rewrite p_bind_space, drop_while_stop.
Qed.

Lemma p_sep_reads l s fuel rest b3 :
  reads_list l s → String.length s < fuel → blank b3 →
  ∃ r, p_sep fuel space (criterion fuel) (drop_while is_space (s +:+ b3 +:+ "]" +:+ rest))
      = Done (Some (mc <$> l, r))
    ∧ drop_while is_space r = "]" +:+ rest.
Proof.
  intros Hl Hf Hb. rewrite p_sep_more by apply starts_drop_while.
  destruct (Hl fuel (S fuel) [] (drop_while is_space (s +:+ b3 +:+ "]" +:+ rest))
    (b3 +:+ "]" +:+ rest)) as (r & -> & Hr); [lia|lia|by rewrite drop_while_idemp| | |].
  - by apply blank_starts_digit.
  - by rewrite drop_blank.
  - exists r. split; [done|]. by rewrite Hr, drop_blank.
Qed.

(** The end of a bracketed query. *)
Lemma close_bracket b4 rest (x : Criterion regex) r :
  drop_while is_space r = "]" +:+ b4 +:+ rest → blank b4 →
  (space >>! p_lit "]" >>! space >>! p_ret x) r
  = Done (Some (x, drop_while is_space rest)).
Proof.
  intros Hr Hb. rewrite (p_bind_ok _ _ _ tt (drop_while is_space r)) by done. rewrite Hr.
  rewrite (p_bind_ok _ _ _ _ _ (p_lit_ok _ _)).
  by rewrite (p_bind_ok _ _ _ _ _ (space_blank _ _ Hb)).
Qed.

(** The alternatives of [criterion]. *)
Definition and_alt (fuel : nat) : parser (Criterion regex) :=
  p_lit "[" >>! space >>!
    p_opt (p_lit "AND" </> p_lit "and" </> p_lit "&&") >>! space >>!
    p: l ←! p_sep fuel space (criterion fuel);
    space >>! p_lit "]" >>! space >>! p_ret (And l).
Definition or_alt (fuel : nat) : parser (Criterion regex) :=
  p_lit "[" >>! space >>!
    (p_lit "OR" </> p_lit "or" </> p_lit "||") >>! space >>!
    p: l ←! p_sep fuel space (criterion fuel);
    space >>! p_lit "]" >>! space >>! p_ret (Or l).
Definition not_alt (fuel : nat) : parser (Criterion regex) :=
  (p_lit "NOT" </> p_lit "not" </> p_lit "!") >>! space >>!
    p: c ←! criterion fuel; space >>! p_ret (Not c).

Lemma criterion_S fuel :
  criterion (S fuel) = p_or (and_alt fuel) (p_or (or_alt fuel) (p_or (not_alt fuel) simple_criterion)).
Proof. reflexivity. Qed.

Lemma keyword_ok k1 k2 k3 kw s :
  (∀ s, p_lit k1 (k2 +:+ s) = Done None) → (∀ s, p_lit k1 (k3 +:+ s) = Done None) →
  (∀ s, p_lit k2 (k3 +:+ s) = Done None) →
  kw ∈ [k1; k2; k3] → (p_lit k1 </> p_lit k2 </> p_lit k3) (kw +:+ s) = Done (Some (tt, s)).
Proof.
  intros H12 H13 H23. rewrite !elem_of_cons, elem_of_nil.
  intros [->|[->|[->|[]]]].
  - apply p_or_ok, p_lit_ok.
  - rewrite p_or_fail by done. apply p_or_ok, p_lit_ok.
  - rewrite p_or_fail by done. rewrite p_or_fail by done. apply p_lit_ok.
Qed.

Lemma p_opt_and_keyword kw s :
  kw ∈ ["AND"; "and"; "&&"] →
  p_opt (p_lit "AND" </> p_lit "and" </> p_lit "&&") (kw +:+ s) = Done (Some (tt, s)).
Proof.
  intros Hkw. unfold p_opt. apply p_or_ok.
  erewrite p_bind_ok by (by apply keyword_ok). done.
Qed.

(** The optional keyword of a conjunction and the blanks around it. *)
Lemma and_keyword (kw b1 b2 y : string) (k : parser (Criterion regex)) :
  kw ∈ ["AND"; "and"; "&&"; ""] → blank b1 → blank b2 →
  p_opt (p_lit "AND" </> p_lit "and" </> p_lit "&&") (drop_while is_space y)
    = Done (Some (tt, drop_while is_space y)) →
  (space >>! p_opt (p_lit "AND" </> p_lit "and" </> p_lit "&&") >>! space >>! k)
    (b1 +:+ kw +:+ b2 +:+ y) = k (drop_while is_space y).
Proof.
  intros Hkw Hb1 Hb2 Hy. rewrite p_bind_space, drop_blank by done.
  destruct (decide (kw = EmptyString)) as [->|Hne].
  - cbn [String.append]. rewrite drop_blank by done.
    by rewrite (p_bind_ok _ _ _ _ _ Hy), p_bind_space, drop_while_idemp.
  - assert (kw ∈ ["AND"; "and"; "&&"]) as Hkw'.
    { rewrite !elem_of_cons, elem_of_nil in *. intuition. }
    rewrite drop_while_stop.
    2: { rewrite !elem_of_cons, elem_of_nil in Hkw'.
         destruct Hkw' as [->|[->|[->|[]]]]; done. }
    rewrite (p_bind_ok _ _ _ _ _ (p_opt_and_keyword _ _ Hkw')).
    by rewrite p_bind_space, drop_blank.
Qed.

Lemma p_opt_none {A} (p : parser A) s : p s = Done None → p_opt p s = Done (Some (tt, s)).
Proof. intros Hp. unfold p_opt. rewrite p_or_fail; [done|]. by apply p_bind_fail. Qed.

Lemma reads_and l b1 kw b2 s b3 b4 :
  kw ∈ ["AND"; "and"; "&&"; ""] → writes_list l s → reads_list l s →
  blank b1 → blank b2 → blank b3 → blank b4 →
  reads_query (And l) ("[" +:+ b1 +:+ kw +:+ b2 +:+ s +:+ b3 +:+ "]" +:+ b4).
Proof.
  intros Hkw Hwl Hl Hb1 Hb2 Hb3 Hb4 [|fuel] rest Hf Hd; [lia|].
  rewrite !app_assoc_str, !length_app_str in *. cbn in Hf.
  rewrite criterion_S. apply p_or_ok. unfold and_alt.
  rewrite (p_bind_ok _ _ _ _ _ (p_lit_ok _ _)).
  rewrite (and_keyword kw b1 b2 (s +:+ b3 +:+ "]" +:+ b4 +:+ rest)); [|done..|].
  - destruct (p_sep_reads l s fuel (b4 +:+ rest) b3) as (r & Hp & Hr); [done|lia|done|].
    rewrite (p_bind_ok _ _ _ _ _ Hp). by apply (close_bracket b4 rest).
  - apply p_opt_none. destruct Hwl as [|c s1 l b s' Hw Hwl Hb].
    + cbn [String.append]. by rewrite drop_blank.
    + rewrite !app_assoc_str.
      destruct (writes_head c s1 (b +:+ s' +:+ b3 +:+ "]" +:+ b4 +:+ rest) Hw)
        as (Hsp & _ & _ & H1 & H2 & H3).
      rewrite drop_while_stop by done. by rewrite !p_or_fail.
Qed.

Lemma and_alt_or fuel kw b1 s :
  kw ∈ ["OR"; "or"; "||"] → blank b1 → 0 < fuel →
  and_alt fuel ("[" +:+ b1 +:+ kw +:+ s) = Done None.
Proof.
  intros Hkw Hb1 Hf. unfold and_alt. rewrite (p_bind_ok _ _ _ _ _ (p_lit_ok _ _)).
  rewrite p_bind_space, drop_blank by done.
  destruct fuel as [|fuel]; [lia|].
  rewrite !elem_of_cons, elem_of_nil in Hkw.
  destruct Hkw as [->|[->|[->|[]]]]; cbn [String.append];
    rewrite drop_while_stop by done;
    (erewrite p_bind_ok by (by apply p_opt_none));
    rewrite p_bind_space, drop_while_stop by done;
    (erewrite p_bind_ok; [|unfold p_sep; rewrite criterion_stop by
       (repeat first [by left|right]); reflexivity]);
    reflexivity.
Qed.

Lemma reads_or l b1 kw b2 s b3 b4 :
  kw ∈ ["OR"; "or"; "||"] → reads_list l s →
  blank b1 → blank b2 → blank b3 → blank b4 →
  reads_query (Or l) ("[" +:+ b1 +:+ kw +:+ b2 +:+ s +:+ b3 +:+ "]" +:+ b4).
Proof.
  intros Hkw Hl Hb1 Hb2 Hb3 Hb4 [|fuel] rest Hf Hd; [lia|].
  rewrite !app_assoc_str, !length_app_str in *. cbn in Hf.
  rewrite criterion_S, p_or_fail by (apply and_alt_or; (done || lia)).
  apply p_or_ok. unfold or_alt.
  rewrite (p_bind_ok _ _ _ _ _ (p_lit_ok _ _)), p_bind_space, drop_blank by done.
  rewrite drop_while_stop.
  2: { rewrite !elem_of_cons, elem_of_nil in Hkw. destruct Hkw as [->|[->|[->|[]]]]; done. }
  erewrite p_bind_ok by (by apply keyword_ok).
  rewrite p_bind_space, drop_blank by done.
  destruct (p_sep_reads l s fuel (b4 +:+ rest) b3) as (r & Hp & Hr); [done|lia|done|].
  rewrite (p_bind_ok _ _ _ _ _ Hp). by apply (close_bracket b4 rest).
Qed.

Lemma reads_not c kw b1 s b2 :
  kw ∈ ["NOT"; "not"; "!"] → writes c s → reads_query c s → blank b1 → blank b2 →
  reads_query (Not c) (kw +:+ b1 +:+ s +:+ b2).
Proof.
  intros Hkw Hw Hc Hb1 Hb2 [|fuel] rest Hf Hd; [lia|].
  assert (0 < String.length kw) as Hlen.
  { rewrite !elem_of_cons, elem_of_nil in Hkw. destruct Hkw as [->|[->|[->|[]]]]; cbn; lia. }
  rewrite !app_assoc_str, !length_app_str in *. rewrite criterion_S.
  rewrite !p_or_fail by (apply p_bind_fail; rewrite !elem_of_cons, elem_of_nil in Hkw;
    destruct Hkw as [->|[->|[->|[]]]]; reflexivity).
  apply p_or_ok. unfold not_alt. erewrite p_bind_ok by (by apply keyword_ok).
  rewrite p_bind_space, drop_blank by done.
  destruct (writes_head c s (b2 +:+ rest) Hw) as (Hsp & _).
  rewrite drop_while_stop by done.
  rewrite (p_bind_ok _ _ _ _ _ (Hc fuel (b2 +:+ rest) ltac:(lia)
    (blank_starts_digit _ _ Hb2 Hd))).
  rewrite p_bind_space, drop_after, drop_blank by done. done.
Qed.

Lemma reads_leaf c key b1 b2 v :
  writes_leaf c key v → blank b1 → blank b2 →
  reads_query c (key +:+ b1 +:+ "=" +:+ b2 +:+ v).
Proof.
  intros Hw Hb1 Hb2 [|fuel] rest Hf Hd; [lia|]. rewrite criterion_S.
  assert (after c rest = rest) as -> by (by destruct c; cbn in Hw).
  rewrite !p_or_fail by (apply p_bind_fail; destruct c; cbn in Hw; try done;
    destruct Hw as [-> _]; reflexivity).
  by apply simple_criterion_key.
Qed.

Lemma reads_writes c s : writes c s → reads_query c s.
Proof.
  revert c s. apply (writes_mut reads_query reads_list).
  - intros [|fuel] rest Hf Hd; [lia|].
    rewrite criterion_S, !p_or_fail by reflexivity. unfold simple_criterion.
    repeat (rewrite p_or_fail by reflexivity). apply p_or_ok.
    by rewrite (p_bind_ok _ _ _ _ _ (p_lit_ok _ _)).
  - intros [|fuel] rest Hf Hd; [lia|].
    rewrite criterion_S, !p_or_fail by reflexivity. unfold simple_criterion.
    repeat (rewrite p_or_fail by reflexivity). apply p_or_ok.
    by rewrite (p_bind_ok _ _ _ _ _ (p_lit_ok _ _)).
  - intros. by apply reads_leaf.
  - intros. by apply reads_and.
  - intros. by apply reads_or.
  - intros. by apply reads_not.
  - apply reads_list_nil.
  - intros. by apply reads_list_cons.
Qed.
End Completeness2.

(** ** Totality of the parser *)

(** On inputs shorter than [n] the parser answers, and what it consumes is at
    least [k] bytes long. *)
Definition total {A} (n k : nat) (p : parser A) : Prop :=
  ∀ s, String.length s < n →
    ∃ r, p s = Done r ∧ ∀ a s', r = Some (a, s') → String.length s' + k ≤ String.length s.

Lemma total_weaken {A} n k n' k' (p : parser A) :
  total n k p → n' ≤ n → k' ≤ k → total n' k' p.
Proof.
  intros Hp Hn Hk s Hs. destruct (Hp s) as (r & E & Hr); [lia|].
  exists r. split; [done|]. intros a s' ->. specialize (Hr a s' eq_refl). lia.
Qed.

Lemma total_ret {A} n (a : A) : total n 0 (p_ret a).
Proof. intros s _. eexists. split; [done|]. intros a' s' [= <- <-]. lia. Qed.

Lemma total_bind {A B} n k k' (p : parser A) (f : A → parser B) :
  total (n + k) k p → (∀ a, total n k' (f a)) → total (n + k) (k + k') (p_bind p f).
Proof.
  intros Hp Hf s Hs. destruct (Hp s Hs) as (r & E & Hr). unfold p_bind. rewrite E, bind_done.
  destruct r as [[a s1]|]; [|by eexists].
  specialize (Hr a s1 eq_refl). destruct (Hf a s1) as (r & E' & Hr'); [lia|].
  exists r. split; [done|]. intros b s2 ->. specialize (Hr' b s2 eq_refl). lia.
Qed.

(** The same when the consumption of the first parser is not needed. *)
Lemma total_bind0 {A B} n k k' (p : parser A) (f : A → parser B) :
  total n k p → (∀ a, total n k' (f a)) → total n k' (p_bind p f).
Proof.
  intros Hp Hf. eapply (total_weaken (n + 0) (0 + k')); [|lia..].
  apply total_bind; [eapply total_weaken; [exact Hp|lia..]|done].
Qed.

(** The same when the consumption of the second parser is not needed. *)
Lemma total_bind1 {A B} n k k' (p : parser A) (f : A → parser B) :
  total n k p → (∀ a, total n k' (f a)) → total n k (p_bind p f).
Proof.
  intros Hp Hf s Hs. destruct (Hp s Hs) as (r & E & Hr). unfold p_bind. rewrite E, bind_done.
  destruct r as [[a s1]|]; [|by eexists].
  specialize (Hr a s1 eq_refl). destruct (Hf a s1) as (r & E' & Hr'); [lia|].
  exists r. split; [done|]. intros b s2 ->. specialize (Hr' b s2 eq_refl). lia.
Qed.

Lemma total_or {A} n k (p q : parser A) : total n k p → total n k q → total n k (p_or p q).
Proof.
  intros Hp Hq s Hs. destruct (Hp s Hs) as (r & E & Hr). unfold p_or. rewrite E, bind_done.
  destruct r as [r|]; [eexists; split; [done|]; intros a s' [= ->]; by apply (Hr a s')|].
  by apply Hq.
Qed.

Lemma strip_prefix_length l s s' :
  strip_prefix l s = Some s' → String.length s = String.length l + String.length s'.
Proof.
  unfold strip_prefix. destruct (starts_with l s) eqn:E; [|done]. intros [= <-].
  assert (∃ t, s = l +:+ t) as [t ->].
  { unfold starts_with in E. revert s E. induction l as [|c l IH]; intros s E; [by exists s|].
    destruct s as [|d s]; cbn in E; [done|].
    destruct (ascii_dec c d) as [->|]; [|done].
    destruct (IH s E) as [t ->]. by exists t. }
  by rewrite drop_bytes_app, length_app_str.
Qed.

Lemma total_lit n l : total n (String.length l) (p_lit l).
Proof.
  intros s _. unfold p_lit. eexists. split; [done|]. intros a s' E.
  destruct (strip_prefix l s) eqn:Es; [|done]. cbn in E. simplify_eq.
  apply strip_prefix_length in Es. lia.
Qed.

Lemma total_lit_weaken n k l : k ≤ String.length l → total n k (p_lit l).
Proof. intros. eapply (total_weaken n (String.length l)); [apply total_lit|lia..]. Qed.

Lemma drop_while_length f s : String.length (drop_while f s) ≤ String.length s.
Proof. induction s as [|c s IH]; cbn; [lia|]. destruct (f c); cbn; lia. Qed.

Lemma total_space n : total n 0 space.
Proof.
  intros s _. eexists. split; [done|]. intros a s' [= <- <-].
  pose proof (drop_while_length is_space s). lia.
Qed.

Lemma total_int_literal n parse : total n 0 (int_literal parse).
Proof.
  intros s _. unfold int_literal.
  assert (∀ sign s1, String.length s1 ≤ String.length s → ∃ r,
    Done (if decide (take_while is_digit s1 = EmptyString) then None
          else n ← parse (sign +:+ take_while is_digit s1);
               Some (n, drop_while is_digit s1)) = Done r
    ∧ ∀ a s', r = Some (a, s') → String.length s' + 0 ≤ String.length s) as Hgen.
  { intros sign s1 Hs. eexists. split; [done|]. intros a s' E. case_decide; [done|].
    destruct (parse _); [|done]. cbn in E. simplify_eq.
    pose proof (drop_while_length is_digit s1). lia. }
  destruct s as [|[[] [] [] [] [] [] [] []] s]; apply Hgen; cbn; lia.
Qed.

Lemma total_string_literal n : total n 0 string_literal.
Proof.
  intros s _. unfold string_literal. eexists. split; [done|]. intros a s' E.
  destruct (strip_prefix dq s) as [s1|] eqn:E1; [|done]. cbn in E.
  destruct (strip_prefix dq (drop_while not_dq s1)) as [s2|] eqn:E2; [|done]. cbn in E.
  simplify_eq. apply strip_prefix_length in E1, E2.
  pose proof (drop_while_length not_dq s1). lia.
Qed.

Lemma total_opt {A} n (p : parser A) : total n 0 p → total n 0 (p_opt p).
Proof.
  intros Hp. apply total_or; [|apply total_ret].
  eapply total_bind0; [exact Hp|]. intros. apply total_ret.
Qed.

Section Totality.
Context `{RegexCrate} (fallback : regex).
Context (Hfallback : rx_new "^__I_WONT_MATCH_A_💩__$" = Some fallback).

Lemma total_regex n : total n 0 p_regex.
Proof.
  eapply total_bind0; [apply total_string_literal|]. intros s rest Hr.
  rewrite (regex_from_str_done fallback) by done. cbn. eexists. split; [done|].
  intros a s' [= <- <-]. lia.
Qed.

Lemma total_lit0 n l : total n 0 (p_lit l).
Proof. apply total_lit_weaken. lia. Qed.

Lemma total_focused n {A} (p : parser A) (f : A → OrFocused A) (x : OrFocused A) :
  total n 0 p →
  total n 0 (p_or (p_lit "__focused__" >>! p_ret x) (p_bind p (λ a, p_ret (f a)))).
Proof.
  intros Hp. apply total_or; (eapply total_bind0; [|intros; apply total_ret]);
    [apply total_lit0|done].
Qed.

Lemma total_regex_or_focused n : total n 0 regex_or_focused.
Proof. apply (total_focused n p_regex Value), total_regex. Qed.

Lemma total_i64_or_focused n : total n 0 i64_or_focused.
Proof. apply (total_focused n i64_literal Value), total_int_literal. Qed.

Lemma total_shell n : total n 0 shell_type_or_focused.
Proof.
  repeat apply total_or; (eapply total_bind0; [|intros; apply total_ret]); apply total_lit0.
Qed.

Lemma total_key {A} n key (value : parser A) f :
  0 < String.length key → total n 0 value → total n 1 (p_key key value f).
Proof.
  intros Hk Hv. eapply total_bind1; [by apply total_lit_weaken|]. intros _.
  repeat first [ eapply total_bind0; [solve [apply total_space | apply total_lit0 | exact Hv]|intros _]
               | eapply total_bind0; [exact Hv|intros; apply total_ret] ].
Qed.

Lemma total_simple n : total n 1 simple_criterion.
Proof.
  unfold simple_criterion. apply total_or; [|apply total_or].
  1, 2: eapply total_bind1; [apply total_lit_weaken; cbn; lia|intros; apply total_ret].
  repeat apply total_or; (apply total_key; [cbn; lia|]);
    first [ apply total_regex_or_focused | apply total_shell | apply total_regex
          | apply total_i64_or_focused | apply total_int_literal ].
Qed.

Lemma total_more {A} fuel n (p : parser A) acc :
  total fuel 1 p → n ≤ fuel → total n 0 (p_more n space p acc).
Proof.
  intros Hp. revert acc. induction n as [|n IH]; intros acc Hn s Hs; [lia|].
  cbn [p_more]. rewrite p_bind_space.
  pose proof (drop_while_length is_space s).
  destruct (Hp (drop_while is_space s)) as (r & E & Hr); [lia|]. rewrite E, bind_done.
  destruct r as [[a s1]|].
  - specialize (Hr a s1 eq_refl). destruct (IH (acc ++ [a]) ltac:(lia) s1) as (r & E' & Hr'); [lia|].
    exists r. split; [done|]. intros b s2 ->. specialize (Hr' b s2 eq_refl). lia.
  - eexists. split; [done|]. intros b s2 [= <- <-]. lia.
Qed.

Lemma total_sep {A} n (p : parser A) : total n 1 p → total n 0 (p_sep n space p).
Proof.
  intros Hp s Hs. unfold p_sep. destruct (Hp s Hs) as (r & E & Hr). rewrite E, bind_done.
  destruct r as [[a s1]|].
  - specialize (Hr a s1 eq_refl).
    destruct (total_more n n p [a] Hp (le_n _) s1) as (r & E' & Hr'); [lia|].
    exists r. split; [done|]. intros b s2 ->. specialize (Hr' b s2 eq_refl). lia.
  - eexists. split; [done|]. intros b s2 [= <- <-]. lia.
Qed.

Lemma total_criterion fuel : total fuel 1 (criterion fuel).
Proof.
  induction fuel as [|fuel IH]; [intros s Hs; lia|].
  assert (∀ (x : list (Criterion regex) → Criterion regex),
    total fuel 0 (p: l ←! p_sep fuel space (criterion fuel);
      space >>! p_lit "]" >>! space >>! p_ret (x l))) as Hclose.
  { intros x. eapply total_bind0; [by apply total_sep|]. intros l.
    repeat (eapply total_bind0; [solve [apply total_space|apply total_lit0]|intros _]).
    apply total_ret. }
  rewrite criterion_S. replace (S fuel) with (fuel + 1) by lia.
  apply total_or; [|apply total_or; [|apply total_or; [|apply total_simple]]];
    eapply (total_bind fuel 1 0).
  - apply total_lit_weaken. cbn. lia.
  - intros _. eapply total_bind0; [apply total_space|intros _].
    eapply total_bind0; [apply total_opt; repeat apply total_or; apply total_lit0|intros _].
    eapply total_bind0; [apply total_space|intros _]. apply Hclose.
  - apply total_lit_weaken. cbn. lia.
  - intros _. eapply total_bind0; [apply total_space|intros _].
    eapply total_bind0; [repeat apply total_or; apply total_lit0|intros _].
    eapply total_bind0; [apply total_space|intros _]. apply Hclose.
  - repeat apply total_or; apply total_lit_weaken; cbn; lia.
  - intros _. eapply total_bind0; [apply total_space|intros _].
    eapply total_bind0; [exact IH|intros c].
    eapply total_bind0; [apply total_space|intros _]. apply total_ret.
Qed.

Lemma parse_criteria_done s : ∃ r, parse_criteria s = Done r.
Proof.
  unfold parse_criteria, criteria_parser_parse. rewrite p_bind_space.
  destruct (total_criterion (S (String.length s)) (drop_while is_space s)) as (r & -> & _).
  { pose proof (drop_while_length is_space s). lia. }
  by eexists.
Qed.
End Totality.

(** ** What the parser accepts

    [scan] reads a text from left to right and fails at a line break outside a string
    literal; [quoted] says whether it is inside one.  A text is [on_one_line] when there
    is no such line break and every literal is closed. *)
Definition is_dq (c : ascii) : bool := negb (not_dq c).
Definition is_newline (c : ascii) : bool := bool_decide (c = Ascii.ascii_of_nat 10).

Fixpoint scan (quoted : bool) (s : string) : option bool :=
  match s with
  | EmptyString => Some quoted
  | String c s =>
      if is_dq c then scan (negb quoted) s
      else if is_newline c && negb quoted then None else scan quoted s
  end.

Definition on_one_line (s : string) : bool := bool_decide (scan false s = Some false).

Lemma scan_app b s t : scan b (s +:+ t) = b' ← scan b s; scan b' t.
Proof.
  revert b. induction s as [|c s IH]; intros b; [done|]. cbn.
  destruct (is_dq c); [apply IH|]. destruct (is_newline c && negb b); [done|apply IH].
Qed.

Lemma scan_all f b s :
  (∀ c, f c = true → is_dq c = false ∧ (is_newline c = false ∨ b = true)) →
  scan b (take_while f s) = Some b.
Proof.
  intros Hf. induction s as [|c s IH]; [done|]. cbn. destruct (f c) eqn:E; [|done].
  cbn. destruct (Hf c E) as [-> [-> | ->]]; [done|]. cbn. by rewrite andb_false_r.
Qed.

Section Consumed.
Context `{RegexCrate}.

(** Whatever the parser takes from the input is on one line. *)
Definition consumes {A} (p : parser A) : Prop :=
  ∀ s a rest, p s = Done (Some (a, rest)) →
  ∃ used, s = used +:+ rest ∧ scan false used = Some false.

Lemma consumes_ret {A} (a : A) : consumes (p_ret a).
Proof. intros s b rest [= _ <-]. by exists EmptyString. Qed.

Lemma consumes_bind {A B} (p : parser A) (f : A → parser B) :
  consumes p → (∀ a, consumes (f a)) → consumes (p_bind p f).
Proof.
  intros Hp Hf s b rest E. unfold p_bind in E.
  destruct (p s) as [[[a s1]|]| |] eqn:E1; try done.
  apply Hp in E1 as (u1 & -> & H1). apply Hf in E as (u2 & -> & H2).
  exists (u1 +:+ u2). rewrite app_assoc_str, scan_app, H1. done.
Qed.

Lemma consumes_or {A} (p q : parser A) : consumes p → consumes q → consumes (p </> q).
Proof.
  intros Hp Hq s b rest E. unfold p_or in E.
  destruct (p s) as [[[a s1]|]| |] eqn:E1; try done; [|exact (Hq s b rest E)].
  injection E as <- <-. by eapply Hp.
Qed.

Lemma consumes_opt {A} (p : parser A) : consumes p → consumes (p_opt p).
Proof.
  intros Hp. apply consumes_or; [apply consumes_bind; [done|intros _]|]; apply consumes_ret.
Qed.

Lemma consumes_lit l : scan false l = Some false → consumes (p_lit l).
Proof.
  intros Hl s [] rest E. unfold p_lit in E.
  destruct (strip_prefix l s) as [s'|] eqn:Es; [|done]. injection E as <-.
  exists l. split; [by apply strip_prefix_Some|done].
Qed.

Lemma consumes_space : consumes space.
Proof.
  intros s [] rest [= <-]. exists (take_while is_space s). split; [by rewrite take_drop_while|].
  apply scan_all. intros c Hc. unfold is_space in Hc.
  rewrite orb_true_iff, !bool_decide_eq_true in Hc. destruct Hc as [-> | ->]; vm_compute; auto.
Qed.

Lemma is_digit_plain c : is_digit c = true → is_dq c = false ∧ (is_newline c = false ∨ false = true).
Proof. intros Hc. destruct c as [[] [] [] [] [] [] [] []]; revert Hc; vm_compute; auto. Qed.

Lemma consumes_int parse : consumes (int_literal parse).
Proof.
  intros s n rest E. unfold int_literal in E.
  assert (∀ sign s1, s = sign +:+ s1 → scan false sign = Some false →
    (if decide (take_while is_digit s1 = EmptyString) then None
     else n ← parse (sign +:+ take_while is_digit s1); Some (n, drop_while is_digit s1))
    = Some (n, rest) → ∃ used, s = used +:+ rest ∧ scan false used = Some false) as Hs.
  { intros sign s1 -> Hsign E1. case_decide; [done|]. cbn in E1.
    destruct (parse _) as [m|]; [|done]. injection E1 as _ <-.
    exists (sign +:+ take_while is_digit s1).
    rewrite app_assoc_str, take_drop_while, scan_app, Hsign. split; [done|].
    apply scan_all, is_digit_plain. }
  destruct s as [|c s1]; [by apply (Hs "" ""); injection E|].
  destruct (decide (c = "-"%char)) as [->|Hc].
  - apply (Hs "-" s1); [done|done|by injection E].
  - apply (Hs "" (String c s1)); [done|done|].
    destruct c as [[] [] [] [] [] [] [] []]; try (by injection E); by destruct Hc.
Qed.

Lemma consumes_string : consumes string_literal.
Proof.
  intros s str rest E. unfold string_literal in E. injection E as E.
  destruct (strip_prefix dq s) as [s1|] eqn:E1; [|done]. apply strip_prefix_Some in E1 as ->.
  cbn [mbind option_bind] in E.
  destruct (strip_prefix dq (drop_while not_dq s1)) as [s2|] eqn:E2; [|done].
  injection E as _ <-. apply strip_prefix_Some in E2.
  exists (dq +:+ take_while not_dq s1 +:+ dq).
  rewrite !app_assoc_str, <- E2, take_drop_while. split; [done|].
  rewrite scan_app. change (scan false dq) with (Some true). cbn [mbind option_bind].
  rewrite scan_app, (scan_all not_dq); [done|]. intros c Hc. unfold is_dq. rewrite Hc. auto.
Qed.

Lemma consumes_more {A} fuel (p : parser A) acc : consumes p → consumes (p_more fuel space p acc).
Proof.
  intros Hp. revert acc. induction fuel as [|fuel IH]; intros acc s l rest E; [done|].
  cbn [p_more] in E. destruct (p_bind space (λ _, p) s) as [[[a s1]|]| |] eqn:E1; try done.
  - apply (consumes_bind space _ consumes_space (λ _, Hp)) in E1 as (u1 & -> & H1).
    apply IH in E as (u2 & -> & H2). exists (u1 +:+ u2).
    rewrite app_assoc_str, scan_app, H1. done.
  - injection E as _ <-. by exists EmptyString.
Qed.

Lemma consumes_sep {A} fuel (p : parser A) : consumes p → consumes (p_sep fuel space p).
Proof.
  intros Hp s l rest E. unfold p_sep in E. destruct (p s) as [[[a s1]|]| |] eqn:E1; try done.
  - apply Hp in E1 as (u1 & -> & H1). apply (consumes_more _ _ _ Hp) in E as (u2 & -> & H2).
    exists (u1 +:+ u2). rewrite app_assoc_str, scan_app, H1. done.
  - injection E as _ <-. by exists EmptyString.
Qed.

Lemma consumes_regex : consumes p_regex.
Proof.
  apply consumes_bind; [apply consumes_string|]. intros str s rx rest E.
  destruct (regex_from_str str); [|done..]. injection E as _ <-. by exists EmptyString.
Qed.

(** Along the structure of a rule. *)
Ltac consumes_steps :=
  repeat first
    [ apply consumes_ret | apply consumes_space | apply consumes_int | apply consumes_regex
    | apply consumes_lit; by vm_compute | apply consumes_opt | apply consumes_or
    | apply consumes_bind; [|intros ?] ].

Lemma consumes_criterion fuel : consumes (criterion fuel).
Proof.
  induction fuel as [|fuel IH]; [intros s a rest E; done|].
  cbn [criterion]. unfold simple_criterion, p_key, regex_or_focused, i64_or_focused,
    shell_type_or_focused, i32_literal, i64_literal.
  repeat (consumes_steps; try apply consumes_sep; try exact IH).
Qed.

Lemma parse_criteria_one_line s q : parse_criteria s = Done (Some q) → on_one_line s = true.
Proof.
  unfold parse_criteria, criteria_parser_parse. intros E.
  destruct ((space >>! criterion (S (String.length s))) s) as [[[c rest]|]| |] eqn:Ep; try done.
  destruct rest as [|]; [|done].
  apply (consumes_bind _ _ consumes_space (λ _, consumes_criterion _)) in Ep as (used & Es & Hu).
  apply bool_decide_eq_true. by rewrite Es, app_nil_str.
Qed.
End Consumed.

(** ** Meaning of the queries *)
Section Meaning.
Context `{RegexCrate}.

(** The nearest workspace of a node. *)
Definition in_workspace (r n ws : node) : Prop :=
  ∃ l, ancestors r n l ∧ find (is_type Type_Workspace) (n :: l) = Some ws.

Definition value_sat (get : node → option string) (val : OrFocused regex)
    (n : node) (foc : option node) : Prop :=
  match val with
  | Value rx => ∃ s, get n = Some s ∧ is_match rx s = true
  | Focused => ∃ f s, foc = Some f ∧ get n = Some s ∧ get f = Some s
  end.

(** What the documentation says a window [n] of the tree [r] has to be to match a
    criterion when [foc] is the focused window. *)
Fixpoint sat (r n : node) (foc : option node) (c : Criterion regex) : Prop :=
  match c with
  | And l => foldr (λ c P, sat r n foc c ∧ P) True l
  | Or l => foldr (λ c P, sat r n foc c ∨ P) False l
  | Not c => ¬ sat r n foc c
  | AppId v => value_sat app_id v n foc
  | Class' v => value_sat wp_class_of v n foc
  | Instance' v => value_sat wp_instance_of v n foc
  | Title v => value_sat name v n foc
  | AppName v => value_sat (λ n, Some (get_app_name n)) v n foc
  | ConMark rx => ∃ m, m ∈ marks n ∧ is_match rx m = true
  | ConId (Value i) => id n = i
  | ConId Focused => focused n = true
  | Pid p => pid n = Some p
  | Workspace (Value rx) => ∃ ws, in_workspace r n ws ∧ is_match rx (get_name ws) = true
  | Workspace Focused =>
      ∃ f ws, foc = Some f ∧ in_workspace r n ws ∧ in_workspace r f ws
  | Shell (Value t) => shell n = Some t
  | Shell Focused => ∃ f t, foc = Some f ∧ shell n = Some t ∧ shell f = Some t
  | Floating => node_type n = NodeType_FloatingCon
  | Tiling => node_type n ≠ NodeType_FloatingCon
  end.

(** The query does not use [app_name = __focused__]. *)
Fixpoint no_focused_app_name (c : Criterion regex) : bool :=
  match c with
  | And l | Or l => forallb no_focused_app_name l
  | Not c => no_focused_app_name c
  | AppName Focused => false
  | _ => true
  end.

Context (node_eqb : node → node → bool).

(** The comparison of the swayipc crate is reflexive and looks at the id. *)
Class NodeEqLaws : Prop := {
  node_eqb_refl : ∀ n, node_eqb n n = true;
  node_eqb_id : ∀ n m, node_eqb n m = true → id n = id m
}.

(** Induction over criteria. *)
Lemma Criterion_ind' (P : Criterion regex → Prop) :
  (∀ l, Forall P l → P (And l)) → (∀ l, Forall P l → P (Or l)) →
  (∀ c, P c → P (Not c)) →
  (∀ c, match c with And _ | Or _ | Not _ => False | _ => True end → P c) →
  ∀ c, P c.
Proof.
  intros Ha Ho Hn Hl. fix IH 1. intros c.
  destruct c as [l|l|c| | | | | | | | | | | |];
    [apply Ha|apply Ho|apply Hn; apply IH|by apply Hl..];
    induction l as [|c l IHl]; constructor; auto.
Qed.

Context (r : node) (Hu : unique_ids r) (Ht : typable r) `{!NodeEqLaws}.

(** A display node of the tree. *)
Definition shown (n : node) (lvl : IndentLevel) : DisplayNode :=
  {| dnode := n; dtree := get_tree r; indent_level := lvl |}.

Lemma workspace_of_done n lvl :
  n ∈ preorder r →
  ∃ ws, workspace_of (shown n lvl) = Done ws ∧ ∀ w, ws = Some w ↔ in_workspace r n w.
Proof.
  intros Hn. destruct (ancestors_exists r n Hn) as [l Hl].
  assert (∀ l, ancestors r n l → workspace_of (shown n lvl)
    = Done (find (is_type Type_Workspace) (n :: l))) as Hw.
  { intros l' Hl'. unfold workspace_of, get_parent_node_of_type. cbn [dtree dnode shown].
    apply get_parent_node_of_type_from_done; try done. by apply (ancestors_fuel r Hu n). }
  eexists. split; [by apply Hw|]. intros w. unfold in_workspace. split.
  - intros. by exists l.
  - intros (l' & Hl' & E). rewrite <-E. apply Done_inj.
    rewrite <-(Hw l Hl), <-(Hw l' Hl'). done.
Qed.

Lemma in_workspace_elem n ws : in_workspace r n ws → ws ∈ preorder r.
Proof.
  intros (l & Hl & [Hin _]%find_Some). apply elem_of_cons in Hin as [->|Hin].
  - by eapply ancestors_elem.
  - induction Hl as [|p c l Hp IH Hc]; [by apply elem_of_nil in Hin|].
    apply elem_of_cons in Hin as [->|]; [by eapply ancestors_elem|auto].
Qed.

Lemma opt_string_eqb_true a b : opt_string_eqb a b = true ↔ ∃ s, a = Some s ∧ b = Some s.
Proof.
  unfold opt_string_eqb, are_some_and_equal.
  destruct a as [a|], b as [b|]; try (split; [done|intros (? & ? & ?); done]).
  rewrite String.eqb_eq. split; [intros ->; eauto|]. intros (s & [= ->] & [= ->]). done.
Qed.

Lemma eval_string_sat get v n lvl foc lvl' :
  eval_string get v (shown n lvl) ((λ f, shown f lvl') <$> foc) = true
  ↔ value_sat get v n foc.
Proof.
  destruct v as [rx|]; cbn.
  - destruct (get n) as [s|]; cbn; [|split; [done|intros (? & ? & _); done]].
    split; [eauto|]. by intros (s' & [= ->] & ?).
  - destruct foc as [f|]; cbn; [|split; [done|intros (? & ? & ? & _); done]].
    rewrite opt_string_eqb_true. split.
    + intros (s & ? & ?). eauto.
    + intros (f' & s & [= ->] & ? & ?). eauto.
Qed.

(** [eval] computes a boolean that decides [P]. *)
Definition decides (eval : outcome bool) (P : Prop) : Prop :=
  ∃ b, eval = Done b ∧ (b = true ↔ P).

Lemma decides_ret (b : bool) (P : Prop) : (b = true ↔ P) → decides (Done b) P.
Proof. by exists b. Qed.

Lemma all_o_decides {A} (f : A → outcome bool) (P : A → Prop) l :
  Forall (λ x, decides (f x) (P x)) l →
  decides (all_o f l) (foldr (λ x Q, P x ∧ Q) True l).
Proof.
  induction 1 as [|x l (b & E & Hb) _ (b' & E' & Hb')]; cbn; [by exists true|].
  rewrite E. cbn. destruct b.
  - exists b'. split; [done|]. rewrite Hb'. intuition.
  - exists false. split; [done|]. split; [done|]. intros [? _]. by apply Hb.
Qed.

Lemma any_o_decides {A} (f : A → outcome bool) (P : A → Prop) l :
  Forall (λ x, decides (f x) (P x)) l →
  decides (any_o f l) (foldr (λ x Q, P x ∨ Q) False l).
Proof.
  induction 1 as [|x l (b & E & Hb) _ (b' & E' & Hb')]; cbn; [by exists false|].
  rewrite E. cbn. destruct b.
  - exists true. split; [done|]. split; [|done]. left. by apply Hb.
  - exists b'. split; [done|]. rewrite Hb'. split; [by right|].
    intros [Hx|]; [|done]. by apply Hb in Hx.
Qed.

Lemma eval_leaf_decides n lvl foc lvl' c :
  match c with And _ | Or _ | Not _ => False | _ => True end →
  n ∈ preorder r → (∀ f, foc = Some f → f ∈ preorder r) →
  no_focused_app_name c = true →
  decides (eval_criterion node_eqb c (shown n lvl) ((λ f, shown f lvl') <$> foc))
    (sat r n foc c).
Proof.
  intros Hc Hn Hf Hna.
  destruct c as [| | |v|v|v|[rx|]|v|rx|[i|]|p|[rx|]|[t|]| |]; try done;
    cbn [eval_criterion sat]; try (apply decides_ret);
    try (apply eval_string_sat); cbn [shown dnode].
  - cbn. split; [eauto|]. by intros (s & [= <-] & ?).
  - rewrite existsb_elem_of. done.
  - apply Z.eqb_eq.
  - done.
  - apply bool_decide_eq_true.
  - destruct (workspace_of_done n lvl Hn) as (ws & -> & Hws). cbn. apply decides_ret.
    destruct ws as [ws|]; cbn.
    + split; [intros; exists ws; split; [by apply Hws|done]|].
      intros (ws' & [= <-]%Hws & ?). done.
    + split; [done|]. intros (ws' & Hin%Hws & _). done.
  - destruct foc as [f|]; cbn [fmap option_fmap option_map].
    2: { apply decides_ret. split; [done|]. intros (? & ? & ? & _). done. }
    destruct (workspace_of_done n lvl Hn) as (ws & -> & Hws).
    destruct (workspace_of_done f lvl' (Hf f eq_refl)) as (wf & -> & Hwf).
    cbn. apply decides_ret. split.
    + destruct ws as [ws|], wf as [wf|]; cbn; try done. intros E.
      destruct (Hws ws) as [Hws' _]. destruct (Hwf wf) as [Hwf' _].
      exists f, ws. split_and!; [done|auto|]. apply node_eqb_id in E.
      assert (ws = wf) as ->; [|auto].
      apply (unique_ids_inj r); try done; eapply in_workspace_elem; auto.
    + intros (f' & w & [= <-] & Hw1%Hws & Hw2%Hwf). subst. cbn. apply node_eqb_refl.
  - apply bool_decide_eq_true.
  - destruct foc as [f|]; cbn; [|split; [done|intros (? & ? & ? & _); done]].
    unfold are_some_and_equal. destruct (shell n) eqn:E1, (shell f) eqn:E2;
      try (split; [done|intros (? & ? & ? & ? & ?); congruence]).
    rewrite bool_decide_eq_true. split;
      [intros ->; exists f; eexists; split_and!; [done|reflexivity|done]|].
    intros (f' & t & [= <-] & ? & ?). congruence.
  - unfold is_floating. apply bool_decide_eq_true.
  - unfold is_floating. rewrite negb_true_iff. apply bool_decide_eq_false.
Qed.

Lemma eval_criterion_decides n lvl foc lvl' c :
  n ∈ preorder r → (∀ f, foc = Some f → f ∈ preorder r) →
  no_focused_app_name c = true →
  decides (eval_criterion node_eqb c (shown n lvl) ((λ f, shown f lvl') <$> foc))
    (sat r n foc c).
Proof.
  intros Hn Hf.
  induction c as [l IH|l IH|c IH|c Hc] using Criterion_ind'; intros Hna.
  - cbn [eval_criterion sat]. apply (all_o_decides _ (sat r n foc)).
    cbn in Hna. rewrite forallb_forall in Hna. rewrite Forall_forall in *.
    intros c Hc. apply IH; [done|]. apply Hna. by apply list_elem_of_In.
  - cbn [eval_criterion sat]. apply (any_o_decides _ (sat r n foc)).
    cbn in Hna. rewrite forallb_forall in Hna. rewrite Forall_forall in *.
    intros c Hc. apply IH; [done|]. apply Hna. by apply list_elem_of_In.
  - cbn [eval_criterion sat]. destruct (IH Hna) as (b & -> & Hb).
    exists (negb b). split; [done|]. rewrite negb_true_iff. destruct b; intuition congruence.
  - by apply eval_leaf_decides.
Qed.
End Meaning.

(** ** Claims *)

(** C5: Every way to write a query that the grammar has, on one line and with blanks
    before it, is parsed to exactly that query: nested conjunctions with or
    without keyword, disjunctions and negations in each spelling, every criterion
    with any value, whatever spaces and tabs stand around brackets, keywords, equal
    signs and items.  A regex that does not compile becomes the one that matches
    nothing.  A text with a line break outside its string literals, as README's own
    example of a nested query is written, is rejected, whatever it says. *)
Theorem parse_written_query `{RegexCrate} (fallback : regex) :
  rx_new "^__I_WONT_MATCH_A_💩__$" = Some fallback →
  (∀ b s q, blank b → writes q s →
     parse_criteria (b +:+ s) = Done (Some (map_criterion (compile fallback) q)))
  ∧ (∀ s, on_one_line s = false → parse_criteria s = Done None).
Proof.
  intros Hf. split.
  - intros b s q Hb Hw. unfold parse_criteria, criteria_parser_parse.
    rewrite p_bind_space, drop_blank by done.
    destruct (writes_head q s EmptyString Hw) as (Hsp & _).
    pose proof (reads_writes fallback Hf q s Hw (S (String.length (b +:+ s))) EmptyString) as Hr.
    rewrite app_nil_str in Hsp, Hr. rewrite drop_while_stop by done.
    rewrite Hr; [|rewrite length_app_str; lia|done]. by destruct q.
  - intros s Hs. destruct (parse_criteria_done fallback Hf s) as [[q|] E]; [|done].
    apply parse_criteria_one_line in E. congruence.
Qed.

(** The parser terminates on every input, within the fuel given by the
    input's length, and never panics. *)
Theorem parse_criteria_total `{RegexCrate} (fallback : regex) s :
  rx_new "^__I_WONT_MATCH_A_💩__$" = Some fallback →
  ∃ r, parse_criteria s = Done r.
Proof. intros Hf. by apply (parse_criteria_done fallback). Qed.

(** C13: On a window of a tree, the evaluation of a query never panics and is true
    exactly when the window is what the documentation says the query asks for,
    provided the query does not use [app_name = __focused__]. *)
Theorem eval_criterion_sat `{RegexCrate} node_eqb r n lvl foc lvl' c :
  NodeEqLaws node_eqb → unique_ids r → typable r →
  n ∈ preorder r → (∀ f, foc = Some f → f ∈ preorder r) →
  no_focused_app_name c = true →
  ∃ b, eval_criterion node_eqb c (shown r n lvl) ((λ f, shown r f lvl') <$> foc) = Done b
    ∧ (b = true ↔ sat r n foc c).
Proof. intros. by apply eval_criterion_decides. Qed.

(** [app_name = __focused__] means the opposite of every other comparison with
    the focused window: it matches exactly the windows whose application name
    differs from the focused window's, and so never the focused window itself. *)
Theorem app_name_focused_inverted `{RegexCrate} node_eqb (w win : DisplayNode) :
  (∀ c, c = AppName Focused →
     eval_criterion node_eqb c w (Some win)
     = Done (bool_decide (get_app_name (dnode w) ≠ get_app_name (dnode win))))
  ∧ eval_criterion node_eqb (AppName Focused) win (Some win) = Done false
  ∧ ∀ f, app_id (dnode w) = Some f → app_id (dnode win) = Some f →
      eval_criterion node_eqb (AppId Focused) w (Some win) = Done true
      ∧ eval_criterion node_eqb (AppName Focused) w (Some win) = Done false.
Proof.
  split; [by intros c ->|]. split.
  - cbn. by rewrite bool_decide_false by (intros Hn; by apply Hn).
  - intros f Hw Hf. cbn. unfold get_app_name. rewrite Hw, Hf. cbn.
    rewrite String.eqb_refl. split; [done|].
    by rewrite bool_decide_false by (intros Hn; by apply Hn).
Qed.

(** ** Witnesses *)
Section Witnesses.
Import Samples.

Definition node_id_eqb (n m : node) : bool := (id n =? id m)%Z.

Definition sample_query : Criterion string :=
  Or [And [AppId (Value "firefox"); Tiling];
      And [Not (AppId (Value "firefox")); Floating; Workspace Focused]].

Definition sample_text : string :=
  "[|| [app_id=" +:+ dq +:+ "firefox" +:+ dq +:+ " tiling] [&& !app_id="
  +:+ dq +:+ "firefox" +:+ dq +:+ " floating workspace=__focused__]]".

Lemma sample_writes : writes sample_query sample_text.
Proof.
  assert (writes_leaf (AppId (Value "firefox")) "app_id" (dq +:+ "firefox" +:+ dq)) as Hff
    by done.
  assert (∀ c s, writes c s → writes_list [c] (s +:+ "" +:+ "")) as Hone.
  { intros. by apply (writes_cons _ _ [] ""); [|constructor|]. }
  apply (writes_or _ "" "||" " "
    (("[app_id=" +:+ dq +:+ "firefox" +:+ dq +:+ " tiling] ") +:+ "" +:+
     ("[&& !app_id=" +:+ dq +:+ "firefox" +:+ dq +:+ " floating workspace=__focused__]")
     +:+ "" +:+ "")
    "" ""); [by right; right; left| |done..].
  apply (writes_cons _ _ _ "" _); [|apply Hone|done].
  - apply (writes_and _ "" "" ""
      ((("app_id" +:+ "" +:+ "=" +:+ "" +:+ dq +:+ "firefox" +:+ dq)) +:+ " "
       +:+ ("tiling" +:+ "" +:+ "")) "" " "); [by do 3 right; left| |done..].
    apply (writes_cons _ _ _ " " _); [by apply writes_key|apply Hone; constructor|done].
  - apply (writes_and _ "" "&&" " "
      (("!" +:+ "" +:+ ("app_id" +:+ "" +:+ "=" +:+ "" +:+ dq +:+ "firefox" +:+ dq) +:+ " ")
       +:+ "" +:+ ("floating" +:+ " " +:+
         ("workspace" +:+ "" +:+ "=" +:+ "" +:+ "__focused__") +:+ "" +:+ ""))
      "" ""); [by right; right; left| |done..].
    apply (writes_cons _ _ _ "" _); [|apply (writes_cons _ _ _ " " _)|done].
    + apply (writes_not _ "!" ""); [by right; right; left|by apply writes_key|done..].
    + constructor.
    + apply Hone. by apply writes_key.
    + done.
Qed.

(** README's example, on its two lines. *)
Definition readme_query : string :=
  "[|| [app_id=" +:+ dq +:+ "firefox" +:+ dq +:+ " tiling]" +:+ nl
  +:+ "    [&& !app_id=" +:+ dq +:+ "firefox" +:+ dq +:+ " floating workspace=__focused__]]".

Lemma parse_written_query_witness :
  @parse_criteria literal_regexes (" " +:+ sample_text) = Done (Some sample_query)
  ∧ @parse_criteria literal_regexes readme_query = Done None.
Proof.
  destruct (@parse_written_query literal_regexes "^__I_WONT_MATCH_A_💩__$" eq_refl) as [Hw Hn].
  split; [|apply Hn; by vm_compute].
  apply (Hw " " sample_text sample_query); [reflexivity|apply sample_writes].
Defined.

Lemma parse_criteria_total_witness :
  ∃ r, @parse_criteria literal_regexes "[[[! tiling" = Done r.
Proof.
  apply (@parse_criteria_total literal_regexes "^__I_WONT_MATCH_A_💩__$"). reflexivity.
Defined.

Lemma node_id_eqb_laws : NodeEqLaws node_id_eqb.
Proof.
  split; unfold node_id_eqb; intros; [apply Z.eqb_refl|by apply Z.eqb_eq].
Qed.

Lemma eval_criterion_sat_witness :
  ∃ b, @eval_criterion literal_regexes node_id_eqb
         (And [Workspace Focused; Not (AppId Focused)])
         (shown sample_root (tiled 11 "firefox" false false) (Fixed 0))
         (Some (shown sample_root (tiled 13 "foot" true false) (Fixed 0))) = Done b
    ∧ (b = true ↔ @sat literal_regexes sample_root (tiled 11 "firefox" false false)
         (Some (tiled 13 "foot" true false)) (And [Workspace Focused; Not (AppId Focused)])).
Proof.
  apply (@eval_criterion_sat literal_regexes node_id_eqb sample_root
    (tiled 11 "firefox" false false) (Fixed 0) (Some (tiled 13 "foot" true false)) (Fixed 0)
    (And [Workspace Focused; Not (AppId Focused)])).
  - apply node_id_eqb_laws.
  - apply sample_unique.
  - apply sample_typable.
  - apply (list_elem_of_lookup_2 _ 8). reflexivity.
  - intros f [= <-]. apply (list_elem_of_lookup_2 _ 7). reflexivity.
  - reflexivity.
Defined.

Lemma app_name_focused_inverted_witness :
  @eval_criterion literal_regexes node_id_eqb (AppName Focused)
    (shown sample_root (tiled 13 "foot" true false) (Fixed 0))
    (Some (shown sample_root (tiled 13 "foot" true false) (Fixed 0))) = Done false.
Proof.
  apply (proj1 (proj2 (@app_name_focused_inverted literal_regexes node_id_eqb
    (shown sample_root (tiled 13 "foot" true false) (Fixed 0))
    (shown sample_root (tiled 13 "foot" true false) (Fixed 0))))).
Defined.
End Witnesses.
