(* ===== verification/Tests.v ===== *)
(** * The unit tests of the sources, on the model
    (shared/fmt.rs, criteria.rs)

    The assertions are evaluated.  They need crates: for regexes, one that matches the
    placeholder pattern as the regex crate does, and for formats, one that knows the
    precision of a string.  The first is shown to have the laws the theorems on
    placeholders rely on. *)

From S2P Require Import Prelude RString Regex Fmt Criteria.

(** ** The placeholder pattern *)

(** The character classes of the pattern, which are those of its negations. *)
Definition in_format (c : ascii) : bool := negb (bool_decide (c = "}"%char)).
Definition in_name (c : ascii) : bool := in_format c && negb (bool_decide (c = ":"%char)).

(** A match that starts at the start of the text: the groups and the rest.  Each
    repetition stops at a character that its class does not have and that must come next,
    so that there is nothing to backtrack to. *)
Definition placeholder_at (s : string) : option (list (option string) * string) :=
  s1 ← strip_prefix "{" s;
  let name := take_while in_name s1 in
  let s2 := drop_while in_name s1 in
  if decide (name = EmptyString) then None
  else
    match strip_prefix ":{" s2 with
    | Some s3 =>
        let fmt := take_while in_format s3 in
        s4 ← strip_prefix "}" (drop_while in_format s3);
        let clip := take_while in_format s4 in
        rest ← strip_prefix "}" (drop_while in_format s4);
        Some ([Some ("{" +:+ name +:+ ":{" +:+ fmt +:+ "}" +:+ clip +:+ "}"); Some name;
               Some ("{" +:+ fmt +:+ "}"); Some clip], rest)
    | None =>
        rest ← strip_prefix "}" s2;
        Some ([Some ("{" +:+ name +:+ "}"); Some name; None; None], rest)
    end.

(** The leftmost matches one after the other; the fuel is the length of the text. *)
Fixpoint placeholders (fuel : nat) (before s : string)
    : list (string * list (option string)) * string :=
  match fuel with
  | O => ([], before +:+ s)
  | S fuel =>
      match placeholder_at s with
      | Some (groups, rest) =>
          let '(ms, last) := placeholders fuel EmptyString rest in
          ((before, groups) :: ms, last)
      | None =>
          match s with
          | EmptyString => ([], before)
          | String c s => placeholders fuel (before +:+ String c EmptyString) s
          end
      end
  end.

(** Every other pattern stands for itself. *)
Definition placeholder_regexes : RegexCrate := {|
  regex := string;
  rx_new p := Some p;
  is_match p s := contains p s;
  captures p s :=
    if decide (p = PLACEHOLDER_RX) then snd <$> head (fst (placeholders (String.length s) EmptyString s))
    else if contains p s then Some (replicate 4 (Some p)) else None;
  rx_replace p s to := replace_first p to s;
  split_matches p s :=
    if decide (p = PLACEHOLDER_RX) then placeholders (String.length s) EmptyString s else ([], s)
|}.

Lemma placeholder_at_cut s groups rest :
  placeholder_at s = Some (groups, rest) →
  ∃ whole name, groups !! 0 = Some (Some whole) ∧ groups !! 1 = Some (Some name)
    ∧ s = whole +:+ rest.
Proof.
  unfold placeholder_at. intros E.
  destruct (strip_prefix "{" s) as [s1|] eqn:E1; [|done]. apply strip_prefix_Some in E1 as ->.
  cbn [mbind option_bind] in E. case_decide; [done|].
  pose proof (take_drop_while in_name s1) as Hs1.
  destruct (strip_prefix ":{" (drop_while in_name s1)) as [s3|] eqn:E3.
  - apply strip_prefix_Some in E3. pose proof (take_drop_while in_format s3) as Hs3.
    destruct (strip_prefix "}" (drop_while in_format s3)) as [s4|] eqn:E4; [|done].
    apply strip_prefix_Some in E4. pose proof (take_drop_while in_format s4) as Hs4.
    cbn [mbind option_bind] in E.
    destruct (strip_prefix "}" (drop_while in_format s4)) as [s5|] eqn:E5; [|done].
    apply strip_prefix_Some in E5. injection E as <- <-. do 2 eexists.
    split; [reflexivity|]. split; [reflexivity|].
    rewrite <-Hs1 at 1. rewrite E3. rewrite <-Hs3 at 1. rewrite E4. rewrite <-Hs4 at 1.
    rewrite E5. cbn. f_equal. by repeat (rewrite app_assoc_str; cbn).
  - destruct (strip_prefix "}" (drop_while in_name s1)) as [s5|] eqn:E5; [|done].
    apply strip_prefix_Some in E5. injection E as <- <-. do 2 eexists.
    split; [reflexivity|]. split; [reflexivity|].
    rewrite <-Hs1 at 1. rewrite E5. cbn. f_equal. by repeat (rewrite app_assoc_str; cbn).
Qed.

Lemma placeholders_cut fuel before s :
  let '(ms, last) := placeholders fuel before s in
  before +:+ s = foldr String.app last (match_text <$> ms)
  ∧ Forall (λ m, is_Some (mjoin (m.2 !! 0)) ∧ is_Some (mjoin (m.2 !! 1))) ms.
Proof.
  revert before s. induction fuel as [|fuel IH]; intros before s; [by split|].
  cbn [placeholders]. destruct (placeholder_at s) as [[groups rest]|] eqn:E.
  - apply placeholder_at_cut in E as (whole & name & Hw & Hn & ->).
    specialize (IH EmptyString rest). destruct (placeholders fuel EmptyString rest) as [ms last].
    destruct IH as [IH1 IH2]. change (rest = foldr String.app last (match_text <$> ms)) in IH1. split.
    + rewrite fmap_cons. cbn [foldr]. rewrite <-IH1. unfold match_text. cbn [fst snd].
      rewrite Hw. by rewrite app_assoc_str.
    + constructor; [|done]. cbn. rewrite Hw, Hn. split; by eexists.
  - destruct s as [|c s]; [by split; [rewrite app_nil_str|]|].
    specialize (IH (before +:+ String c EmptyString) s).
    destruct (placeholders fuel _ s) as [ms last]. by rewrite app_assoc_str in IH.
Qed.

Lemma placeholder_regexes_laws : @PlaceholderLaws placeholder_regexes PLACEHOLDER_RX.
Proof.
  split; intros s ms rest E; cbn in E; rewrite decide_True in E by done;
    pose proof (placeholders_cut (String.length s) EmptyString s) as Hc; rewrite E in Hc;
    by destruct Hc.
Qed.

(** ** The tests *)

(** [assert_eq!] on the outcome of an expression that must not panic. *)
Definition assert_eq {A} `{EqDecision A} (o : outcome A) (expected : A) : bool :=
  match o with Done a => bool_decide (a = expected) | _ => false end.

(** A crate that knows the formats [{}] and [{:.n}], where [n] is the number of characters
    to keep. *)
Definition precision_of (f : string) : option nat :=
  digits ← strip_prefix "{:." f;
  let ds := take_while is_digit digits in
  n ← digits_value 0 ds;
  if decide (ds ≠ EmptyString ∧ drop_while is_digit digits = "}") then Some (Z.to_nat n) else None.

Definition precision_crate : RtFormatCrate := {|
  Specifier := option nat;
  spec_format _ := Display;
  parse_segments f :=
    if decide (f = "{}") then Some [inr None]
    else n ← precision_of f; Some [inr (Some n)];
  display_str spec s := from_option (λ n, of_chars (take n (chars s))) s spec;
  display_int _ := int_to_string;
  display_f64 _ _ := "?";
  display_f32 _ _ := "?"
|}.

#[local] Existing Instances no_floats precision_crate placeholder_regexes.

Definition test_format : bool :=
  assert_eq (rt_format "{:.10}" (Str "sway") "") "sway"
  && assert_eq (rt_format "{:.10}" (Str "sway") "…") "sway"
  && assert_eq (rt_format "{:.4}" (Str "𝔰𝔴𝔞𝔶") "……") "𝔰𝔴𝔞𝔶"
  && assert_eq (rt_format "{:.3}" (Str "sway") "") "swa"
  && assert_eq (rt_format "{:.3}" (Str "sway") "…") "sw…"
  && assert_eq (rt_format "{:.5}" (Str "𝔰𝔴𝔞𝔶 𝔴𝔦𝔫𝔡𝔬𝔴") "…?") "𝔰𝔴𝔞…?"
  && assert_eq (rt_format "{:.5}" (Str "sway window") "...") "sw..."
  && assert_eq (rt_format "{:.2}" (Str "sway") "...") "...".

Example test_format_passes : test_format = true.
Proof. by vm_compute. Qed.

(** The groups [name], [fmtstr] and [clipstr] of the first match. *)
Definition named_groups (s : string) : option (list (option string)) :=
  rx ← rx_new PLACEHOLDER_RX; tail <$> captures rx s.

Definition test_placeholder_rx : bool :=
  bool_decide (named_groups "Hello, {place}!" = Some [Some "place"; None; None])
  && bool_decide (named_groups "Hi, {place:{:>10.10}}!"
                  = Some [Some "place"; Some "{:>10.10}"; Some ""])
  && bool_decide (named_groups "Hello, {place:{:.5}…}!"
                  = Some [Some "place"; Some "{:.5}"; Some "…"])
  && bool_decide (named_groups "Hello, {place:{:.5}...}!"
                  = Some [Some "place"; Some "{:.5}"; Some "..."]).

Example test_placeholder_rx_passes : test_placeholder_rx = true.
Proof. by vm_compute. Qed.

Definition test_subst_placeholders : bool :=
  assert_eq
    (subst_placeholders
       (λ name,
          if decide (name = "a") then Some (Done (Str "1"))
          else if decide (name = "b" ∨ name = "d") then Some (Done (Str "2"))
          else if decide (name = "c") then Some (Done (Str "3"))
          else None) true "{a}, {b} = {d}")
    "1, 2 = 2".

Example test_subst_placeholders_passes : test_subst_placeholders = true.
Proof. by vm_compute. Qed.

(** In the criteria below, an apostrophe stands for a double quote. *)
Definition quoted (s : string) : string := replace "'" dq s.

Definition parses (P : Criterion regex → bool) (s : string) : bool :=
  match criteria_parser_parse s with Done (Some c) => P c | _ => false end.

Definition test_criteria_parser : bool :=
  parses (λ c, match c with And _ => true | _ => false end)
    (quoted ("[tiling floating app_id=__focused__ app_id='foot' class='emacs' "
       +:+ "instance = 'the.instance' title='something with :;&$' con_mark='^.*foo$'"
       +:+ String "009" EmptyString
       +:+ "app_name='Hugo' con_id = __focused__ con_id=17 pid=23223 shell='xdg_shell' "
       +:+ "shell='xwayland' shell=__focused__ workspace='test' workspace=__focused__]")).

Example test_criteria_parser_passes : test_criteria_parser = true.
Proof. by vm_compute. Qed.

Definition test_criteria_parser_and : bool :=
  forallb (parses (λ c, match c with And v => bool_decide (length v = 0) | _ => false end))
    ["[]"; "[and]"; "[AND]"; "[&&]"].

Definition test_criteria_parser_or : bool :=
  forallb (parses (λ c, match c with Or v => bool_decide (length v = 0) | _ => false end))
    ["[or]"; "[OR]"; "[||]"].

Definition test_criteria_parser_not : bool :=
  forallb (parses (λ c, match c with Not Tiling => true | _ => false end))
    ["not tiling"; "NOT tiling"; "!tiling"; "! tiling"].

Example test_criteria_parser_combinations_pass :
  test_criteria_parser_and && test_criteria_parser_or && test_criteria_parser_not = true.
Proof. by vm_compute. Qed.
