(* ===== verification/Menu.v ===== *)
(** * What the selection menu answers (swayr/src/util.rs, swayr/src/tree.rs)

    [select_from_menu] against its specification, for every kind of choice: the nodes of
    the tree, sway commands and swayr commands. *)

From S2P Require Import Prelude RString Regex Fmt Config Ipc Focus Sway Cfg Util Tree Display.
From S2P Require Samples Tests.

(** C27: [select_from_menu] makes the texts of the choices one after the other, feeds them
    to the menu program, one per line, with the prompt put into its arguments, and waits.
    Of the printed text the last character is dropped, and the answer is the last choice
    whose text is that line, or whose text is that line up to a NUL; when there is none,
    the line itself is the error.  It panics only where making a text does, or when the
    menu program cannot be run. *)
Theorem select_from_menu_spec `{Env} `{ConfigToml} {TS} `{!DisplayFormat TS}
    prompt (choices : list TS) cfg tr tr1 :
  load_swayr_config tr = (tr1, Done cfg) →
  ∃ exec args,
    get_menu_executable cfg = Done exec ∧ get_menu_args cfg = Done args
    ∧ select_from_menu prompt choices tr
      = match display_all cfg choices tr1 with
        | (tr2, Done texts) =>
            let tr3 := tr2 ++ [Spawn exec (replace "{prompt}" prompt <$> args) (join nl texts)] in
            (tr3, match env_spawn tr3 with
                  | Ok output =>
                      Done match chosen (pop output) texts choices with
                           | Some c => Ok c
                           | None => Err (pop output)
                           end
                  | Err _ => Panics ("Error running " +:+ exec)
                  end)
        | (tr2, Panics msg) => (tr2, Panics msg)
        | (tr2, NoReturn) => (tr2, NoReturn)
        end.
Proof.
  intros Hcfg. destruct (menu_getters cfg) as (exec & args & He & Ha).
  exists exec, args. do 2 (split; [done|]).
  unfold select_from_menu. rewrite (io_bind_done _ _ _ _ _ Hcfg).
  pose proof (format_choices_spec cfg choices ∅ [] tr1) as Hf.
  destruct (display_all cfg choices tr1) as [tr2 [texts|msg|]].
  - destruct Hf as (map & Ef & Hm).
    rewrite (io_bind_done _ _ _ _ _ Ef), He, Ha, !(io_lift_done _ _ _ _ eq_refl).
    rewrite (io_bind_done _ _ _ _ _ (spawn_eq _ _ _ _)). cbn [app]. cbv zeta.
    destruct (env_spawn _) as [output|e]; [|done]. cbv zeta. rewrite Hm, lookup_empty.
    by destruct (chosen _ _ _).
  - unfold mbind, io_bind. by rewrite Hf.
  - unfold mbind, io_bind. by rewrite Hf.
Qed.

(** ** Witness *)
Section Witness.
Import Samples.
#[local] Existing Instances no_floats no_toml Tests.precision_crate Tests.placeholder_regexes plain_unicode.

Definition two_windows : list DisplayNode :=
  (λ n, {| dnode := n; dtree := get_tree sample_root; indent_level := Fixed 0 |})
  <$> [tiled 21 "emacs" false false; tiled 13 "foot" true false].

(** The texts of the two windows. *)
Definition two_texts : list string :=
  match snd (display_all (H := quiet_env sample_root) Config_default two_windows []) with
  | Done texts => texts
  | _ => []
  end.

(** A user who picks the second line. *)
Local Abbreviation picks_foot := (menu_env sample_root (default EmptyString (two_texts !! 1) +:+ nl)).

Definition config_read : trace := fst (load_swayr_config (H := picks_foot) []).

Lemma two_texts_made :
  ∃ tr, display_all (H := picks_foot) Config_default two_windows config_read = (tr, Done two_texts).
Proof. eexists. vm_compute. reflexivity. Qed.

Lemma foot_chosen :
  (id ∘ dnode) <$> chosen (pop (default EmptyString (two_texts !! 1) +:+ nl)) two_texts two_windows
  = Some 13%Z.
Proof. vm_compute. reflexivity. Qed.

Lemma select_from_menu_spec_witness :
  ∃ tr d, select_from_menu (H := picks_foot) "Switch" two_windows [] = (tr, Done (Ok d))
    ∧ id (dnode d) = 13%Z ∧ last tr = Some (Spawn "wofi"
        ["--show=dmenu"; "--allow-markup"; "--allow-images"; "--insensitive";
         "--cache-file=/dev/null"; "--parse-search"; "--height=40%"; "--prompt=Switch"]
        (join nl two_texts)).
Proof.
  destruct (select_from_menu_spec (H := picks_foot) "Switch" two_windows Config_default []
    config_read) as (exec & args & He & Ha & E); [vm_compute; reflexivity|].
  injection He as <-. injection Ha as <-. destruct two_texts_made as [tr2 Ed]. rewrite Ed in E.
  pose proof foot_chosen as Hf. cbv zeta in E. cbn [env_spawn menu_env env_with] in E.
  destruct (chosen _ _ _) as [d|]; [|discriminate Hf]. injection Hf as Hf.
  eexists. exists d. split; [exact E|]. split; [exact Hf|]. rewrite last_snoc. reflexivity.
Defined.
End Witness.
