(* ===== verification/Switch.v ===== *)
(** * Switching between urgent, matching and recent windows (swayr/src/cmds.rs)

    The commands that go to sway, the sequence data [SwitchToMatchingData] and
    [focus_urgent_or_matching_or_lru_window], which picks the next window of a
    sequence. *)

From S2P Require Import Prelude RString Regex Config Ipc Focus Sway Tree Criteria.
From S2P Require Samples.

Section RunCommands.
Context `{Env}.

(** A failing command is logged. *)
Definition run_sway_command_1 (cmd : string) : io unit :=
  con ← connection_new;
  match con with
  | Ok _ => con_run_command cmd ;; mret tt
  | Err err => panic err
  end.

Definition run_sway_command (args : list string) : io unit :=
  run_sway_command_1 (join " " args).

Definition con_id_sel (i : Z) : string := "[con_id=" +:+ int_to_string i +:+ "]".

(** These three return the id, which no caller uses. *)
Definition steal_window_by_id (i : Z) : io unit :=
  run_sway_command [con_id_sel i; "move to workspace current"].
Definition focus_window_by_id (i : Z) : io unit :=
  run_sway_command [con_id_sel i; "focus"].
Definition quit_window_by_id (i : Z) : io unit :=
  run_sway_command [con_id_sel i; "kill"].
End RunCommands.

(** ** The sequence data *)
Record SwitchToMatchingData := {
  visited : list Z;
  lru : option Z;
  origin : option Z;
  skip_urgent : bool;
  skip_lru : bool;
  skip_origin : bool
}.

Definition SwitchToMatchingData_new : SwitchToMatchingData :=
  {| visited := []; lru := None; origin := None;
     skip_urgent := false; skip_lru := false; skip_origin := false |}.

Definition reset (reset_skip_flags : bool) (stm : SwitchToMatchingData) : SwitchToMatchingData :=
  {| visited := []; lru := None; origin := None;
     skip_urgent := if reset_skip_flags then false else skip_urgent stm;
     skip_lru := if reset_skip_flags then false else skip_lru stm;
     skip_origin := if reset_skip_flags then false else skip_origin stm |}.

Definition set_skip (u l o : bool) (stm : SwitchToMatchingData) : SwitchToMatchingData :=
  {| visited := visited stm; lru := lru stm; origin := origin stm;
     skip_urgent := u; skip_lru := l; skip_origin := o |}.

Definition set_fallbacks (l o : option Z) (stm : SwitchToMatchingData) : SwitchToMatchingData :=
  {| visited := visited stm; lru := l; origin := o; skip_urgent := skip_urgent stm;
     skip_lru := skip_lru stm; skip_origin := skip_origin stm |}.

Definition push_visited (i : Z) (stm : SwitchToMatchingData) : SwitchToMatchingData :=
  {| visited := visited stm ++ [i]; lru := lru stm; origin := origin stm;
     skip_urgent := skip_urgent stm; skip_lru := skip_lru stm;
     skip_origin := skip_origin stm |}.

(** ** Picking the next window *)
Definition wid (w : DisplayNode) : Z := id (dnode w).

Definition focused_win (wins : list DisplayNode) : option DisplayNode :=
  find (λ w, focused (dnode w)) wins.

Definition tick_cmp (fdata : FocusData) (a b : DisplayNode) : comparison :=
  (last_focus_tick fdata (wid a) ?= last_focus_tick fdata (wid b))%Z.

(** The initialization on the first invocation of a sequence. *)
Definition init_stm (wins : list DisplayNode) (fdata : FocusData)
    (stm : SwitchToMatchingData) : SwitchToMatchingData :=
  set_fallbacks
    (wid <$> max_by (tick_cmp fdata) (filter (λ w, focused (dnode w) = false) wins))
    match focused_win wins with Some f => Some (wid f) | None => origin stm end
    stm.

Definition has_id (wins : list DisplayNode) (i : Z) : bool :=
  existsb (λ w, wid w =? i)%Z wins.

(** The test of a switch candidate; [pred] is only called when the tests before it
    have passed and urgency has not decided. *)
Definition is_candidate (stm : SwitchToMatchingData) (focused_id : Z)
    (pred : DisplayNode → outcome bool) (w : DisplayNode) : outcome bool :=
  if negb (wid w =? focused_id)%Z
     && (skip_lru stm || bool_decide (lru stm ≠ Some (wid w)))
     && (skip_origin stm || bool_decide (origin stm ≠ Some (wid w)))
     && negb (bool_decide (wid w ∈ visited stm))
  then if negb (skip_urgent stm) && urgent (dnode w) then Done true else pred w
  else Done false.

(** The end of the sequence: the last branches of the source. *)
Definition back_to_origin (wins : list DisplayNode) (focused_id : Z)
    (again : SwitchToMatchingData → outcome (option Z * SwitchToMatchingData))
    (stm : SwitchToMatchingData) : outcome (option Z * SwitchToMatchingData) :=
  let stm' := reset false stm in
  if negb (skip_origin stm) then
    match origin stm with
    | Some i =>
        if negb (i =? focused_id)%Z && has_id wins i then Done (Some i, stm')
        else again stm'
    | None => again stm'
    end
  else again stm'.

(** Every branch of the source ends in at most one call of [focus_window_by_id],
    whose argument is the result; the recursion is on the fuel. *)
Fixpoint pick_window (fuel : nat) (wins : list DisplayNode) (fdata : FocusData)
    (pred : DisplayNode → outcome bool) (stm : SwitchToMatchingData)
    : outcome (option Z * SwitchToMatchingData) :=
  match fuel with
  | O => NoReturn
  | S fuel =>
      let focused_id := from_option wid (-1)%Z (focused_win wins) in
      let initialized_now := bool_decide (visited stm = []) in
      let stm := if initialized_now then init_stm wins fdata stm else stm in
      let stm := push_visited focused_id stm in
      let again (stm : SwitchToMatchingData) :=
        if initialized_now then Done (None, stm)
        else pick_window fuel wins fdata pred stm in
      win ← find_o (is_candidate stm focused_id pred) wins;
      match win with
      | Some win => Done (Some (wid win), push_visited (wid win) stm)
      | None =>
          match lru stm with
          | Some i =>
              if negb (skip_lru stm) && negb (i =? focused_id)%Z
                 && negb (bool_decide (i ∈ visited stm)) && has_id wins i
              then Done (Some i, push_visited i stm)
              else back_to_origin wins focused_id again stm
          | None => back_to_origin wins focused_id again stm
          end
      end
  end.

Section Switch.
Context `{Env}.

Definition focus_urgent_or_matching_or_lru_window (wins : list DisplayNode)
    (fdata : FocusData) (pred : DisplayNode → outcome bool) (stm : SwitchToMatchingData)
    : io SwitchToMatchingData :=
  r ← lift (pick_window 2 wins fdata pred stm);
  let '(target, stm) := r : option Z * SwitchToMatchingData in
  match target with
  | Some i => focus_window_by_id i ;; mret stm
  | None => mret stm
  end.

(** The windows of the tree without the scratchpad. *)
Definition current_windows (fdata : FocusData) : io (list DisplayNode) :=
  root ← get_root_node false;
  lift (get_windows (get_tree root) fdata).

Definition switch_to_urgent_or_lru_window (stm : SwitchToMatchingData) (fdata : FocusData)
    : io SwitchToMatchingData :=
  wins ← current_windows fdata;
  focus_urgent_or_matching_or_lru_window wins fdata (λ _, Done false) stm.

Definition switch_to_app_or_urgent_or_lru_window (name : string)
    (stm : SwitchToMatchingData) (fdata : FocusData) : io SwitchToMatchingData :=
  wins ← current_windows fdata;
  focus_urgent_or_matching_or_lru_window wins fdata
    (λ w, Done (bool_decide (get_app_name (dnode w) = name))) stm.

Definition switch_to_mark_or_urgent_or_lru_window (con_mark : string)
    (stm : SwitchToMatchingData) (fdata : FocusData) : io SwitchToMatchingData :=
  wins ← current_windows fdata;
  focus_urgent_or_matching_or_lru_window wins fdata
    (λ w, Done (bool_decide (con_mark ∈ marks (dnode w)))) stm.

Definition switch_to_matching_or_urgent_or_lru_window `{RegexCrate}
    (node_eqb : node → node → bool) (criteria : string)
    (stm : SwitchToMatchingData) (fdata : FocusData) : io SwitchToMatchingData :=
  wins ← current_windows fdata;
  crit ← lift (parse_criteria criteria);
  match crit with
  | Some crit =>
      focus_urgent_or_matching_or_lru_window wins fdata
        (criterion_to_predicate node_eqb crit wins) stm
  | None => mret stm
  end.
End Switch.

(** ** Reference definitions *)

(** One invocation kept the sequence going and went to [i]. *)
Definition keeps_sequence (stm stm' : SwitchToMatchingData) (i : Z) : Prop :=
  ∃ f, visited stm' = visited stm ++ [f; i].

(** [sequence stm0 ts stm]: invocations with any windows, focus, ticks and
    predicate in between led from [stm0] to [stm] without a reset, and went to
    the windows [ts]. *)
Inductive sequence (stm0 : SwitchToMatchingData) : list Z → SwitchToMatchingData → Prop :=
| sequence_start : sequence stm0 [] stm0
| sequence_step ts stm wins fdata pred i stm' :
    sequence stm0 ts stm →
    (∀ w, w ∈ wins → ∃ b, pred w = Done b) →
    pick_window 2 wins fdata pred stm = Done (Some i, stm') →
    keeps_sequence stm stm' i →
    sequence stm0 (ts ++ [i]) stm'.

Definition with_focus (b : bool) (n : node) : node :=
  {| id := id n; name := name n; node_type := node_type n; layout := layout n;
     rect_width := rect_width n; focused := b; urgent := urgent n; marks := marks n;
     app_id := app_id n; pid := pid n; shell := shell n;
     window_properties := window_properties n; nodes := nodes n;
     floating_nodes := floating_nodes n |}.

Definition set_focus (f : Z) (w : DisplayNode) : DisplayNode :=
  {| dnode := with_focus (wid w =? f)%Z (dnode w); dtree := dtree w;
     indent_level := indent_level w |}.

(** Invocations with the same windows, each after sway has focused the window the
    one before went to: the targets, the last focus and the data. *)
Fixpoint cycle (n : nat) (wins : list DisplayNode) (fdata : FocusData)
    (pred : DisplayNode → outcome bool) (f : Z) (stm : SwitchToMatchingData)
    : outcome (list Z * Z * SwitchToMatchingData) :=
  match n with
  | O => Done ([], f, stm)
  | S n =>
      r ← pick_window 2 (set_focus f <$> wins) fdata pred stm;
      match r with
      | (Some i, stm) =>
          r ← cycle n wins fdata pred i stm;
          let '(ts, f, stm) := r : list Z * Z * SwitchToMatchingData in
          Done (i :: ts, f, stm)
      | (None, stm) => Done ([], f, stm)
      end
  end.

(** ** Lemmas *)
Section PickFacts.
Context (wins : list DisplayNode) (fdata : FocusData) (p : DisplayNode → bool).
Context (pred : DisplayNode → outcome bool) (Hpred : ∀ w, w ∈ wins → pred w = Done (p w)).

Definition candidate (stm : SwitchToMatchingData) (focused_id : Z) (w : DisplayNode) : bool :=
  negb (wid w =? focused_id)%Z
  && (skip_lru stm || bool_decide (lru stm ≠ Some (wid w)))
  && (skip_origin stm || bool_decide (origin stm ≠ Some (wid w)))
  && negb (bool_decide (wid w ∈ visited stm))
  && (negb (skip_urgent stm) && urgent (dnode w) || p w).

Lemma is_candidate_done stm fid w :
  w ∈ wins → is_candidate stm fid pred w = Done (candidate stm fid w).
Proof.
  intros Hw. unfold is_candidate, candidate. rewrite Hpred by done.
  destruct (negb _ && _ && _ && _); [|done].
  by destruct (negb _ && urgent _).
Qed.

(** What the branches after the search for a candidate do. *)
Definition pick_rest (focused_id : Z)
    (again : SwitchToMatchingData → outcome (option Z * SwitchToMatchingData))
    (stm : SwitchToMatchingData) : outcome (option Z * SwitchToMatchingData) :=
  match find (candidate stm focused_id) wins with
  | Some win => Done (Some (wid win), push_visited (wid win) stm)
  | None =>
      match lru stm with
      | Some i =>
          if negb (skip_lru stm) && negb (i =? focused_id)%Z
             && negb (bool_decide (i ∈ visited stm)) && has_id wins i
          then Done (Some i, push_visited i stm)
          else back_to_origin wins focused_id again stm
      | None => back_to_origin wins focused_id again stm
      end
  end.

Definition focused_id_of : Z := from_option wid (-1)%Z (focused_win wins).

(** The data when the search starts. *)
Definition started (stm : SwitchToMatchingData) : SwitchToMatchingData :=
  push_visited focused_id_of
    (if bool_decide (visited stm = []) then init_stm wins fdata stm else stm).

Lemma pick_window_S fuel stm :
  pick_window (S fuel) wins fdata pred stm
  = pick_rest focused_id_of
      (λ stm', if bool_decide (visited stm = []) then Done (None, stm')
               else pick_window fuel wins fdata pred stm') (started stm).
Proof.
  cbn [pick_window]. unfold pick_rest. fold focused_id_of. fold (started stm).
  rewrite (find_o_done _ (candidate (started stm) focused_id_of)) by (intros; by apply is_candidate_done).
  rewrite bind_done. by destruct (find _ _).
Qed.

Lemma back_to_origin_cases fid again stm r :
  back_to_origin wins fid again stm = Done r →
  again (reset false stm) = Done r
  ∨ ∃ i, origin stm = Some i ∧ i ≠ fid ∧ has_id wins i = true ∧ r = (Some i, reset false stm).
Proof.
  unfold back_to_origin. destruct (negb (skip_origin stm)); [|by left].
  destruct (origin stm) as [i|]; [|by left].
  destruct (negb (i =? fid)%Z && has_id wins i) eqn:E; [|by left].
  apply andb_true_iff in E as [E1%negb_true_iff%Z.eqb_neq E2]. intros [= <-]. right. eauto.
Qed.

(** Every pick goes to another window of the list; either that window has not been
    visited and is recorded, or the sequence is reset. *)
Definition good_pick (fid : Z) (stm : SwitchToMatchingData)
    (r : option Z * SwitchToMatchingData) : Prop :=
  match r.1 with
  | Some i => i ≠ fid ∧ has_id wins i = true
      ∧ (visited r.2 = [] ∨ visited r.2 = visited stm ++ [i] ∧ i ∉ visited stm)
  | None => visited r.2 = []
  end.

Lemma pick_rest_good fid again stm r :
  pick_rest fid again stm = Done r →
  good_pick fid stm r ∨ again (reset false stm) = Done r.
Proof.
  unfold pick_rest, good_pick.
  assert (∀ r, back_to_origin wins fid again stm = Done r →
    match r.1 with
    | Some i => i ≠ fid ∧ has_id wins i = true
      ∧ (visited r.2 = [] ∨ visited r.2 = visited stm ++ [i] ∧ i ∉ visited stm)
    | None => visited r.2 = []
    end ∨ again (reset false stm) = Done r) as Hb.
  { intros r' [?|(i & _ & ? & ? & ->)]%back_to_origin_cases; [by right|]. left. cbn. auto. }
  destruct (find _ _) as [w|] eqn:Ef.
  - intros [= <-]. left. cbn. apply find_Some in Ef as [Hw Hc].
    unfold candidate in Hc. rewrite !andb_true_iff, !negb_true_iff, Z.eqb_neq in Hc.
    destruct Hc as [[[[? _] _] Hv] _]. apply bool_decide_eq_false in Hv.
    split_and!; [done| |by right].
    apply existsb_elem_of. exists w. by rewrite Z.eqb_refl.
  - destruct (lru stm) as [i|]; [|apply Hb].
    destruct (_ && _) eqn:E; [|apply Hb]. intros [= <-]. left. cbn.
    rewrite !andb_true_iff, !negb_true_iff, Z.eqb_neq in E.
    destruct E as [[[_ ?] Hv] ?]. apply bool_decide_eq_false in Hv. auto.
Qed.

Lemma pick_rest_done fid again stm :
  (∀ stm', ∃ r, again stm' = Done r) → ∃ r, pick_rest fid again stm = Done r.
Proof.
  intros Ha. unfold pick_rest, back_to_origin.
  destruct (find _ _); [by eexists|].
  destruct (lru stm); repeat case_match; eauto.
Qed.

Lemma pick_window_done fuel stm : ∃ r, pick_window (S (S fuel)) wins fdata pred stm = Done r
  ∧ pick_window 2 wins fdata pred stm = Done r.
Proof.
  assert (∀ fuel stm, visited stm = [] →
    pick_window (S fuel) wins fdata pred stm = pick_window 1 wins fdata pred stm
    ∧ ∃ r, pick_window 1 wins fdata pred stm = Done r) as H1.
  { intros fuel' stm' Hv. rewrite !pick_window_S. rewrite bool_decide_true by done.
    split; [done|]. apply pick_rest_done. eauto. }
  rewrite !(pick_window_S _ stm). destruct (bool_decide (visited stm = [])).
  { destruct (pick_rest_done focused_id_of (λ stm', Done (None, stm')) (started stm))
      as [r E]; eauto. }
  assert (∀ stm0, pick_rest focused_id_of (λ stm', pick_window (S fuel) wins fdata pred stm') stm0
    = pick_rest focused_id_of (λ stm', pick_window 1 wins fdata pred stm') stm0) as Heq.
  { intros stm0. unfold pick_rest, back_to_origin.
    by destruct (H1 fuel (reset false stm0) eq_refl) as [-> _]. }
  rewrite Heq.
  assert (∃ r, pick_rest focused_id_of (λ stm', pick_window 1 wins fdata pred stm') (started stm)
    = Done r) as [r E]; [|eauto].
  unfold pick_rest, back_to_origin.
  destruct (H1 0 (reset false (started stm)) eq_refl) as [_ [r Hr]].
  destruct (find _ _); [by eexists|].
  destruct (lru _); repeat case_match; eauto.
Qed.
End PickFacts.

Lemma total_pred (wins : list DisplayNode) (pred : DisplayNode → outcome bool) :
  (∀ w, w ∈ wins → ∃ b, pred w = Done b) →
  ∃ p, ∀ w, w ∈ wins → pred w = Done (p w).
Proof.
  intros H. exists (λ w, match pred w with Done b => b | _ => false end).
  intros w Hw. by destruct (H w Hw) as [b ->].
Qed.

Lemma visited_started wins fdata stm :
  visited (started wins fdata stm) = visited stm ++ [focused_id_of wins].
Proof.
  unfold started. cbn. by destruct (bool_decide _) eqn:E.
Qed.

(** A pick either continues the data it got or starts from reset data. *)
Lemma pick_window_good wins fdata pred stm r :
  (∀ w, w ∈ wins → ∃ b, pred w = Done b) →
  pick_window 2 wins fdata pred stm = Done r →
  good_pick wins (focused_id_of wins) (started wins fdata stm) r
  ∨ visited stm ≠ [] ∧ good_pick wins (focused_id_of wins)
      (started wins fdata (reset false (started wins fdata stm))) r.
Proof.
  intros [p Hp]%total_pred. rewrite (pick_window_S wins fdata p pred Hp).
  intros [?|Ha]%(pick_rest_good wins p); [by left|].
  case_bool_decide as Hv.
  - injection Ha as <-. by left.
  - right. split; [done|]. rewrite (pick_window_S wins fdata p pred Hp) in Ha.
    apply (pick_rest_good wins p) in Ha as [?|Ha]; [done|].
    rewrite bool_decide_true in Ha by done. by injection Ha as <-.
Qed.

(** ** Static windows *)
Lemma max_by_fmap {A B} (f : A → B) (cmp : B → B → comparison) l :
  max_by cmp (f <$> l) = f <$> max_by (λ x y, cmp (f x) (f y)) l.
Proof.
  destruct l as [|x l]; [done|]. cbn. f_equal. revert x.
  induction l as [|y l IH]; intros x; cbn; [done|]. rewrite <-IH.
  by destruct (cmp (f x) (f y)).
Qed.

Section Cycle.
Context (wins : list DisplayNode) (fdata : FocusData) (p : DisplayNode → bool).
Context (Hids : NoDup (wid <$> wins)).
Context (Hp : ∀ f w, p (set_focus f w) = p w).
Context (o lr : Z).

(** The least recently... the window focused last of those but the origin. *)
Definition lru_of : option Z :=
  wid <$> max_by (tick_cmp fdata) (filter (λ w, wid w ≠ o) wins).

(** The windows of steps 1 and 2: urgent or matching, and neither the origin nor
    the last recently used one. *)
Definition wanted (w : DisplayNode) : bool :=
  negb (wid w =? o)%Z && negb (wid w =? lr)%Z && (urgent (dnode w) || p w).
Definition wanted_ids : list Z := wid <$> filter (λ w, wanted w = true) wins.

Context (Ho : o ∈ wid <$> wins) (Hlr : lru_of = Some lr).
Local Abbreviation pred := (λ w : DisplayNode, Done (p w)).

Lemma lru_of_elem : lr ∈ wid <$> wins ∧ lr ≠ o.
Proof.
  unfold lru_of in Hlr. apply fmap_Some in Hlr as (w & Hm & ->).
  destruct (filter (λ w, wid w ≠ o) wins) as [|x l] eqn:E; [done|].
  cbn in Hm. injection Hm as <-.
  pose proof (max_by_from_elem (tick_cmp fdata) x l) as Hin. rewrite <-E in Hin.
  apply list_elem_of_filter in Hin as [Hne Hin]. split; [by apply list_elem_of_fmap_2|done].
Qed.

Lemma focused_id_set_focus f : f ∈ wid <$> wins → focused_id_of (set_focus f <$> wins) = f.
Proof.
  intros Hf. unfold focused_id_of, focused_win. rewrite find_fmap.
  apply list_elem_of_fmap in Hf as (w & -> & Hw).
  destruct (find_is_Some ((λ v, focused (dnode v)) ∘ set_focus (wid w)) wins w Hw) as [v Hv].
  { cbn. apply Z.eqb_refl. }
  rewrite Hv. apply find_Some in Hv as [_ Hv]. cbn in *. by apply Z.eqb_eq.
Qed.

Lemma has_id_set_focus f i : i ∈ wid <$> wins → has_id (set_focus f <$> wins) i = true.
Proof.
  intros Hi. apply existsb_elem_of.
  apply list_elem_of_fmap in Hi as (w & -> & Hw).
  exists (set_focus f w). split; [by apply list_elem_of_fmap_2|]. cbn. apply Z.eqb_refl.
Qed.

(** The data at the search when the first [k] wanted windows have been visited. *)
Definition cycle_inv (k : nat) (stm : SwitchToMatchingData) : Prop :=
  lru stm = Some lr ∧ origin stm = Some o
  ∧ skip_urgent stm = false ∧ skip_lru stm = false ∧ skip_origin stm = false
  ∧ (∀ i, i ∈ visited stm ↔ i = o ∨ i ∈ take k wanted_ids).

Lemma find_candidate k f stm :
  cycle_inv k stm → f = o ∨ f ∈ take k wanted_ids →
  find (candidate p stm f) (set_focus f <$> wins)
  = set_focus f <$> filter (λ w, wanted w = true) wins !! k.
Proof.
  intros (El & Eo & Eu & Esl & Eso & Hv) Hf. rewrite find_fmap. f_equal.
  rewrite <-(find_not_taken wid k (filter (λ w, wanted w = true) wins)).
  2: { eapply sublist_NoDup; [exact Hids|]. apply fmap_sublist, sublist_filter. }
  rewrite <-find_filter. apply find_ext. intros w _. fold wanted_ids.
  unfold candidate, wanted. cbn. rewrite Hp, El, Eo, Eu, Esl, Eso. cbn [negb orb andb].
  apply eq_true_iff_eq.
  rewrite !andb_true_iff, !negb_true_iff, !Z.eqb_neq, !bool_decide_eq_true,
    !bool_decide_eq_false, Hv.
  change (id (dnode w)) with (wid w).
  split.
  - intros [[[[H1 H2] H3] H4] H5]. split_and!; [congruence|congruence|done|tauto].
  - intros [[[H1 H2] H3] H4]. split_and!; [|congruence|congruence|tauto|done].
    intros E. rewrite <-E in Hf. tauto.
Qed.

Lemma wanted_ids_lookup k i :
  wanted_ids !! k = Some i → i ∈ wid <$> wins ∧ i ≠ o ∧ i ≠ lr.
Proof.
  intros Hk%list_elem_of_lookup_2. apply list_elem_of_fmap in Hk as (w & -> & Hw).
  apply list_elem_of_filter in Hw as [Hw Hin].
  unfold wanted in Hw. rewrite !andb_true_iff, !negb_true_iff, !Z.eqb_neq in Hw.
  destruct Hw as [[??]?]. split; [by apply list_elem_of_fmap_2|done].
Qed.

(** One step of the cycle from data that start with [cycle_inv k]. *)
Lemma cycle_step k f stm :
  f ∈ wid <$> wins → f = o ∨ f ∈ take k wanted_ids →
  cycle_inv k (started (set_focus f <$> wins) fdata stm) →
  match wanted_ids !! k with
  | Some i => ∃ stm', pick_window 2 (set_focus f <$> wins) fdata pred stm = Done (Some i, stm')
      ∧ i ∈ wid <$> wins
      ∧ cycle_inv (S k) (started (set_focus i <$> wins) fdata stm')
  | None => ∃ stm', pick_window 2 (set_focus f <$> wins) fdata pred stm = Done (Some lr, stm')
      ∧ pick_window 2 (set_focus lr <$> wins) fdata pred stm'
        = Done (Some o, SwitchToMatchingData_new)
  end.
Proof.
  intros Hf Hfv Hinv.
  rewrite (pick_window_S _ _ p pred) by done.
  rewrite focused_id_set_focus by done. unfold pick_rest at 1 2.
  rewrite (find_candidate k f) by done.
  destruct Hinv as (El & Eo & Eu & Esl & Eso & Hv).
  destruct lru_of_elem as [Hlin Hlo].
  destruct (wanted_ids !! k) as [i|] eqn:Ek.
  - destruct (wanted_ids_lookup k i Ek) as (Hin & Hio & Hil).
    unfold wanted_ids in Ek. rewrite list_lookup_fmap in Ek.
    apply fmap_Some in Ek as (w & Ew & ->). rewrite Ew. cbn [fmap option_fmap option_map].
    eexists. split; [done|]. split; [done|]. unfold started at 1.
    rewrite bool_decide_false.
    2: { cbn. intros E. apply app_nil in E as [_ E]. done. }
    rewrite focused_id_set_focus by done.
    unfold cycle_inv. cbn -[started]. split_and!; try done.
    intros j. rewrite !elem_of_app, !list_elem_of_singleton, Hv.
    rewrite (take_S_r _ _ (wid w)).
    2: { unfold wanted_ids. by rewrite list_lookup_fmap, Ew. }
    rewrite elem_of_app, list_elem_of_singleton. cbn. tauto.
  - assert (filter (λ w, wanted w = true) wins !! k = None) as ->.
    { unfold wanted_ids in Ek. rewrite list_lookup_fmap in Ek. by apply fmap_None in Ek. }
    cbn [fmap option_fmap option_map]. rewrite El, Esl.
    assert (lr ∉ take k wanted_ids) as Hnt.
    { intros Hin. apply list_elem_of_lookup_1 in Hin as [j Hj]. apply lookup_take_Some in Hj as [Hj _].
      by apply wanted_ids_lookup in Hj as (_ & _ & ?). }
    assert (f ≠ lr) as Hfl by (intros ->; tauto).
    rewrite (proj2 (Z.eqb_neq lr f)) by done.
    rewrite bool_decide_false by (rewrite Hv; tauto).
    rewrite has_id_set_focus by done. cbn [negb andb].
    eexists. split; [done|].
    rewrite (pick_window_S _ _ p pred) by done.
    rewrite focused_id_set_focus by done. unfold pick_rest at 1.
    set (stm1 := started (set_focus f <$> wins) fdata stm) in *. clearbody stm1.
    assert (started (set_focus lr <$> wins) fdata (push_visited lr stm1)
      = push_visited lr (push_visited lr stm1)) as ->.
    { unfold started at 1. rewrite bool_decide_false; [by rewrite focused_id_set_focus|].
      cbn. intros E. apply app_nil in E as [_ E]. done. }
    assert (find (candidate p (push_visited lr (push_visited lr stm1)) lr)
      (set_focus lr <$> wins) = None) as ->.
    { apply find_None. intros w Hw. apply list_elem_of_fmap in Hw as (v & -> & Hv').
      apply not_true_is_false. intros Hc. unfold candidate in Hc. cbn in Hc.
      rewrite Hp, El, Eo, Eu, Esl, Eso in Hc. cbn [negb orb andb] in Hc.
      rewrite !andb_true_iff, !negb_true_iff, !Z.eqb_neq, !bool_decide_eq_true,
        !bool_decide_eq_false, !elem_of_app, !list_elem_of_singleton, Hv in Hc.
      change (id (dnode v)) with (wid v) in Hc.
      destruct Hc as [[[[Hc1 _] Hc2] Hc3] Hc4].
      assert (wid v ∈ wanted_ids) as Hin.
      { apply list_elem_of_fmap. exists v. split; [done|]. apply list_elem_of_filter.
        split; [|done]. unfold wanted. rewrite !andb_true_iff, !negb_true_iff, !Z.eqb_neq.
        split_and!; [congruence|congruence|done]. }
      rewrite take_ge in Hc3; [tauto|]. by apply lookup_ge_None. }
    cbn [lru push_visited]. rewrite El, Z.eqb_refl.
    cbn [skip_lru push_visited negb andb]. rewrite Esl. cbn [negb andb].
    unfold back_to_origin. cbn [skip_origin origin push_visited]. rewrite Eso, Eo.
    rewrite (proj2 (Z.eqb_neq o lr)) by done.
    rewrite has_id_set_focus by done. cbn [negb andb]. unfold reset. cbn.
    by rewrite Eu, Esl, Eso.
Qed.

Lemma cycle_from k f stm :
  f ∈ wid <$> wins → f = o ∨ f ∈ take k wanted_ids →
  cycle_inv k (started (set_focus f <$> wins) fdata stm) →
  cycle (length wanted_ids - k + 2) wins fdata pred f stm
  = Done (drop k wanted_ids ++ [lr; o], o, SwitchToMatchingData_new).
Proof.
  remember (length wanted_ids - k) as n eqn:En. revert k f stm En.
  induction n as [|n IH]; intros k f stm En Hf Hfv Hinv;
    pose proof (cycle_step k f stm Hf Hfv Hinv) as Hs.
  - assert (wanted_ids !! k = None) as Ek by (apply lookup_ge_None; lia).
    rewrite Ek in Hs. destruct Hs as (stm' & E1 & E2).
    cbn [Nat.add cycle]. rewrite E1, bind_done, E2, !bind_done.
    by rewrite drop_ge by lia.
  - destruct (wanted_ids !! k) as [i|] eqn:Ek.
    2: { apply lookup_ge_None in Ek. lia. }
    destruct Hs as (stm' & E1 & Hi & Hinv').
    cbn [Nat.add cycle]. rewrite E1, bind_done.
    rewrite (IH (S k) i stm'); [|lia|done| |done].
    + rewrite bind_done. by rewrite (drop_S _ i k).
    + right. rewrite (take_S_r _ _ i) by done. apply elem_of_app. right. left.
Qed.
End Cycle.

Lemma filter_fmap_list {A B} (P : B → Prop) `{∀ x, Decision (P x)} (g : A → B) (l : list A) :
  filter P (g <$> l) = g <$> filter (λ x, P (g x)) l.
Proof.
  induction l as [|x l IH]; [done|]. rewrite fmap_cons, !filter_cons, IH.
  by destruct (decide (P (g x))).
Qed.

Lemma filter_ext_list {A} (P Q : A → Prop) `{∀ x, Decision (P x)} `{∀ x, Decision (Q x)} (l : list A) :
  (∀ x, P x ↔ Q x) → filter P l = filter Q l.
Proof.
  intros E. induction l as [|x l IH]; [done|]. rewrite !filter_cons, IH.
  apply decide_ext, E.
Qed.

Lemma cycle_start wins fdata o lr p :
  o ∈ wid <$> wins → lru_of wins fdata o = Some lr →
  cycle_inv wins p o lr 0 (started (set_focus o <$> wins) fdata SwitchToMatchingData_new).
Proof.
  intros Ho Hlr. unfold started. rewrite bool_decide_true by done.
  rewrite focused_id_set_focus by done. unfold cycle_inv. cbn. split_and!; try done.
  - rewrite filter_fmap_list.
    rewrite (filter_ext_list _ (λ w, wid w ≠ o)).
    2: { intros w. cbn. rewrite Z.eqb_neq. done. }
    rewrite max_by_fmap, <-option_fmap_compose. exact Hlr.
  - unfold focused_win. rewrite find_fmap.
    apply list_elem_of_fmap in Ho as (w & -> & Hw).
    destruct (find_is_Some ((λ v, focused (dnode v)) ∘ set_focus (wid w)) wins w Hw) as [v Hv].
    { cbn. apply Z.eqb_refl. }
    rewrite Hv. apply find_Some in Hv as [_ Hv]. cbn in *. f_equal. by apply Z.eqb_eq.
  - intros i. rewrite list_elem_of_singleton. split; [auto|].
    intros [?|Hi]; [done|]. by apply elem_of_nil in Hi.
Qed.

(** ** Claims *)

(** C24: Picking the next window recurses at most once, so that it terminates for
    every window list and every state of the sequence; it goes to no window or to
    one of the list that is not the focused one. *)
Theorem pick_window_terminates wins fdata pred stm fuel :
  (∀ w, w ∈ wins → ∃ b, pred w = Done b) →
  ∃ target stm', pick_window (2 + fuel) wins fdata pred stm = Done (target, stm')
    ∧ pick_window 2 wins fdata pred stm = Done (target, stm')
    ∧ ∀ i, target = Some i → i ≠ focused_id_of wins ∧ i ∈ wid <$> wins.
Proof.
  intros H. destruct (total_pred _ _ H) as [p Hp].
  destruct (pick_window_done wins fdata p pred Hp fuel stm) as ([target stm'] & E1 & E2).
  exists target, stm'. split; [done|]. split; [done|]. intros i ->.
  assert (∀ i, has_id wins i = true → i ∈ wid <$> wins) as Hid.
  { intros j (w & Hw & <-%Z.eqb_eq)%existsb_elem_of. by apply list_elem_of_fmap_2. }
  destruct (pick_window_good wins fdata pred stm _ H E2) as [(? & ? & _)|(_ & ? & ? & _)]; auto.
Qed.

(** C7: Within a sequence no window is visited twice, whatever windows come and go,
    wherever the user moves the focus in between and whatever matches: all targets
    until the next reset are different. *)
Theorem no_window_visited_twice stm0 ts stm :
  visited stm0 = [] → sequence stm0 ts stm → NoDup ts.
Proof.
  intros H0 Hs.
  assert (NoDup ts ∧ ∀ i, i ∈ ts → i ∈ visited stm) as [? _]; [|done].
  induction Hs as [|ts stm wins fdata pred i stm' _ [IHn IHv] Hp Hpick [f Hk]].
  { split; [constructor|]. intros i Hi. by apply elem_of_nil in Hi. }
  assert (i ∉ visited stm) as Hi.
  { destruct (pick_window_good wins fdata pred stm _ Hp Hpick)
      as [(_ & _ & [E|[E Hn]])|(Hv & _ & _ & [E|[E Hn]])];
      cbn [fst snd] in *; rewrite Hk in E.
    - by apply app_nil in E as [_ ?].
    - intros Hin. apply Hn. rewrite visited_started. apply elem_of_app. by left.
    - by apply app_nil in E as [_ ?].
    - exfalso. rewrite visited_started in E. cbn in E.
      apply (f_equal length) in E. rewrite length_app in E. cbn in E.
      destruct (visited stm); [done|cbn in E; lia]. }
  split.
  - apply NoDup_app. split; [done|]. split; [|apply NoDup_singleton].
    intros j Hj ->%list_elem_of_singleton. by apply Hi, IHv.
  - intros j. rewrite Hk, !elem_of_app, !list_elem_of_singleton.
    intros [?| ->]; [by left; apply IHv|]. right. right. left.
Qed.

(** C3: With a fixed set of windows one sequence goes through the urgent and the
    matching windows in the order of the list, but for the origin and the last recently
    used window; then to the last recently used window, and back to the origin, where
    the data are as at the beginning and the next sequence starts.  An urgent or matching
    last recently used window is so visited after all others, and not in the first step
    as README says. *)
Theorem switch_sequence_order wins fdata p o lr :
  NoDup (wid <$> wins) →
  (∀ f w, p (set_focus f w) = p w) →
  o ∈ wid <$> wins → lru_of wins fdata o = Some lr →
  cycle (length (wanted_ids wins p o lr) + 2) wins fdata (λ w, Done (p w)) o
    SwitchToMatchingData_new
  = Done (wanted_ids wins p o lr ++ [lr; o], o, SwitchToMatchingData_new)
  ∧ NoDup (wanted_ids wins p o lr ++ [lr; o]).
Proof.
  intros Hids Hp Ho Hlr. split.
  - rewrite <-(Nat.sub_0_r (length _)) at 1.
    apply (cycle_from wins fdata p Hids Hp o lr Ho Hlr 0); [done|by left|].
    by apply cycle_start.
  - destruct (lru_of_elem wins fdata o lr Hlr) as [_ Hne].
    apply NoDup_app. split; [|split].
    + eapply sublist_NoDup; [exact Hids|]. apply fmap_sublist, sublist_filter.
    + intros i Hi Hin. apply list_elem_of_lookup_1 in Hi as [k Hk].
      apply wanted_ids_lookup in Hk as (_ & ? & ?).
      rewrite !elem_of_cons, elem_of_nil in Hin. tauto.
    + apply NoDup_cons. split; [by rewrite list_elem_of_singleton|apply NoDup_singleton].
Qed.

(** ** Witnesses *)
Section Witnesses.
Import Samples.

Definition sample_wins : list DisplayNode :=
  (λ n, {| dnode := n; dtree := get_tree sample_root; indent_level := Fixed 0 |})
  <$> [tiled 14 "foot" false true; tiled 21 "emacs" false false;
       floating 15 "mpv" false false; tiled 11 "firefox" false false;
       tiled 13 "foot" true false].

Definition is_firefox (w : DisplayNode) : bool :=
  bool_decide (get_app_name (dnode w) = "firefox").

Lemma pick_window_terminates_witness :
  ∃ target stm', pick_window (2 + 3) sample_wins sample_fdata (λ w, Done (is_firefox w))
                   SwitchToMatchingData_new = Done (target, stm').
Proof.
  destruct (pick_window_terminates sample_wins sample_fdata (λ w, Done (is_firefox w))
    SwitchToMatchingData_new 3) as (t & stm' & E & _).
  - intros w _. by eexists.
  - by exists t, stm'.
Defined.

Lemma no_window_visited_twice_witness : NoDup [14%Z].
Proof.
  destruct (pick_window 2 sample_wins sample_fdata (λ w, Done (is_firefox w))
    SwitchToMatchingData_new) as [[[i|] stm']|msg|] eqn:E.
  - apply (no_window_visited_twice SwitchToMatchingData_new [14%Z] stm').
    + reflexivity.
    + apply (sequence_step _ [] SwitchToMatchingData_new sample_wins sample_fdata
        (λ w, Done (is_firefox w))).
      * constructor.
      * intros w _. by eexists.
      * rewrite E. vm_compute in E. injection E as <- <-. reflexivity.
      * vm_compute in E. injection E as <- <-. exists 13%Z. reflexivity.
  - vm_compute in E. discriminate.
  - vm_compute in E. discriminate.
  - vm_compute in E. discriminate.
Defined.

Lemma switch_sequence_order_witness :
  cycle (length [14; 11]%Z + 2) sample_wins sample_fdata (λ w, Done (is_firefox w)) 13
    SwitchToMatchingData_new
  = Done ([14; 11; 21; 13]%Z, 13%Z, SwitchToMatchingData_new)
  ∧ NoDup [14; 11; 21; 13]%Z.
Proof.
  apply (switch_sequence_order sample_wins sample_fdata is_firefox 13 21).
  - decide_now.
  - intros f w. reflexivity.
  - decide_now.
  - vm_compute. reflexivity.
Defined.
End Witnesses.
