(* ===== verification/Cycle.v ===== *)
(** * Cycling through windows in recency order (swayr/src/cmds.rs)

    [focus_window_in_direction_1] and the commands built on it: next and previous
    window, of the current workspace, of the same layout, or matching a query. *)

From S2P Require Import Prelude RString Regex Ipc Focus Sway Tree Criteria Switch.
From S2P Require Samples.

Inductive ConsiderWindows := AllWorkspaces | CurrentWorkspace.

Inductive Direction := Backward | Forward.

#[export] Instance ConsiderWindows_eq_dec : EqDecision ConsiderWindows.
Proof. solve_decision. Defined.

Definition always_true (_ : DisplayNode) : outcome bool := Done true.

(** ** [Iterator::cycle] on a list that is not empty *)
Record Cycle (A : Type) := { cycled : list A; current : list A }.
Arguments cycled {A} _.
Arguments current {A} _.

Definition cycle_of {A} (l : list A) : Cycle A := {| cycled := l; current := l |}.

Definition cycle_next {A} (it : Cycle A) : option (A * Cycle A) :=
  match current it with
  | x :: l => Some (x, {| cycled := cycled it; current := l |})
  | [] =>
      match cycled it with
      | x :: l => Some (x, {| cycled := cycled it; current := l |})
      | [] => None
      end
  end.

(** The loop: passes elements by until it has seen the focused one, and answers
    with the next.  [NoReturn] is a loop that does not end. *)
Fixpoint after_focused (fuel : nat) (is_focused_window : DisplayNode → bool)
    (it : Cycle DisplayNode) : outcome DisplayNode :=
  match fuel with
  | O => NoReturn
  | S fuel =>
      r ← unwrap (cycle_next it);
      let '(win, it) := r : DisplayNode * Cycle DisplayNode in
      if is_focused_window win
      then r ← unwrap (cycle_next it); Done r.1
      else after_focused fuel is_focused_window it
  end.

Definition recency_cmp (fdata : FocusData) (a b : DisplayNode) : comparison :=
  reverse_ord (last_focus_tick fdata (wid a) ?= last_focus_tick fdata (wid b))%Z.

(** The window to focus, [None] when there is none. *)
Definition window_in_direction (wins : list DisplayNode) (dir : Direction)
    (fdata : FocusData) (pred : DisplayNode → outcome bool) : outcome (option Z) :=
  wins ← filter_o pred wins;
  match sort_by (recency_cmp fdata) wins with
  | [] => Done None
  | (last_focused_win :: _) as wins =>
      let is_focused_window :=
        if negb (existsb (λ w, focused (dnode w)) wins)
        then λ dn, (wid dn =? wid last_focused_win)%Z
        else λ dn, focused (dnode dn) in
      let it := cycle_of match dir with Forward => reverse wins | Backward => wins end in
      win ← after_focused (S (length wins)) is_focused_window it;
      Done (Some (wid win))
  end.

Section Commands.
Context `{Env}.

Definition focus_window_in_direction_1 (wins : list DisplayNode) (dir : Direction)
    (fdata : FocusData) (pred : DisplayNode → outcome bool) : io unit :=
  target ← lift (window_in_direction wins dir fdata pred);
  match target with
  | Some i => focus_window_by_id i
  | None => mret tt
  end.

Definition focus_matching_window_in_direction `{RegexCrate}
    (node_eqb : node → node → bool) (dir : Direction) (criteria : string)
    (fdata : FocusData) : io unit :=
  wins ← current_windows fdata;
  crits ← lift (parse_criteria criteria);
  match crits with
  | Some crits =>
      focus_window_in_direction_1 wins dir fdata (criterion_to_predicate node_eqb crits wins)
  | None => mret tt
  end.

(** [retain] of the windows of the current workspace. *)
Definition in_current_workspace (tree : Tree) (cur_ws : node) (w : DisplayNode) : outcome bool :=
  ws ← get_parent_node_of_type tree (wid w) Type_Workspace;
  ws ← unwrap ws;
  Done (id ws =? id cur_ws)%Z.

Definition focus_window_in_direction (dir : Direction) (consider_wins : ConsiderWindows)
    (fdata : FocusData) (pred : DisplayNode → outcome bool) : io unit :=
  root ← get_root_node false;
  let tree := get_tree root in
  wins ← lift (get_windows tree fdata);
  wins ← match consider_wins with
         | CurrentWorkspace =>
             cur_ws ← lift (get_current_workspace tree);
             lift (filter_o (in_current_workspace tree cur_ws) wins)
         | AllWorkspaces => mret wins
         end;
  focus_window_in_direction_1 wins dir fdata pred.

(** The predicates of the commands. *)
Definition is_tiled_win (dn : DisplayNode) : outcome bool :=
  if negb (is_floating (dnode dn))
  then is_child_of_tiled_container (dtree dn) (wid dn) else Done false.

Definition is_tabbed_or_stacked_win (dn : DisplayNode) : outcome bool :=
  if negb (is_floating (dnode dn))
  then is_child_of_tabbed_or_stacked_container (dtree dn) (wid dn) else Done false.

Definition is_floating_win (dn : DisplayNode) : outcome bool :=
  Done (is_floating (dnode dn)).

(** The predicate for the layout of the current window. *)
Definition same_layout_pred (cur_win : DisplayNode)
    : outcome (DisplayNode → outcome bool) :=
  if is_floating (dnode cur_win) then Done is_floating_win
  else
    tabbed ← is_child_of_tabbed_or_stacked_container (dtree cur_win) (wid cur_win);
    if tabbed : bool then Done is_tabbed_or_stacked_win
    else
      tiled ← is_child_of_tiled_container (dtree cur_win) (wid cur_win);
      Done (if tiled : bool then is_tiled_win else always_true).

Definition focus_window_of_same_layout_in_direction (dir : Direction)
    (consider_wins : ConsiderWindows) (fdata : FocusData) : io unit :=
  wins ← current_windows fdata;
  match focused_win wins with
  | Some cur_win =>
      pred ← lift (same_layout_pred cur_win);
      focus_window_in_direction dir consider_wins fdata pred
  | None => mret tt
  end.
End Commands.

(** ** Reference definitions *)

(** The matching windows in the order in which a direction goes through them. *)
Definition direction_order (wins : list DisplayNode) (dir : Direction) (fdata : FocusData)
    (p : DisplayNode → bool) : list DisplayNode :=
  let l := sort_by (recency_cmp fdata) (filter (λ w, p w = true) wins) in
  match dir with Forward => reverse l | Backward => l end.

(** The cyclic successor. *)
Definition next_in {A} (l : list A) (k : nat) : option A := l !! ((k + 1) mod length l).

(** Repeated invocations with the same windows and ticks, sway focusing each
    target. *)
Fixpoint turn (n : nat) (wins : list DisplayNode) (dir : Direction) (fdata : FocusData)
    (pred : DisplayNode → outcome bool) (f : Z) : outcome (list Z) :=
  match n with
  | O => Done []
  | S n =>
      t ← window_in_direction (set_focus f <$> wins) dir fdata pred;
      match t with
      | Some i => ts ← turn n wins dir fdata pred i; Done (i :: ts)
      | None => Done []
      end
  end.

(** ** Lemmas *)
#[export] Instance recency_cmp_total fdata : TotalCmp (recency_cmp fdata).
Proof.
  split.
  - intros x y. unfold recency_cmp, reverse_ord.
    by rewrite (Z.compare_antisym (last_focus_tick fdata (wid x))).
  - intros x y z. unfold cmp_le, recency_cmp. rewrite !reverse_compare_le. lia.
Qed.

(** Walking a cycle from its start passes the list's elements in order. *)
Lemma after_focused_walk fuel isf l1 x l2 l :
  length l1 < fuel →
  Forall (λ w, isf w = false) l1 → isf x = true → l ≠ [] →
  after_focused fuel isf {| cycled := l; current := l1 ++ x :: l2 |}
  = unwrap (head (l2 ++ l)).
Proof.
  intros Hf Hall Hx Hl. revert l1 Hf Hall. induction fuel as [|fuel IH]; intros l1 Hf Hall; [lia|].
  destruct l1 as [|y l1]; cbn [app after_focused].
  - cbn. rewrite Hx. destruct l2 as [|z l2]; [|done]. by destruct l.
  - apply Forall_cons in Hall as [Hy Hall]. cbn. rewrite Hy.
    apply IH; [cbn in Hf; lia|done].
Qed.

Lemma next_in_split {A} (l l1 l2 : list A) x :
  l = l1 ++ x :: l2 → next_in l (length l1) = head (l2 ++ l).
Proof.
  intros ->. unfold next_in. rewrite length_app. cbn [length].
  destruct l2 as [|y l2].
  - cbn [length]. rewrite Nat.Div0.mod_same. by destruct l1.
  - rewrite Nat.mod_small by (cbn; lia). rewrite lookup_app_r by lia.
    by replace (length l1 + 1 - length l1) with 1 by lia.
Qed.

Section Direction.
Context (wins : list DisplayNode) (dir : Direction) (fdata : FocusData).
Context (p : DisplayNode → bool) (pred : DisplayNode → outcome bool).
Context (Hpred : ∀ w, w ∈ wins → pred w = Done (p w)).

Lemma direction_order_Permutation :
  direction_order wins dir fdata p ≡ₚ filter (λ w, p w = true) wins.
Proof.
  unfold direction_order. destruct dir; [|rewrite reverse_Permutation];
    apply sort_by_Permutation.
Qed.

(** The window that counts as focused. *)
Definition starting_window (w : DisplayNode) : Prop :=
  let l := sort_by (recency_cmp fdata) (filter (λ w, p w = true) wins) in
  w ∈ l ∧ (focused (dnode w) = true
           ∨ Forall (λ v, focused (dnode v) = false) l ∧ head l = Some w).

(** The target is the cyclic successor of the first window that counts as
    focused. *)
Lemma window_in_direction_done k w :
  direction_order wins dir fdata p !! k = Some w →
  starting_window w →
  (∀ j v, j < k → direction_order wins dir fdata p !! j = Some v → focused (dnode v) = false) →
  NoDup (wid <$> wins) →
  ∃ t, window_in_direction wins dir fdata pred = Done (Some (wid t))
    ∧ next_in (direction_order wins dir fdata p) k = Some t.
Proof.
  intros Hk [Hw Hst] Hfirst Hids. unfold window_in_direction.
  rewrite (filter_o_done _ p) by done. rewrite bind_done.
  set (l := sort_by (recency_cmp fdata) (filter (λ w, p w = true) wins)) in *.
  set (d := direction_order wins dir fdata p) in *.
  assert (d = match dir with Forward => reverse l | Backward => l end) as Ed by done.
  assert (l ≠ []) as Hl by (intros E; rewrite E in Hw; by apply elem_of_nil in Hw).
  destruct l as [|x l'] eqn:El; [done|]. cbv beta iota zeta. rewrite <-El in *.
  match goal with |- context [after_focused _ ?f _] => set (isf := f) end.
  assert (NoDup (wid <$> d)) as Hnd.
  { unfold d. rewrite direction_order_Permutation.
    eapply sublist_NoDup; [exact Hids|]. apply fmap_sublist, sublist_filter. }
  assert (isf w = true ∧ ∀ j v, j < k → d !! j = Some v → isf v = false) as [Hi Hj].
  { unfold isf. destruct (existsb (λ w, focused (dnode w)) l) eqn:Ex; cbn [negb].
    - split; [|exact Hfirst]. destruct Hst as [?|[Hall _]]; [done|].
      apply existsb_elem_of in Ex as (v & Hv & Hf). rewrite Forall_forall in Hall.
      rewrite (Hall v Hv) in Hf. done.
    - assert (head l = Some w) as Hh.
      { destruct Hst as [Hf|[_ ?]]; [|done]. exfalso. apply not_true_iff_false in Ex.
        apply Ex. apply existsb_elem_of. eauto. }
      rewrite El in Hh. injection Hh as ->. split; [apply Z.eqb_refl|].
      intros j v Hlt Hd. apply Z.eqb_neq. intros E. assert (j = k); [|lia].
      apply (NoDup_lookup (wid <$> d) j k (wid v) Hnd); rewrite list_lookup_fmap.
      + by rewrite Hd.
      + rewrite Hk. cbn. by rewrite E. }
  rewrite <-Ed. apply list_elem_of_split_length in Hk as (l1 & l2 & Ed' & Hlen).
  assert (next_in d k = head (l2 ++ d)) as Hn.
  { rewrite Hlen. by apply (next_in_split _ _ _ w). }
  assert (length d = length l) as Hdl.
  { rewrite Ed. destruct dir; [done|]. apply length_reverse. }
  assert (after_focused (S (length l)) isf (cycle_of d) = unwrap (head (l2 ++ d))) as Ea.
  { unfold cycle_of. rewrite Ed' at 2. apply after_focused_walk.
    - rewrite <-Hdl, Ed', length_app. cbn. lia.
    - apply Forall_lookup. intros j v Hj'. apply (Hj j).
      + rewrite Hlen. by eapply lookup_lt_Some.
      + rewrite Ed'. by apply lookup_app_l_Some.
    - done.
    - rewrite Ed'. by destruct l1. }
  rewrite Ea, Hn. destruct (l2 ++ d) as [|t r] eqn:E.
  - exfalso. apply app_nil in E as [_ E]. rewrite E in Hdl. destruct l; done.
  - cbn. eauto.
Qed.
End Direction.

(** The loop ends whatever the list is. *)
Lemma after_focused_done isf l :
  (∃ x, x ∈ l ∧ isf x = true) → ∃ t, after_focused (S (length l)) isf (cycle_of l) = Done t.
Proof.
  intros (x & Hx & Hf). destruct (find_is_Some isf l x Hx Hf) as [y Hy].
  apply find_split in Hy as (l1 & l2 & El & Hl1 & Hfy).
  assert (l ≠ []) as Hne by (rewrite El; by destruct l1).
  pose proof (after_focused_walk (S (length l)) isf l1 y l2 l) as Hw. rewrite <-El in Hw.
  unfold cycle_of. rewrite Hw; try done.
  - destruct (l2 ++ l) as [|t r] eqn:E; [by apply app_nil in E as []|]. by exists t.
  - rewrite El, length_app. cbn. lia.
Qed.

Lemma window_in_direction_total wins dir fdata pred :
  (∀ w, w ∈ wins → ∃ b, pred w = Done b) →
  ∃ r, window_in_direction wins dir fdata pred = Done r.
Proof.
  intros [p Hp]%total_pred. unfold window_in_direction.
  rewrite (filter_o_done _ p) by done. rewrite bind_done.
  destruct (sort_by _ _) as [|x l]; [by eexists|]. cbv beta iota zeta.
  set (isf := if negb _ then _ else _).
  set (d := match dir with Forward => reverse (x :: l) | Backward => x :: l end).
  assert (length (x :: l) = length d) as -> by (unfold d; destruct dir; [done|by rewrite length_reverse]).
  destruct (after_focused_done isf d) as [t ->]; [|by eexists].
  assert (∀ y, y ∈ x :: l → y ∈ d) as Hin.
  { intros y Hy. unfold d. destruct dir; [done|by apply elem_of_reverse]. }
  unfold isf. destruct (existsb _ (x :: l)) eqn:Ex; cbn [negb].
  - apply existsb_elem_of in Ex as (y & Hy & Hf). eauto.
  - exists x. split; [apply Hin; left|apply Z.eqb_refl].
Qed.

Section Static.
Context (wins : list DisplayNode) (fdata : FocusData) (p : DisplayNode → bool).
Context (Hids : NoDup (wid <$> wins)).
Context (Hp : ∀ f w, p (set_focus f w) = p w).
Local Abbreviation pred := (λ w : DisplayNode, Done (p w)).

Lemma direction_order_set_focus f dir :
  direction_order (set_focus f <$> wins) dir fdata p
  = set_focus f <$> direction_order wins dir fdata p.
Proof.
  unfold direction_order. rewrite filter_fmap_list.
  rewrite (filter_ext_list _ (λ w, p w = true)) by (intros; by rewrite Hp).
  rewrite <-(sort_by_fmap (set_focus f) (recency_cmp fdata)).
  destruct dir; [done|]. by rewrite fmap_reverse.
Qed.

Lemma wid_set_focus f (l : list DisplayNode) : wid <$> (set_focus f <$> l) = wid <$> l.
Proof. rewrite <-list_fmap_compose. by apply list_fmap_ext. Qed.

(** The ids in the order of a direction. *)
Definition order_ids (dir : Direction) : list Z := wid <$> direction_order wins dir fdata p.

Lemma order_ids_NoDup dir : NoDup (order_ids dir).
Proof.
  unfold order_ids. rewrite direction_order_Permutation.
  eapply sublist_NoDup; [exact Hids|]. apply fmap_sublist, sublist_filter.
Qed.

(** One step: from [f] to what follows it, cyclically. *)
Lemma static_step dir f l1 l2 :
  order_ids dir = l1 ++ f :: l2 →
  window_in_direction (set_focus f <$> wins) dir fdata pred
  = Done (head (l2 ++ order_ids dir)).
Proof.
  intros E. pose proof (order_ids_NoDup dir) as Hnd. unfold order_ids in E.
  apply fmap_app_inv in E as (d1 & d2' & El1 & E & Ed).
  symmetry in E. apply fmap_cons_inv in E as (w & d2 & Ef & El2 & ->).
  set (d := direction_order wins dir fdata p) in *.
  destruct (window_in_direction_done (set_focus f <$> wins) dir fdata p pred (λ _ _, eq_refl)
    (length d1) (set_focus f w)) as (t & E1 & E2).
  - rewrite direction_order_set_focus. fold d. rewrite Ed, list_lookup_fmap.
    rewrite list_lookup_middle by done. done.
  - assert (set_focus f w ∈ direction_order (set_focus f <$> wins) dir fdata p) as Hin.
    { rewrite direction_order_set_focus. fold d. rewrite Ed. apply list_elem_of_fmap_2.
      apply elem_of_app. right. left. }
    split.
    + unfold direction_order in Hin. destruct dir; [done|]. by rewrite elem_of_reverse in Hin.
    + left. cbn. subst f. apply Z.eqb_refl.
  - intros j v Hj Hv. rewrite direction_order_set_focus in Hv. fold d in Hv.
    rewrite list_lookup_fmap in Hv. apply fmap_Some in Hv as (v' & Hv' & ->). cbn.
    apply Z.eqb_neq. intros Ewid. assert (j = length d1); [|lia].
    apply (NoDup_lookup (order_ids dir) j (length d1) f Hnd); unfold order_ids; fold d;
      rewrite list_lookup_fmap.
    + by rewrite Hv', <-Ewid.
    + rewrite Ed, list_lookup_middle by done. cbn. by rewrite Ef.
  - by rewrite wid_set_focus.
  - rewrite E1. assert (next_in (direction_order (set_focus f <$> wins) dir fdata p) (length d1)
      = head ((set_focus f <$> d2) ++ (set_focus f <$> d))) as E3.
    { rewrite direction_order_set_focus. fold d.
      rewrite <-(length_fmap (set_focus f) d1).
      apply (next_in_split _ _ _ (set_focus f w)). rewrite Ed at 1.
      by rewrite fmap_app, fmap_cons. }
    rewrite E3, <-fmap_app in E2. rewrite El2. unfold order_ids. fold d.
    rewrite <-fmap_app.
    destruct (d2 ++ d) as [|u r]; [done|]. cbn in E2 |- *. by simplify_eq.
Qed.

Lemma turn_pass dir m l1 f l2 l3 :
  order_ids dir = l1 ++ f :: l2 ++ l3 →
  turn (length l2 + m) wins dir fdata pred f
  = ts ← turn m wins dir fdata pred (default f (list.last l2)); Done (l2 ++ ts).
Proof.
  revert l1 f. induction l2 as [|g l2 IH]; intros l1 f E.
  - cbn. by destruct (turn m wins dir fdata pred f).
  - cbn [length Nat.add turn]. rewrite (static_step dir f l1 (g :: l2 ++ l3)) by done.
    rewrite bind_done. cbn [app head].
    rewrite (IH (l1 ++ [f]) g) by (by rewrite <-(assoc_L (++))).
    assert (default f (list.last (g :: l2)) = default g (list.last l2)) as ->.
    { destruct l2 as [|h l2]; [done|]. rewrite last_cons_cons.
      by destruct (list.last (h :: l2)) eqn:El; [|apply last_None in El]. }
    by destruct (turn m _ _ _ _ _).
Qed.

Lemma turn_full dir l1 f l2 :
  order_ids dir = l1 ++ f :: l2 →
  turn (length (order_ids dir)) wins dir fdata pred f = Done (l2 ++ l1 ++ [f]).
Proof.
  intros E.
  assert (length (order_ids dir) = length l2 + S (length l1)) as ->.
  { rewrite E, length_app. cbn. lia. }
  rewrite (turn_pass dir _ l1 f l2 []) by (by rewrite app_nil_r).
  set (g := default f (list.last l2)).
  assert (∃ l0, order_ids dir = l0 ++ g :: []) as [l0 E0].
  { destruct l2 as [|h l2 _] using rev_ind; [by exists l1|].
    exists (l1 ++ f :: l2). unfold g. rewrite last_snoc. cbn.
    by rewrite E, <-(assoc_L (++)). }
  cbn [turn]. rewrite (static_step dir g l0 []) by done. rewrite bind_done. cbn [app].
  destruct l1 as [|x l1].
  - rewrite E. cbn. done.
  - rewrite E. cbn [app head length].
    pose proof (turn_pass dir 0 [] x (l1 ++ [f]) l2) as Ht.
    rewrite <-(assoc_L (++)) in Ht. cbn [app] in Ht. specialize (Ht E).
    rewrite length_app, Nat.add_0_r in Ht. cbn [length] in Ht. rewrite Nat.add_1_r in Ht.
    rewrite Ht. cbn [turn]. rewrite bind_done, app_nil_r. done.
Qed.

Lemma order_ids_reverse : order_ids Forward = reverse (order_ids Backward).
Proof. unfold order_ids, direction_order. by rewrite fmap_reverse. Qed.

Definition opposite (dir : Direction) : Direction :=
  match dir with Forward => Backward | Backward => Forward end.

Lemma order_ids_opposite dir : order_ids (opposite dir) = reverse (order_ids dir).
Proof.
  destruct dir; unfold opposite; [apply order_ids_reverse|].
  by rewrite order_ids_reverse, reverse_involutive.
Qed.
End Static.

(** ** Claims *)

(** C23: Going to the next or previous window terminates.  When no window matches
    nothing is done; otherwise the target is the cyclic successor, in the order of
    the direction, of the first focused one of the matching windows, or of the most
    recently focused of them when none has the focus.  Forward goes from the least
    to the most recently focused window, backward the other way. *)
Theorem window_in_direction_successor wins dir fdata p :
  NoDup (wid <$> wins) →
  if decide (filter (λ w, p w = true) wins = [])
  then window_in_direction wins dir fdata (λ w, Done (p w)) = Done None
  else ∃ k w t,
    let order := direction_order wins dir fdata p in
    order !! k = Some w ∧ next_in order k = Some t
    ∧ window_in_direction wins dir fdata (λ w, Done (p w)) = Done (Some (wid t))
    ∧ (focused (dnode w) = true
         ∧ (∀ j v, j < k → order !! j = Some v → focused (dnode v) = false)
       ∨ (∀ v, v ∈ order → focused (dnode v) = false ∧ cmp_le (recency_cmp fdata) w v))
    ∧ order ≡ₚ filter (λ w, p w = true) wins
    ∧ StronglySorted (cmp_le (recency_cmp fdata))
        match dir with Forward => reverse order | Backward => order end.
Proof.
  intros Hids. case_decide as Hnil.
  { unfold window_in_direction.
    rewrite (filter_o_done (λ w, Done (p w)) p) by done.
    rewrite bind_done, Hnil. done. }
  set (l := sort_by (recency_cmp fdata) (filter (λ w, p w = true) wins)).
  set (order := direction_order wins dir fdata p).
  assert (∀ v, v ∈ order ↔ v ∈ l) as Hel.
  { intros v. unfold order, direction_order. destruct dir; [done|]. by rewrite elem_of_reverse. }
  assert (StronglySorted (cmp_le (recency_cmp fdata)) l) as Hsort by (apply sort_by_sorted; apply _).
  assert (∃ k w, order !! k = Some w ∧ starting_window wins fdata p w
    ∧ (focused (dnode w) = true
       ∨ (∀ v, v ∈ order → focused (dnode v) = false ∧ cmp_le (recency_cmp fdata) w v))
    ∧ ∀ j v, j < k → order !! j = Some v → focused (dnode v) = false) as (k & w & Hk & Hst & Hw & Hj).
  { destruct (find (λ v, focused (dnode v)) order) as [w|] eqn:Ef.
    - apply find_split in Ef as (l1 & l2 & E & Hall & Hf). exists (length l1), w.
      split_and!.
      + rewrite E. by apply list_lookup_middle.
      + split; [|by left]. fold l. apply Hel. rewrite E. apply elem_of_app. right. left.
      + by left.
      + intros j v Hlt. rewrite E, lookup_app_l by done. by rewrite Forall_lookup in Hall; eauto.
    - rewrite find_None in Ef. destruct l as [|w l'] eqn:El.
      + exfalso. apply Hnil. apply Permutation_nil_r. rewrite <-El. symmetry.
        apply sort_by_Permutation.
      + assert (w ∈ order) as Hin by (apply Hel; left).
        apply list_elem_of_lookup_1 in Hin as [k Hk]. exists k, w. split_and!; [done| | |].
        * split; [fold l; rewrite El; left|]. right. fold l. rewrite El. split; [|done].
          apply Forall_forall. intros v Hv. apply Ef, Hel. done.
        * right. intros v Hv. split; [by apply Ef|]. apply Hel in Hv.
          apply StronglySorted_inv in Hsort as [_ Hall]. rewrite Forall_forall in Hall.
          apply elem_of_cons in Hv as [->|Hv]; [|by apply Hall].
          unfold cmp_le. by rewrite cmp_refl by apply _.
        * intros j v _ Hv. apply Ef. by eapply list_elem_of_lookup_2. }
  destruct (window_in_direction_done wins dir fdata p (λ w, Done (p w)) (λ _ _, eq_refl) k w
    Hk Hst Hj Hids) as (t & E1 & E2).
  exists k, w, t. cbn. fold order. split_and!; try done.
  - destruct Hw as [?|?]; [by left|by right].
  - apply direction_order_Permutation.
  - unfold order, direction_order. destruct dir; [done|]. by rewrite reverse_involutive.
Qed.

(** C22: While the recency of the windows is frozen, pressing next (or previous) as
    often as there are matching windows visits every one of them once and ends
    where it began. *)
Theorem cycling_visits_all wins dir fdata p f :
  NoDup (wid <$> wins) → (∀ f w, p (set_focus f w) = p w) →
  f ∈ wid <$> filter (λ w, p w = true) wins →
  ∃ ts, turn (length (filter (λ w, p w = true) wins)) wins dir fdata (λ w, Done (p w)) f
        = Done (ts ++ [f])
    ∧ ts ++ [f] ≡ₚ wid <$> filter (λ w, p w = true) wins ∧ NoDup (ts ++ [f]).
Proof.
  intros Hids Hp Hf.
  assert (order_ids wins fdata p dir ≡ₚ wid <$> filter (λ w, p w = true) wins) as Hperm.
  { unfold order_ids. by rewrite direction_order_Permutation. }
  assert (f ∈ order_ids wins fdata p dir) as Hf' by (by rewrite Hperm).
  apply list_elem_of_split in Hf' as (l1 & l2 & E).
  exists (l2 ++ l1). rewrite <-(assoc_L (++)). split.
  - rewrite <-(turn_full wins fdata p Hids Hp dir l1 f l2) by done. f_equal.
    by rewrite <-(length_fmap wid (filter _ wins)), <-Hperm.
  - assert (l2 ++ l1 ++ [f] ≡ₚ order_ids wins fdata p dir) as Hp2.
    { rewrite E. by rewrite Permutation_app_comm, <-(assoc_L (++)). }
    split; [by rewrite Hp2|]. rewrite Hp2. by apply order_ids_NoDup.
Qed.

(** While the recency of the windows is frozen, previous undoes next and next
    undoes previous: from the target in one direction the other direction leads
    back. *)
Theorem next_prev_inverse wins dir fdata p f t :
  NoDup (wid <$> wins) → (∀ f w, p (set_focus f w) = p w) →
  f ∈ wid <$> filter (λ w, p w = true) wins →
  window_in_direction (set_focus f <$> wins) dir fdata (λ w, Done (p w)) = Done (Some t) →
  window_in_direction (set_focus t <$> wins) (opposite dir) fdata (λ w, Done (p w))
  = Done (Some f).
Proof.
  intros Hids Hp Hf Ht.
  assert (f ∈ order_ids wins fdata p dir) as Hf'.
  { unfold order_ids. by rewrite direction_order_Permutation. }
  apply list_elem_of_split in Hf' as (l1 & l2 & E).
  rewrite (static_step wins fdata p Hids Hp dir f l1 l2 E) in Ht. apply Done_inj in Ht.
  pose proof (order_ids_opposite wins fdata p dir) as Eo. rewrite E in Eo, Ht.
  destruct l2 as [|g l2].
  - cbn [app] in Ht. destruct l1 as [|x l1]; cbn in Ht; simplify_eq.
    + rewrite (static_step wins fdata p Hids Hp _ t [] []) by done. by rewrite Eo.
    + rewrite (static_step wins fdata p Hids Hp _ t (f :: reverse l1) []).
      * rewrite Eo, reverse_app. done.
      * rewrite Eo, reverse_app, (reverse_cons l1 t). done.
  - cbn in Ht. simplify_eq.
    rewrite (static_step wins fdata p Hids Hp _ t (reverse l2) (f :: reverse l1)); [done|].
    rewrite Eo, reverse_app, !reverse_cons, <-!(assoc_L (++)). done.
Qed.

(** ** Witnesses *)
Section Witnesses.
Import Samples.

Lemma sample_wins_ids : NoDup (wid <$> sample_wins).
Proof. decide_now. Qed.

Lemma window_in_direction_successor_witness :
  ∃ t, window_in_direction sample_wins Forward sample_fdata (λ _, Done true) = Done (Some t).
Proof.
  pose proof (window_in_direction_successor sample_wins Forward sample_fdata (λ _, true)
    sample_wins_ids) as H.
  rewrite decide_False in H by (vm_compute; discriminate).
  destruct H as (k & w & t & _ & _ & E & _). by exists (wid t).
Defined.

Lemma cycling_visits_all_witness :
  ∃ ts, turn 5 sample_wins Backward sample_fdata (λ _, Done true) 13 = Done (ts ++ [13%Z])
    ∧ ts ++ [13%Z] ≡ₚ [14; 21; 15; 11; 13]%Z ∧ NoDup (ts ++ [13%Z]).
Proof.
  apply (cycling_visits_all sample_wins Backward sample_fdata (λ _, true) 13).
  - apply sample_wins_ids.
  - reflexivity.
  - decide_now.
Defined.

Lemma next_prev_inverse_witness :
  window_in_direction (set_focus 14 <$> sample_wins) Backward sample_fdata (λ _, Done true)
  = Done (Some 13%Z).
Proof.
  apply (next_prev_inverse sample_wins Forward sample_fdata (λ _, true) 13 14).
  - apply sample_wins_ids.
  - reflexivity.
  - decide_now.
  - vm_compute. reflexivity.
Defined.
End Witnesses.
