(* ===== verification/Handlers.v ===== *)
(** * Commands that ask the user (swayr/src/cmds.rs)

    The menu-driven commands: switch, steal, quit, move and swap, the handling of
    input that matches no choice, the commands on the current workspace's layout,
    and the menus of sway and output commands. *)

From S2P Require Import Prelude RString Regex Fmt Config Ipc Focus Sway.
From S2P Require Import Cfg Util Layout Tree Display Criteria Switch.
From S2P Require Samples.

Definition DIGIT_AND_NAME : string := "^(\d):(.*)".
Definition SPECIAL_WORKSPACE : string := "^#*w:(.*)".
Definition SPECIAL_SWAY : string := "^#*s:(.*)".

(** ** Input that is no choice *)
Section Input.
Context `{Env} `{RegexCrate}.

Definition create_workspace (ws_name : string) : io unit :=
  rx ← lift (rx_unwrap DIGIT_AND_NAME);
  if is_match rx ws_name
  then run_sway_command ["workspace"; "number"; ws_name]
  else run_sway_command ["workspace"; ws_name].

Definition chop_shortcut (pattern input : string) : outcome string :=
  rx ← rx_unwrap pattern;
  match captures rx input with
  | Some c => group c 1
  | None => Done input
  end.
Definition chop_workspace_shortcut : string → outcome string := chop_shortcut SPECIAL_WORKSPACE.
Definition chop_sway_shortcut : string → outcome string := chop_shortcut SPECIAL_SWAY.

Definition handle_non_matching_input (input : string) : io unit :=
  if bool_decide (input = EmptyString) then mret tt
  else
    rx ← lift (rx_unwrap SPECIAL_SWAY);
    match captures rx input with
    | Some c =>
        g ← lift (group c 1);
        run_sway_command (split_ascii_whitespace g)
    | None =>
        ws ← lift (chop_workspace_shortcut input);
        create_workspace ws
    end.

(** ** Moving *)
Definition move_focused_to_workspace_1 (ws_name : string) : io unit :=
  rx ← lift (rx_unwrap DIGIT_AND_NAME);
  if is_match rx ws_name
  then run_sway_command ["move"; "container"; "to"; "workspace"; "number"; ws_name]
  else run_sway_command ["move"; "container"; "to"; "workspace"; ws_name].

Definition move_focused_to_container_or_window (i : Z) : io unit :=
  run_sway_command ["[con_id=" +:+ dq +:+ int_to_string i +:+ dq +:+ "]";
                    "mark"; "--add"; "__SWAYR_MOVE_TARGET__"] ;;
  run_sway_command ["move"; "to"; "mark"; "__SWAYR_MOVE_TARGET__"] ;;
  run_sway_command ["unmark"; "__SWAYR_MOVE_TARGET__"].

(** Failures are logged. *)
Definition kill_process_by_pid (pid : option Z) : io unit :=
  match pid with
  | Some pid => spawn "kill" ["-9"; int_to_string pid] EmptyString ;; mret tt
  | None => mret tt
  end.
End Input.

(** ** What is done with a choice *)
Section Choices.
Context `{Env} `{RegexCrate}.

Definition focus_choice (n : node) : io unit :=
  t ← lift (get_type n);
  match t with
  | Type_Output =>
      if is_scratchpad n then mret tt
      else run_sway_command ["focus output"; get_name n]
  | Type_Workspace =>
      if is_scratchpad n then mret tt
      else run_sway_command ["workspace"; get_name n]
  | Type_Window | Type_Container => focus_window_by_id (id n)
  | Type_Root => mret tt
  end.

Definition steal_choice (n : node) : io unit :=
  t ← lift (get_type n);
  match t with
  | Type_Window | Type_Container => steal_window_by_id (id n)
  | _ => mret tt
  end.

Definition quit_choice (kill : bool) (n : node) : io unit :=
  t ← lift (get_type n);
  match t with
  | Type_Workspace | Type_Container =>
      l ← lift (iter n);
      for_each (λ win,
        t ← lift (get_type win);
        if decide (t = Type_Window) then quit_window_by_id (id win) else mret tt) l
  | Type_Window =>
      if kill then kill_process_by_pid (pid n) else quit_window_by_id (id n)
  | _ => mret tt
  end.

Definition move_choice (n : node) : io unit :=
  t ← lift (get_type n);
  match t with
  | Type_Output =>
      if is_scratchpad n then run_sway_command_1 "move container to scratchpad"
      else run_sway_command ["move container to output"; get_name n]
  | Type_Workspace =>
      if is_scratchpad n then run_sway_command_1 "move container to scratchpad"
      else move_focused_to_workspace_1 (get_name n)
  | Type_Container | Type_Window => move_focused_to_container_or_window (id n)
  | Type_Root => mret tt
  end.

Definition swap_choice (n : node) : io unit :=
  t ← lift (get_type n);
  match t with
  | Type_Workspace | Type_Container | Type_Window =>
      run_sway_command ["swap"; "container"; "with"; "con_id"; int_to_string (id n)]
  | _ => mret tt
  end.

Definition move_input (input : string) : io unit :=
  ws_name ← lift (chop_workspace_shortcut input);
  move_focused_to_workspace_1 ws_name.
End Choices.

(** ** The commands *)
Section Commands.
Context `{Env} `{RegexCrate} `{Floats} `{RtFormatCrate} `{Unicode} `{ConfigToml}.

Definition select_and_focus (prompt : string) (choices : list DisplayNode) : io unit :=
  r ← select_from_menu prompt choices;
  match r with
  | Ok tn => focus_choice (dnode tn)
  | Err non_matching_input => handle_non_matching_input non_matching_input
  end.

Definition select_and_steal (prompt : string) (choices : list DisplayNode) : io unit :=
  r ← select_from_menu prompt choices;
  match r with Ok tn => steal_choice (dnode tn) | Err _ => mret tt end.

Definition select_and_quit (prompt : string) (choices : list DisplayNode) (kill : bool)
    : io unit :=
  r ← select_from_menu prompt choices;
  match r with Ok tn => quit_choice kill (dnode tn) | Err _ => mret tt end.

Definition select_and_move_focused_to (prompt : string) (choices : list DisplayNode)
    : io unit :=
  r ← select_from_menu prompt choices;
  match r with Ok tn => move_choice (dnode tn) | Err input => move_input input end.

(** The tree, with or without the scratchpad, and a list of its nodes. *)
Definition with_nodes (include_scratchpad : bool)
    (get : Tree → outcome (list DisplayNode)) (k : list DisplayNode → io unit) : io unit :=
  root ← get_root_node include_scratchpad;
  l ← lift (get (get_tree root));
  k l.

Definition switch_window (fdata : FocusData) : io unit :=
  with_nodes true (λ t, get_windows t fdata) (select_and_focus "Select window").

Definition steal_window (fdata : FocusData) : io unit :=
  with_nodes true (λ t, get_windows t fdata) (select_and_steal "Select window").

Definition steal_window_or_container (fdata : FocusData) : io unit :=
  with_nodes true (λ t, get_workspaces_containers_and_windows t fdata)
    (select_and_steal "Select window or container").

Definition switch_workspace (fdata : FocusData) : io unit :=
  with_nodes false (λ t, get_workspaces t fdata) (select_and_focus "Select workspace").

Definition switch_output : io unit :=
  with_nodes false get_outputs (select_and_focus "Select output").

Definition switch_workspace_or_window (fdata : FocusData) : io unit :=
  with_nodes true (λ t, get_workspaces_and_windows t fdata)
    (select_and_focus "Select workspace or window").

Definition switch_workspace_container_or_window (fdata : FocusData) : io unit :=
  with_nodes true (λ t, get_workspaces_containers_and_windows t fdata)
    (select_and_focus "Select workspace, container or window").

Definition switch_to (fdata : FocusData) : io unit :=
  with_nodes true (λ t, get_outputs_workspaces_containers_and_windows t fdata)
    (select_and_focus "Select output, workspace, container or window").

Definition quit_window (fdata : FocusData) (kill : bool) : io unit :=
  with_nodes true (λ t, get_windows t fdata) (λ l, select_and_quit "Quit window" l kill).

Definition quit_workspace_or_window (fdata : FocusData) : io unit :=
  with_nodes true (λ t, get_workspaces_and_windows t fdata)
    (λ l, select_and_quit "Quit workspace or window" l false).

Definition quit_workspace_container_or_window (fdata : FocusData) : io unit :=
  with_nodes true (λ t, get_workspaces_containers_and_windows t fdata)
    (λ l, select_and_quit "Quit workspace, container or window" l false).

Definition move_focused_to_workspace (fdata : FocusData) : io unit :=
  with_nodes true (λ t, get_workspaces t fdata)
    (select_and_move_focused_to "Move focused container to workspace").

Definition move_focused_to (fdata : FocusData) : io unit :=
  with_nodes true (λ t, get_outputs_workspaces_containers_and_windows t fdata)
    (select_and_move_focused_to "Move focused container to workspace or container").

Definition swap_focused_with (fdata : FocusData) : io unit :=
  with_nodes true (λ t, get_workspaces_containers_and_windows t fdata) (λ l,
    r ← select_from_menu "Swap focused with" l;
    match r with Ok tn => swap_choice (dnode tn) | Err input => move_input input end).
End Commands.

(** ** The layout of the current workspace *)
Inductive ConsiderFloating := IncludeFloating | ExcludeFloating.

#[export] Instance ConsiderFloating_eq_dec : EqDecision ConsiderFloating.
Proof. solve_decision. Defined.

Section Workspace.
Context `{Env}.

(** Puts one window back. *)
Definition put_back (win : node) : io (result unit string) :=
  _ ←? (if is_floating win
        then con_run_command (con_cmd (id win) "floating disable") else mret (Ok tt));
  sleep 25 ;;
  con_run_command (con_cmd (id win) "move to workspace current").

(** The loop of [tile_current_workspace]: with [shuffle] a random one of the
    windows placed so far is focused after each. *)
Fixpoint place_windows (shuffle : bool) (wins placed_wins : list node)
    : io (result unit string) :=
  match wins with
  | [] => mret (Ok tt)
  | win :: wins =>
      _ ←? put_back win;
      let placed_wins := placed_wins ++ [win] in
      if shuffle then
        sleep 25 ;;
        win ← ask (λ tr, env_choose tr placed_wins);
        _ ←? match win with
             | Some win => con_run_command (con_cmd (id win) "focus")
             | None => mret (Ok tt)
             end;
        place_windows shuffle wins placed_wins
      else place_windows shuffle wins placed_wins
  end.

Definition insert_tiled (shuffle : bool) (wins : list node) : io (result unit string) :=
  _ ←? con_run_command "focus parent";
  _ ←? con_run_command "layout splith";
  wins ← (if shuffle then ask (λ tr, env_shuffle tr wins) else mret (reverse wins));
  place_windows shuffle wins [].

Definition insert_tabbed (wins : list node) : io (result unit string) :=
  _ ←? con_run_command "focus parent";
  _ ←? con_run_command "layout tabbed";
  try_for_each put_back (reverse wins).

(** Errors are logged. *)
Definition tile_current_workspace (floating : ConsiderFloating) (shuffle : bool) : io unit :=
  relayout_current_workspace (bool_decide (floating = IncludeFloating)) (insert_tiled shuffle) ;;
  mret tt.

Definition tab_current_workspace (floating : ConsiderFloating) : io unit :=
  relayout_current_workspace (bool_decide (floating = IncludeFloating)) insert_tabbed ;;
  mret tt.

Definition toggle_tab_tile_current_workspace (floating : ConsiderFloating) : io unit :=
  tree ← get_root_node false;
  workspaces ← lift (nodes_of_type Type_Workspace tree);
  cur_ws ← lift (find_o is_current workspaces);
  cur_ws ← lift (unwrap cur_ws);
  if decide (Ipc.layout cur_ws = Tabbed)
  then tile_current_workspace floating true
  else tab_current_workspace floating.
End Workspace.

(** ** Menus of commands *)
Record SwaymsgCmd := { cmd : string }.

#[export] Instance SwaymsgCmd_eq_dec : EqDecision SwaymsgCmd.
Proof. solve_decision. Defined.

Definition prefixed (prefix : string) (l : list string) : list string :=
  (λ x, prefix +:+ " " +:+ x) <$> l.

(** The commands before they are sorted. *)
Definition swaymsg_commands : list string :=
  prefixed "border" ["none"; "normal"; "csd"; "pixel"]
  ++ ["exit"; "floating toggle"; "focus child"; "focus parent"; "focus tiling";
      "focus floating"; "focus mode_toggle"; "fullscreen toggle"; "reload";
      "sticky toggle"; "kill"; "tiling_drag toggle"]
  ++ prefixed "inhibit_idle" ["focus"; "fullscreen"; "open"; "none"; "visible"]
  ++ prefixed "layout" ["default"; "splith"; "splitv"; "stacking"; "tiling"]
  ++ prefixed "shortcuts_inhibitor" ["enable"; "disable"]
  ++ prefixed "focus_follows_mouse" ["yes"; "no"; "always"]
  ++ prefixed "focus_on_window_activation" ["smart"; "urgent"; "focus"; "none"]
  ++ prefixed "focus_wrapping" ["yes"; "no"; "force"; "workspace"]
  ++ prefixed "hide_edge_borders"
       ["none"; "vertical"; "horizontal"; "both"; "smart"; "smart_no_gaps"]
  ++ prefixed "smart_borders" ["on"; "no_gaps"; "off"]
  ++ prefixed "smart_gaps" ["on"; "off"]
  ++ prefixed "mouse_warping" ["output"; "container"; "none"]
  ++ prefixed "popup_during_fullscreen" ["smart"; "ignore"; "leave_fullscreen"]
  ++ (x ← ["yes"; "no"]; ["show_marks " +:+ x; "workspace_auto_back_and_forth " +:+ x])
  ++ prefixed "title_align" ["left"; "center"; "right"]
  ++ prefixed "urgent" ["enable"; "disable"; "allow"; "deny"].

Definition get_swaymsg_commands : list SwaymsgCmd :=
  (λ c, {| cmd := c |}) <$> sort_by String.compare swaymsg_commands.

(** The commands of one output. *)
Definition commands_of_output (o : Output) : list string :=
  let name := "output " +:+ output_name o in
  [name +:+ " toggle"]
  ++ ((λ m, name +:+ " mode " +:+ int_to_string (mode_width m) +:+ "x"
            +:+ int_to_string (mode_height m)) <$> output_modes o)
  ++ (x ← ["on"; "off"]; [name +:+ " dpms " +:+ x; name +:+ " adaptive_sync " +:+ x])
  ++ (t ← ["normal"; "90"; "180"; "270"; "360"; "flipped"; "flipped-90"; "flipped-180";
           "flipped-270"];
      (λ d, name +:+ " transform " +:+ t +:+ " " +:+ d) <$> ["clockwise"; "anticlockwise"])
  ++ ((λ p, name +:+ " subpixel " +:+ p) <$> ["rgb"; "bgr"; "vrbg"; "vbgr"; "none"])
  ++ ((λ p, name +:+ " scale_filter " +:+ p) <$> ["linear"; "nearest"; "smart"]).

Definition output_commands (outputs : list Output) : list SwaymsgCmd :=
  (λ c, {| cmd := c |}) <$> sort_by String.compare (outputs ≫= commands_of_output).

Section Menus.
Context `{Env} `{RegexCrate} `{ConfigToml}.

#[export] Instance SwaymsgCmd_display : DisplayFormat SwaymsgCmd :=
  {| format_for_display c _ := mret (cmd c); Util.get_indent_level _ := Done 0 |}.

Definition exec_swaymsg_command : io unit :=
  r ← select_from_menu "Execute swaymsg command" get_swaymsg_commands;
  match r with
  | Ok c => run_sway_command_1 (cmd c)
  | Err c =>
      if bool_decide (c = EmptyString) then mret tt
      else c ← lift (chop_sway_shortcut c); run_sway_command_1 c
  end.

Definition get_outputs : io (list Output) :=
  con ← connection_new;
  match con with
  | Ok _ =>
      r ← con_get_outputs;
      match r with Ok l => mret l | Err e => panic ("Got no outputs: " +:+ e) end
  | Err err => panic err
  end.

(** The loop ends when the menu answers with something else than a choice; the
    fuel bounds the number of its turns. *)
Fixpoint configure_outputs_loop (fuel : nat) (cmds : list SwaymsgCmd) : io unit :=
  match fuel with
  | O => lift NoReturn
  | S fuel =>
      r ← select_from_menu "Output command" cmds;
      match r with
      | Ok c => run_sway_command_1 (cmd c) ;; configure_outputs_loop fuel cmds
      | Err _ => mret tt
      end
  end.

Definition configure_outputs (fuel : nat) : io unit :=
  outputs ← get_outputs;
  configure_outputs_loop fuel (output_commands outputs).
End Menus.

(** ** Reference definitions *)
Definition back_cmds (win : node) : list string :=
  (if is_floating win then [con_cmd (id win) "floating disable"] else [])
  ++ [con_cmd (id win) "move to workspace current"].

Definition focus_cmd (win : node) : string := con_cmd (id win) "focus".

(** The rand crate's [shuffle] permutes and its [choose] takes an element. *)
Class RandLaws `{Env} : Prop := {
  shuffle_perm : ∀ tr l, env_shuffle tr l ≡ₚ l;
  choose_elem : ∀ tr l, l ≠ [] → ∃ x, env_choose tr l = Some x ∧ x ∈ l
}.

(** ** Lemmas about re-layout *)
Lemma commands_snoc tr c : commands (tr ++ [RunCommand c]) = commands tr ++ [c].
Proof. by rewrite commands_app. Qed.

Lemma commands_RunCommands l : commands (RunCommand <$> l) = l.
Proof. unfold commands. induction l; cbn; congruence. Qed.

Lemma list_bind_concat {A B} (f : A → list B) (l : list A) : l ≫= f = concat (f <$> l).
Proof. induction l as [|x l IH]; [done|]. by rewrite bind_cons, IH. Qed.

Lemma Forall2_fmap_diag {A B} (P : A → B → Prop) (f : A → B) (l : list A) :
  (∀ x, P x (f x)) → Forall2 P l (f <$> l).
Proof. intros Hf. induction l; constructor; auto. Qed.

Section RelayoutCommands.
Context `{Env} (Hc : commands_answered).

(** [m] succeeds from every trace and sends the commands [cs]. *)
Definition sends {E} (m : io (result unit E)) (P : list string → Prop) : Prop :=
  ∀ tr, ∃ tr', m tr = (tr', Done (Ok tt)) ∧ ∃ cs, commands tr' = commands tr ++ cs ∧ P cs.

Lemma put_back_sends win : sends (put_back win) (λ cs, cs = back_cmds win).
Proof.
  intros tr. unfold put_back, back_cmds, sleep.
  destruct (is_floating win).
  - rewrite run_command_ok by apply Hc. eexists. split.
    + rewrite (io_bind_done _ _ _ _ _ eq_refl), con_run_command_eq. by rewrite Hc.
    + eexists. split; [|done]. rewrite !commands_app. cbn. by rewrite <-!(assoc_L (++)).
  - rewrite (bind_ok_ok _ _ tr tr tt) by done. eexists. split.
    + rewrite (io_bind_done _ _ _ _ _ eq_refl), con_run_command_eq. by rewrite Hc.
    + eexists. split; [|done]. rewrite !commands_app. cbn. by rewrite app_nil_r.
Qed.

Lemma try_put_back_sends l : sends (try_for_each put_back l) (λ cs, cs = l ≫= back_cmds).
Proof.
  induction l as [|w l IH]; intros tr.
  - exists tr. split; [done|]. exists []. by rewrite app_nil_r.
  - destruct (put_back_sends w tr) as (tr1 & E1 & ? & C1 & ->).
    destruct (IH tr1) as (tr2 & E2 & ? & C2 & ->).
    exists tr2. cbn [try_for_each]. rewrite (bind_ok_ok _ _ _ _ _ E1). split; [done|].
    eexists. split; [|done]. by rewrite C2, C1, <-(assoc_L (++)).
Qed.

Lemma place_windows_sends l placed :
  sends (place_windows false l placed) (λ cs, cs = l ≫= back_cmds).
Proof.
  revert placed. induction l as [|w l IH]; intros placed tr.
  - exists tr. split; [done|]. exists []. by rewrite app_nil_r.
  - destruct (put_back_sends w tr) as (tr1 & E1 & ? & C1 & ->).
    destruct (IH (placed ++ [w]) tr1) as (tr2 & E2 & ? & C2 & ->).
    exists tr2. cbn [place_windows]. rewrite (bind_ok_ok _ _ _ _ _ E1). split; [done|].
    eexists. split; [|done]. by rewrite C2, C1, <-(assoc_L (++)).
Qed.

(** Shuffled: after each window a window placed so far gets the focus. *)
Lemma place_windows_shuffled_sends `{!RandLaws} l placed :
  sends (place_windows true l placed) (λ cs,
    ∃ gs, cs = concat gs
      ∧ Forall2 (λ w g, ∃ v, v ∈ placed ++ l ∧ g = back_cmds w ++ [focus_cmd v]) l gs).
Proof.
  revert placed. induction l as [|w l IH]; intros placed tr.
  - exists tr. split; [done|]. exists []. split; [by rewrite app_nil_r|]. exists [].
    split; [done|constructor].
  - destruct (put_back_sends w tr) as (tr1 & E1 & ? & C1 & ->).
    destruct (choose_elem (tr1 ++ [Sleep 25]) (placed ++ [w])) as (v & Ev & Hv);
      [by destruct placed|].
    set (tr2 := (tr1 ++ [Sleep 25]) ++ [RunCommand (focus_cmd v)]).
    destruct (IH (placed ++ [w]) tr2) as (tr3 & E3 & ? & C3 & gs & -> & Hgs).
    exists tr3. cbn [place_windows]. rewrite (bind_ok_ok _ _ _ _ _ E1).
    unfold sleep. rewrite (io_bind_done _ _ _ _ _ eq_refl).
    rewrite (io_bind_done (ask _) _ _ _ _ eq_refl), Ev.
    rewrite run_command_ok by apply Hc. split; [exact E3|].
    eexists. rewrite C3. unfold tr2. rewrite !commands_app, C1. cbn.
    rewrite <-!(assoc_L (++)). split; [done|].
    exists ((back_cmds w ++ [focus_cmd v]) :: gs). cbn. rewrite <-!(assoc_L (++)).
    split; [done|]. constructor.
    + exists v. split; [|done]. rewrite elem_of_app in Hv |- *. rewrite elem_of_cons.
      destruct Hv as [?|Hv%list_elem_of_singleton]; auto.
    + eapply Forall2_impl; [exact Hgs|]. intros x g (u & Hu & ->). exists u.
      by rewrite <-(assoc_L (++)) in Hu.
Qed.

Lemma insert_with_sends layout_cmd (rest : list node → io (result unit string))
    (order : trace → list node → list node) P wins :
  (∀ tr, sends (rest (order tr wins)) (P (order tr wins))) →
  sends (_ ←? con_run_command "focus parent";
         _ ←? con_run_command layout_cmd;
         ws ← ask (λ tr, order tr wins); rest ws)
    (λ cs, ∃ tr cs', cs = "focus parent" :: layout_cmd :: cs' ∧ P (order tr wins) cs').
Proof.
  intros Hr tr. rewrite !run_command_ok by apply Hc.
  set (tr1 := (tr ++ _) ++ _). rewrite (io_bind_done (ask _) _ _ _ _ eq_refl).
  destruct (Hr tr1 tr1) as (tr2 & E & cs & C & HP). exists tr2. split; [done|].
  exists ("focus parent" :: layout_cmd :: cs). split; [|eauto].
  rewrite C. unfold tr1. rewrite !commands_snoc, <-!(assoc_L (++)). done.
Qed.

Lemma insert_tiled_sends `{!RandLaws} shuffle wins :
  sends (insert_tiled shuffle wins) (λ cs, ∃ wins' gs,
    wins' ≡ₚ wins ∧ (shuffle = false → wins' = reverse wins)
    ∧ cs = "focus parent" :: "layout splith" :: concat gs
    ∧ Forall2 (λ w g, ∃ fs, g = back_cmds w ++ (focus_cmd <$> fs)
                 ∧ (∀ v, v ∈ fs → v ∈ wins) ∧ (shuffle = false → fs = [])) wins' gs).
Proof.
  intros tr.
  set (order := λ tr l, if shuffle then env_shuffle tr l else reverse l : list node).
  destruct (insert_with_sends "layout splith" (λ ws, place_windows shuffle ws []) order
    (λ wins' cs, ∃ gs, cs = concat gs
       ∧ Forall2 (λ w g, ∃ fs, g = back_cmds w ++ (focus_cmd <$> fs)
                    ∧ (∀ v, v ∈ fs → v ∈ wins') ∧ (shuffle = false → fs = [])) wins' gs)
    wins) with (tr := tr) as (tr2 & E & cs & C & tr' & cs' & -> & gs & -> & Hgs).
  - intros tr0. destruct shuffle; intros tr1.
    + destruct (place_windows_shuffled_sends (order tr0 wins) [] tr1)
        as (tr2 & E & cs & C & gs & -> & Hgs).
      exists tr2. split; [done|]. eexists. split; [done|]. exists gs. split; [done|].
      eapply Forall2_impl; [exact Hgs|]. intros w g (v & Hv & ->).
      exists [v]. split_and!; [done| |done]. intros u ->%list_elem_of_singleton. done.
    + destruct (place_windows_sends (order tr0 wins) [] tr1) as (tr2 & E & cs & C & ->).
      exists tr2. split; [done|]. eexists. split; [done|].
      exists (back_cmds <$> order tr0 wins). split; [apply list_bind_concat|].
      apply Forall2_fmap_diag. intros w. exists [].
      rewrite app_nil_r. split_and!; [done| |done]. intros v Hv. by apply elem_of_nil in Hv.
  - exists tr2. split.
    { rewrite <-E. unfold insert_tiled. by destruct shuffle. }
    eexists. split; [exact C|]. exists (order tr' wins), gs.
    assert (order tr' wins ≡ₚ wins) as Hperm.
    { unfold order. destruct shuffle; [apply shuffle_perm|apply reverse_Permutation]. }
    split_and!; [done|by intros ->|done|].
    eapply Forall2_impl; [exact Hgs|]. intros w g (fs & -> & Hfs & Hs). exists fs.
    split_and!; [done| |done]. intros v Hv. rewrite <-Hperm. auto.
Qed.
End RelayoutCommands.

Section TileFacts.
Context `{Env} (Hc : commands_answered) (root ws : node) (tr : trace).
Context (Hup : sway_up tr).
Context (Htree : env_get_tree (tr ++ root_effects tr) = Ok root).
Context (Hcon : env_connect (relayout_start tr) = Ok tt).
Context (Hty : typable (drop_scratchpads root)).
Context (Hcur : current_workspace_of (drop_scratchpads root) = Some ws).

Lemma commands_relayout_start : commands (relayout_start tr) = commands tr.
Proof.
  unfold relayout_start, root_effects. rewrite !commands_app.
  destruct (decide _); cbn; by rewrite app_nil_r.
Qed.

Lemma commands_moves l : commands (RunCommand ∘ move_cmd <$> l) = move_cmd <$> l.
Proof. by rewrite list_fmap_compose, commands_RunCommands. Qed.

(** Re-layout with an insertion that sends [P]. *)
Lemma relayout_commands incl fn P :
  sends (fn (windows_to_move incl (preorder ws))) P →
  ∃ tr' cs, relayout_current_workspace incl fn tr = (tr', Done (Ok tt))
    ∧ commands tr' = commands tr ++ (move_cmd <$> windows_to_move incl (preorder ws)) ++ cs
        ++ from_option (λ w, [focus_cmd w]) [] (focused_window (preorder ws))
    ∧ P cs.
Proof.
  intros Hs.
  destruct (Hs (relayout_start tr
    ++ (RunCommand ∘ move_cmd <$> windows_to_move incl (preorder ws)))) as (tr1 & E & cs & C & HP).
  eexists _, cs. split; [by apply (relayout_done incl fn root ws tr tr1)|]. split; [|done].
  rewrite !commands_app, C, commands_app, commands_relayout_start, commands_moves.
  destruct (focused_window (preorder ws)); cbn; by rewrite <-!(assoc_L (++)).
Qed.

Lemma insert_tabbed_sends wins :
  sends (insert_tabbed wins)
    (λ cs, cs = "focus parent" :: "layout tabbed" :: (reverse wins ≫= back_cmds)).
Proof.
  intros tr0. unfold insert_tabbed. rewrite !run_command_ok by apply Hc.
  set (tr1 := (tr0 ++ _) ++ _).
  destruct (try_put_back_sends Hc (reverse wins) tr1) as (tr2 & E & cs & C & ->).
  exists tr2. split; [done|]. eexists. split; [|done].
  rewrite C. unfold tr1. rewrite !commands_snoc, <-!(assoc_L (++)). done.
Qed.
End TileFacts.

(** ** Claims *)

(** C9: While the connection to sway holds, whether or not sway accepts the commands,
    tiling (with or without shuffling) and tabbing move the windows of the current
    workspace away, each once, set the layout and move every one of them back, each
    once: in reverse order, or in some order when shuffling, where additionally only
    windows of that workspace are focused.  A floating window is made tiling just before
    it is moved back, and in the end the window that had the focus gets it again.  No
    other command is sent. *)
Theorem relayouts_return_every_window `{Env} `{!RandLaws} floating shuffle root ws tr :
  commands_answered → sway_up tr →
  env_get_tree (tr ++ root_effects tr) = Ok root →
  env_connect (relayout_start tr) = Ok tt →
  typable (drop_scratchpads root) →
  current_workspace_of (drop_scratchpads root) = Some ws →
  let wins := windows_to_move (bool_decide (floating = IncludeFloating)) (preorder ws) in
  let focus_again := from_option (λ w, [focus_cmd w]) [] (focused_window (preorder ws)) in
  (∃ tr' wins' gs,
    tile_current_workspace floating shuffle tr = (tr', Done tt)
    ∧ commands tr' = commands tr ++ (move_cmd <$> wins)
        ++ ("focus parent" :: "layout splith" :: concat gs) ++ focus_again
    ∧ wins' ≡ₚ wins ∧ (shuffle = false → wins' = reverse wins)
    ∧ Forall2 (λ w g, ∃ fs, g = back_cmds w ++ (focus_cmd <$> fs)
                 ∧ (∀ v, v ∈ fs → v ∈ wins) ∧ (shuffle = false → fs = [])) wins' gs)
  ∧ (∃ tr',
      tab_current_workspace floating tr = (tr', Done tt)
      ∧ commands tr' = commands tr ++ (move_cmd <$> wins)
          ++ ("focus parent" :: "layout tabbed" :: (reverse wins ≫= back_cmds)) ++ focus_again).
Proof.
  intros Hc Hup Htree Hcon Hty Hcur wins focus_again. split.
  - destruct (relayout_commands Hc root ws tr Hup Htree Hcon Hty Hcur _ _ _
      (insert_tiled_sends Hc shuffle wins))
      as (tr' & cs & E & C & wins' & gs & Hperm & Hrev & -> & Hgs).
    exists tr', wins', gs. split_and!; try done.
    unfold tile_current_workspace. by rewrite (io_bind_done _ _ _ _ _ E).
  - destruct (relayout_commands Hc root ws tr Hup Htree Hcon Hty Hcur _ _ _
      (insert_tabbed_sends Hc wins)) as (tr' & cs & E & C & ->).
    exists tr'. split; [|done].
    unfold tab_current_workspace. by rewrite (io_bind_done _ _ _ _ _ E).
Qed.

(** C31: Quitting a chosen workspace or container asks exactly the windows below it
    to quit, each once, in the order of the traversal; a window is asked itself or,
    with [kill], its process is killed, and nothing else is ever done. *)
Theorem quit_choice_windows `{Env} kill n tr :
  (∀ tr, env_connect tr = Ok tt) → typable n →
  quit_choice kill n tr
  = (tr ++ match type_of n with
           | Type_Workspace | Type_Container =>
               filter (λ w, is_type Type_Window w = true) (preorder n) ≫= λ w,
                 [Connect; RunCommand (con_id_sel (id w) +:+ " " +:+ "kill")]
           | Type_Window =>
               if kill
               then from_option (λ p, [Spawn "kill" ["-9"; int_to_string p] EmptyString]) [] (pid n)
               else [Connect; RunCommand (con_id_sel (id n) +:+ " " +:+ "kill")]
           | _ => []
           end, Done tt).
Proof.
  intros Hcon Ht. unfold quit_choice.
  assert (typable1 n) as Hn by (apply (typable_elem n); eauto with swayr).
  assert (∀ i tr, quit_window_by_id i tr
    = (tr ++ [Connect; RunCommand (con_id_sel i +:+ " " +:+ "kill")], Done tt)) as Hquit.
  { intros i tr0. unfold quit_window_by_id, run_sway_command, run_sway_command_1.
    rewrite (io_bind_done _ _ _ _ _ (connection_new_eq _)), Hcon.
    rewrite (io_bind_done _ _ _ _ _ (con_run_command_eq _ _)).
    unfold mret, io_ret. rewrite <-(assoc_L (++)). done. }
  assert (∀ tr, (l ← lift (iter n);
      for_each (λ win, t ← lift (get_type win);
        if decide (t = Type_Window) then quit_window_by_id (id win) else mret tt) l) tr
    = (tr ++ (filter (λ w, is_type Type_Window w = true) (preorder n) ≫= λ w,
                [Connect; RunCommand (con_id_sel (id w) +:+ " " +:+ "kill")]), Done tt)) as Hall.
  { intros tr0. rewrite (io_lift_done _ _ _ _ (iter_done n)), filter_map_bind.
    apply for_each_done. intros w tr1 Hw.
    rewrite (io_lift_done _ _ _ _ (typable_elem n w Ht Hw)). unfold is_type.
    case_decide as E; [rewrite bool_decide_true by done; apply Hquit|].
    rewrite bool_decide_false by done. by rewrite app_nil_r. }
  rewrite (io_lift_done _ _ _ _ Hn).
  destruct (type_of n); try (by rewrite app_nil_r); [apply Hall..|].
  destruct kill; [|apply Hquit]. unfold kill_process_by_pid.
  destruct (pid n); [|by rewrite app_nil_r].
  by rewrite (io_bind_done _ _ _ _ _ (spawn_eq _ _ _ _)).
Qed.

(** The menu of sway commands is sorted and has no entry twice, so that every
    entry can be chosen and gives its own command. *)
Theorem swaymsg_menu_unambiguous :
  StronglySorted (λ a b, cmp_le String.compare (cmd a) (cmd b)) get_swaymsg_commands
  ∧ NoDup (cmd <$> get_swaymsg_commands)
  ∧ ∀ c, c ∈ get_swaymsg_commands →
      find (λ c', prints (cmd c') (cmd c)) (reverse get_swaymsg_commands) = Some c.
Proof.
  split; [|split].
  - unfold get_swaymsg_commands.
    pose proof (sort_by_sorted String.compare swaymsg_commands) as Hs.
    induction Hs as [|c l _ IH Hall]; constructor; [exact IH|]. apply Forall_fmap, Hall.
  - decide_now.
  - apply Forall_forall. decide_now.
Qed.

(** ** Witnesses *)
Section Witnesses.
Import Samples.
Local Abbreviation env := (quiet_env sample_root).

Lemma sample_rand : @RandLaws env.
Proof. split; [done|]. intros tr [|x l] Hl; [done|]. exists x. split; [done|left]. Qed.

Lemma sample_shown_typable : typable (drop_scratchpads sample_root).
Proof. unfold typable. decide_now. Qed.

Lemma relayouts_return_every_window_witness :
  (∃ tr' wins' gs,
    @tile_current_workspace env ExcludeFloating true [] = (tr', Done tt)
    ∧ commands tr' = [] ++ (move_cmd <$> windows_to_move false (preorder sample_ws1))
        ++ ("focus parent" :: "layout splith" :: concat gs)
        ++ ["[con_id=13] focus"]
    ∧ wins' ≡ₚ windows_to_move false (preorder sample_ws1))
  ∧ ∃ tr', @tab_current_workspace env ExcludeFloating [] = (tr', Done tt)
    ∧ commands tr'
      = ["[con_id=14] move to workspace ✨"; "[con_id=13] move to workspace ✨";
         "[con_id=11] move to workspace ✨"; "focus parent"; "layout tabbed";
         "[con_id=11] move to workspace current"; "[con_id=13] move to workspace current";
         "[con_id=14] move to workspace current"; "[con_id=13] focus"].
Proof.
  destruct (@relayouts_return_every_window env sample_rand ExcludeFloating true sample_root
    sample_ws1 []) as [(tr' & wins' & gs & E & C & Hp & _) (tr2 & E2 & C2)].
  - intros tr. reflexivity.
  - right. reflexivity.
  - reflexivity.
  - reflexivity.
  - apply sample_shown_typable.
  - reflexivity.
  - split; [exists tr', wins', gs; split; [exact E|]; split; [exact C|exact Hp]|].
    exists tr2. split; [exact E2|]. rewrite C2. vm_compute. reflexivity.
Defined.

Lemma quit_choice_windows_witness :
  commands (@quit_choice env false sample_ws2 []).1 = ["[con_id=21] kill"].
Proof.
  rewrite (@quit_choice_windows env false sample_ws2 []).
  - vm_compute. reflexivity.
  - intros tr. reflexivity.
  - unfold typable. decide_now.
Defined.
End Witnesses.
