(* ===== verification/Exec.v ===== *)
(** * Executing a command (swayr/src/cmds.rs)

    [SwayrCommand] and [exec_swayr_cmd], with the two static variables and their
    mutexes. *)

From S2P Require Import Prelude RString Regex Fmt Config Ipc Focus Sway Cfg.
From S2P Require Import Util Layout Tree Display Criteria Switch Cycle Handlers.
From S2P Require Samples.

(** ** Commands *)
Inductive SwayrCommand :=
| Nop
| SwitchToUrgentOrLRUWindow (skip_urgent skip_lru skip_origin : bool)
| SwitchToAppOrUrgentOrLRUWindow (name : string) (skip_urgent skip_lru skip_origin : bool)
| SwitchToMarkOrUrgentOrLRUWindow (con_mark : string) (skip_urgent skip_lru skip_origin : bool)
| SwitchToMatchingOrUrgentOrLRUWindow (criteria : string) (skip_urgent skip_lru skip_origin : bool)
| SwitchWindow
| StealWindow
| StealWindowOrContainer
| SwitchWorkspace
| SwitchOutput
| SwitchWorkspaceOrWindow
| SwitchWorkspaceContainerOrWindow
| SwitchTo
| QuitWindow (kill : bool)
| QuitWorkspaceOrWindow
| QuitWorkspaceContainerOrWindow
| NextWindow (windows : ConsiderWindows)
| PrevWindow (windows : ConsiderWindows)
| NextTiledWindow (windows : ConsiderWindows)
| PrevTiledWindow (windows : ConsiderWindows)
| NextTabbedOrStackedWindow (windows : ConsiderWindows)
| PrevTabbedOrStackedWindow (windows : ConsiderWindows)
| NextFloatingWindow (windows : ConsiderWindows)
| PrevFloatingWindow (windows : ConsiderWindows)
| NextWindowOfSameLayout (windows : ConsiderWindows)
| PrevWindowOfSameLayout (windows : ConsiderWindows)
| NextMatchingWindow (criteria : string)
| PrevMatchingWindow (criteria : string)
| MoveFocusedToWorkspace
| MoveFocusedTo
| SwapFocusedWith
| ToggleTabShuffleTileWorkspace (floating : ConsiderFloating)
| TileWorkspace (floating : ConsiderFloating)
| TabWorkspace (floating : ConsiderFloating)
| ShuffleTileWorkspace (floating : ConsiderFloating)
| ExecuteSwaymsgCommand
| ExecuteSwayrCommand
| ConfigureOutputs.

#[export] Instance SwayrCommand_eq_dec : EqDecision SwayrCommand.
Proof. solve_decision. Defined.

Definition is_prev_next_window_variant (cmd : SwayrCommand) : bool :=
  match cmd with
  | NextWindow _ | PrevWindow _ | NextTiledWindow _ | PrevTiledWindow _
  | NextTabbedOrStackedWindow _ | PrevTabbedOrStackedWindow _
  | NextFloatingWindow _ | PrevFloatingWindow _
  | NextWindowOfSameLayout _ | PrevWindowOfSameLayout _
  | NextMatchingWindow _ | PrevMatchingWindow _ => true
  | _ => false
  end.

(** *** [Debug] of the commands, which is how the menu shows them *)
Definition bool_debug (b : bool) : string := if b then "true" else "false".
Definition windows_debug (w : ConsiderWindows) : string :=
  match w with AllWorkspaces => "AllWorkspaces" | CurrentWorkspace => "CurrentWorkspace" end.
Definition floating_debug (f : ConsiderFloating) : string :=
  match f with IncludeFloating => "IncludeFloating" | ExcludeFloating => "ExcludeFloating" end.

Definition struct_debug (name : string) (fields : list (string * string)) : string :=
  name +:+ " { " +:+ join ", " ((λ f, f.1 +:+ ": " +:+ f.2) <$> fields) +:+ " }".

Definition skip_fields (u l o : bool) : list (string * string) :=
  [("skip_urgent", bool_debug u); ("skip_lru", bool_debug l); ("skip_origin", bool_debug o)].

Definition command_debug `{Unicode} (cmd : SwayrCommand) : string :=
  let windows name w := struct_debug name [("windows", windows_debug w)] in
  let floating name f := struct_debug name [("floating", floating_debug f)] in
  match cmd with
  | Nop => "Nop"
  | SwitchToUrgentOrLRUWindow u l o =>
      struct_debug "SwitchToUrgentOrLRUWindow" (skip_fields u l o)
  | SwitchToAppOrUrgentOrLRUWindow n u l o =>
      struct_debug "SwitchToAppOrUrgentOrLRUWindow" (("name", str_debug n) :: skip_fields u l o)
  | SwitchToMarkOrUrgentOrLRUWindow m u l o =>
      struct_debug "SwitchToMarkOrUrgentOrLRUWindow" (("con_mark", str_debug m) :: skip_fields u l o)
  | SwitchToMatchingOrUrgentOrLRUWindow c u l o =>
      struct_debug "SwitchToMatchingOrUrgentOrLRUWindow" (("criteria", str_debug c) :: skip_fields u l o)
  | SwitchWindow => "SwitchWindow"
  | StealWindow => "StealWindow"
  | StealWindowOrContainer => "StealWindowOrContainer"
  | SwitchWorkspace => "SwitchWorkspace"
  | SwitchOutput => "SwitchOutput"
  | SwitchWorkspaceOrWindow => "SwitchWorkspaceOrWindow"
  | SwitchWorkspaceContainerOrWindow => "SwitchWorkspaceContainerOrWindow"
  | SwitchTo => "SwitchTo"
  | QuitWindow kill => struct_debug "QuitWindow" [("kill", bool_debug kill)]
  | QuitWorkspaceOrWindow => "QuitWorkspaceOrWindow"
  | QuitWorkspaceContainerOrWindow => "QuitWorkspaceContainerOrWindow"
  | NextWindow w => windows "NextWindow" w
  | PrevWindow w => windows "PrevWindow" w
  | NextTiledWindow w => windows "NextTiledWindow" w
  | PrevTiledWindow w => windows "PrevTiledWindow" w
  | NextTabbedOrStackedWindow w => windows "NextTabbedOrStackedWindow" w
  | PrevTabbedOrStackedWindow w => windows "PrevTabbedOrStackedWindow" w
  | NextFloatingWindow w => windows "NextFloatingWindow" w
  | PrevFloatingWindow w => windows "PrevFloatingWindow" w
  | NextWindowOfSameLayout w => windows "NextWindowOfSameLayout" w
  | PrevWindowOfSameLayout w => windows "PrevWindowOfSameLayout" w
  | NextMatchingWindow c => struct_debug "NextMatchingWindow" [("criteria", str_debug c)]
  | PrevMatchingWindow c => struct_debug "PrevMatchingWindow" [("criteria", str_debug c)]
  | MoveFocusedToWorkspace => "MoveFocusedToWorkspace"
  | MoveFocusedTo => "MoveFocusedTo"
  | SwapFocusedWith => "SwapFocusedWith"
  | ToggleTabShuffleTileWorkspace f => floating "ToggleTabShuffleTileWorkspace" f
  | TileWorkspace f => floating "TileWorkspace" f
  | TabWorkspace f => floating "TabWorkspace" f
  | ShuffleTileWorkspace f => floating "ShuffleTileWorkspace" f
  | ExecuteSwaymsgCommand => "ExecuteSwaymsgCommand"
  | ExecuteSwayrCommand => "ExecuteSwayrCommand"
  | ConfigureOutputs => "ConfigureOutputs"
  end.

#[export] Instance SwayrCommand_display `{Env} `{Unicode} : DisplayFormat SwayrCommand :=
  {| format_for_display c _ := mret (command_debug c); Util.get_indent_level _ := Done 0 |}.

(** The commands of the menu of [ExecuteSwayrCommand]. *)
Definition swayr_menu_commands : list SwayrCommand :=
  [MoveFocusedToWorkspace; MoveFocusedTo; SwapFocusedWith; QuitWorkspaceOrWindow;
   SwitchWindow; StealWindow; StealWindowOrContainer; SwitchWorkspace; SwitchOutput;
   SwitchWorkspaceOrWindow; SwitchToUrgentOrLRUWindow false false false;
   ConfigureOutputs; ExecuteSwaymsgCommand]
  ++ (f ← [ExcludeFloating; IncludeFloating];
      [ToggleTabShuffleTileWorkspace f; TileWorkspace f; TabWorkspace f; ShuffleTileWorkspace f])
  ++ (QuitWindow <$> [false; true])
  ++ (w ← [AllWorkspaces; CurrentWorkspace];
      [NextWindow w; PrevWindow w; NextTiledWindow w; PrevTiledWindow w;
       NextTabbedOrStackedWindow w; PrevTabbedOrStackedWindow w;
       NextFloatingWindow w; PrevFloatingWindow w]).

(** ** Mutexes

    [Held] is a mutex that the thread itself has locked: locking it again never
    returns.  A panic while it is locked poisons it. *)
Inductive mutex (A : Type) := Unlocked (a : A) | Held | Poisoned.
Arguments Unlocked {A} _.
Arguments Held {A}.
Arguments Poisoned {A}.

Definition lock {A} (m : mutex A) : outcome A :=
  match m with
  | Unlocked a => Done a
  | Held => NoReturn
  | Poisoned => Panics "Could not lock mutex"
  end.

Record Statics := {
  LAST_COMMAND : mutex SwayrCommand;
  SWITCH_TO_MATCHING_DATA : mutex SwitchToMatchingData
}.

Definition Statics_init : Statics :=
  {| LAST_COMMAND := Unlocked Nop;
     SWITCH_TO_MATCHING_DATA := Unlocked SwitchToMatchingData_new |}.

Definition Statics_held : Statics :=
  {| LAST_COMMAND := Held; SWITCH_TO_MATCHING_DATA := Held |}.

(** ** [exec_swayr_cmd] *)
Section Exec.
Context `{Env} `{RegexCrate} `{Floats} `{RtFormatCrate} `{Unicode} `{ConfigToml}.
Context (node_eqb : node → node → bool).

(** A command that leaves the sequence data alone. *)
Definition keeping (stm : SwitchToMatchingData) (m : io unit) : io SwitchToMatchingData :=
  m ;; mret stm.

(** The arms of the match that start no other command; [fuel] is for the loop of
    [configure_outputs]. *)
Definition run_command (fuel : nat) (cmd : SwayrCommand) (fdata : FocusData)
    (stm : SwitchToMatchingData) : io SwitchToMatchingData :=
  match cmd with
  | Nop => mret stm
  | SwitchToUrgentOrLRUWindow u l o =>
      switch_to_urgent_or_lru_window (set_skip u l o stm) fdata
  | SwitchToAppOrUrgentOrLRUWindow name u l o =>
      switch_to_app_or_urgent_or_lru_window name (set_skip u l o stm) fdata
  | SwitchToMarkOrUrgentOrLRUWindow con_mark u l o =>
      switch_to_mark_or_urgent_or_lru_window con_mark (set_skip u l o stm) fdata
  | SwitchToMatchingOrUrgentOrLRUWindow criteria u l o =>
      switch_to_matching_or_urgent_or_lru_window node_eqb criteria (set_skip u l o stm) fdata
  | SwitchWindow => keeping stm (switch_window fdata)
  | StealWindow => keeping stm (steal_window fdata)
  | StealWindowOrContainer => keeping stm (steal_window_or_container fdata)
  | SwitchWorkspace => keeping stm (switch_workspace fdata)
  | SwitchOutput => keeping stm switch_output
  | SwitchWorkspaceOrWindow => keeping stm (switch_workspace_or_window fdata)
  | SwitchWorkspaceContainerOrWindow =>
      keeping stm (switch_workspace_container_or_window fdata)
  | SwitchTo => keeping stm (switch_to fdata)
  | QuitWindow kill => keeping stm (quit_window fdata kill)
  | QuitWorkspaceOrWindow => keeping stm (quit_workspace_or_window fdata)
  | QuitWorkspaceContainerOrWindow => keeping stm (quit_workspace_container_or_window fdata)
  | MoveFocusedToWorkspace => keeping stm (move_focused_to_workspace fdata)
  | MoveFocusedTo => keeping stm (move_focused_to fdata)
  | SwapFocusedWith => keeping stm (swap_focused_with fdata)
  | NextWindow w => keeping stm (focus_window_in_direction Forward w fdata always_true)
  | PrevWindow w => keeping stm (focus_window_in_direction Backward w fdata always_true)
  | NextTiledWindow w => keeping stm (focus_window_in_direction Forward w fdata is_tiled_win)
  | PrevTiledWindow w => keeping stm (focus_window_in_direction Backward w fdata is_tiled_win)
  | NextTabbedOrStackedWindow w =>
      keeping stm (focus_window_in_direction Forward w fdata is_tabbed_or_stacked_win)
  | PrevTabbedOrStackedWindow w =>
      keeping stm (focus_window_in_direction Backward w fdata is_tabbed_or_stacked_win)
  | NextFloatingWindow w =>
      keeping stm (focus_window_in_direction Forward w fdata is_floating_win)
  | PrevFloatingWindow w =>
      keeping stm (focus_window_in_direction Backward w fdata is_floating_win)
  | NextWindowOfSameLayout w =>
      keeping stm (focus_window_of_same_layout_in_direction Forward w fdata)
  | PrevWindowOfSameLayout w =>
      keeping stm (focus_window_of_same_layout_in_direction Backward w fdata)
  | NextMatchingWindow criteria =>
      keeping stm (focus_matching_window_in_direction node_eqb Forward criteria fdata)
  | PrevMatchingWindow criteria =>
      keeping stm (focus_matching_window_in_direction node_eqb Backward criteria fdata)
  | TileWorkspace floating => keeping stm (tile_current_workspace floating false)
  | TabWorkspace floating => keeping stm (tab_current_workspace floating)
  | ShuffleTileWorkspace floating => keeping stm (tile_current_workspace floating true)
  | ToggleTabShuffleTileWorkspace floating =>
      keeping stm (toggle_tab_tile_current_workspace floating)
  | ConfigureOutputs => keeping stm (configure_outputs fuel)
  | ExecuteSwaymsgCommand => keeping stm exec_swaymsg_command
  | ExecuteSwayrCommand => mret stm
  end.

(** The whole function; the guards of the two mutexes live until it returns.  The
    message goes to the lock-in thread. *)
Fixpoint exec_swayr_cmd (fuel : nat) (cmd : SwayrCommand) (statics : Statics)
    (fdata : FocusData) : io (Statics * FocusData) :=
  match fuel with
  | O => lift NoReturn
  | S fuel =>
      last_command ← lift (lock (LAST_COMMAND statics));
      stm ← lift (lock (SWITCH_TO_MATCHING_DATA statics));
      let stm := if decide (cmd = last_command) then stm else reset true stm in
      let '(fdata, sent) :=
        send (if is_prev_next_window_variant cmd then TickUpdateInhibit
              else TickUpdateActivate) fdata in
      lift sent ;;
      r ← match cmd with
          | ExecuteSwayrCommand =>
              c ← select_from_menu "Select swayr command" swayr_menu_commands;
              match c with
              | Ok c => r ← exec_swayr_cmd fuel c Statics_held fdata; mret (stm, r.2)
              | Err _ => mret (stm, fdata)
              end
          | _ => stm ← run_command fuel cmd fdata stm; mret (stm, fdata)
          end;
      let '(stm, fdata) := r : SwitchToMatchingData * FocusData in
      mret ({| LAST_COMMAND := Unlocked cmd; SWITCH_TO_MATCHING_DATA := Unlocked stm |}, fdata)
  end.
End Exec.

(** ** Lemmas *)
Section ExecFacts.
Context `{Env} `{RegexCrate} `{Floats} `{RtFormatCrate} `{Unicode} `{ConfigToml}.
Context (node_eqb : node → node → bool).

Definition message_of (cmd : SwayrCommand) : FocusMessage :=
  if is_prev_next_window_variant cmd then TickUpdateInhibit else TickUpdateActivate.

(** The focus data once the message is in the channel. *)
Definition sent_message (cmd : SwayrCommand) (fdata : FocusData) : FocusData :=
  {| focus_tick_by_id := focus_tick_by_id fdata;
     focus_chan := focus_chan fdata ++ [message_of cmd];
     receiver_alive := true |}.

Lemma send_message cmd fdata :
  send (message_of cmd) fdata
  = if receiver_alive fdata then (sent_message cmd fdata, Done tt)
    else (fdata, Panics "Failed to send focus event over channel").
Proof.
  unfold send, sent_message. replace (match message_of cmd with FocusEv fev => _ | _ => fdata end)
    with fdata; [done|].
  unfold message_of. by destruct (is_prev_next_window_variant cmd).
Qed.

(** The sequence data a command starts with. *)
Definition data_for (cmd last_command : SwayrCommand) (stm : SwitchToMatchingData)
    : SwitchToMatchingData :=
  if decide (cmd = last_command) then stm else reset true stm.

Definition unlocked (last : SwayrCommand) (stm : SwitchToMatchingData) : Statics :=
  {| LAST_COMMAND := Unlocked last; SWITCH_TO_MATCHING_DATA := Unlocked stm |}.

Lemma exec_swayr_cmd_unlocked fuel cmd last stm fdata tr :
  receiver_alive fdata = true → cmd ≠ ExecuteSwayrCommand →
  exec_swayr_cmd node_eqb (S fuel) cmd (unlocked last stm) fdata tr
  = (stm' ← run_command node_eqb fuel cmd (sent_message cmd fdata) (data_for cmd last stm);
     mret (unlocked cmd stm', sent_message cmd fdata)) tr.
Proof.
  intros Ha Hne. cbn [exec_swayr_cmd unlocked LAST_COMMAND SWITCH_TO_MATCHING_DATA lock].
  rewrite !(io_lift_done _ _ _ _ eq_refl). fold (message_of cmd).
  rewrite send_message, Ha. rewrite (io_lift_done _ _ _ _ eq_refl).
  unfold data_for.
  assert (∀ (m : io SwitchToMatchingData) fd tr,
    (r ← (stm ← m; mret (stm, fd));
     let '(stm, fdata) := r : SwitchToMatchingData * FocusData in
     mret (unlocked cmd stm, fdata)) tr = (stm' ← m; mret (unlocked cmd stm', fd)) tr) as Hr.
  { intros m fd tr0. unfold mbind, io_bind. by destruct (m tr0) as [? []]. }
  destruct cmd; try done; apply Hr.
Qed.

(** ** Claims *)

(** C34: Choosing any command in the menu of execute-swayr-command makes the daemon
    hang: the chosen command is started while the mutexes of the static variables
    are still locked by the same thread, so that it never returns and nothing is
    sent to sway after the choice. *)
Theorem execute_swayr_command_hangs fuel last stm fdata c tr tr' :
  receiver_alive fdata = true →
  select_from_menu "Select swayr command" swayr_menu_commands tr = (tr', Done (Ok c)) →
  exec_swayr_cmd node_eqb (S fuel) ExecuteSwayrCommand (unlocked last stm) fdata tr
  = (tr', NoReturn).
Proof.
  intros Ha Hsel.
  cbn [exec_swayr_cmd unlocked LAST_COMMAND SWITCH_TO_MATCHING_DATA lock].
  rewrite !(io_lift_done _ _ _ _ eq_refl). fold (message_of ExecuteSwayrCommand).
  rewrite send_message, Ha, (io_lift_done _ _ _ _ eq_refl).
  unfold mbind at 1, io_bind at 1. rewrite (io_bind_done _ _ _ _ _ Hsel).
  by destruct fuel.
Qed.

(** C12: A command that returns has left both mutexes unlocked and itself as the last
    command, has sent exactly one message to the lock-in thread, which inhibits the
    updates for the window cycling commands and activates them for all others, and
    has changed nothing else of the focus data. *)
Theorem exec_swayr_cmd_protocol fuel cmd statics fdata tr tr' statics' fdata' :
  exec_swayr_cmd node_eqb fuel cmd statics fdata tr = (tr', Done (statics', fdata')) →
  (∃ stm, statics' = unlocked cmd stm)
  ∧ focus_tick_by_id fdata' = focus_tick_by_id fdata
  ∧ focus_chan fdata' = focus_chan fdata ++ [message_of cmd].
Proof.
  destruct fuel as [|fuel]; [done|]. cbn [exec_swayr_cmd].
  destruct (LAST_COMMAND statics) as [last| |] eqn:El; try done.
  destruct (SWITCH_TO_MATCHING_DATA statics) as [stm| |] eqn:Es; try done. cbn [lock].
  rewrite !(io_lift_done _ _ _ _ eq_refl). fold (message_of cmd). rewrite send_message.
  destruct (receiver_alive fdata); [|done]. rewrite (io_lift_done _ _ _ _ eq_refl).
  assert (∀ (m : io (SwitchToMatchingData * FocusData)),
    (∀ tr tr' r, m tr = (tr', Done r) → r.2 = sent_message cmd fdata) →
    (r ← m; let '(stm, fdata) := r : SwitchToMatchingData * FocusData in
            mret (unlocked cmd stm, fdata)) tr = (tr', Done (statics', fdata')) →
    (∃ stm, statics' = unlocked cmd stm)
    ∧ focus_tick_by_id fdata' = focus_tick_by_id fdata
    ∧ focus_chan fdata' = focus_chan fdata ++ [message_of cmd]) as Hm.
  { intros m Hm Heq. unfold mbind, io_bind in Heq.
    destruct (m tr) as [tr1 [[stm1 fd1]| |]] eqn:E; try done.
    apply Hm in E. cbn in E. subst fd1. injection Heq as <- <- <-. eauto. }
  intros Heq. eapply Hm; [|exact Heq]. intros tr1 tr2 r.
  assert (∀ (m : io SwitchToMatchingData) fd,
    (stm ← m; mret (stm, fd)) tr1 = (tr2, Done r) → r.2 = fd) as Hr.
  { intros m fd. unfold mbind, io_bind. destruct (m tr1) as [? []]; try done.
    by intros [= <- <-]. }
  destruct cmd; try apply Hr.
  unfold mbind, io_bind. destruct (select_from_menu _ _ tr1) as [tr3 [[c|]| |]]; try done.
  - by destruct fuel.
  - by intros [= <- <-].
Qed.

(** C15: Nop has no effect but the message to the lock-in thread, and it ends a
    sequence: whatever was visited before, the next other command starts with fresh
    sequence data.  A command repeated without another in between goes on with the
    data it left. *)
Theorem nop_ends_sequence fuel last stm fdata tr :
  receiver_alive fdata = true →
  ∃ stm', exec_swayr_cmd node_eqb (S fuel) Nop (unlocked last stm) fdata tr
          = (tr, Done (unlocked Nop stm', sent_message Nop fdata))
  ∧ ∀ cmd fdata2 tr2, cmd ≠ Nop → cmd ≠ ExecuteSwayrCommand → receiver_alive fdata2 = true →
    exec_swayr_cmd node_eqb (S fuel) cmd (unlocked Nop stm') fdata2 tr2
    = (stm2 ← run_command node_eqb fuel cmd (sent_message cmd fdata2) SwitchToMatchingData_new;
       mret (unlocked cmd stm2, sent_message cmd fdata2)) tr2
    ∧ ∀ stm3 fdata3 tr3, receiver_alive fdata3 = true →
      exec_swayr_cmd node_eqb (S fuel) cmd (unlocked cmd stm3) fdata3 tr3
      = (stm4 ← run_command node_eqb fuel cmd (sent_message cmd fdata3) stm3;
         mret (unlocked cmd stm4, sent_message cmd fdata3)) tr3.
Proof.
  intros Ha. exists (data_for Nop last stm). split.
  - by rewrite exec_swayr_cmd_unlocked.
  - intros cmd fdata2 tr2 Hne1 Hne2 Ha2. split.
    + rewrite exec_swayr_cmd_unlocked by done. unfold data_for at 1. by rewrite decide_False.
    + intros stm3 fdata3 tr3 Ha3. rewrite exec_swayr_cmd_unlocked by done.
      unfold data_for. by rewrite decide_True.
Qed.

(** The menu of execute-swayr-command shows no two commands alike, so that each
    can be chosen. *)
Theorem swayr_menu_unambiguous :
  NoDup (command_debug <$> swayr_menu_commands)
  ∧ Forall (λ c, find (λ c', prints (command_debug c') (command_debug c))
                   (reverse swayr_menu_commands) = Some c) swayr_menu_commands.
Proof.
  split.
  - assert (command_debug <$> swayr_menu_commands
      = @command_debug {| to_lowercase s := s; str_debug s := s |} <$> swayr_menu_commands)
      as -> by reflexivity.
    decide_now.
  - repeat (constructor; [vm_compute; reflexivity|]). constructor.
Qed.
End ExecFacts.

(** ** Witnesses *)
Section Witnesses.
Import Samples.
Local Abbreviation env := (menu_env sample_root ("SwitchWindow" +:+ nl)).
Definition idle_fdata : FocusData :=
  {| focus_tick_by_id := ∅; focus_chan := []; receiver_alive := true |}.

Lemma execute_swayr_command_hangs_witness :
  ∃ tr', @exec_swayr_cmd env literal_regexes no_floats three_chars plain_unicode no_toml
    node_id_eqb 5 ExecuteSwayrCommand Statics_init idle_fdata [] = (tr', NoReturn).
Proof.
  eexists.
  apply (@execute_swayr_command_hangs env literal_regexes no_floats three_chars plain_unicode
    no_toml node_id_eqb 4 Nop SwitchToMatchingData_new idle_fdata SwitchWindow []).
  - reflexivity.
  - vm_compute. reflexivity.
Defined.

Lemma exec_swayr_cmd_protocol_witness :
  ∃ stm, unlocked Nop SwitchToMatchingData_new = unlocked Nop stm.
Proof.
  exact (proj1 (@exec_swayr_cmd_protocol env literal_regexes no_floats three_chars plain_unicode
    no_toml node_id_eqb 1 Nop Statics_init idle_fdata [] [] (unlocked Nop SwitchToMatchingData_new)
    (sent_message Nop idle_fdata) eq_refl)).
Defined.

Lemma nop_ends_sequence_witness :
  ∃ stm', @exec_swayr_cmd env literal_regexes no_floats three_chars plain_unicode no_toml
    node_id_eqb 1 Nop (unlocked SwitchWindow SwitchToMatchingData_new) idle_fdata []
    = ([], Done (unlocked Nop stm', sent_message Nop idle_fdata)).
Proof.
  destruct (@nop_ends_sequence env literal_regexes no_floats three_chars plain_unicode no_toml
    node_id_eqb 0 SwitchWindow SwitchToMatchingData_new idle_fdata [] eq_refl) as (stm' & E & _).
  by exists stm'.
Defined.
End Witnesses.
