(* ===== verification/Daemon.v ===== *)
(** * The daemon and its client (swayr/src/daemon.rs, swayr/src/client.rs)

    The event thread [monitor_sway_events], the command server
    [serve_client_requests] with the auto-nop thread, and [send_swayr_cmd].  The
    lock-in thread is in Focus.v. *)

From S2P Require Import Prelude RString Regex Fmt Config Ipc Focus Sway Cfg Util.
From S2P Require Import Layout Tree Display Criteria Switch Cycle Handlers Exec.
From S2P Require Samples.

(** ** What the daemon receives *)

(** The events of swayipc; the constructors that the source does not name are
    [..Other]. *)
Inductive WindowChange := WinFocus | WinNew | WinClose | WinMove | WinFloating | WinOther.
Inductive WorkspaceChange := WsInit | WsFocus | WsEmpty | WsOther.

Record WindowEvent := { win_change : WindowChange; win_container : node }.
Record WorkspaceEvent := { ws_change : WorkspaceChange; ws_current : option node }.

Inductive Event :=
| EvWindow (ev : WindowEvent)
| EvWorkspace (ev : WorkspaceEvent)
| EvShutdown
| EvOther.

(** The answers of the event stream, the socket and the client's stream: an accepted
    client sends a text, or reading it fails. *)
Class DaemonEnv := {
  env_subscribe : trace → result unit string;
  env_next_event : trace → option (result Event string);
  env_bind : trace → result unit string;
  env_accept : trace → result (result string string) string;
  env_connect_socket : trace → result unit string;
  env_write_socket : trace → result unit string
}.

(** serde's JSON texts of commands. *)
Class JsonCommands := {
  to_json : SwayrCommand → string;
  from_json : string → option SwayrCommand
}.

(** ** The event thread *)
Section Monitor.
Context `{Env} `{DaemonEnv}.

(** A message from this thread to the lock-in thread. *)
Definition send_io (fmsg : FocusMessage) (fdata : FocusData) : io FocusData :=
  let '(fdata, sent) := send fmsg fdata in
  lift sent ;; mret fdata.

Definition handle_window_event (ev : WindowEvent) (fdata : FocusData) (config : Config)
    (focus_val : Z) : io (FocusData * bool) :=
  let container := win_container ev in
  match win_change ev with
  | WinFocus =>
      maybe_auto_tile config ;;
      fdata ← send_io (FocusEv {| node_id := id container; ev_focus_ctr := focus_val |}) fdata;
      mret (fdata, true)
  | WinNew => maybe_auto_tile config ;; mret (ensure_id (id container) fdata, true)
  | WinClose =>
      let fdata := remove_focus_data (id container) fdata in
      maybe_auto_tile config ;; mret (fdata, true)
  | WinMove | WinFloating => maybe_auto_tile config ;; mret (fdata, false)
  | WinOther => mret (fdata, false)
  end.

Definition handle_workspace_event (ev : WorkspaceEvent) (fdata : FocusData) (focus_val : Z)
    : io (FocusData * bool) :=
  match ws_change ev with
  | WsInit | WsFocus =>
      current ← lift (expect "No current in Init or Focus workspace event" (ws_current ev));
      fdata ← send_io (FocusEv {| node_id := id current; ev_focus_ctr := focus_val |}) fdata;
      mret (fdata, true)
  | WsEmpty =>
      current ← lift (expect "No current in Empty workspace event" (ws_current ev));
      mret (remove_focus_data (id current) fdata, true)
  | WsOther => mret (fdata, false)
  end.

(** The body of the inner loop for an event of the stream; [None] is the jump out of
    the outer loop.  The counter is a [u64]. *)
Definition monitor_event (config : Config) (ev : Event) (focus_counter : Z) (fdata : FocusData)
    : io (option (Z * FocusData)) :=
  match ev with
  | EvWindow win_ev =>
      let focus_counter := u64_add focus_counter 1 in
      r ← handle_window_event win_ev fdata config focus_counter;
      mret (Some (focus_counter, fst r))
  | EvWorkspace ws_ev =>
      let focus_counter := u64_add focus_counter 1 in
      r ← handle_workspace_event ws_ev fdata focus_counter;
      mret (Some (focus_counter, fst r))
  | EvShutdown => mret None
  | EvOther => mret (Some (focus_counter, fdata))
  end.

Definition connect_and_subscribe : io (result unit string) :=
  _ ←? connection_new;
  perform Subscribe ;; ask env_subscribe.

(** The variables of the thread. *)
Record MonitorState := { focus_counter : Z; resets : Z; mon_fdata : FocusData }.

(** The inner loop: the state at the end of the stream and whether sway shut down. *)
Fixpoint monitor_stream (fuel : nat) (config : Config) (st : MonitorState)
    : io (bool * MonitorState) :=
  match fuel with
  | O => lift NoReturn
  | S fuel =>
      perform NextEvent ;;
      item ← ask env_next_event;
      match item with
      | None => mret (false, st)
      | Some (Ok ev) =>
          r ← monitor_event config ev (focus_counter st) (mon_fdata st);
          match r with
          | Some (focus_counter, fdata) =>
              monitor_stream fuel config
                {| focus_counter := focus_counter; resets := 0; mon_fdata := fdata |}
          | None =>
              mret (true, {| focus_counter := focus_counter st; resets := 0;
                             mon_fdata := mon_fdata st |})
          end
      | Some (Err _) =>
          sleep 3000 ;;
          monitor_stream fuel config
            {| focus_counter := focus_counter st; resets := 0; mon_fdata := mon_fdata st |}
      end
  end.

Definition max_resets : Z := 10.

(** The outer loop. *)
Fixpoint monitor_loop (fuel : nat) (config : Config) (st : MonitorState) : io MonitorState :=
  match fuel with
  | O => lift NoReturn
  | S fuel =>
      if (max_resets <=? resets st)%Z then mret st
      else
        let st := {| focus_counter := focus_counter st; resets := resets st + 1;
                     mon_fdata := mon_fdata st |} in
        c ← connect_and_subscribe;
        match c with
        | Err _ => sleep 3000 ;; monitor_loop fuel config st
        | Ok _ =>
            r ← monitor_stream fuel config st;
            let '(shut_down, st) := r : bool * MonitorState in
            if shut_down then mret st else monitor_loop fuel config st
        end
  end.

Definition monitor_sway_events (fuel : nat) (fdata : FocusData) (config : Config)
    : io MonitorState :=
  monitor_loop fuel config {| focus_counter := 0; resets := 0; mon_fdata := fdata |}.
End Monitor.

(** ** The command server and the client *)
Section Server.
Context `{Env} `{DaemonEnv} `{JsonCommands} `{RegexCrate} `{Floats} `{RtFormatCrate}
  `{Unicode} `{ConfigToml}.
Context (node_eqb : node → node → bool).

(** The client's stream is given by what reading it to its end gives. *)
Definition handle_client_request (fuel : nat) (stream : result string string)
    (statics : Statics) (fdata : FocusData) : io (Statics * FocusData) :=
  match stream with
  | Ok cmd_str =>
      match from_json cmd_str with
      | Some cmd => exec_swayr_cmd node_eqb fuel cmd statics fdata
      | None => mret (statics, fdata)
      end
  | Err _ => mret (statics, fdata)
  end.

(** The loop over the incoming clients, which ends with an error of the listener. *)
Fixpoint serve_loop (fuel : nat) (auto_nop_delay : option Z)
    (statics : Statics) (fdata : FocusData) : io (Statics * FocusData) :=
  match fuel with
  | O => lift NoReturn
  | S fuel =>
      perform AcceptClient ;;
      stream ← ask env_accept;
      match stream with
      | Ok stream =>
          r ← handle_client_request fuel stream statics fdata;
          (if auto_nop_delay is Some _ then perform NotifyAutoNop else mret tt) ;;
          serve_loop fuel auto_nop_delay (fst r) (snd r)
      | Err _ => mret (statics, fdata)
      end
  end.

Definition serve_client_requests (fuel : nat) (fdata : FocusData) (auto_nop_delay : option Z)
    : io (Statics * FocusData) :=
  perform (RemoveFile get_swayr_socket_path) ;;
  perform (BindSocket get_swayr_socket_path) ;;
  listener ← ask env_bind;
  match listener with
  | Ok _ => serve_loop fuel auto_nop_delay Statics_init fdata
  | Err _ => mret (Statics_init, fdata)
  end.

(** client.rs *)
Definition send_swayr_cmd (cmd : SwayrCommand) : io (result unit string) :=
  perform (ConnectSocket get_swayr_socket_path) ;;
  _ ←? ask env_connect_socket;
  perform (WriteSocket (to_json cmd)) ;;
  ask env_write_socket.

(** What [run_daemon] starts its threads with. *)
Record Daemon := {
  d_fdata : FocusData;
  d_config : Config;
  d_lockin_delay : Z;
  d_auto_nop_delay : option Z;
  d_seq_inhibit : bool
}.

Definition start_daemon : io Daemon :=
  config ← load_swayr_config;
  lockin_delay ← lift (get_focus_lockin_delay config);
  seq_inhibit ← lift (get_misc_seq_inhibit config);
  mret {| d_fdata := {| focus_tick_by_id := ∅; focus_chan := []; receiver_alive := true |};
          d_config := config; d_lockin_delay := lockin_delay;
          d_auto_nop_delay := get_misc_auto_nop_delay config;
          d_seq_inhibit := seq_inhibit |}.

(** The main thread; the two threads it has spawned before run [monitor_sway_events]
    and the lock-in thread on the same focus data. *)
Definition run_daemon (fuel : nat) : io (Statics * FocusData) :=
  d ← start_daemon;
  serve_client_requests fuel (d_fdata d) (d_auto_nop_delay d).

(** The programs; clap has parsed the command, and an error is only logged. *)
Definition swayr_main (command : SwayrCommand) : io unit :=
  _ ← send_swayr_cmd command; mret tt.

Definition swayrd_main (fuel : nat) : io (Statics * FocusData) := run_daemon fuel.
End Server.

(** ** The auto-nop thread and the command server together

    The thread waits on the condition variable, wakes because of a notification,
    the delay or without a reason, takes the lock again and acts while it holds the
    lock.  The server notifies after each command, which needs the lock.  A
    notification that finds nobody waiting is lost.  The static variables'
    mutexes make the execution of a command one step. *)
Inductive nop_pos := AtLock | Waiting | Waking (timed_out : bool) | Holding (timed_out : bool).
Inductive srv_pos := Accepting | Notifying.

Record nop_state := {
  nop_at : nop_pos;
  nop_inhibit : bool;
  srv_at : srv_pos;
  executed : list SwayrCommand     (* the last one first *)
}.

Definition nop_init : nop_state :=
  {| nop_at := AtLock; nop_inhibit := false; srv_at := Accepting; executed := [] |}.

Inductive nop_step_name :=
| S_exec (cmd : SwayrCommand)
| S_notify
| N_wait
| N_wake (timed_out : bool)
| N_lock
| N_act.

Definition nop_act (timed_out : bool) (s : nop_state) : nop_state :=
  if timed_out
  then if nop_inhibit s
       then {| nop_at := AtLock; nop_inhibit := nop_inhibit s; srv_at := srv_at s;
               executed := executed s |}
       else {| nop_at := AtLock; nop_inhibit := true; srv_at := srv_at s;
               executed := Nop :: executed s |}
  else {| nop_at := AtLock; nop_inhibit := false; srv_at := srv_at s; executed := executed s |}.

Definition nop_move (p : nop_pos) (s : nop_state) : nop_state :=
  {| nop_at := p; nop_inhibit := nop_inhibit s; srv_at := srv_at s; executed := executed s |}.

Definition nop_step (a : nop_step_name) (s : nop_state) : option nop_state :=
  match a, srv_at s, nop_at s with
  | S_exec cmd, Accepting, _ =>
      Some {| nop_at := nop_at s; nop_inhibit := nop_inhibit s; srv_at := Notifying;
              executed := cmd :: executed s |}
  | S_notify, Notifying, Holding _ => None
  | S_notify, Notifying, p =>
      Some {| nop_at := match p with Waiting => Waking false | _ => p end;
              nop_inhibit := nop_inhibit s; srv_at := Accepting; executed := executed s |}
  | N_wait, _, AtLock => Some (nop_move Waiting s)
  | N_wake timed_out, _, Waiting => Some (nop_move (Waking timed_out) s)
  | N_lock, _, Waking timed_out => Some (nop_move (Holding timed_out) s)
  | N_act, _, Holding timed_out => Some (nop_act timed_out s)
  | _, _, _ => None
  end.

Fixpoint nop_run (acts : list nop_step_name) (s : nop_state) : option nop_state :=
  match acts with
  | [] => Some s
  | a :: acts => s ← nop_step a s; nop_run acts s
  end.

(** The delay passes with no command in between: the thread's turn from the wait to
    its action, after a time-out. *)
Definition idle_delay : list nop_step_name := [N_wait; N_wake true; N_lock; N_act].

(** A notification is sent while the thread neither waits nor is going to reset its
    flag. *)
Definition loses_notification (s : nop_state) : Prop :=
  nop_inhibit s = true ∧ (nop_at s = AtLock ∨ nop_at s = Waking true).

(** States reachable without a lost notification. *)
Inductive nop_reachable : nop_state → Prop :=
| nop_reachable_init : nop_reachable nop_init
| nop_reachable_step a s s' :
    nop_reachable s → nop_step a s = Some s' → (a = S_notify → ¬ loses_notification s) →
    nop_reachable s'.

(** ** Theorems about the event thread *)

(** What an event is to the focus data, in the model of the interleaved threads;
    [None] for an event that is not counted or that makes the thread panic. *)
Definition event_action (ev : Event) : option action :=
  match ev with
  | EvWindow e =>
      let i := id (win_container e) in
      Some match win_change e with
           | WinFocus => A_focus i
           | WinNew => A_new i
           | WinClose => A_close i
           | WinMove | WinFloating | WinOther => A_other
           end
  | EvWorkspace e =>
      match ws_change e with
      | WsInit | WsFocus => n ← ws_current e; Some (A_focus (id n))
      | WsEmpty => n ← ws_current e; Some (A_close (id n))
      | WsOther => Some A_other
      end
  | EvShutdown | EvOther => None
  end.

(** The events after which the windows are tiled automatically. *)
Definition event_tiles (ev : Event) : bool :=
  match ev with
  | EvWindow e => match win_change e with WinOther => false | _ => true end
  | _ => false
  end.

Section MonitorFacts.
Context `{Env} `{DaemonEnv}.

Lemma send_io_done fmsg fdata tr :
  receiver_alive fdata = true →
  send_io fmsg fdata tr = (tr, Done (fst (send fmsg fdata))).
Proof.
  intros Ha. unfold send_io, send.
  replace (receiver_alive (match fmsg with FocusEv fev => _ | _ => fdata end)) with true; [done|].
  destruct fmsg; try done. unfold ensure_id. by case_match.
Qed.

(** Events that never come. *)
Definition no_events : Prop := ∀ tr, env_next_event tr = None.

Lemma monitor_stream_empty fuel config st tr :
  no_events →
  monitor_stream (S fuel) config st tr = (tr ++ [NextEvent], Done (false, st)).
Proof.
  intros Hn. cbn [monitor_stream]. unfold mbind, io_bind, perform, ask. cbn.
  by rewrite Hn.
Qed.

Definition connects (tr : trace) : nat := length (filter (λ e, e = Connect) tr).

Lemma connects_app tr1 tr2 : connects (tr1 ++ tr2) = connects tr1 + connects tr2.
Proof. unfold connects. by rewrite filter_app, length_app. Qed.

Lemma connect_and_subscribe_once tr :
  ∃ tr' r, connect_and_subscribe tr = (tr ++ tr', Done r) ∧ connects tr' = 1.
Proof.
  unfold connect_and_subscribe. destruct (env_connect (tr ++ [Connect])) as [u|e] eqn:E.
  - erewrite bind_ok_ok by (rewrite connection_new_eq, E; reflexivity).
    eexists [Connect; Subscribe], _. split; [|reflexivity].
    unfold mbind, io_bind, perform, ask. cbn. by rewrite <- (assoc_L (++)).
  - erewrite bind_ok_err by (rewrite connection_new_eq, E; reflexivity).
    by eexists [Connect], _.
Qed.

Lemma monitor_loop_gives_up n fuel config ctr fdata tr :
  no_events → n < fuel → n ≤ 10 →
  ∃ tr', monitor_loop fuel config
           {| focus_counter := ctr; resets := 10 - Z.of_nat n; mon_fdata := fdata |} tr
         = (tr ++ tr', Done {| focus_counter := ctr; resets := 10; mon_fdata := fdata |})
       ∧ connects tr' = n.
Proof.
  intros Hn. revert fuel tr. induction n as [|n IH]; intros [|fuel] tr Hf Hle; try lia;
    cbn [monitor_loop resets focus_counter mon_fdata]; unfold max_resets.
  - exists []. rewrite app_nil_r. by rewrite (proj2 (Z.leb_le _ _)) by lia.
  - rewrite (proj2 (Z.leb_gt _ _)) by lia.
    destruct (connect_and_subscribe_once tr) as (tr1 & r & E & H1).
    rewrite (io_bind_done _ _ _ _ _ E).
    replace (10 - Z.of_nat (S n) + 1)%Z with (10 - Z.of_nat n)%Z by lia.
    assert (∃ tr2, (match r with
      | Ok _ => r ← monitor_stream fuel config
                  {| focus_counter := ctr; resets := 10 - Z.of_nat n; mon_fdata := fdata |};
                let '(shut_down, st) := r : bool * MonitorState in
                if shut_down then mret st else monitor_loop fuel config st
      | Err _ => sleep 3000 ;; monitor_loop fuel config
                  {| focus_counter := ctr; resets := 10 - Z.of_nat n; mon_fdata := fdata |}
      end) (tr ++ tr1)
      = monitor_loop fuel config
          {| focus_counter := ctr; resets := 10 - Z.of_nat n; mon_fdata := fdata |}
          (tr ++ tr1 ++ tr2) ∧ connects tr2 = 0) as (tr2 & -> & H2).
    { destruct r as [u|e].
      - destruct fuel as [|fuel]; [lia|]. exists [NextEvent]. split; [|done].
        rewrite (io_bind_done _ _ _ _ _ (monitor_stream_empty _ _ _ _ Hn)).
        by rewrite (assoc_L (++)).
      - exists [Sleep 3000]. split; [|done]. unfold sleep, mbind, io_bind, perform. cbn.
        by rewrite (assoc_L (++)). }
    destruct (IH fuel (tr ++ tr1 ++ tr2)) as (tr3 & -> & H3); [lia..|].
    exists (tr1 ++ tr2 ++ tr3). rewrite !connects_app. rewrite !(assoc_L (++)). split; [done|lia].
Qed.

(** C38: When no event ever comes, whether because sway cannot be reached, refuses the
    subscription or ends the stream, the event thread terminates after exactly ten
    attempts to connect and leaves the focus data alone. *)
Theorem monitor_sway_events_gives_up fuel config fdata tr :
  no_events → 11 ≤ fuel →
  ∃ tr', monitor_sway_events fuel fdata config tr
         = (tr ++ tr', Done {| focus_counter := 0; resets := 10; mon_fdata := fdata |})
       ∧ connects tr' = 10.
Proof.
  intros Hn Hf. exact (monitor_loop_gives_up 10 fuel config 0 fdata tr Hn Hf (le_n 10)).
Qed.

(** C4: Each event that is counted does to the counter and the focus data what the
    corresponding action of the model of the interleaved threads does, after the
    windows have been tiled if the event asks for it.  So the theorems about that
    model hold for the daemon's event thread. *)
Theorem monitor_event_is_action seq_inhibit config ev a s tr tr1 :
  event_action ev = Some a →
  receiver_alive (sys_fdata s) = true →
  (event_tiles ev = true → maybe_auto_tile config tr = (tr1, Done tt)) →
  ∃ s', sys_step seq_inhibit a s = Some s'
  ∧ sys_lockin s' = sys_lockin s
  ∧ monitor_event config ev (sys_ctr s) (sys_fdata s) tr
    = (if event_tiles ev then tr1 else tr, Done (Some (sys_ctr s', sys_fdata s'))).
Proof.
  intros Hev Ha Ht. destruct ev as [[ch c]|[ch c]| |]; cbn in Hev; try done.
  - injection Hev as <-.
    destruct ch; cbn in Ht; try specialize (Ht eq_refl);
      (eexists; split; [reflexivity|split; [reflexivity|]]);
      cbn [monitor_event handle_window_event win_change win_container event_tiles];
      unfold mbind, io_bind; rewrite ?Ht, ?send_io_done by done; reflexivity.
  - destruct ch; cbn in *; destruct c as [c|]; cbn in *; try done; injection Hev as <-;
      eexists; (split; [reflexivity|split; [reflexivity|]]); cbn;
      unfold mbind, io_bind; cbn; rewrite ?send_io_done by done; reflexivity.
Qed.
End MonitorFacts.

(** ** Theorems about the command server *)
Section ServerFacts.
Context `{JsonCommands} `{RegexCrate} `{Floats} `{RtFormatCrate} `{Unicode} `{ConfigToml}.
Context (node_eqb : node → node → bool).

(** What the server does with a client before it accepts the next one. *)
Definition served `{Env} (delay : option Z) (m : io (Statics * FocusData)) : io (Statics * FocusData) :=
  r ← m;
  (if delay is Some _ then perform NotifyAutoNop else mret tt) ;;
  mret r.

(** The path on which a program listens, the path to which a client connects, and what it
    writes there. *)
Definition bound_path (tr : trace) : option string :=
  list.last (omap (λ e, match e with BindSocket p => Some p | _ => None end) tr).
Definition written_to (tr : trace) : option (string * string) :=
  match tr with [ConnectSocket p; WriteSocket text] => Some (p, text) | _ => None end.

(** A Unix socket with one client: it is accepted first, and gives what it has written, if
    it has connected to the path on which the program listens, and else nobody is. *)
Definition socket_connects (client : trace) (accept : trace → result (result string string) string)
    : Prop :=
  ∀ tr, AcceptClient ∉ tr →
    match bound_path tr, written_to client with
    | Some p, Some (p', text) =>
        if decide (p = p') then accept (tr ++ [AcceptClient]) = Ok (Ok text)
        else ∃ e, accept (tr ++ [AcceptClient]) = Err e
    | _, _ => ∃ e, accept (tr ++ [AcceptClient]) = Err e
    end.

(** C29: A command sent by the client arrives: if the client and the daemon are started in
    the same session (they see the same [XDG_RUNTIME_DIR] and [WAYLAND_DISPLAY]), the
    daemon can bind its socket and the client gets its text written, then the daemon's
    server accepts this client and executes exactly the command that was sent, and
    notifies the auto-nop thread if there is one, before it goes on to the next client. *)
Theorem client_request_roundtrip (cenv : Env) (denv : Env) (cio dio : DaemonEnv) cmd ctr fuel
    fdata delay tr :
  from_json (to_json cmd) = Some cmd →
  (∀ x, x ∈ ["XDG_RUNTIME_DIR"; "WAYLAND_DISPLAY"] → @env_var cenv x = @env_var denv x) →
  @send_swayr_cmd cenv cio _ cmd [] = (ctr, Done (Ok tt)) →
  socket_connects ctr (@env_accept dio) →
  (∀ tr, @env_bind dio tr = Ok tt) → AcceptClient ∉ tr →
  let path := @get_swayr_socket_path denv in
  @serve_client_requests denv dio _ _ _ _ _ _ node_eqb (S fuel) fdata delay tr
  = (r ← served delay (exec_swayr_cmd node_eqb fuel cmd Statics_init fdata);
     serve_loop node_eqb fuel delay (fst r) (snd r))
      (tr ++ [RemoveFile path; BindSocket path; AcceptClient]).
Proof.
  intros Hj Hvar Hsend Hsock Hbind Hfirst path. subst path.
  assert (@get_swayr_socket_path cenv = @get_swayr_socket_path denv) as Hpath.
  { unfold get_swayr_socket_path. by rewrite !Hvar by (repeat constructor). }
  assert (ctr = [ConnectSocket (@get_swayr_socket_path denv); WriteSocket (to_json cmd)]) as ->.
  { unfold send_swayr_cmd in Hsend. rewrite Hpath in Hsend.
    rewrite (io_bind_done _ _ _ _ _ eq_refl) in Hsend. unfold bind_ok in Hsend.
    apply io_bind_inv in Hsend as (tr1 & [[]|e] & [= <- _] & E); [|done].
    by injection E as <- _. }
  unfold serve_client_requests.
  rewrite !(io_bind_done (perform _) _ _ _ _ eq_refl).
  rewrite (io_bind_done _ _ _ _ (Ok tt)) by (unfold ask; by rewrite Hbind).
  rewrite <- !(assoc_L (++)). cbn [app]. set (tr2 := tr ++ _).
  assert (env_accept (tr2 ++ [AcceptClient]) = Ok (Ok (to_json cmd))) as Ha.
  { specialize (Hsock tr2).
    assert (bound_path tr2 = Some (@get_swayr_socket_path denv)) as Eb.
    { unfold bound_path, tr2. rewrite omap_app. cbn [omap list_omap]. by rewrite last_snoc. }
    assert (AcceptClient ∉ tr2) as Hn2.
    { unfold tr2. rewrite elem_of_app, !elem_of_cons, elem_of_nil. intuition discriminate. }
    specialize (Hsock Hn2).
    rewrite Eb in Hsock. cbn [written_to] in Hsock. by rewrite decide_True in Hsock. }
  replace (tr ++ [RemoveFile _; BindSocket _; AcceptClient]) with (tr2 ++ [AcceptClient])
    by (unfold tr2; by rewrite <- (assoc_L (++))).
  cbn [serve_loop]. rewrite (io_bind_done (perform _) _ _ _ _ eq_refl).
  rewrite (io_bind_done _ _ _ _ (Ok (Ok (to_json cmd)))) by (unfold ask; by rewrite Ha).
  cbn [handle_client_request]. rewrite Hj. unfold served, mbind, io_bind.
  destruct (exec_swayr_cmd _ _ _ _ _ _) as [tr3 [r| |]]; try done. by destruct delay.
Qed.
End ServerFacts.

(** ** Theorems about the auto-nop thread *)

(** While the flag is set the last command is a Nop, or a notification is coming that
    resets the flag. *)
Definition nop_invariant (s : nop_state) : Prop :=
  nop_inhibit s = true →
  head (executed s) = Some Nop ∨ srv_at s = Notifying
  ∨ nop_at s = Waking false ∨ nop_at s = Holding false.

Lemma nop_invariant_step a s s' :
  nop_invariant s → nop_step a s = Some s' → (a = S_notify → ¬ loses_notification s) →
  nop_invariant s'.
Proof.
  unfold nop_invariant, loses_notification. intros Hi Hs Hl.
  destruct s as [p b q ex], a, q, p as [| |[]|[]], b; cbn in Hs; try done;
    injection Hs as <-; cbn in *; intuition congruence.
Qed.

Lemma nop_invariant_reachable s : nop_reachable s → nop_invariant s.
Proof.
  induction 1 as [|a s s' _ IH Hs Hl]; [by intros ?|]. by eapply nop_invariant_step.
Qed.

(** C16: As long as no notification is lost, the auto-nop thread ends every sequence:
    when the delay passes with no command, the last executed command is a Nop
    afterwards, at most that one command has been executed, and further delays
    execute nothing. *)
Theorem auto_nop_ends_sequence s :
  nop_reachable s → srv_at s = Accepting → nop_at s = AtLock →
  ∃ s', nop_run idle_delay s = Some s'
  ∧ head (executed s') = Some Nop
  ∧ (executed s' = executed s ∨ executed s' = Nop :: executed s)
  ∧ nop_run idle_delay s' = Some s'.
Proof.
  intros Hr Ha Hp. apply nop_invariant_reachable in Hr. unfold nop_invariant in Hr.
  destruct s as [p b q ex]; cbn in *; subst p q.
  destruct b; eexists; (split; [reflexivity|]); cbn; [|by auto].
  destruct (Hr eq_refl) as [?|[?|[?|?]]]; try done. by auto.
Qed.

(** Steps of the auto-nop thread alone, woken by the delay and not without a reason. *)
Definition idle_step (a : nop_step_name) : bool :=
  match a with N_wait | N_wake true | N_lock | N_act => true | _ => false end.

(** The flag is set and no notification is on its way to the thread. *)
Definition stays_inhibited (s : nop_state) : Prop :=
  nop_inhibit s = true ∧ nop_at s ≠ Waking false ∧ nop_at s ≠ Holding false.

Lemma idle_run_inhibited acts s s' :
  stays_inhibited s → forallb idle_step acts = true → nop_run acts s = Some s' →
  executed s' = executed s ∧ stays_inhibited s'.
Proof.
  revert s. induction acts as [|a acts IH]; intros s Hs Ha E; [by injection E as <-|].
  cbn in Ha. apply andb_true_iff in Ha as [Ha1 Ha2]. cbn [nop_run] in E.
  destruct (nop_step a s) as [s1|] eqn:E1; [|done]. cbn in E.
  assert (executed s1 = executed s ∧ stays_inhibited s1) as [<- Hs1]; [|by apply IH].
  destruct Hs as (Hb & H1 & H2). unfold stays_inhibited.
  destruct s as [p b q ex], a as [| | |[]| |], q, p as [| |[]|[]]; cbn in *; try done; subst b;
    injection E1 as <-; cbn; done.
Qed.


(** ** Witnesses *)
Section Witnesses.
Import Samples.

(** Sway with nothing to say, and a client that sends the text of a command. *)
Definition silent (text : string) : DaemonEnv := {|
  env_subscribe _ := Ok tt;
  env_next_event _ := None;
  env_bind _ := Ok tt;
  env_accept _ := Ok (Ok text);
  env_connect_socket _ := Ok tt;
  env_write_socket _ := Ok tt
|}.

(** A stand-in for serde: the [Debug] text of a command in quotes, which is serde's
    text for the commands without fields. *)
Definition debug_json : JsonCommands :=
  let text c := dq +:+ @command_debug plain_unicode c +:+ dq in {|
  to_json := text;
  from_json s := find (λ c, bool_decide (s = text c)) (Nop :: swayr_menu_commands)
|}.

Local Abbreviation env := (quiet_env sample_root).

Lemma monitor_sway_events_gives_up_witness :
  ∃ st, snd (@monitor_sway_events env (silent EmptyString) 11 idle_fdata Config_default []) = Done st
        ∧ resets st = 10%Z.
Proof.
  destruct (@monitor_sway_events_gives_up env (silent EmptyString) 11 Config_default idle_fdata []
    (λ _, eq_refl) (le_n 11)) as (tr' & E & _).
  eexists. rewrite E. by split.
Defined.

Lemma monitor_event_is_action_witness :
  ∃ s', sys_step true (A_focus 13) sys_init = Some s'.
Proof.
  edestruct (@monitor_event_is_action env true Config_default
    (EvWorkspace {| ws_change := WsFocus; ws_current := Some (tiled 13 "foot" true false) |})
    (A_focus 13) sys_init [] []) as (s' & E & _); [reflexivity|reflexivity|done|].
  by exists s'.
Defined.

(** The daemon's socket: the client's text for one accept, then nobody. *)
Definition one_client (client : trace) : DaemonEnv := {|
  env_subscribe _ := Ok tt;
  env_next_event _ := None;
  env_bind _ := Ok tt;
  env_accept tr :=
    if decide (length (filter (λ e, e = AcceptClient) tr) = 1) then
      match bound_path tr, written_to client with
      | Some p, Some (p', text) => if decide (p = p') then Ok (Ok text) else Err "nobody"
      | _, _ => Err "nobody"
      end
    else Err "nobody";
  env_connect_socket _ := Ok tt;
  env_write_socket _ := Ok tt
|}.

Definition client_trace : trace :=
  fst (@send_swayr_cmd env (silent EmptyString) debug_json Nop []).

Lemma client_request_roundtrip_witness :
  client_trace = [ConnectSocket "/tmp/swayr-unknown.sock"; WriteSocket (@to_json debug_json Nop)]
  ∧ ∃ statics fd, LAST_COMMAND statics = Unlocked Nop
    ∧ @serve_client_requests env (one_client client_trace) debug_json literal_regexes no_floats
        three_chars plain_unicode no_toml node_id_eqb 2 idle_fdata None []
      = ([RemoveFile "/tmp/swayr-unknown.sock"; BindSocket "/tmp/swayr-unknown.sock"; AcceptClient;
          AcceptClient], Done (statics, fd)).
Proof.
  pose proof (@client_request_roundtrip debug_json literal_regexes no_floats three_chars
    plain_unicode no_toml node_id_eqb env env (silent EmptyString) (one_client client_trace) Nop
    client_trace 1 idle_fdata None []) as E. cbv zeta in E.
  split; [reflexivity|].
  exists (unlocked Nop (reset true SwitchToMatchingData_new)), (sent_message Nop idle_fdata).
  split; [reflexivity|]. rewrite E.
  - reflexivity.
  - reflexivity.
  - reflexivity.
  - reflexivity.
  - intros tr Hn. unfold one_client. cbn [env_accept].
    assert (length (filter (λ e, e = AcceptClient) (tr ++ [AcceptClient])) = 1) as ->.
    { rewrite filter_app, filter_cons_True by done.
      assert (filter (λ e, e = AcceptClient) tr = []) as ->; [|done].
      induction tr as [|e tr IH]; [done|]. rewrite elem_of_cons in Hn.
      rewrite filter_cons_False by (intros ->; tauto). apply IH. tauto. }
    rewrite decide_True by done. unfold bound_path. rewrite omap_app, app_nil_r.
    destruct (list.last _), (written_to client_trace) as [[]|]; try (by eexists).
    case_decide; [done|by eexists].
  - reflexivity.
  - by intros ?%elem_of_nil.
Defined.

Lemma auto_nop_ends_sequence_witness :
  ∃ s', nop_run idle_delay nop_init = Some s' ∧ head (executed s') = Some Nop.
Proof.
  destruct (auto_nop_ends_sequence nop_init nop_reachable_init eq_refl eq_refl)
    as (s' & E & Hh & _).
  by exists s'.
Defined.
End Witnesses.
