(* ===== verification/Safety.v ===== *)
(** * No command panics (swayr/src/cmds.rs, tree.rs, util.rs)

    While sway is up and answers with well-formed trees, the menu program can be run
    and the configuration be loaded, no command panics, whatever the user selects or
    types, so that the daemon stays usable.  Whether a call panics or loops is told by
    [runs] of Hoare.v. *)

From S2P Require Import Prelude RString Regex Fmt Config Ipc Focus Sway Hoare Cfg.
From S2P Require Import Util Layout Tree Display Criteria Switch Cycle Handlers Exec Daemon.
From S2P Require Samples.

(** ** What is relied on *)

(** The patterns of the source, each with the number of its groups that take part in
    every match. *)
Definition fixed_patterns : list (string * nat) :=
  [(WM_CLASS_OR_ICON_RX, 2); (REV_DOMAIN_NAME_RX, 1); (DIGIT_AND_NAME, 0);
   (SPECIAL_WORKSPACE, 1); (SPECIAL_SWAY, 1); (APP_NAME_AND_VERSION_RX, 0);
   ("^__I_WONT_MATCH_A_💩__$", 0)].

Record PatternLaws `{RegexCrate} : Prop := {
  pattern_compiles p k : (p, k) ∈ fixed_patterns → is_Some (rx_new p);
  pattern_groups p k rx s c i :
    (p, k) ∈ fixed_patterns → rx_new p = Some rx → captures rx s = Some c → i ≤ k →
    is_Some (mjoin (c !! i));
  pattern_placeholders : ∃ rx, rx_new PLACEHOLDER_RX = Some rx ∧ PlaceholderLaws rx
}.

(** A tree as sway sends them: ids are unique, the types of the nodes are known,
    the root's children are outputs, and outside the scratchpad there is a focused
    workspace and each window is in a workspace. *)
Record sway_tree (root : node) : Prop := {
  sway_unique : unique_ids root;
  sway_typable : typable root;
  sway_outputs : Forall (λ o, node_type o = NodeType_Output) (nodes root);
  sway_current : ∃ ws, ws ∈ preorder (drop_scratchpads root)
    ∧ type_of ws = Type_Workspace ∧ existsb focused (preorder ws) = true;
  sway_in_workspace w : w ∈ preorder (drop_scratchpads root) → type_of w = Type_Window →
    ∃ ws, ws ∈ preorder (drop_scratchpads root) ∧ type_of ws = Type_Workspace ∧ w ∈ preorder ws
}.

Record Healthy `{Env} `{ConfigToml} : Prop := {
  healthy_connect tr : env_connect tr = Ok tt;
  healthy_tree tr : ∃ root, env_get_tree tr = Ok root ∧ sway_tree root;
  healthy_outputs tr : ∃ l, env_get_outputs tr = Ok l;
  healthy_menu tr : ∃ out, env_spawn tr = Ok out;
  healthy_home : is_Some (env_var "HOME");
  healthy_config tr : ∃ tr' cfg, load_swayr_config tr = (tr', Done cfg)
}.

(** ** Patterns *)
Section Patterns.
Context `{RegexCrate} (Hrx : PatternLaws) (loops : bool).

Lemma rx_unwrap_done p k :
  (p, k) ∈ fixed_patterns → ∃ rx, rx_unwrap p = Done rx ∧ rx_new p = Some rx.
Proof.
  intros Hp. destruct (pattern_compiles Hrx p k Hp) as [rx E].
  exists rx. unfold rx_unwrap. by rewrite E.
Qed.

Lemma group_done p k rx s c i :
  (p, k) ∈ fixed_patterns → rx_new p = Some rx → captures rx s = Some c → i ≤ k →
  ∃ g, group c i = Done g.
Proof.
  intros Hp Hc Hs Hi. destruct (pattern_groups Hrx p k rx s c i Hp Hc Hs Hi) as [g E].
  exists g. unfold group. by rewrite E.
Qed.

End Patterns.

(** ** Reading the desktop entries *)
Section Icons.
Context `{Env} `{RegexCrate} (Hrx : PatternLaws) (loops : bool).

Lemma runs_filter_io {A} (p : A → io bool) (P : A → Prop) l :
  (∀ x, runs loops (p x) (λ b, b = true → P x)) →
  runs loops (filter_io p l) (Forall P).
Proof.
  intros Hp. induction l as [|x l IH]; [apply runs_ret; constructor|].
  apply runs_bind. eapply runs_mono; [apply Hp|]. intros b Hb.
  apply runs_bind. eapply runs_mono; [exact IH|]. intros r Hr. apply runs_ret.
  destruct b; [constructor; auto|done].
Qed.

Lemma runs_desktop_entries_of dirs :
  runs loops (desktop_entries_of dirs) (Forall (λ e, extension e = Some "desktop")).
Proof.
  induction dirs as [|d dirs IH]; [apply runs_ret; constructor|].
  cbn [desktop_entries_of]. apply runs_bind. io_step. apply runs_bind.
  eapply (runs_mono _ _ (Forall (λ e, extension e = Some "desktop"))).
  - io_step; [|apply runs_ret; constructor]. apply runs_filter_io. intros path.
    io_step. io_step. apply runs_ret. intros [_ E]%andb_true_iff.
    by apply bool_decide_eq_true in E.
  - intros es Hes. apply runs_bind. eapply runs_mono; [exact IH|]. intros rest Hr.
    apply runs_ret. by apply Forall_app.
Qed.

Lemma runs_find_file l : safe loops (find_file l).
Proof. induction l as [|c l IH]; cbn [find_file]; io_steps; auto. Qed.

Lemma runs_scan_desktop_file rx dirs ls wm icon :
  rx_new WM_CLASS_OR_ICON_RX = Some rx → safe loops (scan_desktop_file rx dirs ls wm icon).
Proof.
  intros Hp. revert wm icon. induction ls as [|l ls IH]; intros wm icon; [by apply runs_ret|].
  cbn [scan_desktop_file]. destruct (is_some wm && is_some icon); [by apply runs_ret|].
  destruct (captures rx l) as [c|] eqn:E; [|apply IH].
  assert ((WM_CLASS_OR_ICON_RX, 2) ∈ fixed_patterns) as Hin by left.
  destruct (group_done Hrx _ _ _ _ _ 1 Hin Hp E ltac:(lia)) as [k ->].
  destruct (group_done Hrx _ _ _ _ _ 2 Hin Hp E ltac:(lia)) as [v ->].
  io_step. io_step. case_decide; io_step; io_step; [apply IH|].
  apply runs_bind. eapply runs_mono; [apply runs_find_file|]. intros f _. apply IH.
Qed.

Lemma add_icon_done rx e wm icon map :
  rx_new REV_DOMAIN_NAME_RX = Some rx → extension e = Some "desktop" →
  ∃ m, add_icon rx e wm icon map = Done m.
Proof.
  intros Hp He. unfold add_icon. destruct icon as [i|]; [|by eexists].
  unfold extension in He. unfold file_name_no_extension.
  destruct (file_name e) as [n|]; [|done]. cbn.
  destruct (captures rx _) as [c|] eqn:E; [|by eexists].
  assert ((REV_DOMAIN_NAME_RX, 1) ∈ fixed_patterns) as Hin by (right; left).
  destruct (group_done Hrx _ _ _ _ _ 1 Hin Hp E ltac:(lia)) as [k ->]. by eexists.
Qed.

Lemma runs_get_icon app_id dirs : safe loops (get_icon app_id dirs).
Proof.
  unfold get_icon. io_step. io_step. io_step; [by apply runs_ret|].
  apply runs_bind. unfold get_app_id_to_icon_map.
  destruct (rx_unwrap_done Hrx WM_CLASS_OR_ICON_RX 2 ltac:(left)) as (rx & -> & Hp).
  destruct (rx_unwrap_done Hrx REV_DOMAIN_NAME_RX 1 ltac:(right; left)) as (rx' & -> & Hp').
  do 4 io_step. apply runs_bind. eapply runs_mono; [apply runs_desktop_entries_of|].
  intros es Hes. eapply (runs_mono _ _ (λ _, True)); [|intros; io_steps].
  generalize (∅ : gmap string string) as map.
  induction Hes as [|e es He _ IH]; intros map; [by apply runs_ret|]. cbn [add_icons].
  io_step. io_step. io_step; [|apply IH].
  apply runs_bind. eapply runs_mono; [by apply runs_scan_desktop_file|]. intros r _.
  destruct (add_icon_done rx' e r.1 r.2 map Hp' He) as [m ->].
  io_step. io_step. apply IH.
Qed.
End Icons.

(** ** Lists of nodes *)
Section Lists.
Context (r : node) (Hu : unique_ids r) (Ht : typable r) (fdata : FocusData).

(** A display node of the tree, whose indent level fits its type. *)
Definition listed (d : DisplayNode) : Prop :=
  dnode d ∈ preorder r ∧ dtree d = get_tree r
  ∧ (indent_level d = WorkspacesZeroWindowsOne →
     type_of (dnode d) = Type_Workspace ∨ type_of (dnode d) = Type_Window).

(** A getter returns display nodes of the tree. *)
Definition lists (get : Tree → outcome (list DisplayNode)) : Prop :=
  ∃ ds, get (get_tree r) = Done ds ∧ Forall listed ds.

Lemma as_display_nodes_listed v lvl :
  Forall (λ n, n ∈ preorder r) v →
  (lvl = WorkspacesZeroWindowsOne →
   Forall (λ n, type_of n = Type_Workspace ∨ type_of n = Type_Window) v) →
  Forall listed (as_display_nodes (get_tree r) v lvl).
Proof.
  intros Hv Hl. apply Forall_fmap, Forall_forall. intros n Hn. rewrite Forall_forall in Hv.
  split_and!; [by apply Hv|done|]. cbn. intros E. specialize (Hl E).
  rewrite Forall_forall in Hl. by apply Hl.
Qed.

Lemma rotate_if_some_done v : ∃ v', rotate_if_some v = Done v' ∧ v' ≡ₚ v.
Proof.
  destruct v as [|n v]; [by exists []|]. exists (v ++ [n]).
  split; [apply rotate_if_some_cons|]. by rewrite Permutation_app_comm.
Qed.

Lemma of_type_sub m ty : m ∈ preorder r →
  Forall (λ n, n ∈ preorder r ∧ type_of n = ty) (filter (λ n, is_type ty n = true) (preorder m)).
Proof.
  intros Hm. apply Forall_forall. intros n [Hty Hn]%list_elem_of_filter.
  split; [by eapply preorder_trans|]. by apply bool_decide_eq_true in Hty.
Qed.

Lemma of_type_elem ty v :
  v ≡ₚ filter (λ n, is_type ty n = true) (preorder r) →
  Forall (λ n, n ∈ preorder r ∧ type_of n = ty) v.
Proof. intros ->. apply of_type_sub, preorder_self. Qed.

Lemma get_windows_Permutation :
  ∃ v, get_windows (get_tree r) fdata = Done (as_display_nodes (get_tree r) v (Fixed 0))
    ∧ v ≡ₚ filter (λ n, is_type Type_Window n = true) (preorder r).
Proof.
  unfold get_windows. rewrite sorted_nodes_of_type_done, bind_done by done.
  set (v := filter _ (preorder r)).
  destruct (split_urgent_spec fdata _ [] (sort_by_sorted (urgency_and_lru_cmp fdata) v))
    as (u & w & Ev & -> & _).
  destruct (rotate_if_some_done w) as (w' & -> & Hw). rewrite bind_done.
  eexists. split; [done|]. cbn [app]. by rewrite Hw, <-Ev, sort_by_Permutation.
Qed.

Lemma get_windows_listed :
  ∃ ds, get_windows (get_tree r) fdata = Done ds
    ∧ Forall listed ds ∧ Forall (λ d, type_of (dnode d) = Type_Window) ds.
Proof.
  destruct get_windows_Permutation as (v & E & Hall%of_type_elem).
  eexists. split; [exact E|]. split.
  - apply as_display_nodes_listed; [|done]. eapply Forall_impl; [exact Hall|]. by intros ? [].
  - apply Forall_fmap. eapply Forall_impl; [exact Hall|]. by intros ? [].
Qed.

Lemma get_windows_lists : lists (λ t, get_windows t fdata).
Proof. destruct get_windows_listed as (ds & E & Hl & _). by exists ds. Qed.

Lemma get_workspaces_lists : lists (λ t, get_workspaces t fdata).
Proof.
  unfold lists, get_workspaces. rewrite sorted_nodes_of_type_done, bind_done by done.
  destruct (rotate_if_some_done (sort_by (urgency_and_lru_cmp fdata)
    (filter (λ n, is_type Type_Workspace n = true) (preorder r)))) as (v & -> & Hv).
  eexists. split; [done|]. apply as_display_nodes_listed; [|done].
  rewrite sort_by_Permutation in Hv. apply of_type_elem in Hv.
  eapply Forall_impl; [exact Hv|]. by intros ? [].
Qed.

Lemma get_outputs_lists : lists Tree.get_outputs.
Proof.
  unfold lists, Tree.get_outputs. assert (root (get_tree r) = r) as ->.
  { unfold get_tree. by destruct (init_id_parent _ _ _). }
  rewrite iter_done, bind_done.
  rewrite (filter_o_done _ (λ n, is_type Type_Output n && negb (is_scratchpad n))).
  - eexists. split; [done|]. apply as_display_nodes_listed; [|done].
    apply Forall_forall. by intros n [_ Hn]%list_elem_of_filter.
  - intros n Hn. by rewrite (typable_elem r n Ht Hn).
Qed.

Lemma add_workspaces_and_windows_done first wss v :
  Forall (λ n, n ∈ preorder r ∧ type_of n = Type_Workspace) wss →
  Forall (λ n, n ∈ preorder r ∧ (type_of n = Type_Workspace ∨ type_of n = Type_Window)) v →
  ∃ v', add_workspaces_and_windows fdata first wss v = Done v'
    ∧ Forall (λ n, n ∈ preorder r ∧ (type_of n = Type_Workspace ∨ type_of n = Type_Window)) v'.
Proof.
  intros Hw. revert first v. induction Hw as [|ws wss [Hin Hty] _ IH]; intros first v Hv;
    [by exists v|].
  cbn [add_workspaces_and_windows]. unfold sorted_nodes_of_type_1.
  rewrite nodes_of_type_done, bind_done by (by eapply typable_sub). cbn [mbind outcome_bind].
  set (wins := sort_by_urgency_and_lru_time_1 _ _).
  assert (∀ wins', wins' ≡ₚ wins → Forall (λ n, n ∈ preorder r
    ∧ (type_of n = Type_Workspace ∨ type_of n = Type_Window)) (v ++ [ws] ++ wins')) as Hwins.
  { intros wins' ->. apply Forall_app. split; [done|]. constructor; [by eauto|].
    unfold wins, sort_by_urgency_and_lru_time_1. rewrite sort_by_Permutation.
    eapply Forall_impl; [by apply of_type_sub|]. intros n []. auto. }
  destruct (first && _) eqn:E; [|apply IH; by apply Hwins].
  apply andb_true_iff in E as [_ E%negb_true_iff%bool_decide_eq_false].
  rewrite rotate_left_done, bind_done.
  - apply IH, Hwins. by rewrite Permutation_app_comm, take_drop.
  - destruct wins; [done|cbn; lia].
Qed.

Lemma get_workspaces_and_windows_lists : lists (λ t, get_workspaces_and_windows t fdata).
Proof.
  unfold lists, get_workspaces_and_windows. rewrite sorted_nodes_of_type_done, bind_done by done.
  set (wss := sort_by _ _).
  assert (Forall (λ n, n ∈ preorder r ∧ type_of n = Type_Workspace) wss) as Hw
    by apply of_type_elem, sort_by_Permutation.
  destruct (add_workspaces_and_windows_done true wss [] Hw ltac:(constructor)) as (v & -> & Hv).
  eexists. split; [done|]. apply as_display_nodes_listed; [|intros _];
    (eapply Forall_impl; [exact Hv|]); by intros ? [].
Qed.

(** The subtrees of the nodes of one type. *)
Lemma subtrees_lists ty offset :
  lists (λ t, l ← sorted_nodes_of_type t ty fdata; v ← push_subtrees fdata l;
              Done (as_display_nodes t v (TreeDepth offset))).
Proof.
  unfold lists. rewrite sorted_nodes_of_type_done, bind_done, push_subtrees_done by done.
  eexists. split; [done|]. apply as_display_nodes_listed; [|done].
  apply Forall_forall. intros n (m & Hn & Hm)%list_elem_of_bind.
  rewrite elem_of_sort_by in Hm. apply list_elem_of_filter in Hm as [_ Hm].
  rewrite sorted_preorder_Permutation in Hn. by eapply preorder_trans.
Qed.

Lemma get_indent_level_done d : listed d → ∃ k, Tree.get_indent_level d = Done k.
Proof.
  intros (Hd & Etree & Hl). unfold Tree.get_indent_level.
  destruct (indent_level d) as [k| |o]; [by eexists| |].
  - rewrite (typable_elem r (dnode d) Ht Hd), bind_done.
    destruct (Hl eq_refl) as [-> | ->]; by eexists.
  - destruct (ancestors_exists r _ Hd) as [l Ha]. rewrite Etree.
    rewrite (tree_depth_done r Hu _ _ l) by (try done; by apply (ancestors_fuel r Hu (dnode d))).
    rewrite bind_done. by eexists.
Qed.

Lemma get_parent_node_of_type_ok d ty : listed d →
  ∃ l, ancestors r (dnode d) l
    ∧ get_parent_node_of_type (dtree d) (id (dnode d)) ty
      = Done (find (is_type ty) (dnode d :: l)).
Proof.
  intros (Hd & -> & _). destruct (ancestors_exists r _ Hd) as [l Ha]. exists l.
  split; [done|]. apply get_parent_node_of_type_from_done; try done.
  by apply (ancestors_fuel r Hu (dnode d)).
Qed.

Lemma get_parent_node_ok d : listed d → ∃ p, get_parent_node (dtree d) (wid d) = Done p.
Proof.
  intros (Hd & -> & _). destruct (ancestors_exists r _ Hd) as [l Ha]. exists (head l).
  by apply get_parent_node_done.
Qed.
End Lists.

(** ** The menu *)
Section Menu.
Context `{Env} `{RegexCrate} `{Floats} `{RtFormatCrate} `{Unicode} `{ConfigToml}.
Context (Hrx : PatternLaws) (He : Healthy) (loops : bool).

Lemma node_arms_done r d n o :
  unique_ids r → typable r → listed r d → node_arms d n = Some o → ∃ a, o = Done a.
Proof.
  intros Hu Ht Hd. unfold node_arms.
  destruct (get_parent_node_of_type_ok r Hu Ht d Type_Output Hd) as (l1 & _ & ->).
  destruct (get_parent_node_of_type_ok r Hu Ht d Type_Workspace Hd) as (l2 & _ & ->).
  repeat case_decide; intros; simplify_eq/=; by eexists.
Qed.

Lemma runs_app_icon n s dirs fallback : safe loops (app_icon n s dirs fallback).
Proof.
  unfold app_icon.
  repeat (apply runs_bind; apply (runs_mono _ _ (λ _, True));
    [repeat case_match; first [by apply runs_ret | by apply runs_get_icon]|intros ? _]).
  by apply runs_ret.
Qed.

Lemma format_getters_done cfg :
  ∃ indent html us ue dirs,
    get_format_indent cfg = Done indent ∧ get_format_html_escape cfg = Done html
    ∧ get_format_urgency_start cfg = Done us ∧ get_format_urgency_end cfg = Done ue
    ∧ get_format_icon_dirs (env_var "HOME") cfg = Done dirs
    ∧ ∀ t, ∃ f, format_of cfg t = Done f.
Proof.
  destruct (healthy_home He) as [h ->]. do 5 eexists.
  split_and!; try apply expect_or_else.
  - by rewrite icon_dirs_eq, tilde_expand_home.
  - intros []; eexists; try apply expect_or_else. reflexivity.
Qed.

Lemma runs_format_for_display r d cfg :
  unique_ids r → typable r → listed r d → safe loops (DisplayNode_format_for_display d cfg).
Proof.
  intros Hu Ht Hd. unfold DisplayNode_format_for_display.
  destruct (format_getters_done cfg) as (? & ? & ? & ? & ? & -> & -> & -> & -> & -> & Hfmt).
  destruct (rx_unwrap_done Hrx APP_NAME_AND_VERSION_RX 0 ltac:(do 5 right; left)) as (rx & -> & _).
  do 12 io_step. pose proof Hd as (Hin & _). rewrite (typable_elem r _ Ht Hin).
  destruct (Hfmt (type_of (dnode d))) as [fmt E].
  destruct (get_indent_level_done r Hu Ht d Hd) as [k ->].
  do 2 io_step. rewrite E. do 4 io_step.
  apply runs_bind. eapply runs_mono; [apply runs_app_icon|]. intros icon _.
  destruct (pattern_placeholders Hrx) as (prx & Hp & Hl).
  match goal with |- context [subst_placeholders ?a ?h ?s] =>
    destruct (subst_placeholders_total a h s prx Hp Hl
      (λ n o, node_arms_done r d n o Hu Ht Hd)) as [text ->] end.
  by io_steps.
Qed.

Lemma runs_load_swayr_config : safe loops load_swayr_config.
Proof. intros tr. by destruct (healthy_config He tr) as (tr' & cfg & ->). Qed.

Lemma runs_spawn_ok prog args stdin (Q : result string string → Prop) :
  (∀ out, Q (Ok out)) → runs loops (spawn prog args stdin) Q.
Proof.
  intros HQ. apply runs_request. intros tr. by destruct (healthy_menu He tr) as [out ->].
Qed.

Section Select.
Context {TS : Type} `{!DisplayFormat TS}.

(** The choices can be displayed. *)
Definition displayable (c : TS) : Prop := ∀ cfg, safe loops (format_for_display c cfg).

Lemma runs_format_choices cfg (choices : list TS) map strs (all : list TS) :
  Forall displayable choices → (∀ c, c ∈ choices → c ∈ all) →
  (∀ line c, map !! line = Some c → c ∈ all) →
  runs loops (format_choices cfg choices map strs)
    (λ r, ∀ line c, r.1 !! line = Some c → c ∈ all).
Proof.
  intros Hd. revert map strs. induction Hd as [|c choices Hc _ IH]; intros map strs Hall Hmap.
  { by apply runs_ret. }
  cbn [format_choices]. apply runs_bind. eapply runs_mono; [apply Hc|]. intros s _.
  apply IH; [intros; apply Hall; by right|]. intros line c'. rewrite add_choice_lookup.
  destruct (prints s line); [intros [= <-]; apply Hall; left|apply Hmap].
Qed.

(** The menu answers with one of the choices, or with other text. *)
Lemma runs_select_from_menu prompt choices :
  Forall displayable choices →
  runs loops (select_from_menu prompt choices)
    (λ r, match r with Ok c => c ∈ choices | Err _ => True end).
Proof.
  intros Hd. unfold select_from_menu. apply runs_bind.
  eapply runs_mono; [apply runs_load_swayr_config|]. intros cfg _.
  apply runs_bind. eapply runs_mono.
  { apply (runs_format_choices _ _ _ _ choices Hd); [done|].
    intros line c E. by rewrite lookup_empty in E. }
  intros [map strs] Hm. cbn in Hm.
  destruct (menu_getters cfg) as (ex & args & -> & ->). do 4 io_step.
  apply runs_bind, runs_spawn_ok. intros out. apply runs_ret.
  destruct (map !! pop out) as [c|] eqn:E; [by eapply Hm|done].
Qed.
End Select.

Lemma listed_displayable r ds :
  unique_ids r → typable r → Forall (listed r) ds → Forall displayable ds.
Proof.
  intros Hu Ht Hl. eapply Forall_impl; [exact Hl|]. intros d Hd cfg.
  by eapply runs_format_for_display.
Qed.
End Menu.

(** ** The commands *)
Section Commands.
Context `{Env} `{RegexCrate} `{Floats} `{RtFormatCrate} `{Unicode} `{ConfigToml}.
Context (Hrx : PatternLaws) (He : Healthy) (loops : bool).

Lemma runs_connection_new (Q : result () string → Prop) :
  Q (Ok tt) → runs loops connection_new Q.
Proof. intros HQ. apply runs_request. intros tr. by rewrite (healthy_connect He). Qed.

Lemma runs_run_sway_command_1 cmd : safe loops (run_sway_command_1 cmd).
Proof. apply runs_bind, runs_connection_new. io_steps. Qed.

Lemma runs_run_sway_command args : safe loops (run_sway_command args).
Proof. apply runs_run_sway_command_1. Qed.

Lemma runs_shared_connection : safe loops shared_connection.
Proof.
  unfold shared_connection. do 2 io_step. io_step; [by apply runs_ret|].
  do 4 io_step. rewrite (healthy_connect He). by apply runs_ret.
Qed.

(** The tree a command works on. *)
Definition well_formed (r : node) : Prop := unique_ids r ∧ typable r.

Lemma sway_tree_well_formed include_scratchpad root :
  sway_tree root → well_formed (if include_scratchpad : bool then root else drop_scratchpads root).
Proof.
  intros [Hu Ht _ _ _]. destruct include_scratchpad; split; try done.
  - by apply drop_scratchpads_unique.
  - by apply drop_scratchpads_typable.
Qed.

Lemma runs_get_root_node include_scratchpad :
  runs loops (get_root_node include_scratchpad) (λ r, ∃ root, sway_tree root
    ∧ r = if include_scratchpad then root else drop_scratchpads root).
Proof.
  unfold get_root_node. apply runs_bind. eapply runs_mono; [apply runs_shared_connection|].
  intros _ _. apply runs_bind, runs_request. intros tr.
  destruct (healthy_tree He tr) as (root & -> & Hr). apply runs_ret. eauto.
Qed.

(** ** What is done with a choice or with other text *)
Ltac run_command := first [apply runs_run_sway_command | apply runs_run_sway_command_1].

Lemma runs_focus_window_by_id i : safe loops (focus_window_by_id i).
Proof. run_command. Qed.

Lemma runs_create_workspace s : safe loops (create_workspace s).
Proof.
  unfold create_workspace.
  destruct (rx_unwrap_done Hrx DIGIT_AND_NAME 0) as (rx & -> & _); [decide_now|].
  do 3 io_step; run_command.
Qed.

Lemma runs_move_focused_to_workspace_1 s : safe loops (move_focused_to_workspace_1 s).
Proof.
  unfold move_focused_to_workspace_1.
  destruct (rx_unwrap_done Hrx DIGIT_AND_NAME 0) as (rx & -> & _); [decide_now|].
  do 3 io_step; run_command.
Qed.

Lemma chop_shortcut_done p s : (p, 1) ∈ fixed_patterns → ∃ t, chop_shortcut p s = Done t.
Proof.
  intros Hp. unfold chop_shortcut.
  destruct (rx_unwrap_done Hrx p 1 Hp) as (rx & -> & E). rewrite bind_done.
  destruct (captures rx s) as [c|] eqn:Ec; [|by eexists].
  by apply (group_done Hrx p 1 rx s c 1).
Qed.

Lemma runs_handle_non_matching_input s : safe loops (handle_non_matching_input s).
Proof.
  unfold handle_non_matching_input. io_step; [by apply runs_ret|].
  assert ((SPECIAL_SWAY, 1) ∈ fixed_patterns) as Hp by decide_now.
  destruct (rx_unwrap_done Hrx SPECIAL_SWAY 1 Hp) as (rx & -> & E). do 2 io_step.
  destruct (captures rx s) as [c|] eqn:Ec.
  - destruct (group_done Hrx _ _ _ _ _ 1 Hp E Ec ltac:(lia)) as [g ->]. do 2 io_step. run_command.
  - destruct (chop_shortcut_done SPECIAL_WORKSPACE s) as [ws Ews]; [decide_now|].
    unfold chop_workspace_shortcut. rewrite Ews. do 2 io_step. apply runs_create_workspace.
Qed.

Lemma runs_move_input s : safe loops (move_input s).
Proof.
  unfold move_input, chop_workspace_shortcut.
  destruct (chop_shortcut_done SPECIAL_WORKSPACE s) as [ws ->]; [decide_now|].
  do 2 io_step. apply runs_move_focused_to_workspace_1.
Qed.

Section Choice.
Context (n : node) (Hn : typable n).

Lemma typable_self : get_type n = Done (type_of n).
Proof. apply (typable_elem n n Hn), preorder_self. Qed.

Lemma runs_focus_choice : safe loops (focus_choice n).
Proof.
  unfold focus_choice. rewrite typable_self. do 2 io_step.
  destruct (type_of n); repeat (io_step; try run_command); run_command.
Qed.

Lemma runs_steal_choice : safe loops (steal_choice n).
Proof.
  unfold steal_choice. rewrite typable_self. do 2 io_step.
  destruct (type_of n); first [by apply runs_ret|run_command].
Qed.

Lemma runs_quit_choice kill : safe loops (quit_choice kill n).
Proof.
  unfold quit_choice. rewrite typable_self. do 2 io_step.
  assert (safe loops (l ← lift (iter n);
    for_each (λ win, t ← lift (get_type win);
      if decide (t = Type_Window) then quit_window_by_id (id win) else mret tt) l)) as Hall.
  { rewrite iter_done. do 3 io_step. rewrite (typable_elem n x Hn) by done.
    do 2 io_step. case_decide; [run_command|by apply runs_ret]. }
  destruct (type_of n); try (by apply runs_ret); [exact Hall..|].
  destruct kill; [|run_command]. unfold kill_process_by_pid. io_steps.
Qed.

Lemma runs_move_choice : safe loops (move_choice n).
Proof.
  unfold move_choice. rewrite typable_self. do 2 io_step.
  destruct (type_of n); try (by apply runs_ret);
    [case_match; run_command
    |case_match; [run_command|apply runs_move_focused_to_workspace_1]
    |unfold move_focused_to_container_or_window..];
    repeat (apply runs_bind; eapply runs_mono; [run_command|intros _ _]); run_command.
Qed.

Lemma runs_swap_choice : safe loops (swap_choice n).
Proof.
  unfold swap_choice. rewrite typable_self. do 2 io_step.
  destruct (type_of n); first [by apply runs_ret|run_command].
Qed.
End Choice.

(** ** Selecting a node *)
Lemma runs_select prompt r ds (k : result DisplayNode string → io ()) :
  well_formed r → Forall (listed r) ds →
  (∀ d, typable (dnode d) → safe loops (k (Ok d))) → (∀ s, safe loops (k (Err s))) →
  safe loops (c ← select_from_menu prompt ds; k c).
Proof.
  intros [Hu Ht] Hl Hok Herr. apply runs_bind. eapply runs_mono.
  { apply (runs_select_from_menu He loops). by eapply (listed_displayable Hrx He). }
  intros [d|s] Hd; [|apply Herr]. apply Hok. rewrite Forall_forall in Hl.
  destruct (Hl d Hd) as [Hin _]. by eapply typable_sub.
Qed.

Lemma runs_select_and_focus prompt r ds :
  well_formed r → Forall (listed r) ds → safe loops (select_and_focus prompt ds).
Proof.
  intros Hr Hl. eapply runs_select; [done..| |].
  - intros d Hd. by apply runs_focus_choice.
  - apply runs_handle_non_matching_input.
Qed.

Lemma runs_select_and_steal prompt r ds :
  well_formed r → Forall (listed r) ds → safe loops (select_and_steal prompt ds).
Proof.
  intros Hr Hl. eapply runs_select; [done..| |].
  - intros d Hd. by apply runs_steal_choice.
  - intros s. by apply runs_ret.
Qed.

Lemma runs_select_and_quit prompt kill r ds :
  well_formed r → Forall (listed r) ds → safe loops (select_and_quit prompt ds kill).
Proof.
  intros Hr Hl. eapply runs_select; [done..| |].
  - intros d Hd. by apply runs_quit_choice.
  - intros s. by apply runs_ret.
Qed.

Lemma runs_select_and_move_focused_to prompt r ds :
  well_formed r → Forall (listed r) ds → safe loops (select_and_move_focused_to prompt ds).
Proof.
  intros Hr Hl. eapply runs_select; [done..| |].
  - intros d Hd. by apply runs_move_choice.
  - apply runs_move_input.
Qed.

Lemma runs_with_nodes include_scratchpad get k :
  (∀ r, well_formed r → lists r get) →
  (∀ r ds, well_formed r → Forall (listed r) ds → safe loops (k ds)) →
  safe loops (with_nodes include_scratchpad get k).
Proof.
  intros Hget Hk. apply runs_bind. eapply runs_mono; [apply runs_get_root_node|].
  intros r (root & Hroot & Er).
  assert (well_formed r) as Hr by (rewrite Er; by apply sway_tree_well_formed).
  destruct (Hget r Hr) as (ds & -> & Hds). do 2 io_step. by eapply Hk.
Qed.
End Commands.

(** The getters, as the commands use them. *)
Create HintDb getters.
#[export] Hint Resolve get_windows_lists get_workspaces_lists get_outputs_lists
  get_workspaces_and_windows_lists : getters.
#[export] Hint Extern 1 (lists _ _) => apply subtrees_lists : getters.

(** ** The commands on lists of windows *)
Section Windows.
Context `{Env} `{RegexCrate} `{ConfigToml}.
Context (Hrx : PatternLaws) (He : Healthy) (loops : bool) (fdata : FocusData).

Lemma runs_current_windows :
  runs loops (current_windows fdata) (λ ds, ∃ r, well_formed r ∧ Forall (listed r) ds).
Proof.
  apply runs_bind. eapply runs_mono; [by apply runs_get_root_node|].
  intros r (root & Hroot & Er).
  assert (well_formed r) as Hr by (rewrite Er; by apply (sway_tree_well_formed false)).
  destruct (get_windows_lists r (proj2 Hr) fdata) as (ds & -> & Hds).
  eapply runs_lift; [done|]. eauto.
Qed.

Lemma parse_criteria_ok s : ∃ c, parse_criteria s = Done c.
Proof.
  destruct (pattern_compiles Hrx "^__I_WONT_MATCH_A_💩__$" 0) as [rx E]; [decide_now|].
  by apply (parse_criteria_done rx).
Qed.

Lemma eval_criterion_ok node_eqb r c w foc :
  well_formed r → listed r w → (∀ f, foc = Some f → listed r f) →
  ∃ b, eval_criterion node_eqb c w foc = Done b.
Proof.
  intros [Hu Ht] Hw Hf.
  assert (∀ d, listed r d → ∃ ws, workspace_of d = Done ws) as Hws.
  { intros d Hd. destruct (get_parent_node_of_type_ok r Hu Ht d Type_Workspace Hd)
      as (l & _ & E). by eexists. }
  induction c as [l IH|l IH|c [b IH]|c Hc] using Criterion_ind'.
  - cbn [eval_criterion]. induction IH as [|c l [b E] _ [b' IH]]; [by eexists|].
    cbn. rewrite E. destruct b; by eexists.
  - cbn [eval_criterion]. induction IH as [|c l [b E] _ [b' IH]]; [by eexists|].
    cbn. rewrite E. destruct b; by eexists.
  - cbn [eval_criterion]. rewrite IH. by eexists.
  - destruct (Hws w Hw) as [ws Ew].
    destruct c as [| | |v|v|v|v|v|rx|v|p|[rx|]|v| |]; try done; cbn [eval_criterion];
      try (by eexists); rewrite ?Ew; [by eexists|].
    destruct foc as [f|]; [|by eexists].
    destruct (Hws f (Hf f eq_refl)) as [wf ->]. by eexists.
Qed.

Lemma criterion_to_predicate_ok node_eqb r c ds w :
  well_formed r → Forall (listed r) ds → w ∈ ds →
  ∃ b, criterion_to_predicate node_eqb c ds w = Done b.
Proof.
  rewrite Forall_forall. intros Hr Hl Hw. eapply eval_criterion_ok; [done|by apply Hl|].
  intros f [Hin _]%find_Some. by apply Hl.
Qed.

(** A predicate on the windows of a list that never panics. *)
Definition total_on (ds : list DisplayNode) (pred : DisplayNode → outcome bool) : Prop :=
  ∀ w, w ∈ ds → ∃ b, pred w = Done b.

Lemma runs_focus_urgent_or_matching ds pred stm :
  total_on ds pred →
  safe loops (focus_urgent_or_matching_or_lru_window ds fdata pred stm).
Proof.
  intros [p Hp]%total_pred. unfold focus_urgent_or_matching_or_lru_window.
  destruct (pick_window_done ds fdata p pred Hp 0 stm) as ([target stm'] & _ & ->).
  do 2 io_step. destruct target; [|by apply runs_ret].
  apply runs_bind. eapply runs_mono; [by apply runs_focus_window_by_id|].
  intros _ _. by apply runs_ret.
Qed.

Lemma runs_focus_window_in_direction_1 ds dir pred :
  total_on ds pred → safe loops (focus_window_in_direction_1 ds dir fdata pred).
Proof.
  intros Hp. unfold focus_window_in_direction_1.
  destruct (window_in_direction_total ds dir fdata pred Hp) as [r ->]. do 2 io_step.
  destruct r; [by apply runs_focus_window_by_id|by apply runs_ret].
Qed.

(** A sequence command. *)
Lemma runs_switch pred stm :
  (∀ ds, total_on ds pred) →
  safe loops (ds ← current_windows fdata;
              focus_urgent_or_matching_or_lru_window ds fdata pred stm).
Proof.
  intros Hp. apply runs_bind. eapply runs_mono; [apply runs_current_windows|].
  intros ds _. by apply runs_focus_urgent_or_matching.
Qed.

Lemma runs_switch_to_matching node_eqb criteria stm :
  safe loops (switch_to_matching_or_urgent_or_lru_window node_eqb criteria stm fdata).
Proof.
  apply runs_bind. eapply runs_mono; [apply runs_current_windows|].
  intros ds (r & Hr & Hl). destruct (parse_criteria_ok criteria) as [[c|] ->]; do 2 io_step.
  - apply runs_focus_urgent_or_matching. intros w Hw. by eapply criterion_to_predicate_ok.
  - by apply runs_ret.
Qed.

Lemma runs_focus_matching node_eqb dir criteria :
  safe loops (focus_matching_window_in_direction node_eqb dir criteria fdata).
Proof.
  apply runs_bind. eapply runs_mono; [apply runs_current_windows|].
  intros ds (r & Hr & Hl). destruct (parse_criteria_ok criteria) as [[c|] ->]; do 2 io_step.
  - apply runs_focus_window_in_direction_1. intros w Hw. by eapply criterion_to_predicate_ok.
  - by apply runs_ret.
Qed.

(** The predicates of the cycling commands. *)
Definition total_on_trees (pred : DisplayNode → outcome bool) : Prop :=
  ∀ r d, well_formed r → listed r d → ∃ b, pred d = Done b.

Lemma always_true_total : total_on_trees always_true.
Proof. by eexists. Qed.

Lemma is_floating_win_total : total_on_trees is_floating_win.
Proof. by eexists. Qed.

Lemma is_child_of_tiled_container_ok r d : well_formed r → listed r d →
  ∃ b, is_child_of_tiled_container (dtree d) (wid d) = Done b.
Proof.
  intros [Hu _] Hd. destruct (get_parent_node_ok r Hu d Hd) as [p E].
  unfold is_child_of_tiled_container. rewrite E. by eexists.
Qed.

Lemma is_child_of_tabbed_or_stacked_container_ok r d : well_formed r → listed r d →
  ∃ b, is_child_of_tabbed_or_stacked_container (dtree d) (wid d) = Done b.
Proof.
  intros [Hu _] Hd. destruct (get_parent_node_ok r Hu d Hd) as [p E].
  unfold is_child_of_tabbed_or_stacked_container. rewrite E. by eexists.
Qed.

Lemma is_tiled_win_total : total_on_trees is_tiled_win.
Proof.
  intros r d Hr Hd. unfold is_tiled_win.
  destruct (negb _); [by eapply is_child_of_tiled_container_ok|by eexists].
Qed.

Lemma is_tabbed_or_stacked_win_total : total_on_trees is_tabbed_or_stacked_win.
Proof.
  intros r d Hr Hd. unfold is_tabbed_or_stacked_win.
  destruct (negb _); [by eapply is_child_of_tabbed_or_stacked_container_ok|by eexists].
Qed.

Lemma same_layout_pred_ok r d : well_formed r → listed r d →
  ∃ pred, same_layout_pred d = Done pred ∧ total_on_trees pred.
Proof.
  intros Hr Hd. unfold same_layout_pred.
  destruct (is_floating (dnode d)); [by eexists; split; [|apply is_floating_win_total]|].
  destruct (is_child_of_tabbed_or_stacked_container_ok r d Hr Hd) as [b1 ->]. rewrite bind_done.
  destruct b1; [by eexists; split; [|apply is_tabbed_or_stacked_win_total]|].
  destruct (is_child_of_tiled_container_ok r d Hr Hd) as [b2 ->]. rewrite bind_done.
  eexists. split; [done|]. destruct b2; [apply is_tiled_win_total|apply always_true_total].
Qed.

Lemma get_current_workspace_ok root :
  sway_tree root → ∃ ws, get_current_workspace (get_tree (drop_scratchpads root)) = Done ws.
Proof.
  intros [Hu Ht _ (ws & Hws & Hty & Hf) _]. unfold get_current_workspace.
  set (r := drop_scratchpads root) in *.
  assert (Tree.root (get_tree r) = r) as ->.
  { unfold get_tree. by destruct (init_id_parent _ _ _). }
  rewrite iter_done, bind_done.
  pose proof (drop_scratchpads_typable root Ht) as Htr. fold r in Htr.
  rewrite (find_o_done _ (λ n, is_type Type_Workspace n && existsb focused (preorder n))).
  - rewrite bind_done.
    destruct (find_is_Some (λ n, is_type Type_Workspace n && existsb focused (preorder n))
      (preorder r) ws Hws) as [w ->]; [|by exists w].
    unfold is_type. by rewrite Hty, Hf.
  - intros n Hn. rewrite (typable_elem r n Htr Hn), bind_done. unfold is_type.
    case_decide as E; [by rewrite bool_decide_true, is_current_done|].
    by rewrite bool_decide_false.
Qed.

(** A node's ancestors go through every node it is below. *)
Lemma ancestors_below r n l m :
  ancestors r n l → m ∈ preorder n → ∃ l', ancestors r m l' ∧ (m = n ∨ n ∈ l').
Proof.
  intros Hn. rewrite elem_of_preorder_rtc. revert m.
  apply (rtc_ind_r (λ m, ∃ l', ancestors r m l' ∧ (m = n ∨ n ∈ l'))).
  - eauto.
  - intros k m _ Hm (l' & Hk & Hin). exists (k :: l'). split; [by constructor|].
    right. apply elem_of_cons. destruct Hin as [->|]; auto.
Qed.

Lemma in_current_workspace_ok root cur_ws d :
  sway_tree root → listed (drop_scratchpads root) d → type_of (dnode d) = Type_Window →
  ∃ b, in_current_workspace (get_tree (drop_scratchpads root)) cur_ws d = Done b.
Proof.
  intros Hroot Hd Hty. destruct (sway_tree_well_formed false root Hroot) as [Hu Ht].
  set (r := drop_scratchpads root) in *. destruct Hd as (Hd & _ & _).
  destruct (sway_in_workspace root Hroot _ Hd Hty) as (ws & Hws & Hwty & Hin).
  destruct (ancestors_exists r ws Hws) as [l0 Hl0].
  destruct (ancestors_below r ws l0 _ Hl0 Hin) as (l & Hl & Hor).
  unfold in_current_workspace, get_parent_node_of_type, wid.
  rewrite (get_parent_node_of_type_from_done r Hu _ (dnode d) l)
    by (try done; by apply (ancestors_fuel r Hu (dnode d))).
  rewrite bind_done.
  destruct (find_is_Some (is_type Type_Workspace) (dnode d :: l) ws) as [w ->].
  - apply elem_of_cons. destruct Hor as [->|]; auto.
  - unfold is_type. by rewrite Hwty.
  - by eexists.
Qed.

Lemma runs_focus_window_in_direction dir consider pred :
  total_on_trees pred → safe loops (focus_window_in_direction dir consider fdata pred).
Proof.
  intros Hp. unfold focus_window_in_direction. apply runs_bind.
  eapply runs_mono; [by apply runs_get_root_node|]. intros r (root & Hroot & Er).
  pose proof (sway_tree_well_formed false root Hroot) as Hr. cbn in Hr. rewrite <-Er in Hr.
  destruct (get_windows_listed r (proj2 Hr) fdata) as (ds & -> & Hl & Hty).
  do 2 io_step. apply runs_bind. eapply (runs_mono _ _ (λ ds', ∀ d, d ∈ ds' → listed r d)).
  - rewrite Forall_forall in Hl, Hty. destruct consider; [by apply runs_ret|].
    rewrite Er. destruct (get_current_workspace_ok root Hroot) as [ws ->]. do 2 io_step.
    rewrite Er in Hl.
    destruct (total_pred ds (in_current_workspace (get_tree (drop_scratchpads root)) ws))
      as [p Hpd]; [intros d Hd; apply in_current_workspace_ok; auto|].
    eapply runs_lift; [by apply (filter_o_done _ p)|].
    intros d [_ Hd]%list_elem_of_filter. auto.
  - intros ds' Hds. apply runs_focus_window_in_direction_1. intros w Hw.
    by apply (Hp r); [|apply Hds].
Qed.

Lemma runs_focus_window_of_same_layout dir consider :
  safe loops (focus_window_of_same_layout_in_direction dir consider fdata).
Proof.
  apply runs_bind. eapply runs_mono; [apply runs_current_windows|].
  intros ds (r & Hr & Hl). destruct (focused_win ds) as [d|] eqn:Ef; [|by apply runs_ret].
  apply find_Some in Ef as [Hin _]. rewrite Forall_forall in Hl.
  destruct (same_layout_pred_ok r d Hr (Hl d Hin)) as (pred & -> & Hp). do 2 io_step.
  by apply runs_focus_window_in_direction.
Qed.
End Windows.

(** ** The commands on the current workspace *)
Section Layouts.
Context `{Env} `{ConfigToml} (He : Healthy) (loops : bool).

Lemma runs_move_away incl l fw mw :
  Forall typable1 l → safe loops (move_away incl l fw mw).
Proof.
  intros Hl. revert fw mw. induction Hl as [|w l Hw _ IH]; intros fw mw; [by apply runs_ret|].
  cbn [move_away]. rewrite Hw. do 2 io_step. case_decide; [|apply IH].
  destruct (negb incl && is_floating w); [apply IH|].
  apply runs_bind_ok, runs_con_run_command. intros [[]|e]; [apply IH|done].
Qed.

Lemma runs_put_back w : safe loops (put_back w).
Proof. unfold put_back. io_steps. Qed.

Lemma runs_place_windows shuffle wins placed : safe loops (place_windows shuffle wins placed).
Proof.
  revert placed. induction wins as [|w wins IH]; intros placed; [by apply runs_ret|].
  cbn [place_windows]. apply runs_bind_ok. eapply runs_mono; [apply runs_put_back|].
  intros [[]|e] _; [|done]. io_steps; apply IH.
Qed.

Lemma runs_insert_tiled shuffle wins : safe loops (insert_tiled shuffle wins).
Proof.
  unfold insert_tiled. do 2 io_step. io_step; [|done].
  do 2 io_step. io_step; [|done]. apply runs_bind. destruct shuffle.
  - io_step. apply runs_place_windows.
  - apply runs_ret, runs_place_windows.
Qed.

Lemma runs_insert_tabbed wins : safe loops (insert_tabbed wins).
Proof.
  unfold insert_tabbed. do 2 io_step. io_step; [|done].
  do 2 io_step. io_step; [|done]. io_step. apply runs_put_back.
Qed.

Lemma runs_relayout incl fn :
  (∀ wins, safe loops (fn wins)) → safe loops (relayout_current_workspace incl fn).
Proof.
  intros Hfn. apply runs_bind. eapply runs_mono; [by apply runs_get_root_node|].
  intros r (root & Hroot & Er).
  destruct (sway_tree_well_formed false root Hroot) as [_ Ht]. cbn in Ht. rewrite <-Er in Ht.
  rewrite iter_done. do 2 io_step.
  rewrite (filter_o_done _ (is_type Type_Workspace))
    by (intros n Hn; by apply has_type_done, (typable_elem r)). do 2 io_step.
  rewrite (find_o_done _ (λ w, existsb focused (preorder w)))
    by (intros n _; apply is_current_done). do 2 io_step.
  destruct (find _ _) as [ws|] eqn:Ews; [|by apply runs_ret].
  apply find_Some in Ews as [[_ Hws]%list_elem_of_filter _].
  apply runs_bind, runs_connection_new; [done|].
  rewrite iter_done. do 2 io_step. apply runs_bind_ok.
  eapply runs_mono; [by apply runs_move_away, (typable_sub r)|].
  intros [[fw mw]|e] _; [|done]. apply runs_bind_ok.
  eapply runs_mono; [apply Hfn|]. intros [[]|e] _; [|done]. io_steps.
Qed.

Lemma runs_tile_current_workspace floating shuffle :
  safe loops (tile_current_workspace floating shuffle).
Proof.
  apply runs_bind. eapply runs_mono; [apply runs_relayout, runs_insert_tiled|].
  intros _ _. by apply runs_ret.
Qed.

Lemma runs_tab_current_workspace floating : safe loops (tab_current_workspace floating).
Proof.
  apply runs_bind. eapply runs_mono; [apply runs_relayout, runs_insert_tabbed|].
  intros _ _. by apply runs_ret.
Qed.

Lemma runs_toggle_tab_tile floating : safe loops (toggle_tab_tile_current_workspace floating).
Proof.
  apply runs_bind. eapply runs_mono; [by apply runs_get_root_node|].
  intros r (root & Hroot & Er).
  destruct (sway_tree_well_formed false root Hroot) as [_ Ht]. cbn in Ht. rewrite <-Er in Ht.
  rewrite nodes_of_type_done by done. do 2 io_step.
  rewrite (find_o_done _ (λ w, existsb focused (preorder w)))
    by (intros n _; apply is_current_done). do 2 io_step.
  destruct (sway_current root Hroot) as (ws & Hws & Hty & Hf). rewrite <-Er in Hws.
  destruct (find_is_Some (λ w, existsb focused (preorder w))
    (filter (λ m, is_type Type_Workspace m = true) (preorder r)) ws) as [w ->].
  - apply list_elem_of_filter. split; [|done]. unfold is_type. by rewrite Hty.
  - done.
  - cbn [unwrap expect]. do 2 io_step. case_decide;
      [apply runs_tile_current_workspace|apply runs_tab_current_workspace].
Qed.
End Layouts.

(** ** All commands *)

(** The two commands whose calls may not return. *)
Definition may_loop (cmd : SwayrCommand) : bool :=
  match cmd with ExecuteSwayrCommand | ConfigureOutputs => true | _ => false end.

Section AllCommands.
Context `{Env} `{RegexCrate} `{Floats} `{RtFormatCrate} `{Unicode} `{ConfigToml}.
Context (Hrx : PatternLaws) (He : Healthy).

Lemma swaymsg_displayable loops (cmds : list SwaymsgCmd) : Forall (displayable loops) cmds.
Proof. apply Forall_true. intros c cfg. by apply runs_ret. Qed.

Lemma runs_exec_swaymsg_command loops : safe loops exec_swaymsg_command.
Proof.
  apply runs_bind. eapply runs_mono.
  { apply (runs_select_from_menu He loops), swaymsg_displayable. }
  intros [c|s] _; [by apply runs_run_sway_command_1|].
  io_step; [by apply runs_ret|].
  destruct (chop_shortcut_done Hrx SPECIAL_SWAY s) as [t E]; [decide_now|].
  unfold chop_sway_shortcut. rewrite E. do 2 io_step. by apply runs_run_sway_command_1.
Qed.

Lemma runs_configure_outputs fuel : safe true (configure_outputs fuel).
Proof.
  apply runs_bind. eapply (runs_mono _ _ (λ _, True)).
  { apply runs_bind, runs_connection_new; [done|]. apply runs_bind, runs_request.
    intros tr. destruct (healthy_outputs He tr) as [l ->]. by apply runs_ret. }
  intros outputs _. generalize (output_commands outputs) as cmds. intros cmds.
  induction fuel as [|fuel IH]; [by intros tr|].
  cbn [configure_outputs_loop]. apply runs_bind. eapply runs_mono.
  { apply (runs_select_from_menu He true), swaymsg_displayable. }
  intros [c|s] _; [|by apply runs_ret].
  apply runs_bind. eapply runs_mono; [by apply runs_run_sway_command_1|]. intros _ _. apply IH.
Qed.

Lemma runs_keeping loops stm m : safe loops m → safe loops (keeping stm m).
Proof. intros Hm. apply runs_bind. eapply runs_mono; [exact Hm|]. intros _ _. by apply runs_ret. Qed.

(** A menu of nodes and what is done with the choice. *)
Ltac node_menu :=
  apply runs_with_nodes; [done|intros ? []; auto with getters|intros ? ? ? ?];
  first [ eapply (runs_select_and_focus Hrx He); eassumption
        | eapply (runs_select_and_steal Hrx He); eassumption
        | eapply (runs_select_and_quit Hrx He); eassumption
        | eapply (runs_select_and_move_focused_to Hrx He); eassumption ].

Lemma runs_swap_focused_with loops fdata : safe loops (swap_focused_with fdata).
Proof.
  apply runs_with_nodes; [done|intros ? []; auto with getters|]. intros r ds Hr Hl.
  eapply (runs_select Hrx He); [done..| |].
  - intros d Hd. by apply runs_swap_choice.
  - by apply runs_move_input.
Qed.

(** The arms of [run_command], by the function they call. *)
Ltac run_arm :=
  lazymatch goal with
  | |- runs _ (mret _) _ => by apply runs_ret
  | |- runs _ (focus_window_in_direction _ _ _ ?p) _ =>
      apply runs_focus_window_in_direction; [exact He|];
      first [ apply always_true_total | apply is_tiled_win_total
            | apply is_tabbed_or_stacked_win_total | apply is_floating_win_total ]
  | |- runs _ (focus_window_of_same_layout_in_direction _ _ _) _ =>
      by apply runs_focus_window_of_same_layout
  | |- runs _ (focus_matching_window_in_direction _ _ _ _) _ => by apply runs_focus_matching
  | |- runs _ (switch_to_matching_or_urgent_or_lru_window _ _ _ _) _ =>
      by apply runs_switch_to_matching
  | |- runs _ (switch_to_urgent_or_lru_window _ _) _ =>
      apply runs_switch; [exact He|intros ? ? _; by eexists]
  | |- runs _ (switch_to_app_or_urgent_or_lru_window _ _ _) _ =>
      apply runs_switch; [exact He|intros ? ? _; by eexists]
  | |- runs _ (switch_to_mark_or_urgent_or_lru_window _ _ _) _ =>
      apply runs_switch; [exact He|intros ? ? _; by eexists]
  | |- runs _ (tile_current_workspace _ _) _ => by apply runs_tile_current_workspace
  | |- runs _ (tab_current_workspace _) _ => by apply runs_tab_current_workspace
  | |- runs _ (toggle_tab_tile_current_workspace _) _ => by apply runs_toggle_tab_tile
  | |- runs _ (configure_outputs _) _ => apply runs_configure_outputs
  | |- runs _ exec_swaymsg_command _ => apply runs_exec_swaymsg_command
  | |- runs _ (swap_focused_with _) _ => apply runs_swap_focused_with
  | |- _ => node_menu
  end.

Lemma runs_run_command node_eqb fuel cmd fdata stm :
  safe (may_loop cmd) (run_command node_eqb fuel cmd fdata stm).
Proof.
  destruct cmd; cbn [run_command may_loop];
    lazymatch goal with |- runs _ (keeping _ _) _ => apply runs_keeping | _ => idtac end.
  all: run_arm.
Qed.

(** What a command leaves for the next one. *)
Definition ready (cmd : SwayrCommand) (fdata : FocusData) (r : Statics * FocusData) : Prop :=
  ∃ stm, r = (unlocked cmd stm, sent_message cmd fdata).

Lemma runs_exec_swayr_cmd node_eqb fuel cmd last stm fdata :
  receiver_alive fdata = true →
  runs (may_loop cmd) (exec_swayr_cmd node_eqb (S fuel) cmd (unlocked last stm) fdata)
    (ready cmd fdata).
Proof.
  intros Ha. destruct (decide (cmd = ExecuteSwayrCommand)) as [->|Hne].
  - cbn [exec_swayr_cmd unlocked LAST_COMMAND SWITCH_TO_MATCHING_DATA lock may_loop].
    do 4 io_step. fold (message_of ExecuteSwayrCommand). rewrite send_message, Ha.
    do 2 io_step. apply runs_bind, runs_bind. eapply runs_mono.
    { apply (runs_select_from_menu He true). apply Forall_true. intros c cfg. by apply runs_ret. }
    intros [c|s] _; [|do 2 apply runs_ret; by eexists].
    intros tr. by destruct fuel.
  - intros tr. rewrite exec_swayr_cmd_unlocked by done. revert tr. apply runs_bind.
    eapply runs_mono; [apply runs_run_command|]. intros stm' _. apply runs_ret. by eexists.
Qed.
End AllCommands.

(** ** The daemon's threads *)
Section Threads.
Context `{Env} `{DaemonEnv} `{ConfigToml} (He : Healthy).

Lemma runs_tile_output res o :
  node_type o = NodeType_Output → typable o → safe false (tile_output res o).
Proof.
  intros Ho Ht. unfold tile_output. rewrite decide_True by done.
  destruct (res !! rect_width o) as [m|]; [|by apply runs_ret].
  rewrite iter_done. do 3 io_step. rewrite (typable_elem o x Ht) by done. do 2 io_step.
  case_decide; [|by apply runs_ret]. unfold tile_container.
  destruct (is_scratchpad x); [by apply runs_ret|]. io_step.
  assert (typable1 x0) as ->.
  { apply (typable_elem o); [done|]. eapply preorder_trans; [done|].
    apply preorder_child, elem_of_app. by left. }
  do 2 io_step. unfold tile_window. io_steps.
Qed.

Lemma runs_auto_tile res : safe false (auto_tile res).
Proof.
  apply runs_bind, runs_connection_new; [done|]. apply runs_bind, runs_request. intros tr.
  destruct (healthy_tree He tr) as (root & -> & Hr). io_step.
  pose proof (sway_outputs root Hr) as Ho. rewrite Forall_forall in Ho.
  apply runs_tile_output; [by apply Ho|]. eapply typable_sub; [apply (sway_typable root Hr)|].
  apply preorder_child, elem_of_app. by left.
Qed.

Lemma runs_maybe_auto_tile config : safe false (maybe_auto_tile config).
Proof.
  unfold maybe_auto_tile.
  assert (∃ b, is_layout_auto_tile config = Done b) as [b ->]
    by (eexists; apply expect_or_else).
  do 2 io_step. destruct b; [|by apply runs_ret].
  destruct (auto_tile_map_eq config) as (m & -> & _). do 2 io_step. apply runs_auto_tile.
Qed.

Lemma receiver_alive_ensure_id i fdata :
  receiver_alive (ensure_id i fdata) = receiver_alive fdata.
Proof. unfold ensure_id. by destruct (_ !! _). Qed.

Lemma runs_send_io fmsg fdata :
  receiver_alive fdata = true →
  runs false (send_io fmsg fdata) (λ fdata', receiver_alive fdata' = true).
Proof.
  intros Ha tr. rewrite send_io_done by done. cbn. unfold send.
  assert (receiver_alive match fmsg with
    | FocusEv fev => ensure_id (node_id fev) fdata | _ => fdata end = true) as ->; [|done].
  by destruct fmsg; rewrite ?receiver_alive_ensure_id.
Qed.

(** Sway sends the workspace with the events that are about one. *)
Definition complete_event (ev : Event) : Prop :=
  match ev with EvWorkspace e => ws_change e = WsOther ∨ is_Some (ws_current e) | _ => True end.

Lemma runs_monitor_event config ev ctr fdata :
  receiver_alive fdata = true → complete_event ev →
  runs false (monitor_event config ev ctr fdata)
    (λ r, match r with Some (_, fdata') => receiver_alive fdata' = true | None => ev = EvShutdown end).
Proof.
  intros Ha Hev. destruct ev as [[ch c]|[ch o]| |]; cbn [monitor_event].
  - apply runs_bind. apply (runs_mono _ _ (λ r, receiver_alive r.1 = true)).
    2: { intros [] ?. by apply runs_ret. }
    unfold handle_window_event. cbn [win_change win_container].
    destruct ch; try (by apply runs_ret); apply runs_bind;
      (eapply runs_mono; [apply runs_maybe_auto_tile|]); intros _ _;
      try (apply runs_ret; cbn; by rewrite ?receiver_alive_ensure_id); apply runs_bind;
      (eapply runs_mono; [by apply runs_send_io|]); intros ? ?; by apply runs_ret.
  - apply runs_bind. apply (runs_mono _ _ (λ r, receiver_alive r.1 = true)).
    2: { intros [] ?. by apply runs_ret. }
    unfold handle_workspace_event. cbn [ws_change ws_current] in *.
    destruct ch; try (by apply runs_ret); destruct Hev as [?|[n Hn]]; try done;
      cbn in Hn; subst o; cbn [expect]; do 2 io_step; try (by apply runs_ret);
      apply runs_bind; (eapply runs_mono; [by apply runs_send_io|]); intros ? ?; by apply runs_ret.
  - by apply runs_ret.
  - by apply runs_ret.
Qed.
End Threads.

(** *** The daemon's threads in turn

    What comes to the daemon: a client's stream, an event of sway, the delay of the
    auto-nop thread; and the lock-in thread, which at any time takes messages and writes
    ticks as it likes. *)
Inductive daemon_input :=
| DI_client (stream : result string string)
| DI_event (ev : Event)
| DI_auto_nop
| DI_lockin (ticks : gmap Z Z) (messages : list FocusMessage).

Record daemon_state := { ds_statics : Statics; ds_fdata : FocusData; ds_counter : Z }.

Section DaemonRun.
Context `{Env} `{DaemonEnv} `{JsonCommands} `{RegexCrate} `{Floats} `{RtFormatCrate}
  `{Unicode} `{ConfigToml}.
Context (node_eqb : node → node → bool) (fuel : nat) (config : Config).

(** One turn of the thread to which the input comes; a shutdown of sway ends the event
    thread alone. *)
Definition daemon_turn (input : daemon_input) (st : daemon_state) : io daemon_state :=
  match input with
  | DI_client stream =>
      r ← handle_client_request node_eqb fuel stream (ds_statics st) (ds_fdata st);
      mret {| ds_statics := fst r; ds_fdata := snd r; ds_counter := ds_counter st |}
  | DI_event ev =>
      r ← monitor_event config ev (ds_counter st) (ds_fdata st);
      mret match r with
           | Some (ctr, fdata) =>
               {| ds_statics := ds_statics st; ds_fdata := fdata; ds_counter := ctr |}
           | None => st
           end
  | DI_auto_nop =>
      r ← exec_swayr_cmd node_eqb fuel Nop (ds_statics st) (ds_fdata st);
      mret {| ds_statics := fst r; ds_fdata := snd r; ds_counter := ds_counter st |}
  | DI_lockin ticks messages =>
      mret {| ds_statics := ds_statics st;
              ds_fdata := {| focus_tick_by_id := ticks; focus_chan := messages;
                             receiver_alive := receiver_alive (ds_fdata st) |};
              ds_counter := ds_counter st |}
  end.

Fixpoint daemon_turns (inputs : list daemon_input) (st : daemon_state) : io daemon_state :=
  match inputs with
  | [] => mret st
  | input :: inputs => st ← daemon_turn input st; daemon_turns inputs st
  end.

(** No client sends execute-swayr-command or configure-outputs, and sway sends the
    workspace with an event that is about one. *)
Definition admissible (input : daemon_input) : Prop :=
  match input with
  | DI_client stream =>
      ∀ text cmd, stream = Ok text → from_json text = Some cmd → may_loop cmd = false
  | DI_event ev => complete_event ev
  | DI_auto_nop | DI_lockin _ _ => True
  end.
End DaemonRun.

(** Both mutexes are free and the lock-in thread listens. *)
Definition daemon_ready (st : daemon_state) : Prop :=
  (∃ last stm, ds_statics st = unlocked last stm) ∧ receiver_alive (ds_fdata st) = true.

Section DaemonRunFacts.
Context `{Env} `{DaemonEnv} `{JsonCommands} `{RegexCrate} `{Floats} `{RtFormatCrate}
  `{Unicode} `{ConfigToml}.
Context (Hrx : PatternLaws) (He : Healthy) (node_eqb : node → node → bool).

Lemma runs_start_daemon :
  runs false start_daemon (λ d, receiver_alive (d_fdata d) = true).
Proof.
  unfold start_daemon. apply runs_bind. eapply runs_mono; [by apply runs_load_swayr_config|].
  intros config _. unfold get_focus_lockin_delay, get_misc_seq_inhibit.
  unfold Focus_default, Misc_default. cbn [lockin_delay seq_inhibit].
  rewrite !expect_or_else. do 4 io_step. by apply runs_ret.
Qed.

Lemma runs_ready fuel cmd last stm st :
  ds_statics st = unlocked last stm → receiver_alive (ds_fdata st) = true →
  may_loop cmd = false →
  runs false
    (r ← exec_swayr_cmd node_eqb (S fuel) cmd (ds_statics st) (ds_fdata st);
     mret {| ds_statics := fst r; ds_fdata := snd r; ds_counter := ds_counter st |})
    daemon_ready.
Proof.
  intros Hs Ha Hl. rewrite Hs. apply runs_bind.
  pose proof (runs_exec_swayr_cmd Hrx He node_eqb fuel cmd last stm (ds_fdata st) Ha) as Hr.
  rewrite Hl in Hr. eapply runs_mono; [exact Hr|].
  intros r [stm' ->]. apply runs_ret. split; [by eexists _, _|done].
Qed.

Lemma runs_daemon_turn fuel config input st :
  daemon_ready st → admissible input →
  runs false (daemon_turn node_eqb (S fuel) config input st) daemon_ready.
Proof.
  intros [(last & stm & Hs) Ha] Hi. destruct input as [stream|ev| |ticks messages];
    cbn [daemon_turn admissible] in *.
  - assert (runs false (mret {| ds_statics := (ds_statics st, ds_fdata st).1;
      ds_fdata := (ds_statics st, ds_fdata st).2; ds_counter := ds_counter st |}) daemon_ready)
      as Hsame by (apply runs_ret; split; [by eexists _, _|done]).
    destruct stream as [text|e]; cbn [handle_client_request]; [|by apply runs_bind, runs_ret].
    destruct (from_json text) as [cmd|] eqn:Ej; [|by apply runs_bind, runs_ret].
    eapply runs_ready; [done|done|]. by eapply Hi.
  - apply runs_bind. eapply runs_mono; [by apply (runs_monitor_event He)|].
    intros [[ctr fdata]|] Hr; apply runs_ret; split; try done; by eexists _, _.
  - by eapply runs_ready.
  - apply runs_ret. split; [by eexists _, _|done].
Qed.

Lemma runs_daemon_turns fuel config inputs st :
  daemon_ready st → Forall admissible inputs →
  runs false (daemon_turns node_eqb (S fuel) config inputs st) daemon_ready.
Proof.
  intros Hst Hi. revert st Hst.
  induction Hi as [|input inputs Hin _ IH]; intros st Hst; [by apply runs_ret|].
  cbn [daemon_turns]. apply runs_bind. eapply runs_mono; [by apply runs_daemon_turn|exact IH].
Qed.
End DaemonRunFacts.

(** ** Claims *)

(** C10: While sway is up and sends well-formed trees, a menu program can be run and the
    configuration loaded, no command panics, whatever the user selects or types.  All
    commands but execute-swayr-command and configure-outputs return; a command that
    returns leaves both mutexes unlocked and the lock-in thread's channel open, so that
    the same holds for the next command. *)
Theorem commands_never_panic `{Env} `{RegexCrate} `{Floats} `{RtFormatCrate} `{Unicode}
    `{ConfigToml} node_eqb fuel cmd last stm fdata tr :
  PatternLaws → Healthy → receiver_alive fdata = true →
  ∃ tr',
    (∃ stm', exec_swayr_cmd node_eqb (S fuel) cmd (unlocked last stm) fdata tr
             = (tr', Done (unlocked cmd stm', sent_message cmd fdata)))
    ∨ may_loop cmd = true
      ∧ exec_swayr_cmd node_eqb (S fuel) cmd (unlocked last stm) fdata tr = (tr', NoReturn).
Proof.
  intros Hrx He Ha. pose proof (runs_exec_swayr_cmd Hrx He node_eqb fuel cmd last stm fdata Ha tr) as Hr.
  destruct (exec_swayr_cmd _ _ _ _ _ _) as [tr' [r| |]]; cbn in Hr; [|done|by eauto].
  destruct Hr as [stm' ->]. exists tr'. left. by exists stm'.
Qed.


(** ** Witnesses *)
Section Witnesses.
Import Samples.

(** A crate in which every pattern stands for itself and every group is the match. *)
Definition grouped_regexes : RegexCrate := {|
  regex := string;
  rx_new p := Some p;
  is_match p s := contains p s;
  captures p s := if contains p s then Some (replicate 4 (Some p)) else None;
  rx_replace p s to := replace_first p to s;
  split_matches p s := ([], s)
|}.

Lemma grouped_pattern_laws : @PatternLaws grouped_regexes.
Proof.
  split.
  - by eexists.
  - intros p k rx s c i Hp _ Hc Hi. cbn in Hc. destruct (contains rx s); [|done].
    injection Hc as <-. exists rx.
    assert (i < 4).
    { assert (Forall (λ q, q.2 < 4) fixed_patterns) as Hall by decide_now.
      rewrite Forall_forall in Hall. specialize (Hall _ Hp). cbn in Hall. lia. }
    by do 4 (destruct i as [|i]; [done|]); lia.
  - exists PLACEHOLDER_RX. split; [done|]. split.
    + intros s ms rest [= <- <-]. done.
    + intros s ms rest [= <- <-]. constructor.
Qed.

Lemma sample_sway_tree : sway_tree sample_root.
Proof.
  split.
  - unfold unique_ids. decide_now.
  - apply sample_typable.
  - decide_now.
  - exists sample_ws1. split; [|by split].
    apply (list_elem_of_lookup_2 _ 4). reflexivity.
  - intros w Hw Hwin.
    assert (Forall (λ w, type_of w = Type_Window →
      Exists (λ ws, type_of ws = Type_Workspace ∧ id w ∈ id <$> preorder ws)
        (preorder (drop_scratchpads sample_root))) (preorder (drop_scratchpads sample_root)))
      as Hall by decide_now.
    rewrite Forall_forall in Hall.
    apply (Hall w Hw), Exists_exists in Hwin as (ws & Hws & Hwty & (v & Ev & Hv)%list_elem_of_fmap).
    exists ws. split_and!; [done..|].
    replace w with v; [done|]. apply (unique_ids_inj (drop_scratchpads sample_root)); try done.
    + unfold unique_ids. decide_now.
    + by eapply preorder_trans.
Qed.

Local Abbreviation env := (menu_env sample_root ("what?" +:+ nl)).

Lemma sample_healthy : @Healthy env no_toml.
Proof.
  split.
  - done.
  - intros tr. exists sample_root. split; [done|apply sample_sway_tree].
  - by eexists.
  - by eexists.
  - by eexists.
  - intros tr. do 2 eexists. reflexivity.
Qed.

Lemma commands_never_panic_witness :
  ∃ tr' stm', @exec_swayr_cmd env grouped_regexes no_floats three_chars plain_unicode no_toml
    node_id_eqb 1 SwitchTo (unlocked Nop SwitchToMatchingData_new) idle_fdata []
    = (tr', Done (unlocked SwitchTo stm', sent_message SwitchTo idle_fdata)).
Proof.
  destruct (@commands_never_panic env grouped_regexes no_floats three_chars plain_unicode no_toml
    node_id_eqb 0 SwitchTo Nop SwitchToMatchingData_new idle_fdata []) as (tr' & [[stm' E]|[E _]]).
  - apply grouped_pattern_laws.
  - apply sample_healthy.
  - reflexivity.
  - exists tr', stm'. exact E.
  - discriminate E.
Defined.

(** Two clients, one of them with nonsense, a new focus, the lock-in thread and a delay. *)
Definition sample_inputs : list daemon_input :=
  [DI_client (Ok (@to_json debug_json SwitchWindow));
   DI_event (EvWindow {| win_change := WinFocus; win_container := tiled 13 "foot" true false |});
   DI_lockin {[13%Z := 1%Z]} []; DI_client (Ok "nonsense"); DI_auto_nop].

End Witnesses.
