(* ===== verification/Session.v ===== *)
(** * A sequence of cycling commands, through all parts of the daemon

    The command thread executes next- or prev-window again and again, sway focuses the
    chosen window each time, and in between the event thread and the lock-in thread take
    any steps: with [seq_inhibit] every window is visited once.  This composes
    [exec_swayr_cmd], the shared focus data and their threads, the tree sway sends and
    the cycling commands. *)

From S2P Require Import Prelude RString Regex Fmt Config Ipc Focus Sway Hoare Cfg.
From S2P Require Import Util Layout Tree Display Criteria Switch Cycle Handlers Exec Safety.
From S2P Require Samples.

(** ** Sway *)

(** The tree with the focus on the node [f] only. *)
Fixpoint refocus (f : Z) (n : node) : node :=
  {| id := id n; name := name n; node_type := node_type n; layout := layout n;
     rect_width := rect_width n; focused := (id n =? f)%Z; urgent := urgent n;
     marks := marks n; app_id := app_id n; pid := pid n; shell := shell n;
     window_properties := window_properties n; nodes := refocus f <$> nodes n;
     floating_nodes := refocus f <$> floating_nodes n |}.

Definition focus_text (i : Z) : string := join " " [con_id_sel i; "focus"].

(** The focus after the commands of a trace. *)
Definition focus_command (ids : list Z) (f : Z) (cmd : string) : Z :=
  default f (find (λ i, bool_decide (cmd = focus_text i)) ids).

Definition focus_after (ids : list Z) (f : Z) (tr : trace) : Z :=
  foldl (focus_command ids) f (commands tr).

(** Sway can be reached, and focuses what it is asked to. *)
Record Obedient `{Env} (r : node) (f0 : Z) : Prop := {
  obedient_connect tr : env_connect tr = Ok tt;
  obedient_tree tr :
    env_get_tree tr = Ok (refocus (focus_after (id <$> preorder r) f0 tr) r)
}.

(** ** The threads between two commands *)

(** An action that is not possible is not done. *)
Definition sys_try (seq_inhibit : bool) (s : system) (a : action) : system :=
  default s (sys_step seq_inhibit a s).

(** No other command is executed, and no known window is closed. *)
Definition in_between (a : action) : bool :=
  match a with A_close _ | A_command _ => false | _ => true end.

Definition cycle_command (dir : Direction) : SwayrCommand :=
  match dir with
  | Forward => NextWindow AllWorkspaces
  | Backward => PrevWindow AllWorkspaces
  end.

Section Session.
Context `{Env} `{RegexCrate} `{Floats} `{RtFormatCrate} `{Unicode} `{ConfigToml}.
Context (node_eqb : node → node → bool).

(** The command is executed once for each list of actions, which follow it. *)
Fixpoint press (dir : Direction) (schedule : list (list action)) (statics : Statics)
    (s : system) : io (Statics * system) :=
  match schedule with
  | [] => mret (statics, s)
  | acts :: schedule =>
      r ← exec_swayr_cmd node_eqb 1 (cycle_command dir) statics (sys_fdata s);
      press dir schedule (fst r) (foldl (sys_try true) (with_fdata (snd r) (sys_ctr s) s) acts)
  end.
End Session.

(** ** Lemmas about the refocused tree *)
Section Refocus.
Context (f : Z).

Lemma refocus_id n : id (refocus f n) = id n.
Proof. by destruct n. Qed.
Lemma refocus_urgent n : urgent (refocus f n) = urgent n.
Proof. by destruct n. Qed.
Lemma refocus_focused n : focused (refocus f n) = (id n =? f)%Z.
Proof. by destruct n. Qed.
Lemma refocus_get_type n : get_type (refocus f n) = get_type n.
Proof. by destruct n. Qed.
Lemma refocus_type_of n : type_of (refocus f n) = type_of n.
Proof. unfold type_of. by rewrite refocus_get_type. Qed.
Lemma refocus_is_scratchpad n : is_scratchpad (refocus f n) = is_scratchpad n.
Proof. by destruct n. Qed.

Lemma refocus_preorder n : preorder (refocus f n) = refocus f <$> preorder n.
Proof.
  induction n as [n IHn IHf] using node_ind'.
  assert (∀ l, Forall (λ n, preorder (refocus f n) = refocus f <$> preorder n) l →
    reverse (refocus f <$> l) ≫= preorder = refocus f <$> (reverse l ≫= preorder)) as Hl.
  { induction 1 as [|c l Hc _ IH]; [done|].
    by rewrite fmap_cons, !reverse_cons, !bind_app, fmap_app, IH, !bind_singleton, Hc. }
  rewrite !preorder_eq, fmap_cons, fmap_app, <-!Hl by done. by destruct n.
Qed.

Lemma refocus_typable n : typable n → typable (refocus f n).
Proof.
  unfold typable. rewrite refocus_preorder, Forall_fmap. intros Ht.
  eapply Forall_impl; [exact Ht|]. intros m Hm. unfold typable1. cbn.
  by rewrite refocus_get_type, refocus_type_of.
Qed.

Lemma refocus_drop_scratchpads n :
  drop_scratchpads (refocus f n) = refocus f (drop_scratchpads n).
Proof.
  destruct n. unfold drop_scratchpads. cbn. f_equal. rewrite filter_fmap_list.
  f_equal. apply filter_ext_list. intros o. cbn. by rewrite refocus_is_scratchpad.
Qed.
End Refocus.

(** ** Lists that differ in their display nodes only *)

(** The same recency of all nodes. *)
Definition same_ticks (fd1 fd2 : FocusData) : Prop :=
  ∀ i, last_focus_tick fd1 i = last_focus_tick fd2 i.

#[export] Instance same_ticks_equivalence : Equivalence same_ticks.
Proof. split; red; unfold same_ticks; [done|congruence|congruence]. Qed.

#[export] Instance get_windows_proper t : Proper (same_ticks ==> eq) (get_windows t).
Proof.
  intros fd1 fd2 Hfd. unfold get_windows, sorted_nodes_of_type, sorted_nodes_of_type_1.
  destruct (nodes_of_type Type_Window (root t)) as [v| |]; [|done..]. cbn.
  unfold sort_by_urgency_and_lru_time_1.
  rewrite (sort_by_ext (urgency_and_lru_cmp fd1) (urgency_and_lru_cmp fd2)); [done|].
  intros x y. unfold urgency_and_lru_cmp. by rewrite !Hfd.
Qed.

Lemma filter_o_always_true l : filter_o always_true l = Done l.
Proof.
  rewrite (filter_o_done always_true (λ _, true)) by done. f_equal.
  induction l as [|x l IH]; [done|]. by rewrite filter_cons, decide_True, IH by done.
Qed.

Section FmapLists.
Context {A : Type} (h : A → DisplayNode) (isf : DisplayNode → bool).

Fixpoint after_in (fuel : nat) (test : A → bool) (cyc cur : list A) : outcome A :=
  match fuel with
  | O => NoReturn
  | S fuel =>
      r ← unwrap (cycle_next {| cycled := cyc; current := cur |});
      let '(x, it) := r : A * Cycle A in
      if test x then r ← unwrap (cycle_next it); Done r.1
      else after_in fuel test cyc (current it)
  end.

Lemma after_focused_fmap fuel (test : A → bool) (cyc cur : list A) :
  (∀ x, isf (h x) = test x) →
  after_focused fuel isf {| cycled := h <$> cyc; current := h <$> cur |}
  = h <$> after_in fuel test cyc cur.
Proof.
  intros Ht. revert cur. induction fuel as [|fuel IH]; intros cur; [done|].
  cbn [after_focused after_in]. destruct cur as [|x cur]; cbn.
  - destruct cyc as [|x cyc]; [done|]. cbn. rewrite Ht.
    destruct (test x); [by destruct cyc|]. apply (IH cyc).
  - rewrite Ht. destruct (test x); [|apply IH]. destruct cur; [by destruct cyc|done].
Qed.
End FmapLists.

Lemma existsb_fmap {A B} (g : A → B) (p : B → bool) l :
  existsb p (g <$> l) = existsb (λ x, p (g x)) l.
Proof. induction l as [|x l IH]; [done|]. cbn. by rewrite IH. Qed.

Lemma existsb_ext {A} (p q : A → bool) l : (∀ x, p x = q x) → existsb p l = existsb q l.
Proof. intros E. induction l as [|x l IH]; [done|]. cbn. by rewrite E, IH. Qed.

(** Going in a direction looks at the ids and the focus of the windows only. *)
Lemma window_in_direction_same {A} (h1 h2 : A → DisplayNode) (l : list A) dir fd1 fd2 :
  (∀ x, wid (h1 x) = wid (h2 x)) → (∀ x, focused (dnode (h1 x)) = focused (dnode (h2 x))) →
  same_ticks fd1 fd2 →
  window_in_direction (h1 <$> l) dir fd1 always_true
  = window_in_direction (h2 <$> l) dir fd2 always_true.
Proof.
  intros Hw Hf Hfd. unfold window_in_direction. rewrite !filter_o_always_true, !bind_done.
  rewrite <-(sort_by_fmap h1), <-(sort_by_fmap h2).
  rewrite (sort_by_ext (λ x y, recency_cmp fd1 (h1 x) (h1 y)) (λ x y, recency_cmp fd2 (h2 x) (h2 y)))
    by (intros x y; unfold recency_cmp; by rewrite !Hfd, !Hw).
  destruct (sort_by _ l) as [|x k]; [done|]. rewrite !fmap_cons. cbv beta iota zeta.
  rewrite <-!fmap_cons, !existsb_fmap.
  rewrite (existsb_ext (λ y, focused (dnode (h1 y))) (λ y, focused (dnode (h2 y)))) by done.
  set (d := match dir with Forward => reverse (x :: k) | Backward => x :: k end).
  assert (∀ h : A → DisplayNode,
    match dir with Forward => reverse (h <$> x :: k) | Backward => h <$> x :: k end = h <$> d) as Hd.
  { intros h. unfold d. destruct dir; [done|]. by rewrite fmap_reverse. }
  unfold cycle_of. rewrite !Hd.
  set (test := if negb (existsb (λ y, focused (dnode (h2 y))) (x :: k))
    then λ y, (wid (h2 y) =? wid (h2 x))%Z else λ y, focused (dnode (h2 y))).
  rewrite (after_focused_fmap h1 _ _ test), (after_focused_fmap h2 _ _ test), !length_fmap;
    [|by intros y; unfold test; destruct (existsb _ _); cbn; rewrite ?Hw..].
  destruct (after_in _ _ _ _); cbn; [by rewrite Hw|done..].
Qed.

(** ** The windows of the refocused tree *)
Section RefocusWindows.
Context (f : Z) (r : node).

Definition refocus_display (d : DisplayNode) : DisplayNode :=
  {| dnode := refocus f (dnode d); dtree := get_tree (refocus f r);
     indent_level := indent_level d |}.

Lemma split_urgent_refocus v x :
  split_urgent (refocus f <$> v) (refocus f <$> x)
  = prod_map (fmap (refocus f)) (fmap (refocus f)) (split_urgent v x).
Proof.
  revert x. induction v as [|n v IH]; intros x; [done|]. cbn. rewrite refocus_urgent.
  destruct (urgent n); [|done]. rewrite <-IH. f_equal. by rewrite fmap_app.
Qed.

Lemma get_windows_refocus fdata :
  typable r →
  get_windows (get_tree (refocus f r)) fdata
  = (λ ds : list DisplayNode, refocus_display <$> ds) <$> get_windows (get_tree r) fdata.
Proof.
  intros Ht. unfold get_windows.
  rewrite !sorted_nodes_of_type_done, !bind_done by (try done; by apply refocus_typable).
  rewrite refocus_preorder, filter_fmap_list.
  rewrite (filter_ext_list _ (λ n, is_type Type_Window n = true))
    by (intros n; unfold is_type; by rewrite refocus_type_of).
  rewrite <-(sort_by_fmap (refocus f)).
  rewrite (sort_by_ext _ (urgency_and_lru_cmp fdata))
    by (intros x y; unfold urgency_and_lru_cmp; by rewrite !refocus_urgent, !refocus_id).
  set (v := sort_by _ _). pose proof (split_urgent_refocus v []) as E. cbn in E. rewrite E.
  destruct (split_urgent v []) as [v' x]. cbn [prod_map fst snd].
  assert (∀ l, as_display_nodes (get_tree (refocus f r)) (refocus f <$> l) (Fixed 0)
    = refocus_display <$> as_display_nodes (get_tree r) l (Fixed 0)) as Ha.
  { intros l. unfold as_display_nodes. induction l as [|n l IH]; [done|].
    cbn. f_equal. exact IH. }
  assert (∀ l, rotate_if_some l = Done match l with [] => [] | n :: l => l ++ [n] end) as Hr.
  { intros [|n l]; [done|]. apply rotate_if_some_cons. }
  rewrite !Hr, !bind_done.
  match goal with |- _ = _ <$> Done ?l => change (_ <$> Done l) with (Done (refocus_display <$> l)) end.
  rewrite <-Ha. destruct v' as [|n v']; by rewrite ?fmap_cons, !fmap_app.
Qed.
End RefocusWindows.

(** ** The threads leave the ticks alone *)

(** Membership of messages in a channel. *)
Ltac chan :=
  rewrite ?elem_of_app, ?elem_of_cons, ?elem_of_nil in *; intuition congruence.

(** No tick changes: the lock-in thread inhibits the updates, or will do so before it
    can time out. *)
Definition frozen_soon (s : system) : Prop :=
  receiver_alive (sys_fdata s) = true
  ∧ (TickUpdateActivate ∉ focus_chan (sys_fdata s))
  ∧ match pos (sys_lockin s) with
    | Returned => False
    | Inner _ => TickUpdateInhibit ∈ focus_chan (sys_fdata s)
    | Outer => TickUpdateInhibit ∈ focus_chan (sys_fdata s)
               ∨ inhibit (sys_lockin s) = FocusInhibit
    end.

(** The command about to be executed will make it so. *)
Definition can_freeze (s : system) : Prop :=
  receiver_alive (sys_fdata s) = true
  ∧ (TickUpdateActivate ∉ focus_chan (sys_fdata s)) ∧ pos (sys_lockin s) ≠ Returned.

Lemma frozen_soon_can_freeze s : frozen_soon s → can_freeze s.
Proof. intros (Ha & Hc & Hp). split_and!; [done..|]. by destruct (pos _). Qed.

Lemma same_ticks_ensure_id i fd : same_ticks fd (ensure_id i fd).
Proof.
  intros j. unfold ensure_id, last_focus_tick, tick_of.
  destruct (focus_tick_by_id fd !! i) eqn:E; [done|]. cbn.
  destruct (decide (j = i)) as [->|]; [by rewrite lookup_insert_eq, E|].
  by rewrite lookup_insert_ne.
Qed.

Lemma ensure_id_other i fd :
  focus_chan (ensure_id i fd) = focus_chan fd
  ∧ receiver_alive (ensure_id i fd) = receiver_alive fd.
Proof. unfold ensure_id. by destruct (_ !! _). Qed.

Lemma frozen_try s a :
  frozen_soon s → in_between a = true →
  frozen_soon (sys_try true s a) ∧ same_ticks (sys_fdata s) (sys_fdata (sys_try true s a)).
Proof.
  intros Hf Ha. pose proof Hf as (Hal & Hc & Hp). unfold sys_try.
  destruct a as [i|i|i| |b| |]; try done; cbn [sys_step default].
  - split; [|apply same_ticks_ensure_id]. unfold frozen_soon. cbn.
    by destruct (ensure_id_other i (sys_fdata s)) as [-> ->].
  - unfold send. destruct (ensure_id_other i (sys_fdata s)) as [Ec Ea].
    cbn [node_id]. rewrite Ea, Hal. cbn. split; [|apply same_ticks_ensure_id].
    unfold frozen_soon. cbn. rewrite Ec. split_and!; [done|chan|].
    destruct (pos _); chan.
  - destruct (focus_chan (sys_fdata s)) as [|m chan] eqn:Ech; [by split|].
    unfold lockin_turn, lockin_step.
    destruct s as [[ts ch al] [p pe inh] ctr]. cbn in *. subst ch.
    destruct p as [|fev|], m as [| |fev'], inh; cbn;
      (split; [unfold frozen_soon; cbn; chan|try done]); chan.
  - destruct (focus_chan (sys_fdata s)) as [|m chan] eqn:Ech; [|by split].
    destruct (pos (sys_lockin s)); [by split|by apply elem_of_nil in Hp|done].
Qed.

Lemma frozen_tries s acts :
  frozen_soon s → Forall (λ a, in_between a = true) acts →
  frozen_soon (foldl (sys_try true) s acts)
  ∧ same_ticks (sys_fdata s) (sys_fdata (foldl (sys_try true) s acts)).
Proof.
  intros Hf Ha. revert s Hf. induction Ha as [|a acts Ha _ IH]; intros s Hf; [by split|].
  destruct (frozen_try s a Hf Ha) as [Hf1 Ht1]. destruct (IH _ Hf1) as [Hf2 Ht2].
  split; [done|]. cbn. by trans (sys_fdata (sys_try true s a)).
Qed.

Lemma cycle_command_message dir : message_of (cycle_command dir) = TickUpdateInhibit.
Proof. by destruct dir. Qed.

(** The command's message. *)
Lemma pressed_frozen dir s :
  can_freeze s →
  frozen_soon (with_fdata (sent_message (cycle_command dir) (sys_fdata s)) (sys_ctr s) s).
Proof.
  intros (Ha & Hc & Hp). unfold frozen_soon, sent_message. cbn.
  rewrite cycle_command_message. split_and!; [done|chan|].
  destruct (pos _); [|chan|done]. left. chan.
Qed.

(** ** What sway focuses *)
Lemma app_inv_tail_str a b c : a +:+ c = b +:+ c → a = b.
Proof.
  assert (∀ a b, String.length (a +:+ b) = String.length a + String.length b) as Hlen.
  { intros x y. induction x as [|ch x IH]; [done|]. cbn. by rewrite IH. }
  revert b. induction a as [|ch a IH]; intros [|d b] E; cbn in E.
  - done.
  - apply (f_equal String.length) in E. cbn in E. rewrite Hlen in E. lia.
  - apply (f_equal String.length) in E. cbn in E. rewrite Hlen in E. lia.
  - injection E as -> E. f_equal. by apply IH.
Qed.

Lemma focus_text_inj i j : focus_text i = focus_text j → i = j.
Proof.
  unfold focus_text, con_id_sel, join. cbn. intros [= E].
  apply app_inv_tail_str in E. by apply app_inv_tail_str, (inj pretty) in E.
Qed.

Lemma focus_command_text ids f i : i ∈ ids → focus_command ids f (focus_text i) = i.
Proof.
  intros Hi. unfold focus_command.
  destruct (find_is_Some (λ j, bool_decide (focus_text i = focus_text j)) ids i Hi) as [j E];
    [by apply bool_decide_eq_true|].
  rewrite E. apply find_Some in E as [_ E%bool_decide_eq_true%focus_text_inj]. done.
Qed.

Lemma drop_scratchpads_ids r m :
  m ∈ preorder (drop_scratchpads r) → id m ∈ id <$> preorder r.
Proof.
  intros [->|Hm]%preorder_drop_scratchpads; apply list_elem_of_fmap.
  - exists r. split; [done|apply preorder_self].
  - by exists m.
Qed.

(** ** One command *)
Section Press.
Context `{Env} `{RegexCrate} `{Floats} `{RtFormatCrate} `{Unicode} `{ConfigToml}.
Context (node_eqb : node → node → bool) (r : node) (f0 : Z).
Context (Ho : Obedient r f0) (Ht : typable r).
Local Abbreviation shown_tree := (drop_scratchpads r).
Local Abbreviation focus_of := (focus_after (id <$> preorder r) f0).

Lemma focus_window_by_id_commands i tr :
  ∃ tr', focus_window_by_id i tr = (tr', Done tt) ∧ commands tr' = commands tr ++ [focus_text i].
Proof.
  unfold focus_window_by_id, run_sway_command, run_sway_command_1.
  rewrite (io_bind_done _ _ _ _ _ (connection_new_eq _)), (obedient_connect _ _ Ho).
  rewrite (io_bind_done _ _ _ _ _ (con_run_command_eq _ _)). eexists. split; [done|].
  rewrite !commands_app. cbn. by rewrite app_nil_r.
Qed.

Lemma press_step dir f ds fd0 last stm fdata tr t :
  focus_of tr = f → receiver_alive fdata = true → same_ticks fdata fd0 →
  get_windows (get_tree shown_tree) fd0 = Done ds →
  window_in_direction (set_focus f <$> ds) dir fd0 always_true = Done (Some t) →
  ∃ tr' stm', exec_swayr_cmd node_eqb 1 (cycle_command dir) (unlocked last stm) fdata tr
    = (tr', Done (unlocked (cycle_command dir) stm', sent_message (cycle_command dir) fdata))
    ∧ commands tr' = commands tr ++ [focus_text t].
Proof.
  intros Hf Ha Hticks Hds Hwin.
  set (fd := sent_message (cycle_command dir) fdata).
  assert (same_ticks fd fd0) as Hfd by (by intros i; rewrite <-Hticks).
  assert (∃ tr', focus_window_in_direction dir AllWorkspaces fd always_true tr = (tr', Done tt)
    ∧ commands tr' = commands tr ++ [focus_text t]) as (tr' & E & Ec).
  { unfold focus_window_in_direction.
    assert (commands (tr ++ root_effects tr) = commands tr) as Hroot.
    { rewrite commands_app. unfold root_effects. destruct (decide _); cbn; by rewrite app_nil_r. }
    assert (focus_of (tr ++ root_effects tr) = f) as Hf'.
    { unfold focus_after. by rewrite Hroot. }
    rewrite (io_bind_done _ _ _ _ _ (get_root_node_done false (refocus f r) tr
      (or_intror (obedient_connect _ _ Ho _)) ltac:(by rewrite (obedient_tree _ _ Ho), Hf'))).
    cbv zeta. rewrite refocus_drop_scratchpads, (get_windows_proper _ _ _ Hfd), get_windows_refocus, Hds
      by (by apply drop_scratchpads_typable).
    rewrite (io_lift_done (_ <$> Done ds) _ (refocus_display f shown_tree <$> ds) _ eq_refl).
    rewrite (io_bind_done _ _ _ _ _ eq_refl). unfold focus_window_in_direction_1.
    rewrite (window_in_direction_same (refocus_display f shown_tree) (set_focus f) ds dir fd fd0).
    - rewrite Hwin, (io_lift_done _ _ _ _ eq_refl).
      destruct (focus_window_by_id_commands t (tr ++ root_effects tr)) as (tr' & E & Ec).
      exists tr'. by rewrite Ec, Hroot.
    - intros d. unfold wid. cbn. by rewrite refocus_id.
    - intros d. cbn. by rewrite refocus_focused.
    - done. }
  exists tr', (data_for (cycle_command dir) last stm). split; [|done].
  rewrite exec_swayr_cmd_unlocked by (by destruct dir). fold fd.
  destruct dir; cbn [cycle_command run_command]; unfold keeping;
    rewrite io_bind_assoc, (io_bind_done _ _ _ _ _ E); done.
Qed.

(** All commands of a sequence. *)
Lemma press_turn dir ds fd0 schedule last stm s tr f ts :
  get_windows (get_tree shown_tree) fd0 = Done ds →
  Forall (Forall (λ a, in_between a = true)) schedule →
  focus_of tr = f → can_freeze s → same_ticks (sys_fdata s) fd0 →
  turn (length schedule) ds dir fd0 always_true f = Done ts → length ts = length schedule →
  (∀ i, i ∈ ts → i ∈ id <$> preorder r) →
  ∃ tr' statics' s', press node_eqb dir schedule (unlocked last stm) s tr
    = (tr', Done (statics', s'))
    ∧ commands tr' = commands tr ++ (focus_text <$> ts)
    ∧ same_ticks (sys_fdata s') fd0.
Proof.
  intros Hds Hsch. revert last stm s tr f ts.
  induction Hsch as [|acts schedule Hacts _ IH]; intros last stm s tr f ts Hf Hs Hticks Hturn Hlen Hin.
  { injection Hturn as <-. eexists _, _, _. split; [done|]. cbn. by rewrite app_nil_r. }
  cbn [length turn] in Hturn. apply bind_done_inv in Hturn as ([t|] & Hwin & Hturn); [|by simplify_eq].
  apply bind_done_inv in Hturn as (ts' & Hturn & [= <-]).
  destruct (press_step dir f ds fd0 last stm (sys_fdata s) tr t) as (tr1 & stm1 & E & Ec);
    [done|by destruct Hs|done..|].
  cbn [press]. rewrite (io_bind_done _ _ _ _ _ E). cbn [fst snd].
  set (s1 := with_fdata _ _ _).
  destruct (frozen_tries s1 acts (pressed_frozen dir s Hs) Hacts) as [Hs2 Ht2].
  set (s2 := foldl (sys_try true) s1 acts) in *.
  destruct (IH (cycle_command dir) stm1 s2 tr1 t ts') as (tr' & st' & s' & E' & Ec' & Ht').
  - unfold focus_after. rewrite Ec, foldl_app. cbn. apply focus_command_text, Hin. left.
  - by apply frozen_soon_can_freeze.
  - transitivity (sys_fdata s1); [by symmetry|]. done.
  - done.
  - cbn in Hlen. lia.
  - intros i Hi. apply Hin. by right.
  - exists tr', st', s'. split; [done|]. split; [|done].
    rewrite Ec', Ec, <-(assoc_L (++)). done.
Qed.
End Press.

(** ** Claim *)

(** C2: With [seq_inhibit], the daemon as a whole cycles through all windows.  Let
    next-window (or prev-window) be executed as often as there are windows outside the
    scratchpad, sway focus what it is asked to, and the event thread and the lock-in
    thread take any steps in any order after each command: expired delays, late or
    missing events, focused and new nodes in whatever number.  When no activation is on
    its way at the start, each window is focused exactly once, the focus ends where it
    began, and no tick has changed. *)
Theorem cycling_session `{Env} `{RegexCrate} `{Floats} `{RtFormatCrate} `{Unicode} `{ConfigToml}
    node_eqb dir r f0 schedule last stm s tr :
  Obedient r f0 → unique_ids r → typable r → can_freeze s →
  Forall (Forall (λ a, in_between a = true)) schedule →
  let wins := id <$> filter (λ n, is_type Type_Window n = true) (preorder (drop_scratchpads r)) in
  let f := focus_after (id <$> preorder r) f0 tr in
  f ∈ wins → length schedule = length wins →
  ∃ tr' statics' s' ts,
    press node_eqb dir schedule (unlocked last stm) s tr = (tr', Done (statics', s'))
    ∧ commands tr' = commands tr ++ (focus_text <$> ts ++ [f])
    ∧ ts ++ [f] ≡ₚ wins ∧ NoDup (ts ++ [f])
    ∧ same_ticks (sys_fdata s') (sys_fdata s).
Proof.
  intros Ho Hu Ht Hs Hsch wins f Hf Hlen. set (fd0 := sys_fdata s).
  destruct (get_windows_Permutation (drop_scratchpads r) (drop_scratchpads_typable r Ht) fd0)
    as (v & Hds & Hv).
  set (ds := as_display_nodes _ v _) in *.
  assert (wid <$> ds = id <$> v) as Hwid.
  { unfold ds, as_display_nodes. by rewrite <-list_fmap_compose. }
  assert (wid <$> ds ≡ₚ wins) as Hperm by (by rewrite Hwid, Hv).
  assert (NoDup (wid <$> ds)) as Hids.
  { rewrite Hperm. pose proof (drop_scratchpads_unique r Hu) as Hud.
    eapply sublist_NoDup; [exact Hud|]. apply fmap_sublist, sublist_filter. }
  assert (order_ids ds fd0 (λ _, true) dir ≡ₚ wins) as Hord.
  { unfold order_ids. rewrite direction_order_Permutation, <-Hperm.
    apply fmap_Permutation. clear. induction ds as [|d l IH]; [done|].
    by rewrite filter_cons, decide_True, IH by done. }
  pose proof Hf as Hf'. rewrite <-Hord in Hf'. apply list_elem_of_split in Hf' as (l1 & l2 & E).
  pose proof (turn_full ds fd0 (λ _, true) Hids (λ _ _, eq_refl) dir l1 f l2 E) as Hturn.
  assert (l2 ++ l1 ++ [f] ≡ₚ order_ids ds fd0 (λ _, true) dir) as Hp.
  { rewrite E. by rewrite Permutation_app_comm, <-(assoc_L (++)). }
  rewrite (Permutation_length Hord), <-Hlen in Hturn.
  destruct (press_turn node_eqb r f0 Ho Ht dir ds fd0 schedule last stm s tr f (l2 ++ l1 ++ [f]))
    as (tr' & st' & s' & Ep & Ec & Htk); try done.
  - by rewrite Hp, Hord.
  - intros i Hi. rewrite Hp, Hord in Hi. apply list_elem_of_fmap in Hi as (n & -> & Hn).
    apply list_elem_of_filter in Hn as [_ Hn]. by apply drop_scratchpads_ids.
  - exists tr', st', s', (l2 ++ l1). rewrite <-(assoc_L (++)).
    split_and!; [done|done|by rewrite Hp| |done]. rewrite Hp, Hord, <-Hperm. done.
Qed.

(** ** Witness *)
Section Witness.
Import Samples.

(** Sway focuses what it is asked to. *)
Definition obedient_env : Env :=
  let base := quiet_env sample_root in {|
  env_connect := @env_connect base;
  env_get_tree tr := Ok (refocus (focus_after (id <$> preorder sample_root) 13 tr) sample_root);
  env_get_outputs := @env_get_outputs base;
  env_run_command := @env_run_command base;
  env_spawn := @env_spawn base;
  env_spawn_detached := @env_spawn_detached base;
  env_path_exists := @env_path_exists base;
  env_is_file := @env_is_file base;
  env_read_dir := @env_read_dir base;
  env_read_file := @env_read_file base;
  env_write_file := @env_write_file base;
  env_create_dir := @env_create_dir base;
  env_var := @env_var base;
  env_project_config_dir := @env_project_config_dir base;
  env_data_local_dir := @env_data_local_dir base;
  env_shuffle := @env_shuffle base;
  env_choose := @env_choose base
|}.

(** The events of the focus arrive late, the delay expires. *)
Definition sample_schedule : list (list action) :=
  [[A_recv; A_focus 21; A_recv]; [A_timeout]; [A_focus 15; A_focus 14; A_new 40]; [A_recv; A_recv];
   [A_recv; A_timeout; A_focus 13]].

Lemma cycling_session_witness :
  ∃ tr' statics' s' ts,
    @press obedient_env literal_regexes no_floats three_chars plain_unicode no_toml node_id_eqb
      Forward sample_schedule (unlocked Nop SwitchToMatchingData_new) sys_init []
    = (tr', Done (statics', s'))
    ∧ commands tr' = focus_text <$> ts ++ [13%Z] ∧ ts ++ [13%Z] ≡ₚ [21; 14; 13; 11; 15]%Z.
Proof.
  destruct (@cycling_session obedient_env literal_regexes no_floats three_chars plain_unicode
    no_toml node_id_eqb Forward sample_root 13 sample_schedule Nop SwitchToMatchingData_new sys_init
    []) as (tr' & st' & s' & ts & E & Ec & Hp & _).
  - by split.
  - unfold unique_ids. decide_now.
  - apply sample_typable.
  - split_and!; [done| |done]. intros Hin. by apply elem_of_nil in Hin.
  - decide_now.
  - decide_now.
  - reflexivity.
  - exists tr', st', s', ts. split; [exact E|]. split; [exact Ec|]. rewrite Hp. vm_compute.
    done.
Defined.
End Witness.
