(* ===== verification/BarModule.v ===== *)
(** * The interface of swayrbar's modules
    (swayrbar/src/module.rs, the types of swayrbar/src/config.rs)

    [BarModuleFn] is the trait, [BarModuleLaws] what the rest of swayrbar relies
    on, and [dyn_module] the boxed trait object. *)

From S2P Require Import Prelude RString Sway.

(** ** config.rs *)
Record ModuleConfig := {
  name : string;
  instance : string;
  format : string;
  html_escape : option bool;
  on_click : option (gmap string (list string))
}.

Record Config := { refresh_interval : Z; modules : list ModuleConfig }.

Definition is_html_escape (c : ModuleConfig) : bool := default false (html_escape c).

(** swaybar's [Block] as far as the modules set it; they leave its other fields, the
    short text, the colours, the borders and the like, empty. *)
Inductive Align := Left | Right | Center.
Inductive Markup := Pango | NoMarkup.

Record Block := {
  block_name : option string;
  block_instance : option string;
  full_text : string;
  align : option Align;
  markup : option Markup;
  separator : option bool
}.

Definition the_block (name : string) (cfg : ModuleConfig) (text : string) : Block :=
  {| block_name := Some name; block_instance := Some (instance cfg); full_text := text;
     align := Some Left; markup := Some Pango; separator := Some true |}.

(** ** module.rs *)
Class BarModuleFn (M : Type) := {
  get_config : M → ModuleConfig;
  build : option NameInstanceAndReason → M → io (M * Block);
  subst_args : list string → M → io (option (list string))
}.

Section Trait.
Context {M : Type} `{!BarModuleFn M}.

Definition get_on_click_map (m : M) (name instance : string) : option (gmap string (list string)) :=
  let cfg := get_config m in
  if bool_decide (name = BarModule.name cfg) && bool_decide (instance = BarModule.instance cfg)
  then on_click cfg else None.

Definition should_refresh (cfg : ModuleConfig) (nai : option NameInstanceAndReason)
    (periodic : bool) (reasons : list RefreshReason) : bool :=
  match nai with
  | None => periodic
  | Some (n, i, r) =>
      bool_decide (n = name cfg) && bool_decide (i = instance cfg)
      && existsb (λ x, bool_decide (x = r)) reasons
  end.
End Trait.

(** [Box<dyn BarModuleFn>]. *)
Record dyn_module := Dyn {
  dyn_type : Type;
  dyn_fn : BarModuleFn dyn_type;
  dyn_obj : dyn_type
}.
Arguments Dyn {_ _} _.

Definition dyn_config (m : dyn_module) : ModuleConfig := @get_config _ (dyn_fn m) (dyn_obj m).
Definition dyn_on_click_map (m : dyn_module) : string → string → option (gmap string (list string)) :=
  @get_on_click_map _ (dyn_fn m) (dyn_obj m).
Definition dyn_build (nai : option NameInstanceAndReason) (m : dyn_module) : io (dyn_module * Block) :=
  r ← @build _ (dyn_fn m) nai (dyn_obj m);
  mret (@Dyn _ (dyn_fn m) (fst r), snd r).
Definition dyn_subst_args (cmd : list string) (m : dyn_module) : io (option (list string)) :=
  @subst_args _ (dyn_fn m) cmd (dyn_obj m).

(** ** What the rest of swayrbar relies on

    A module says which events make it [refreshes]; for any other event it shows the
    text it has [cached] and does nothing.  It never changes its configuration, and
    an event that names another module does not refresh it once it is [started]. *)
Class BarModuleLaws (M : Type) `{!BarModuleFn M} := {
  refreshes : option NameInstanceAndReason → M → bool;
  cached : M → string;
  started : M → Prop;
  build_config nai m tr tr' m' b :
    build nai m tr = (tr', Done (m', b)) →
    get_config m' = get_config m ∧ block_instance b = Some (instance (get_config m))
    ∧ full_text b = cached m';
  build_cached nai m tr :
    refreshes nai m = false →
    ∃ b, build nai m tr = (tr, Done (m, b)) ∧ full_text b = cached m;
  refreshes_named n i r m :
    started m → (n, i) ≠ (name (get_config m), instance (get_config m)) →
    refreshes (Some (n, i, r)) m = false
}.

Lemma should_refresh_other cfg n i r periodic reasons :
  (n, i) ≠ (name cfg, instance cfg) →
  should_refresh cfg (Some (n, i, r)) periodic reasons = false.
Proof.
  intros Hne. cbn. destruct (decide (n = name cfg)) as [->|Hn]; [|by rewrite bool_decide_false].
  rewrite (bool_decide_true (name cfg = name cfg)) by done. cbn.
  rewrite bool_decide_false; [done|]. by intros ->.
Qed.
