(* ===== verification/BarModules.v ===== *)
(** * The modules of swayrbar (swayrbar/src/module/*.rs)

    window, sysinfo, battery, date, pactl and nmcli, each an instance of
    [BarModuleFn] and of [BarModuleLaws]. *)

From Stdlib Require Import SpecFloat.
From S2P Require Import Prelude RString Regex Fmt Ipc Sway BarModule.
From S2P Require Samples.

(** ** What the modules ask *)
Record Battery := { state_of_charge : f32; state_of_health : f32; battery_state : string }.

(** Programs answer with their exit code, if there is one, and their output, which is
    taken to be UTF-8.  The battery, sysinfo and chrono crates answer the requests to
    them; a battery's state is its [Debug] text; writing the time by a format fails when
    the format is no strftime format.  [set_order] is the order in which a hash set
    is iterated over. *)
Class BarEnv := {
  env_output : trace → result (option Z * string) string;
  env_local_time : trace → option string;
  env_battery_manager : trace → result unit string;
  env_batteries : trace → result (list (result Battery string)) string;
  env_refresh_battery : trace → Battery → result Battery string;
  set_order : gset string → list string;
  System : Type;
  new_all : System;
  env_refresh_cpu : trace → System → System;
  env_refresh_memory : trace → System → System;
  cpu_usage_of : System → f32;
  used_memory : System → Z;
  total_memory : System → Z;
  load_average : System → f64 * f64 * f64
}.

Section Modules.
Context `{Env} `{BarEnv} `{RegexCrate} `{Floats} `{RtFormatCrate}.

(** What every [build] does once it has decided whether to refresh. *)
Definition build_state {S} (NAME : string) (cfg : ModuleConfig) (text : S → string)
    (refresh : bool) (refresh_state : S → io S) (st : S) : io (S * Block) :=
  st ← (if refresh then refresh_state st else mret st);
  mret (st, the_block NAME cfg (text st)).

(** Every argument of a command, substituted. *)
Fixpoint subst_all (subst : string → outcome string) (cmd : list string)
    : outcome (list string) :=
  match cmd with
  | [] => Done []
  | a :: cmd => a ← subst a; cmd ← subst_all subst cmd; Done (a :: cmd)
  end.

(** *** window.rs *)
Definition window_NAME : string := "window".
Definition INITIAL_PID : Z := -128.
Definition NO_WINDOW_PID : Z := -1.
Definition UNKNOWN_PID : Z := -2.

Record WindowState := {
  w_name : string;
  w_app_name : string;
  w_pid : Z;
  w_cached_text : string
}.

Record BarModuleWindow := { window_config : ModuleConfig; window_state : WindowState }.

Definition window_arms (st : WindowState) (p : string) : option (outcome FmtArg) :=
  if decide (p = "title" ∨ p = "name") then Some (Done (Str (w_name st)))
  else if decide (p = "app_name") then Some (Done (Str (w_app_name st)))
  else if decide (p = "pid") then Some (Done (I32 (w_pid st)))
  else None.

Definition window_subst (s : string) (html_escape : bool) (st : WindowState) : outcome string :=
  subst_placeholders (window_arms st) html_escape s.

Definition is_focused_window (n : node) : outcome bool :=
  if focused n then has_type Type_Window n else Done false.

Definition window_refresh_state (fmt_str : string) (html_escape : bool) (st : WindowState)
    : io WindowState :=
  root ← get_root_node false;
  ns ← lift (iter root);
  focused_win ← lift (find_o is_focused_window ns);
  match focused_win with
  | Some win =>
      let st := {| w_name := get_name win; w_app_name := get_app_name win;
                   w_pid := default UNKNOWN_PID (pid win);
                   w_cached_text := w_cached_text st |} in
      text ← lift (window_subst fmt_str html_escape st);
      mret {| w_name := w_name st; w_app_name := w_app_name st; w_pid := w_pid st;
              w_cached_text := text |}
  | None =>
      mret {| w_name := EmptyString; w_app_name := EmptyString; w_pid := NO_WINDOW_PID;
              w_cached_text := EmptyString |}
  end.

Definition BarModuleWindow_create (cfg : ModuleConfig) : BarModuleWindow :=
  {| window_config := cfg;
     window_state := {| w_name := EmptyString; w_app_name := EmptyString;
                        w_pid := INITIAL_PID; w_cached_text := EmptyString |} |}.

Definition window_default_config (i : string) : ModuleConfig :=
  {| name := window_NAME; instance := i;
     format := "🪟 {title} — {app_name}"; html_escape := Some false;
     on_click := Some {[ "Left" := ["swayr"; "switch-to-urgent-or-lru-window"];
                         "Right" := ["kill"; "{pid}"] ]} |}.

Definition window_refreshes (nai : option NameInstanceAndReason) (m : BarModuleWindow) : bool :=
  bool_decide (w_pid (window_state m) = INITIAL_PID)
  || should_refresh (window_config m) nai false [SwayEvent].

#[export] Instance BarModuleWindow_fn : BarModuleFn BarModuleWindow := {|
  get_config := window_config;
  build nai m :=
    let cfg := window_config m in
    r ← build_state window_NAME cfg w_cached_text (window_refreshes nai m)
          (window_refresh_state (format cfg) (is_html_escape cfg)) (window_state m);
    mret ({| window_config := cfg; window_state := fst r |}, snd r);
  subst_args cmd m :=
    cmd ← lift (subst_all (λ arg, window_subst arg false (window_state m)) cmd);
    mret (Some cmd)
|}.

(** *** sysinfo.rs *)
Definition sysinfo_NAME : string := "sysinfo".

Record SysInfoState := {
  cpu_usage : f32;
  mem_usage : f64;
  load_avg_1 : f64;
  load_avg_5 : f64;
  load_avg_15 : f64;
  s_cached_text : string
}.

Record BarModuleSysInfo := {
  sysinfo_config : ModuleConfig;
  system : System;
  sysinfo_state : SysInfoState
}.

(** Whether the [Once]s have been called. *)
Record OnceRefresher := { cpu_once : bool; memory_once : bool }.
Definition OnceRefresher_new : OnceRefresher := {| cpu_once := false; memory_once := false |}.

(** The refreshing calls thread the system and the [Once]s. *)
Definition refresh_cpu (s : System * OnceRefresher) : io (System * OnceRefresher) :=
  let '(sys, upd) := s in
  if cpu_once upd then mret (sys, upd)
  else
    perform RefreshCpu ;;
    f ← ask env_refresh_cpu;
    mret (f sys, {| cpu_once := true; memory_once := memory_once upd |}).

Definition refresh_memory (s : System * OnceRefresher) : io (System * OnceRefresher) :=
  let '(sys, upd) := s in
  if memory_once upd then mret (sys, upd)
  else
    perform RefreshMemory ;;
    f ← ask env_refresh_memory;
    mret (f sys, {| cpu_once := cpu_once upd; memory_once := true |}).

Definition get_cpu_usage (s : System * OnceRefresher) : io (System * OnceRefresher * f32) :=
  s ← refresh_cpu s; mret (s, cpu_usage_of (fst s)).

Definition get_memory_usage (s : System * OnceRefresher) : io (System * OnceRefresher * f64) :=
  s ← refresh_memory s;
  mret (s, f64_div (f64_mul (f64_of_Z (used_memory (fst s))) (f64_of_Z 100))
                   (f64_of_Z (total_memory (fst s)))).

Inductive LoadAvg := One | Five | Fifteen.

Definition get_load_average (avg : LoadAvg) (s : System * OnceRefresher)
    : io (System * OnceRefresher * f64) :=
  s ← refresh_cpu s;
  let '(one, five, fifteen) := load_average (fst s) in
  mret (s, match avg with One => one | Five => five | Fifteen => fifteen end).

Definition sysinfo_arms (st : SysInfoState) (p : string) : option (outcome FmtArg) :=
  if decide (p = "cpu_usage") then Some (Done (F32 (cpu_usage st)))
  else if decide (p = "mem_usage") then Some (Done (F64 (mem_usage st)))
  else if decide (p = "load_avg_1") then Some (Done (F64 (load_avg_1 st)))
  else if decide (p = "load_avg_5") then Some (Done (F64 (load_avg_5 st)))
  else if decide (p = "load_avg_15") then Some (Done (F64 (load_avg_15 st)))
  else None.

Definition sysinfo_subst (s : string) (html_escape : bool) (st : SysInfoState) : outcome string :=
  subst_placeholders (sysinfo_arms st) html_escape s.

Definition sysinfo_refresh_state (fmt_str : string) (html_escape : bool)
    (s : System * SysInfoState) : io (System * SysInfoState) :=
  r ← get_cpu_usage (fst s, OnceRefresher_new);
  let '(s, cpu) := r : System * OnceRefresher * f32 in
  r ← get_memory_usage s;
  let '(s, mem) := r : System * OnceRefresher * f64 in
  r ← get_load_average One s;
  let '(s, l1) := r : System * OnceRefresher * f64 in
  r ← get_load_average Five s;
  let '(s, l5) := r : System * OnceRefresher * f64 in
  r ← get_load_average Fifteen s;
  let '(s, l15) := r : System * OnceRefresher * f64 in
  let st text := {| cpu_usage := cpu; mem_usage := mem; load_avg_1 := l1; load_avg_5 := l5;
                    load_avg_15 := l15; s_cached_text := text |} in
  text ← lift (sysinfo_subst fmt_str html_escape (st EmptyString));
  mret (fst s, st text).

Definition f32_0 : f32 := f32_of_nat 0.
Definition f64_0 : f64 := f64_of_Z 0.

Definition BarModuleSysInfo_create (cfg : ModuleConfig) : BarModuleSysInfo :=
  {| sysinfo_config := cfg; system := new_all;
     sysinfo_state := {| cpu_usage := f32_0; mem_usage := f64_0; load_avg_1 := f64_0;
                         load_avg_5 := f64_0; load_avg_15 := f64_0;
                         s_cached_text := EmptyString |} |}.

Definition sysinfo_default_config (i : string) : ModuleConfig :=
  {| name := sysinfo_NAME; instance := i;
     format := "💻 CPU: {cpu_usage:{:5.1}}% Mem: {mem_usage:{:5.1}}% Load: {load_avg_1:{:5.2}} / {load_avg_5:{:5.2}} / {load_avg_15:{:5.2}}";
     html_escape := Some false;
     on_click := Some {[ "Left" := ["foot"; "htop"] ]} |}.

#[export] Instance BarModuleSysInfo_fn : BarModuleFn BarModuleSysInfo := {|
  get_config := sysinfo_config;
  build nai m :=
    let cfg := sysinfo_config m in
    r ← build_state sysinfo_NAME cfg (s_cached_text ∘ snd) (should_refresh cfg nai true [])
          (sysinfo_refresh_state (format cfg) (is_html_escape cfg)) (system m, sysinfo_state m);
    mret ({| sysinfo_config := cfg; system := fst (fst r); sysinfo_state := snd (fst r) |}, snd r);
  subst_args cmd m :=
    cmd ← lift (subst_all (λ arg, sysinfo_subst arg false (sysinfo_state m)) cmd);
    mret (Some cmd)
|}.

(** *** battery.rs *)
Definition battery_NAME : string := "battery".

Record BatteryModState := {
  b_state_of_charge : f32;
  b_state_of_health : f32;
  b_state : string;
  b_cached_text : string
}.

Record BarModuleBattery := { battery_config : ModuleConfig; battery_mod_state : BatteryModState }.

(** The loop over the batteries. *)
Fixpoint refreshed_batteries (l : list (result Battery string))
    : io (result (list Battery) string) :=
  match l with
  | [] => mret (Ok [])
  | bat :: l =>
      bat ←? mret bat;
      perform RefreshBattery ;;
      f ← ask env_refresh_battery;
      bats ←? refreshed_batteries l;
      mret (Ok (match f bat with Ok bat => bat :: bats | Err _ => bats end))
  end.

Definition get_refreshed_batteries : io (result (list Battery) string) :=
  perform ListBatteries ;;
  l ←? ask env_batteries;
  refreshed_batteries l.

(** [sum::<f32>() / bats.len() as f32 * 100_f32]. *)
Definition percentage (values : list f32) : f32 :=
  f32_mul (f32_div (foldl f32_add (f32_of_nat 0) values) (f32_of_nat (length values)))
          (f32_of_nat 100).

(** The states as one text: the one they have in common, or all in brackets. *)
Definition states_text (bats : list Battery) : string :=
  let states := set_order (list_to_set (battery_state <$> bats)) in
  match states with
  | [s] => s
  | _ => "[" +:+ join ", " states +:+ "]"
  end.

Definition battery_arms (st : BatteryModState) (p : string) : option (outcome FmtArg) :=
  if decide (p = "state_of_charge") then Some (Done (F32 (b_state_of_charge st)))
  else if decide (p = "state_of_health") then Some (Done (F32 (b_state_of_health st)))
  else if decide (p = "state") then Some (Done (Str (b_state st)))
  else None.

Definition battery_subst (s : string) (html_escape : bool) (st : BatteryModState)
    : outcome string :=
  subst_placeholders (battery_arms st) html_escape s.

Definition battery_refresh_state (fmt_str : string) (html_escape : bool) (st : BatteryModState)
    : io BatteryModState :=
  perform BatteryManager ;;
  manager ← ask env_battery_manager;
  unwrap_ok "called `Result::unwrap()` on an `Err` value" manager ;;
  bats ← get_refreshed_batteries;
  match bats with
  | Ok bats =>
      let st text := {| b_state_of_charge := percentage (state_of_charge <$> bats);
                        b_state_of_health := percentage (state_of_health <$> bats);
                        b_state := states_text bats; b_cached_text := text |} in
      text ← lift (battery_subst fmt_str html_escape (st EmptyString));
      mret (st text)
  | Err _ => mret st
  end.

Definition BarModuleBattery_create (cfg : ModuleConfig) : BarModuleBattery :=
  {| battery_config := cfg;
     battery_mod_state := {| b_state_of_charge := f32_0; b_state_of_health := f32_0;
                             b_state := "Unknown"; b_cached_text := EmptyString |} |}.

Definition battery_default_config (i : string) : ModuleConfig :=
  {| name := battery_NAME; instance := i;
     format := "🔋 Bat: {state_of_charge:{:5.1}}%, {state}, Health: {state_of_health:{:5.1}}%";
     html_escape := Some false; on_click := None |}.

#[export] Instance BarModuleBattery_fn : BarModuleFn BarModuleBattery := {|
  get_config := battery_config;
  build nai m :=
    let cfg := battery_config m in
    r ← build_state battery_NAME cfg b_cached_text (should_refresh cfg nai true [])
          (battery_refresh_state (format cfg) (is_html_escape cfg)) (battery_mod_state m);
    mret ({| battery_config := cfg; battery_mod_state := fst r |}, snd r);
  subst_args cmd m :=
    cmd ← lift (subst_all (λ arg, battery_subst arg false (battery_mod_state m)) cmd);
    mret (Some cmd)
|}.

(** *** date.rs *)
Definition date_NAME : string := "date".

Record BarModuleDate := { date_config : ModuleConfig; date_cached_text : string }.

Definition chrono_format (s : string) : io string :=
  perform (LocalTime s) ;;
  t ← ask env_local_time;
  lift (expect "a Display implementation returned an error unexpectedly: Error" t).

Fixpoint chrono_format_all (cmd : list string) : io (list string) :=
  match cmd with
  | [] => mret []
  | a :: cmd => a ← chrono_format a; cmd ← chrono_format_all cmd; mret (a :: cmd)
  end.

Definition BarModuleDate_create (cfg : ModuleConfig) : BarModuleDate :=
  {| date_config := cfg; date_cached_text := EmptyString |}.

Definition date_default_config (i : string) : ModuleConfig :=
  {| name := date_NAME; instance := i; format := "⏰ %F %X";
     html_escape := Some false; on_click := None |}.

#[export] Instance BarModuleDate_fn : BarModuleFn BarModuleDate := {|
  get_config := date_config;
  build nai m :=
    let cfg := date_config m in
    r ← build_state date_NAME cfg (λ s : string, s) (should_refresh cfg nai true [])
          (λ _, chrono_format (format cfg)) (date_cached_text m);
    mret ({| date_config := cfg; date_cached_text := fst r |}, snd r);
  subst_args cmd m := cmd ← chrono_format_all cmd; mret (Some cmd)
|}.

(** *** pactl.rs *)
Definition pactl_NAME : string := "pactl".

Record PactlState := { volume : Z; muted : bool; p_cached_text : string }.

Record BarModulePactl := { pactl_config : ModuleConfig; pactl_state : PactlState }.

Definition VOLUME_RX : string := ".?* (\d+)%.*".

Definition run_pactl (args : list string) : io string :=
  perform (RunOutput "pactl" args) ;;
  r ← ask env_output;
  mret match r with Ok output => snd output | Err _ => EmptyString end.

(** A [u8]. *)
Definition get_volume : io Z :=
  output ← run_pactl ["get-sink-volume"; "@DEFAULT_SINK@"];
  rx ← lift (rx_unwrap VOLUME_RX);
  match captures rx output with
  | Some c =>
      digits ← lift (unwrap (mjoin (c !! 1)));
      lift (expect "called `Result::unwrap()` on an `Err` value" (parse_u8 digits))
  | None => mret 255%Z
  end.

Definition get_mute_state : io bool :=
  output ← run_pactl ["get-sink-mute"; "@DEFAULT_SINK@"];
  mret (contains "yes" output).

Definition pactl_arms (st : PactlState) (p : string) : option (outcome FmtArg) :=
  if decide (p = "volume") then Some (Done (U8 (volume st)))
  else if decide (p = "muted")
  then Some (Done (Str (if muted st then " muted" else EmptyString)))
  else None.

Definition pactl_subst (s : string) (html_escape : bool) (st : PactlState) : outcome string :=
  subst_placeholders (pactl_arms st) html_escape s.

Definition pactl_refresh_state (fmt_str : string) (html_escape : bool) (st : PactlState)
    : io PactlState :=
  v ← get_volume;
  m ← get_mute_state;
  text ← lift (pactl_subst fmt_str html_escape
                 {| volume := v; muted := m; p_cached_text := p_cached_text st |});
  mret {| volume := v; muted := m; p_cached_text := text |}.

Definition BarModulePactl_create (cfg : ModuleConfig) : BarModulePactl :=
  {| pactl_config := cfg;
     pactl_state := {| volume := 255; muted := false; p_cached_text := EmptyString |} |}.

Definition pactl_default_config (i : string) : ModuleConfig :=
  {| name := pactl_NAME; instance := i; format := "🔈 Vol: {volume:{:3}}%{muted}";
     html_escape := Some true;
     on_click := Some {[ "Left" := ["pavucontrol"];
                         "Right" := ["pactl"; "set-sink-mute"; "@DEFAULT_SINK@"; "toggle"];
                         "WheelUp" := ["pactl"; "set-sink-volume"; "@DEFAULT_SINK@"; "+1%"];
                         "WheelDown" := ["pactl"; "set-sink-volume"; "@DEFAULT_SINK@"; "-1%"] ]} |}.

#[export] Instance BarModulePactl_fn : BarModuleFn BarModulePactl := {|
  get_config := pactl_config;
  build nai m :=
    let cfg := pactl_config m in
    r ← build_state pactl_NAME cfg p_cached_text (should_refresh cfg nai true [ClickEvent])
          (pactl_refresh_state (format cfg) (is_html_escape cfg)) (pactl_state m);
    mret ({| pactl_config := cfg; pactl_state := fst r |}, snd r);
  subst_args cmd m :=
    cmd ← lift (subst_all (λ arg, pactl_subst arg false (pactl_state m)) cmd);
    mret (Some cmd)
|}.

(** *** nmcli.rs *)
Definition nmcli_NAME : string := "nmcli".

Record NmcliState := {
  n_cached_text : string;
  n_signal : option string;
  n_name : option string;
  n_bars : option string
}.

Record BarModuleNmcli := { nmcli_config : ModuleConfig; nmcli_state : NmcliState }.

Definition run_nmcli : io (result string string) :=
  perform (RunOutput "nmcli" (split " " "-c no -g IN-USE,SSID,SIGNAL,BARS dev wifi")) ;;
  output ← ask env_output;
  mret match output with
       | Err e => Err ("Failed to run nmcli: " +:+ e)
       | Ok (code, stdout) =>
           if decide (code = Some 0%Z) then Ok stdout
           else Err ("nmcli failed with status code " +:+ int_to_string (default (-1)%Z code))
       end.

Definition nmcli_arms (st : NmcliState) (p : string) : option (outcome FmtArg) :=
  if decide (p = "name") then Some (Done (Str (default "No wi-fi" (n_name st))))
  else if decide (p = "signal")
  then Some (Done (Str match n_signal st with
                       | None => EmptyString
                       | Some signal => " " +:+ signal +:+ "%"
                       end))
  else if decide (p = "bars")
  then Some (Done (Str match n_bars st with
                       | None => EmptyString
                       | Some bars => " " +:+ bars
                       end))
  else None.

Definition nmcli_subst (s : string) (html_escape : bool) (st : NmcliState) : outcome string :=
  subst_placeholders (nmcli_arms st) html_escape s.

(** The first line that starts with a star, cut at the colons. *)
Definition nmcli_parse (cached_text output : string) : outcome NmcliState :=
  match find (starts_with "*") (lines output) with
  | Some line =>
      let parts := split ":" line in
      name ← unwrap (parts !! 1);
      signal ← unwrap (parts !! 2);
      bars ← unwrap (parts !! 3);
      Done {| n_cached_text := cached_text; n_signal := Some signal; n_name := Some name;
              n_bars := Some bars |}
  | None =>
      Done {| n_cached_text := cached_text; n_signal := None; n_name := None; n_bars := None |}
  end.

Definition nmcli_refresh_state (fmt_str : string) (html_escape : bool) (st : NmcliState)
    : io NmcliState :=
  r ← run_nmcli;
  st ← match r with
       | Ok output => lift (nmcli_parse (n_cached_text st) output)
       | Err _ => mret st
       end;
  text ← lift (nmcli_subst fmt_str html_escape st);
  mret {| n_cached_text := text; n_signal := n_signal st; n_name := n_name st;
          n_bars := n_bars st |}.

Definition BarModuleNmcli_create (cfg : ModuleConfig) : BarModuleNmcli :=
  {| nmcli_config := cfg;
     nmcli_state := {| n_cached_text := EmptyString; n_signal := None; n_name := None;
                       n_bars := None |} |}.

Definition nmcli_default_config (i : string) : ModuleConfig :=
  {| name := nmcli_NAME; instance := i; format := "📡 Wi-fi: {name}{bars}{signal}";
     html_escape := Some false; on_click := None |}.

#[export] Instance BarModuleNmcli_fn : BarModuleFn BarModuleNmcli := {|
  get_config := nmcli_config;
  build nai m :=
    let cfg := nmcli_config m in
    r ← build_state nmcli_NAME cfg n_cached_text (should_refresh cfg nai true [ClickEvent])
          (nmcli_refresh_state (format cfg) (is_html_escape cfg)) (nmcli_state m);
    mret ({| nmcli_config := cfg; nmcli_state := fst r |}, snd r);
  subst_args cmd m :=
    cmd ← lift (subst_all (λ arg, nmcli_subst arg false (nmcli_state m)) cmd);
    mret (Some cmd)
|}.
End Modules.

(** ** The laws of the modules *)
Section Laws.
Context `{Env} `{BarEnv} `{RegexCrate} `{Floats} `{RtFormatCrate}.

Lemma build_state_cached {S} NAME cfg (text : S → string) (refresh : S → io S) st tr :
  build_state NAME cfg text false refresh st tr = (tr, Done (st, the_block NAME cfg (text st))).
Proof. reflexivity. Qed.

Lemma build_state_result {S} NAME cfg (text : S → string) b refresh st tr tr' st' block :
  build_state NAME cfg text b refresh st tr = (tr', Done (st', block)) →
  block = the_block NAME cfg (text st').
Proof. intros (? & ? & _ & [= _ <- <-])%io_bind_inv. done. Qed.

(** The laws of an instance whose [build] is a [build_state] followed by the new
    module. *)
Ltac config_law E :=
  apply io_bind_inv in E as (tr1 & [st block] & E & Er); injection Er as _ <- <-;
  apply build_state_result in E as ->; done.
Ltac named_law := intros n i r m _ Hne; by apply should_refresh_other.

#[export] Instance BarModuleWindow_laws : BarModuleLaws BarModuleWindow.
Proof.
  refine {| refreshes := window_refreshes;
            cached m := w_cached_text (window_state m);
            started m := w_pid (window_state m) ≠ INITIAL_PID |}.
  - intros nai m tr tr' m' b E. unfold build, get_config, BarModuleWindow_fn in *. config_law E.
  - intros nai [] tr E. unfold build, BarModuleWindow_fn. rewrite E. by eexists.
  - intros n i r m Hp Hne. unfold window_refreshes.
    rewrite bool_decide_false by done. by apply should_refresh_other.
Defined.

#[export] Instance BarModuleSysInfo_laws : BarModuleLaws BarModuleSysInfo.
Proof.
  refine {| refreshes nai m := should_refresh (sysinfo_config m) nai true [];
            cached m := s_cached_text (sysinfo_state m); started _ := True |}.
  - intros nai m tr tr' m' b E. unfold build, get_config, BarModuleSysInfo_fn in *. config_law E.
  - intros nai [] tr E. unfold build, BarModuleSysInfo_fn. rewrite E. by eexists.
  - named_law.
Defined.

#[export] Instance BarModuleBattery_laws : BarModuleLaws BarModuleBattery.
Proof.
  refine {| refreshes nai m := should_refresh (battery_config m) nai true [];
            cached m := b_cached_text (battery_mod_state m); started _ := True |}.
  - intros nai m tr tr' m' b E. unfold build, get_config, BarModuleBattery_fn in *. config_law E.
  - intros nai [] tr E. unfold build, BarModuleBattery_fn. rewrite E. by eexists.
  - named_law.
Defined.

#[export] Instance BarModuleDate_laws : BarModuleLaws BarModuleDate.
Proof.
  refine {| refreshes nai m := should_refresh (date_config m) nai true [];
            cached m := date_cached_text m; started _ := True |}.
  - intros nai m tr tr' m' b E. unfold build, get_config, BarModuleDate_fn in *. config_law E.
  - intros nai [] tr E. unfold build, BarModuleDate_fn. rewrite E. by eexists.
  - named_law.
Defined.

#[export] Instance BarModulePactl_laws : BarModuleLaws BarModulePactl.
Proof.
  refine {| refreshes nai m := should_refresh (pactl_config m) nai true [ClickEvent];
            cached m := p_cached_text (pactl_state m); started _ := True |}.
  - intros nai m tr tr' m' b E. unfold build, get_config, BarModulePactl_fn in *. config_law E.
  - intros nai [] tr E. unfold build, BarModulePactl_fn. rewrite E. by eexists.
  - named_law.
Defined.

#[export] Instance BarModuleNmcli_laws : BarModuleLaws BarModuleNmcli.
Proof.
  refine {| refreshes nai m := should_refresh (nmcli_config m) nai true [ClickEvent];
            cached m := n_cached_text (nmcli_state m); started _ := True |}.
  - intros nai m tr tr' m' b E. unfold build, get_config, BarModuleNmcli_fn in *. config_law E.
  - intros nai [] tr E. unfold build, BarModuleNmcli_fn. rewrite E. by eexists.
  - named_law.
Defined.
End Laws.

(** ** Theorems about the modules *)
Section ModuleFacts.
Context `{Env} `{BarEnv} `{RegexCrate} `{Floats} `{RtFormatCrate}.

(** The [Once]s make a refresh of the sysinfo module, which asks for the CPU four times,
    refresh the CPU and the memory exactly once. *)
Lemma sysinfo_refreshes_once fmt esc s tr :
  fst (sysinfo_refresh_state fmt esc s tr) = tr ++ [RefreshCpu; RefreshMemory].
Proof.
  unfold sysinfo_refresh_state, get_cpu_usage, get_memory_usage, get_load_average, refresh_cpu,
    refresh_memory, mbind, io_bind, perform, ask, mret, io_ret, lift. cbn.
  repeat (destruct (load_average _) as [[? ?] ?]; cbn).
  destruct (sysinfo_subst _ _ _); cbn; by rewrite <- (assoc_L (++)).
Qed.

Definition pactl_get_volume : effect :=
  RunOutput "pactl" ["get-sink-volume"; "@DEFAULT_SINK@"].

(** C39: The volume pactl prints, whatever its digits, is shown if it fits a byte; a volume
    above 255 percent makes the refresh panic, and with it the status line ends. *)
Theorem pactl_volume_overflow (m : BarModulePactl) rx code out digits groups n tr :
  rx_new VOLUME_RX = Some rx →
  env_output (tr ++ [pactl_get_volume]) = Ok (code, out) →
  captures rx out = Some groups → groups !! 1 = Some (Some digits) →
  digits ≠ EmptyString → digits_value 0 digits = Some n →
  ((n ≤ 255)%Z → get_volume tr = (tr ++ [pactl_get_volume], Done n))
  ∧ ((255 < n)%Z → build None m tr
     = (tr ++ [pactl_get_volume], Panics "called `Result::unwrap()` on an `Err` value")).
Proof.
  intros Hrx Ho Hc Hg Hne Hn. unfold pactl_get_volume in *.
  assert (get_volume tr = (tr ++ [pactl_get_volume],
    expect "called `Result::unwrap()` on an `Err` value" (parse_u8 digits))) as E.
  { unfold get_volume, run_pactl, mbind, io_bind, perform, ask, lift, rx_unwrap. cbn.
    rewrite Ho. cbn. rewrite Hrx. cbn. rewrite Hc, Hg. done. }
  rewrite (parse_u8_digits _ _ Hne Hn) in E. split; intros Hle.
  - by rewrite decide_True in E.
  - rewrite decide_False in E by lia. cbn [expect] in E.
    unfold build, BarModulePactl_fn, build_state, pactl_refresh_state. cbn [should_refresh].
    unfold mbind, io_bind. by rewrite E.
Qed.

(** A format that is no strftime format makes the refresh of a date module panic, and a
    click's argument that is none makes the click panic. *)
Lemma date_invalid_format (m : BarModuleDate) s tr :
  env_local_time (tr ++ [LocalTime s]) = None →
  (format (date_config m) = s → ∃ tr' msg, build None m tr = (tr', Panics msg))
  ∧ (∀ args, ∃ tr' msg, subst_args (s :: args) m tr = (tr', Panics msg)).
Proof.
  intros Hn. assert (chrono_format s tr = (tr ++ [LocalTime s],
    Panics "a Display implementation returned an error unexpectedly: Error")) as E.
  { unfold chrono_format, mbind, io_bind. cbn. by rewrite Hn. }
  split.
  - intros <-. do 2 eexists. unfold build, BarModuleDate_fn, build_state. cbn [should_refresh].
    unfold mbind, io_bind. by rewrite E.
  - intros args. do 2 eexists. unfold subst_args, BarModuleDate_fn. cbn [chrono_format_all].
    unfold mbind, io_bind. by rewrite E.
Qed.

(** The line of the network in use is shown by its second, third and fourth parts
    between colons.  So a network whose name has a colon, which nmcli writes with a
    backslash before it, is shown by the part of its name up to the backslash, and the
    rest of the name as the signal. *)
Theorem nmcli_network_shown cached output a b signal bars :
  Forall (λ s, lacks ":" s = true) [a; b; signal; bars] →
  (find (starts_with "*") (lines output)
     = Some ("*:" +:+ a +:+ ":" +:+ signal +:+ ":" +:+ bars) →
   nmcli_parse cached output
   = Done {| n_cached_text := cached; n_signal := Some signal; n_name := Some a;
             n_bars := Some bars |})
  ∧ (find (starts_with "*") (lines output)
       = Some ("*:" +:+ a +:+ "\:" +:+ b +:+ ":" +:+ signal +:+ ":" +:+ bars) →
     nmcli_parse cached output
     = Done {| n_cached_text := cached; n_signal := Some b; n_name := Some (a +:+ "\");
               n_bars := Some signal |}).
Proof.
  rewrite !Forall_cons. intros (Ha & Hb & Hs & Hbars & _).
  assert (∀ s t, lacks ":" s = true → split ":" (s +:+ ":" +:+ t) = s :: split ":" t) as Hsplit.
  { intros s t. exact (split_app_sep ":" s t). }
  unfold nmcli_parse. split; intros ->.
  - change ("*:" +:+ ?x) with ("*" +:+ ":" +:+ x).
    rewrite !Hsplit, split_lacks by done. reflexivity.
  - change ("*:" +:+ ?x) with ("*" +:+ ":" +:+ x).
    change ("\:" +:+ ?x) with ("\" +:+ ":" +:+ x).
    assert (lacks ":" (a +:+ "\") = true) as Ha'.
    { clear -Ha. induction a as [|c a IH]; [done|]. cbn in *.
      apply andb_true_iff in Ha as [-> Ha]. by rewrite IH. }
    rewrite <- (app_assoc_str a), !Hsplit, split_lacks by done. reflexivity.
Qed.

(** The first window in depth-first order that has the focus. *)
Definition shown_window (root : node) : option node :=
  find (λ n, focused n && is_type Type_Window n) (preorder (drop_scratchpads root)).

Lemma window_refresh_state_done fmt esc st root tr :
  sway_up tr → env_get_tree (tr ++ root_effects tr) = Ok root →
  typable (drop_scratchpads root) →
  window_refresh_state fmt esc st tr
  = match shown_window root with
    | Some win =>
        let st' text := {| w_name := get_name win; w_app_name := get_app_name win;
                           w_pid := default UNKNOWN_PID (pid win); w_cached_text := text |} in
        (text ← lift (window_subst fmt esc (st' (w_cached_text st))); mret (st' text))
          (tr ++ root_effects tr)
    | None =>
        (tr ++ root_effects tr,
         Done {| w_name := EmptyString; w_app_name := EmptyString; w_pid := NO_WINDOW_PID;
                 w_cached_text := EmptyString |})
    end.
Proof.
  intros Hup Ht Hty. unfold window_refresh_state.
  rewrite (io_bind_done _ _ _ _ _ (get_root_node_done false _ _ Hup Ht)).
  rewrite (io_lift_done _ _ _ _ (iter_done _)).
  rewrite (io_lift_done _ _ (shown_window root)).
  - by destruct (shown_window root).
  - apply find_o_done. intros n Hn. unfold is_focused_window.
    destruct (focused n); [|done]. apply has_type_done. by eapply typable_elem.
Qed.

(** At the first status line and whenever sway reports an event to it, the window
    module shows the focused window, the first in depth-first order outside the
    scratchpad, through its format, or nothing when no window has the focus; it asks
    sway once.  On every other event it shows the same text as before and asks nothing. *)
Theorem window_module_shows_focused (m : BarModuleWindow) nai root tr :
  sway_up tr → env_get_tree (tr ++ root_effects tr) = Ok root →
  typable (drop_scratchpads root) →
  let cfg := window_config m in
  let st := window_state m in
  let block text := the_block window_NAME cfg text in
  build nai m tr =
    if bool_decide (w_pid st = INITIAL_PID)
       || bool_decide (nai = Some (name cfg, instance cfg, SwayEvent))
    then match shown_window root with
         | Some win =>
             let st' text := {| w_name := get_name win; w_app_name := get_app_name win;
                                w_pid := default UNKNOWN_PID (pid win);
                                w_cached_text := text |} in
             (tr ++ root_effects tr,
              text ← window_subst (format cfg) (is_html_escape cfg) (st' (w_cached_text st));
              Done ({| window_config := cfg; window_state := st' text |}, block text))
         | None =>
             (tr ++ root_effects tr,
              Done ({| window_config := cfg;
                       window_state := {| w_name := EmptyString; w_app_name := EmptyString;
                                          w_pid := NO_WINDOW_PID;
                                          w_cached_text := EmptyString |} |},
                    block EmptyString))
         end
    else (tr, Done (m, block (w_cached_text st))).
Proof.
  intros Hup Ht Hty cfg st block.
  assert (window_refreshes nai m = bool_decide (w_pid st = INITIAL_PID)
    || bool_decide (nai = Some (name cfg, instance cfg, SwayEvent))) as <-.
  { unfold window_refreshes. f_equal. destruct nai as [[[n i] r]|]; [|done].
    cbn. fold cfg. apply eq_true_iff_eq.
    rewrite orb_false_r, !andb_true_iff, !bool_decide_eq_true.
    split; [by intros [[-> ->] <-]|by intros [= -> -> ->]]. }
  unfold build, BarModuleWindow_fn, build_state. fold cfg st.
  destruct (window_refreshes nai m); [|by destruct m].
  pose proof (window_refresh_state_done (format cfg) (is_html_escape cfg) st root tr Hup Ht Hty)
    as E.
  destruct (shown_window root) as [win|]; unfold mbind, io_bind in E |- *; rewrite E; [|done].
  unfold lift. cbn. by destruct (window_subst _ _ _).
Qed.
End ModuleFacts.

(** ** Witnesses *)
Section Witnesses.
Import Samples.
Local Abbreviation env := (quiet_env sample_root).

(** Programs that print one text, and no battery. *)
Definition printing (out : string) : BarEnv := {|
  env_output _ := Ok (Some 0%Z, out);
  env_local_time _ := Some "12:00";
  env_battery_manager _ := Ok tt;
  env_batteries _ := Ok [];
  env_refresh_battery _ b := Ok b;
  set_order := elements;
  System := unit;
  new_all := tt;
  env_refresh_cpu _ s := s;
  env_refresh_memory _ s := s;
  cpu_usage_of _ := f32_0;
  used_memory _ := 1%Z;
  total_memory _ := 2%Z;
  load_average _ := (f64_0, f64_0, f64_0)
|}.

(** The digits between the last blank before the last percent sign and that sign. *)
Definition volume_regexes : RegexCrate := {|
  regex := string;
  rx_new p := Some p;
  is_match p s := contains p s;
  captures _ s :=
    p ← list.last (removelast (split "%" s));
    w ← list.last (split " " p);
    Some [Some s; Some w];
  rx_replace p s to := replace_first p to s;
  split_matches p s := ([], s)
|}.

Definition loud : string := "Volume: front-left: 170394 / 260% / 24.90 dB".

Lemma pactl_volume_overflow_witness :
  snd (@build _ (@BarModulePactl_fn (printing loud) volume_regexes no_floats three_chars)
         None (BarModulePactl_create (pactl_default_config "0")) [])
  = Panics "called `Result::unwrap()` on an `Err` value".
Proof.
  destruct (@pactl_volume_overflow (printing loud) volume_regexes no_floats three_chars
    (BarModulePactl_create (pactl_default_config "0")) VOLUME_RX (Some 0%Z) loud "260"
    [Some loud; Some "260"] 260 []) as [_ E]; [reflexivity..|done|reflexivity|].
  by rewrite E by lia.
Defined.

Lemma nmcli_network_shown_witness :
  nmcli_parse "" ("*:a\:b:70:▂▄▆_" +:+ nl)
  = Done {| n_cached_text := EmptyString; n_signal := Some "b"; n_name := Some "a\";
            n_bars := Some "70" |}.
Proof.
  refine (proj2 (nmcli_network_shown EmptyString ("*:a\:b:70:▂▄▆_" +:+ nl) "a" "b" "70" "▂▄▆_" _) _).
  - repeat constructor.
  - reflexivity.
Defined.

Lemma window_module_shows_focused_witness :
  let r := @build _ (@BarModuleWindow_fn env literal_regexes no_floats three_chars) None
             (BarModuleWindow_create (window_default_config "0")) [] in
  fst r = [SharedConnect; GetTree]
  ∧ match snd r with Done (m, _) => w_name (window_state m) = "title of foot" | _ => False end.
Proof.
  cbn zeta.
  rewrite (@window_module_shows_focused env literal_regexes no_floats three_chars
    (BarModuleWindow_create (window_default_config "0")) None sample_root []).
  - vm_compute. by split.
  - by right.
  - reflexivity.
  - unfold typable. decide_now.
Defined.
End Witnesses.
