(* ===== verification/Bar.v ===== *)
(** * swayrbar: the threads of the status command
    (swayrbar/src/bar.rs, the defaults of swayrbar/src/config.rs)

    The modules are trait objects: what is proved about clicks and status lines
    relies on the interface BarModule.v alone. *)

From S2P Require Import Prelude RString Regex Fmt Ipc Sway Cfg BarModule BarModules.
From S2P Require Samples.

(** ** Parameters

    swaybar's clicks as the swaybar-types crate parses them: [None] when the text is
    no click.  [button_debug] is the [Debug] text of a button.  [blocks_to_json] is
    serde's pretty printer. *)
Class SwaybarTypes := {
  ClickButton : Type;
  button_debug : ClickButton → string;
  click_from_json : string → option (option string * option string * ClickButton);
  blocks_to_json : list Block → option string
}.

(** Lines of the standard input, of which there are none left when reading one gives
    the empty text; the exit code of a program; the events of sway as far as they
    matter here. *)
Inductive BarEvent := BarWindowOrWorkspace | BarShutdown | BarOther.

Class BarIO := {
  env_read_line : trace → result string string;
  env_status : trace → result (option Z) string;
  env_bar_subscribe : trace → result unit string;
  env_bar_next_event : trace → option (result BarEvent string)
}.

(** ** config.rs *)
Definition Config_default : Config := {|
  refresh_interval := 1000;
  modules := [window_default_config "0"; sysinfo_default_config "0";
              battery_default_config "0"; pactl_default_config "0"; date_default_config "0"]
|}.

Class BarConfigToml := {
  bar_to_string_pretty : Config → option string;
  bar_from_str : string → option Config
}.
#[export] Instance BarConfig_toml `{BarConfigToml} : TomlConfig Config := {|
  to_string_pretty := bar_to_string_pretty;
  from_str := bar_from_str;
  default_config := Config_default
|}.

Section Bar.
Context `{Env} `{BarEnv} `{RegexCrate} `{Floats} `{RtFormatCrate} `{SwaybarTypes} `{BarIO}.

Definition load_bar_config `{BarConfigToml} : io Config := load_config "swayrbar".

Definition create_module (mc : ModuleConfig) : option dyn_module :=
  let n := name mc in
  if decide (n = "window") then Some (Dyn (BarModuleWindow_create mc))
  else if decide (n = "sysinfo") then Some (Dyn (BarModuleSysInfo_create mc))
  else if decide (n = "battery") then Some (Dyn (BarModuleBattery_create mc))
  else if decide (n = "date") then Some (Dyn (BarModuleDate_create mc))
  else if decide (n = "pactl") then Some (Dyn (BarModulePactl_create mc))
  else if decide (n = "nmcli") then Some (Dyn (BarModuleNmcli_create mc))
  else None.

Definition create_modules (config : Config) : list dyn_module :=
  omap create_module (modules config).

(** Errors of the channel are only logged. *)
Definition send_refresh_event (event : option NameInstanceAndReason) : io unit :=
  perform (SendRefresh event).

Fixpoint tick_periodically (fuel : nat) (interval : Z) : io unit :=
  match fuel with
  | O => lift NoReturn
  | S fuel => send_refresh_event None ;; sleep interval ;; tick_periodically fuel interval
  end.

(** *** Clicks *)
Definition execute_command (cmd : list string) : io unit :=
  match cmd with
  | [] => panic "index out of bounds: the len is 0 but the index is 0"
  | prog :: args => perform (RunStatus prog args) ;; _ ← ask env_status; mret tt
  end.

Fixpoint handle_click_in (name instance button : string) (mods : list dyn_module)
    : io (option NameInstanceAndReason) :=
  match mods with
  | [] => mret None
  | m :: mods =>
      match dyn_on_click_map m name instance ≫= lookup button with
      | Some cmd =>
          r ← dyn_subst_args cmd m;
          execute_command (default cmd r) ;;
          let cfg := dyn_config m in
          mret (if decide (BarModule.name cfg = window_NAME) then None
                else Some (BarModule.name cfg, BarModule.instance cfg, ClickEvent))
      | None => handle_click_in name instance button mods
      end
  end.

Definition handle_click (click : option string * option string * ClickButton)
    (mods : list dyn_module) : io (option NameInstanceAndReason) :=
  match click with
  | (Some name, Some instance, button) =>
      handle_click_in name instance (button_debug button) mods
  | _ => mret None
  end.

Definition read_line : io (result string string) := perform ReadLine ;; ask env_read_line.

(** One turn of the loop over the input lines. *)
Definition handle_line (buf : result string string) (mods : list dyn_module) : io unit :=
  match buf with
  | Err _ => mret tt
  | Ok buf =>
      match click_from_json (default buf (strip_prefix "," buf)) with
      | None => mret tt
      | Some click =>
          event ← handle_click click mods;
          if is_some event then send_refresh_event event else mret tt
      end
  end.

Fixpoint input_loop (fuel : nat) (mods : list dyn_module) : io unit :=
  match fuel with
  | O => lift NoReturn
  | S fuel => buf ← read_line; handle_line buf mods ;; input_loop fuel mods
  end.

Definition handle_input (fuel : nat) (mods : list dyn_module) : io unit :=
  r ← read_line;
  sb ← unwrap_ok "Could not read from stdin" r;
  if decide (sb = "[" +:+ nl) then input_loop fuel mods else mret tt.

(** *** The events of sway *)
Definition sway_subscribe : io (result unit string) :=
  _ ←? connection_new;
  perform Subscribe ;; ask env_bar_subscribe.

Definition refresh_windows (window_mods : list (string * string)) : io unit :=
  for_each (λ m, send_refresh_event (Some (fst m, snd m, SwayEvent))) window_mods.

(** The inner loop: [resets] at the end of the stream, and whether sway shut down. *)
Fixpoint bar_stream (fuel : nat) (window_mods : list (string * string)) (resets : Z)
    : io (bool * Z) :=
  match fuel with
  | O => lift NoReturn
  | S fuel =>
      perform NextEvent ;;
      item ← ask env_bar_next_event;
      match item with
      | None => mret (false, resets)
      | Some (Ok BarWindowOrWorkspace) =>
          refresh_windows window_mods ;; bar_stream fuel window_mods 0
      | Some (Ok BarShutdown) => mret (true, 0%Z)
      | Some (Ok BarOther) => bar_stream fuel window_mods 0
      | Some (Err _) => sleep 3000 ;; bar_stream fuel window_mods 0
      end
  end.

Fixpoint bar_reconnect (fuel : nat) (window_mods : list (string * string)) (resets : Z) : io unit :=
  match fuel with
  | O => lift NoReturn
  | S fuel =>
      if (10 <=? resets)%Z then mret tt
      else
        let resets := (resets + 1)%Z in
        c ← sway_subscribe;
        match c with
        | Err _ => sleep 3000 ;; bar_reconnect fuel window_mods resets
        | Ok _ =>
            r ← bar_stream fuel window_mods resets;
            if fst r : bool then mret tt else bar_reconnect fuel window_mods (snd r)
        end
  end.

Definition handle_sway_events (fuel : nat) (window_mods : list (string * string)) : io unit :=
  bar_reconnect fuel window_mods 0.

(** *** The status line *)
Fixpoint build_all (nai : option NameInstanceAndReason) (mods : list dyn_module)
    : io (list dyn_module * list Block) :=
  match mods with
  | [] => mret ([], [])
  | m :: mods =>
      r ← dyn_build nai m;
      rs ← build_all nai mods;
      mret (fst r :: fst rs, snd r :: snd rs)
  end.

Definition generate_status_1 (mods : list dyn_module) (nai : option NameInstanceAndReason)
    : io (list dyn_module) :=
  r ← build_all nai mods;
  perform (Println (default EmptyString (blocks_to_json (snd r)) +:+ "," +:+ nl)) ;;
  mret (fst r).

Fixpoint generate_all (mods : list dyn_module) (events : list (option NameInstanceAndReason))
    : io (list dyn_module) :=
  match events with
  | [] => mret mods
  | ev :: events => mods ← generate_status_1 mods ev; generate_all mods events
  end.

(** The events are those the channel gives until all its senders are gone. *)
Definition generate_status (mods : list dyn_module)
    (events : list (option NameInstanceAndReason)) : io (list dyn_module) :=
  perform (Println ("{" +:+ dq +:+ "version" +:+ dq +:+ ": 1, " +:+ dq +:+ "click_events"
                    +:+ dq +:+ ": true}" +:+ nl)) ;;
  perform (Println ("[" +:+ nl)) ;;
  generate_all mods events.

(** The window modules of [start]; with none, the thread for sway's events is not
    started. *)
Definition window_mods (mods : list dyn_module) : list (string * string) :=
  omap (λ m, let cfg := dyn_config m in
             if decide (name cfg = "window") then Some (name cfg, instance cfg) else None) mods.

(** What [start] gives its threads: the ticker, the input thread and the main thread
    always run, the thread for sway's events when there is a window module. *)
Record BarStart := {
  bar_interval : Z;
  bar_mods : list dyn_module;
  bar_window_mods : option (list (string * string))
}.

Definition start `{BarConfigToml} (config_file : option string) : io BarStart :=
  config ← match config_file with
           | None => load_bar_config
           | Some config_file => load_config_file config_file
           end;
  let mods := create_modules config in
  let ws := window_mods mods in
  mret {| bar_interval := refresh_interval config; bar_mods := mods;
          bar_window_mods := match ws with [] => None | _ => Some ws end |}.

(** The program; clap has parsed its only option. *)
Definition swayrbar_main `{BarConfigToml} (config_file : option string) : io BarStart :=
  start config_file.
End Bar.

(** ** What the modules promise, for trait objects *)
Definition dyn_laws (m : dyn_module) : Type := @BarModuleLaws (dyn_type m) (dyn_fn m).

(** A module that refreshes only for its own events from now on, and whose text is that
    of the block. *)
Definition shown_by (m : dyn_module) (b : Block) : Prop :=
  ∃ L : dyn_laws m, @started _ _ L (dyn_obj m) ∧ full_text b = @cached _ _ L (dyn_obj m).

(** Once its text has been made, a module is [started]. *)
Class BarModuleStarts (M : Type) `{!BarModuleFn M, !BarModuleLaws M} : Prop :=
  build_starts nai m tr tr' m' b : build nai m tr = (tr', Done (m', b)) → started m'.

Definition dyn_starts (m : dyn_module) : Prop :=
  ∃ L : dyn_laws m, @BarModuleStarts (dyn_type m) (dyn_fn m) L.

Definition same_text (b b' : Block) : Prop := full_text b' = full_text b.

Definition named (n i : string) (m : dyn_module) : Prop :=
  (n, i) = (name (dyn_config m), instance (dyn_config m)).

#[export] Instance named_dec n i m : Decision (named n i m).
Proof. unfold named. apply _. Defined.

Section BarFacts.
Context `{Env} `{BarEnv} `{RegexCrate} `{Floats} `{RtFormatCrate} `{SwaybarTypes} `{BarIO}.

Lemma dyn_build_shown nai m tr tr' m' b :
  dyn_starts m → dyn_build nai m tr = (tr', Done (m', b)) → dyn_starts m' ∧ shown_by m' b.
Proof.
  intros [L Hs] E. unfold dyn_build in E.
  apply io_bind_inv in E as (tr1 & [m1 b1] & E & [= _ <- <-]). cbn [fst snd] in *.
  split; [by exists L|]. exists L. cbn. split; [by eapply Hs|].
  by apply (@build_config _ _ L) in E as (_ & _ & ?).
Qed.

Lemma build_all_shown nai mods tr tr' mods' bs :
  Forall dyn_starts mods → build_all nai mods tr = (tr', Done (mods', bs)) →
  Forall dyn_starts mods' ∧ Forall2 shown_by mods' bs.
Proof.
  intros Hs. revert tr mods' bs.
  induction Hs as [|m mods Hm _ IH]; intros tr mods' bs E; [by injection E as _ <- <-|].
  cbn [build_all] in E. apply io_bind_inv in E as (tr1 & [m1 b1] & E1 & E).
  apply io_bind_inv in E as (tr2 & [ms1 bs1] & E2 & [= -> <- <-]).
  apply dyn_build_shown in E1 as [? ?]; [|done]. apply IH in E2 as [? ?].
  split; by constructor.
Qed.

Lemma generate_all_starts mods events tr tr' mods' :
  Forall dyn_starts mods → generate_all mods events tr = (tr', Done mods') →
  Forall dyn_starts mods'.
Proof.
  revert mods tr. induction events as [|ev events IH]; intros mods tr Hs E; [by injection E as _ <-|].
  cbn [generate_all] in E. apply io_bind_inv in E as (tr1 & ms & E1 & E). eapply IH; [|exact E].
  unfold generate_status_1 in E1. apply io_bind_inv in E1 as (tr2 & [ms2 bs] & E1 & E2).
  apply io_bind_inv in E2 as (tr3 & [] & _ & [= _ <-]). by eapply build_all_shown.
Qed.

Lemma dyn_build_other n i r m b tr :
  shown_by m b → ¬ named n i m →
  ∃ b', dyn_build (Some (n, i, r)) m tr = (tr, Done (m, b')) ∧ same_text b b'.
Proof.
  destruct m as [M fn m]. intros (L & Hs & Hb) Hn. unfold dyn_laws in L. cbn in *.
  destruct (@build_cached _ _ L (Some (n, i, r)) m tr) as (b' & E & Hb').
  { by apply refreshes_named. }
  exists b'. split; [|unfold same_text; congruence].
  unfold dyn_build, mbind, io_bind. cbn. by rewrite E.
Qed.

Lemma build_all_others n i r mods prev tr :
  Forall2 shown_by mods prev → Forall (λ m, ¬ named n i m) mods →
  ∃ bs, build_all (Some (n, i, r)) mods tr = (tr, Done (mods, bs)) ∧ Forall2 same_text prev bs.
Proof.
  intros Hs. induction Hs as [|m b mods prev Hm _ IH]; intros Hn; [by exists []|].
  apply Forall_cons in Hn as [Hn1 Hn2].
  destruct (dyn_build_other n i r m b tr Hm Hn1) as (b' & Eb & Hb).
  destruct (IH Hn2) as (bs & Ebs & Hbs). exists (b' :: bs). split; [|by constructor].
  cbn [build_all]. by rewrite (io_bind_done _ _ _ _ _ Eb), (io_bind_done _ _ _ _ _ Ebs).
Qed.

Lemma build_all_app nai mods1 mods2 tr tr1 r1 :
  build_all nai mods1 tr = (tr1, Done r1) →
  build_all nai (mods1 ++ mods2) tr
  = (r2 ← build_all nai mods2; mret (fst r1 ++ fst r2, snd r1 ++ snd r2)) tr1.
Proof.
  revert tr r1. induction mods1 as [|m mods1 IH]; intros tr r1 E.
  - injection E as <- <-. cbn. unfold mbind, io_bind.
    by destruct (build_all nai mods2 tr) as [? [[? ?]| |]].
  - cbn [build_all app] in E |- *.
    apply io_bind_inv in E as (tr2 & r & Em & E).
    apply io_bind_inv in E as (tr3 & rs & Ers & E). injection E as -> <-.
    rewrite (io_bind_done _ _ _ _ _ Em). unfold mbind at 1, io_bind at 1.
    rewrite (IH _ _ Ers). unfold mbind, io_bind.
    by destruct (build_all nai mods2 tr1) as [? [[? ?]| |]].
Qed.

(** *** The modules are started by their first text *)
Section Starts.

(** No process has the number that the source takes for "not yet refreshed". *)
Definition real_pids : Prop :=
  ∀ tr root n, env_get_tree tr = Ok root → n ∈ preorder root → pid n ≠ Some INITIAL_PID.

Context (Hpids : real_pids).

Lemma get_root_node_pids tr tr' root n :
  get_root_node false tr = (tr', Done root) → n ∈ preorder root → pid n ≠ Some INITIAL_PID.
Proof.
  intros E Hn. unfold get_root_node in E. apply io_bind_inv in E as (tr1 & [] & _ & E).
  apply io_bind_inv in E as (tr2 & r & E1 & E).
  unfold con_get_tree in E1. apply io_bind_inv in E1 as (tr3 & [] & _ & [= _ Er]).
  destruct r as [root0|e]; [|done]. injection E as _ <-.
  apply preorder_drop_scratchpads in Hn as [->|Hn]; [|by eapply Hpids].
  cbn. apply (Hpids tr3 root0); [done|]. apply elem_of_preorder. by left.
Qed.

Lemma find_o_elem {A} (p : A → outcome bool) l x : find_o p l = Done (Some x) → x ∈ l.
Proof.
  induction l as [|y l IH]; [done|]. cbn. destruct (p y) as [[]| |]; cbn; intros E; try done.
  - injection E as <-. left.
  - right. by apply IH.
Qed.

Lemma window_refresh_pid fmt esc st tr tr' st' :
  window_refresh_state fmt esc st tr = (tr', Done st') → w_pid st' ≠ INITIAL_PID.
Proof.
  unfold window_refresh_state. intros E. apply io_bind_inv in E as (tr1 & root & Er & E).
  rewrite iter_done in E. rewrite (io_lift_done _ _ _ _ eq_refl) in E.
  apply io_bind_inv in E as (tr2 & w & [= <- Ew] & E).
  destruct w as [win|]; [|by injection E as _ <-].
  apply io_bind_inv in E as (tr3 & text & _ & [= _ <-]). cbn.
  apply find_o_elem in Ew. apply (get_root_node_pids _ _ _ _ Er) in Ew.
  destruct (pid win) as [p|]; cbn; [congruence|done].
Qed.

#[local] Instance BarModuleWindow_starts : BarModuleStarts BarModuleWindow.
Proof.
  intros nai m tr tr' m' b E. unfold build, BarModuleWindow_fn in E.
  apply io_bind_inv in E as (tr1 & [st bl] & E & [= _ <- _]). cbn.
  unfold build_state in E. apply io_bind_inv in E as (tr2 & st2 & E & [= _ <- _]).
  destruct (window_refreshes nai m) eqn:Er; [by eapply window_refresh_pid|].
  injection E as _ <-. unfold window_refreshes in Er. apply orb_false_iff in Er as [Er _].
  by rewrite bool_decide_eq_false in Er.
Qed.

#[local] Instance BarModuleSysInfo_starts : BarModuleStarts BarModuleSysInfo := λ _ _ _ _ _ _ _, I.
#[local] Instance BarModuleBattery_starts : BarModuleStarts BarModuleBattery := λ _ _ _ _ _ _ _, I.
#[local] Instance BarModuleDate_starts : BarModuleStarts BarModuleDate := λ _ _ _ _ _ _ _, I.
#[local] Instance BarModulePactl_starts : BarModuleStarts BarModulePactl := λ _ _ _ _ _ _ _, I.
#[local] Instance BarModuleNmcli_starts : BarModuleStarts BarModuleNmcli := λ _ _ _ _ _ _ _, I.

Lemma create_modules_start config : Forall dyn_starts (create_modules config).
Proof.
  apply Forall_forall. intros m (mc & _ & E)%list_elem_of_omap. revert E.
  unfold create_module. repeat case_decide; intros; simplify_eq; unfold dyn_starts; cbn;
    eexists; apply _.
Qed.
End Starts.

Lemma create_module_spec mc m :
  create_module mc = Some m → dyn_config m = mc ∧ ∃ L : dyn_laws m, True.
Proof.
  unfold create_module. intros E. repeat case_decide; try done; injection E as <-;
    (split; [done|]); unshelve eexists; try exact I; unfold dyn_laws; cbn; apply _.
Qed.

(** *** What a status line leaves as it is *)
Definition lawful (m : dyn_module) : Prop := ∃ _ : dyn_laws m, True.

Lemma dyn_build_config nai m tr tr' m' b :
  lawful m → dyn_build nai m tr = (tr', Done (m', b)) →
  dyn_config m' = dyn_config m ∧ lawful m'.
Proof.
  destruct m as [M fn m]. intros [L _] E. unfold dyn_build in E.
  apply io_bind_inv in E as (tr1 & [m1 b1] & E & [= _ <- _]). cbn in *.
  apply (@build_config _ _ L) in E as (E & _). split; [done|]. by exists L.
Qed.

Lemma build_all_config nai mods tr tr' mods' bs :
  Forall lawful mods → build_all nai mods tr = (tr', Done (mods', bs)) →
  dyn_config <$> mods' = dyn_config <$> mods ∧ Forall lawful mods'.
Proof.
  intros Hl. revert tr tr' mods' bs.
  induction Hl as [|m mods Hm _ IH]; intros tr tr' mods' bs E; [by injection E as _ <- _|].
  cbn [build_all] in E. apply io_bind_inv in E as (tr1 & [m1 b1] & E1 & E).
  apply io_bind_inv in E as (tr2 & [ms1 bs1] & E2 & [= _ <- _]).
  apply dyn_build_config in E1 as [Hc1 Hl1]; [|done]. apply IH in E2 as [Hc2 Hl2].
  split; [cbn; by rewrite Hc1, Hc2|by constructor].
Qed.

Lemma generate_status_1_config mods nai tr tr' mods' :
  Forall lawful mods → generate_status_1 mods nai tr = (tr', Done mods') →
  dyn_config <$> mods' = dyn_config <$> mods ∧ Forall lawful mods'.
Proof.
  intros Hl E. unfold generate_status_1 in E.
  apply io_bind_inv in E as (tr1 & [ms bs] & E1 & E).
  apply io_bind_inv in E as (tr2 & [] & _ & [= _ <-]).
  by eapply build_all_config.
Qed.

Lemma created_lawful config :
  Forall lawful (create_modules config).
Proof.
  apply Forall_forall. intros m (mc & _ & E)%list_elem_of_omap.
  by apply create_module_spec in E as [_ ?].
Qed.

(** Whether a module has a command for the button. *)
Definition takes_click (n i button : string) (m : dyn_module) : bool :=
  bool_decide (named n i m)
  && is_some (on_click (dyn_config m) ≫= lookup button).

Lemma on_click_map_spec m n i :
  dyn_on_click_map m n i = if bool_decide (named n i m) then on_click (dyn_config m) else None.
Proof.
  unfold dyn_on_click_map, get_on_click_map, named, dyn_config.
  set (cfg := @get_config _ (dyn_fn m) (dyn_obj m)).
  replace (bool_decide (n = name cfg) && bool_decide (i = instance cfg))
    with (bool_decide ((n, i) = (name cfg, instance cfg))); [done|].
  apply eq_true_iff_eq. rewrite andb_true_iff, !bool_decide_eq_true.
  split; [by intros [= -> ->]|by intros [-> ->]].
Qed.

Lemma handle_click_in_cons n i button m mods :
  handle_click_in n i button (m :: mods)
  = if takes_click n i button m then handle_click_in n i button [m]
    else handle_click_in n i button mods.
Proof.
  unfold takes_click. cbn [handle_click_in]. rewrite on_click_map_spec.
  destruct (bool_decide (named n i m)); [|done].
  cbn [andb]. by destruct (on_click (dyn_config m) ≫= lookup button).
Qed.

Lemma handle_click_in_find n i button mods :
  handle_click_in n i button mods
  = match find (takes_click n i button) mods with
    | Some m => handle_click_in n i button [m]
    | None => mret None
    end.
Proof.
  induction mods as [|m mods IH]; [done|]. rewrite handle_click_in_cons. cbn [find].
  by destruct (takes_click n i button m).
Qed.

(** C21: Once a status line has been printed for the configured modules, a refresh event
    for one of them re-runs that module only: the others, before and after it in the bar,
    have no effect, keep their state, and are printed around its new block, in the
    configured order, with the texts they had in the line before. *)
Theorem generate_status_1_named config events tr0 tr1 mods0 ev tr2 tr3 before m after
    prev1 pb prev2 n i r tr :
  real_pids →
  generate_all (create_modules config) events tr0 = (tr1, Done mods0) →
  build_all ev mods0 tr2 = (tr3, Done (before ++ m :: after, prev1 ++ pb :: prev2)) →
  length before = length prev1 →
  Forall (λ m, ¬ named n i m) before → Forall (λ m, ¬ named n i m) after →
  ∃ bs1 bs2, Forall2 same_text prev1 bs1 ∧ Forall2 same_text prev2 bs2
  ∧ generate_status_1 (before ++ m :: after) (Some (n, i, r)) tr
    = (x ← dyn_build (Some (n, i, r)) m;
       perform (Println (default EmptyString (blocks_to_json (bs1 ++ snd x :: bs2))
                         +:+ "," +:+ nl)) ;;
       mret (before ++ fst x :: after)) tr.
Proof.
  intros Hpids Hgen Hprev Hlen Hn1 Hn2.
  apply generate_all_starts in Hgen; [|by apply create_modules_start].
  apply build_all_shown in Hprev as [_ Hsh]; [|done].
  apply Forall2_app_inv in Hsh as [Hs1 [_ Hs2]%Forall2_cons]; [|done].
  destruct (build_all_others n i r before prev1 tr Hs1 Hn1) as (bs1 & E1 & Hb1).
  assert (∀ tr, ∃ bs2, build_all (Some (n, i, r)) after tr = (tr, Done (after, bs2))
    ∧ Forall2 same_text prev2 bs2) as E2 by (intros; by apply build_all_others).
  destruct (dyn_build (Some (n, i, r)) m tr) as [tr5 o] eqn:Em.
  destruct (E2 tr5) as (bs2 & E & Hb2). exists bs1, bs2. do 2 (split; [done|]).
  unfold generate_status_1.
  assert (build_all (Some (n, i, r)) (before ++ m :: after) tr
    = (x ← dyn_build (Some (n, i, r)) m; mret (before ++ fst x :: after, bs1 ++ snd x :: bs2)) tr)
    as Eall.
  { rewrite (build_all_app _ _ _ _ _ _ E1). cbn [build_all fst snd].
    unfold mbind, io_bind. rewrite Em. destruct o; [|done..]. by rewrite E. }
  unfold mbind, io_bind in Eall |- *. rewrite Eall, Em. by destruct o.
Qed.

(** C32: A click with a name and an instance runs one command, that of the first module
    with this name and instance that has one for the button, with the module's
    placeholders put in, and asks that module for a refresh unless it is a window
    module; a click no module takes runs nothing. *)
Theorem handle_click_runs_one n i button mods tr :
  match find (takes_click n i (button_debug button)) mods with
  | None => handle_click (Some n, Some i, button) mods tr = (tr, Done None)
  | Some m =>
      m ∈ mods ∧ named n i m
      ∧ ∃ cmd, (on_click (dyn_config m) ≫= lookup (button_debug button)) = Some cmd
      ∧ ∀ tr1 substituted, dyn_subst_args cmd m tr = (tr1, Done (Some substituted)) →
        handle_click (Some n, Some i, button) mods tr
        = match substituted with
          | prog :: args =>
              (tr1 ++ [RunStatus prog args],
               Done (if decide (n = "window") then None else Some (n, i, ClickEvent)))
          | [] => (tr1, Panics "index out of bounds: the len is 0 but the index is 0")
          end
  end.
Proof.
  unfold handle_click. rewrite handle_click_in_find.
  destruct (find _ mods) as [m|] eqn:Ef; [|done].
  apply find_Some in Ef as [Hm Ht]. unfold takes_click in Ht.
  apply andb_true_iff in Ht as [Hn%bool_decide_eq_true Hc].
  destruct (on_click (dyn_config m) ≫= lookup (button_debug button)) as [cmd|] eqn:Ec; [|done].
  split; [done|]. split; [done|]. exists cmd. split; [done|].
  intros tr1 substituted E. cbn [handle_click_in].
  rewrite on_click_map_spec, bool_decide_true, Ec by done.
  rewrite (io_bind_done _ _ _ _ _ E). unfold named in Hn. injection Hn as -> ->.
  destruct substituted as [|prog args]; [done|]. reflexivity.
Qed.

(** C40: When its standard input ends, the input thread does not: it goes on reading,
    without waiting and without doing anything else, for ever. *)
Theorem handle_input_spins_at_eof fuel mods tr :
  env_read_line (tr ++ [ReadLine]) = Ok ("[" +:+ nl) →
  (∀ n, env_read_line (tr ++ replicate (2 + n) ReadLine) = Ok EmptyString) →
  click_from_json EmptyString = None →
  handle_input fuel mods tr = (tr ++ replicate (1 + fuel) ReadLine, NoReturn).
Proof.
  intros Hfirst Hn Hc. unfold handle_input, read_line.
  rewrite (io_bind_done _ _ _ (tr ++ [ReadLine]) (Ok ("[" +:+ nl)))
    by (unfold mbind, io_bind, perform, ask; by rewrite Hfirst).
  cbn [unwrap_ok]. rewrite (io_bind_done _ _ _ (tr ++ [ReadLine]) ("[" +:+ nl)) by done.
  rewrite decide_True by done.
  assert (∀ k, input_loop fuel mods (tr ++ replicate (1 + k) ReadLine)
    = (tr ++ replicate (1 + k + fuel) ReadLine, NoReturn)) as Hk; [|exact (Hk 0)].
  induction fuel as [|fuel IH]; intros k; [by rewrite Nat.add_0_r|].
  cbn [input_loop]. unfold read_line.
  assert ((tr ++ replicate (1 + k) ReadLine) ++ [ReadLine] = tr ++ replicate (1 + S k) ReadLine)
    as Ek by by rewrite <- (assoc_L (++)), <- replicate_cons_app.
  rewrite (io_bind_done _ _ _ (tr ++ replicate (1 + S k) ReadLine) (Ok EmptyString)).
  - unfold handle_line. cbn [strip_prefix starts_with String.prefix default].
    replace (strip_prefix "," EmptyString) with (@None string) by done. cbn [default].
    rewrite Hc, (io_bind_done _ _ _ (tr ++ replicate (1 + S k) ReadLine) tt) by done.
    rewrite IH. do 3 f_equal. lia.
  - unfold mbind, io_bind, perform, ask. rewrite Ek. f_equal. f_equal. exact (Hn k).
Qed.
End BarFacts.

(** ** Witnesses *)
Section Witnesses.
Import Samples.
Local Abbreviation env := (quiet_env sample_root).
Local Abbreviation programs := (printing "Volume: 40%").

Definition no_json : SwaybarTypes := {|
  ClickButton := string;
  button_debug b := b;
  click_from_json _ := None;
  blocks_to_json _ := Some "[]"
|}.

(** The header of the input and nothing after it. *)
Definition only_header : BarIO := {|
  env_read_line tr := if decide (tr = [ReadLine]) then Ok ("[" +:+ nl) else Ok EmptyString;
  env_status _ := Ok (Some 0%Z);
  env_bar_subscribe _ := Ok tt;
  env_bar_next_event _ := None
|}.

Local Abbreviation battery :=
  (@Dyn _ (@BarModuleBattery_fn programs literal_regexes no_floats three_chars)
     (BarModuleBattery_create (battery_default_config "0"))).
Local Abbreviation pactl :=
  (@Dyn _ (@BarModulePactl_fn programs volume_regexes no_floats three_chars)
     (BarModulePactl_create (pactl_default_config "0"))).
Local Abbreviation date :=
  (@Dyn _ (@BarModuleDate_fn programs) (BarModuleDate_create (date_default_config "0"))).

Definition three_modules : Config :=
  {| refresh_interval := 1000;
     modules := [window_default_config "0"; pactl_default_config "0"; date_default_config "0"] |}.
Local Abbreviation mods3 :=
  (@create_modules env programs volume_regexes no_floats three_chars three_modules).

(** The first line of the three modules. *)
Lemma first_line_done :
  match (build_all None mods3 []).2 with Done r => bool_decide (length r.2 = 3) | _ => false end
  = true.
Proof. by vm_compute. Qed.

Lemma sample_real_pids : @real_pids env.
Proof.
  intros tr root n [= <-] Hn. revert n Hn. apply Forall_forall. decide_now.
Qed.

Lemma generate_status_1_named_witness :
  ∃ w p d tr1 b1 b2 b3,
    build_all None mods3 [] = (tr1, Done ([w; p; d], [b1; b2; b3]))
    ∧ ∃ bs1 bs2, Forall2 same_text [b1] bs1 ∧ Forall2 same_text [b3] bs2
      ∧ (@generate_status_1 no_json [w; p; d] (Some ("pactl", "0", ClickEvent)) tr1).1
        = ((x ← dyn_build (Some ("pactl", "0", ClickEvent)) p;
           perform (Println (default EmptyString (@blocks_to_json no_json (bs1 ++ snd x :: bs2))
                             +:+ "," +:+ nl)) ;;
           mret ([w] ++ fst x :: [d])) tr1).1.
Proof.
  pose proof first_line_done as Hd.
  destruct (build_all None mods3 []) as [tr1 [[mods' bs]| |]] eqn:E; [|done..].
  cbn in Hd. apply bool_decide_eq_true in Hd.
  pose proof (proj1 (build_all_config _ _ _ _ _ _ (created_lawful three_modules) E)) as Hc.
  destruct mods' as [|w [|p [|d [|]]]]; try discriminate Hc.
  destruct bs as [|b1 [|b2 [|b3 [|]]]]; try discriminate Hd.
  injection Hc as Hw Hp Hdate.
  exists w, p, d, tr1, b1, b2, b3. split; [done|].
  destruct (@generate_status_1_named env programs volume_regexes no_floats three_chars no_json
    three_modules [] [] [] mods3 None [] tr1 [w] p [d] [b1] b2 [b3] "pactl" "0" ClickEvent tr1)
    as (bs1 & bs2 & H1 & H2 & Eg).
  - exact sample_real_pids.
  - reflexivity.
  - exact E.
  - reflexivity.
  - repeat constructor. unfold named. rewrite Hw. by intros [=].
  - repeat constructor. unfold named. rewrite Hdate. by intros [=].
  - exists bs1, bs2. split; [done|]. split; [done|]. exact (f_equal fst Eg).
Defined.

Lemma handle_click_runs_one_witness :
  @handle_click no_json only_header (Some "pactl", Some "0", "WheelUp") [battery; pactl; date] []
  = ([RunStatus "pactl" ["set-sink-volume"; "@DEFAULT_SINK@"; "+1%"]],
     Done (Some ("pactl", "0", ClickEvent))).
Proof.
  destruct (@handle_click_runs_one no_json only_header "pactl" "0" "WheelUp"
    [battery; pactl; date] []) as (_ & _ & cmd & Hc & E).
  injection Hc as <-.
  exact (E [] ["pactl"; "set-sink-volume"; "@DEFAULT_SINK@"; "+1%"] eq_refl).
Defined.

Lemma handle_input_spins_at_eof_witness :
  @handle_input no_json only_header 3 [] [] = (replicate 4 ReadLine, NoReturn).
Proof. by apply (@handle_input_spins_at_eof no_json only_header 3 [] []). Defined.
End Witnesses.
