(* ===== verification/BarSafety.v ===== *)
(** * swayrbar does not panic (swayrbar/src/bar.rs, swayrbar/src/module/*.rs)

    While sway is up, volumes fit a byte, nmcli's lines have their four parts and the
    formats of date modules are strftime formats, no status line and no click makes a
    thread of swayrbar panic.  Each module is an instance of [BarModuleSafe]; what is
    proved about the threads relies on this interface alone. *)

From S2P Require Import Prelude RString Regex Fmt Ipc Sway Hoare BarModule BarModules Bar.
From S2P Require Samples.

(** ** What is relied on *)
Section Healthy.
Context `{Env} `{BarEnv} `{RegexCrate}.

Record HealthyBar : Prop := {
  bar_connect tr : env_connect tr = Ok tt;
  bar_tree tr : ∃ root, env_get_tree tr = Ok root ∧ typable root;
  bar_placeholders : ∃ rx, rx_new PLACEHOLDER_RX = Some rx ∧ PlaceholderLaws rx;
  bar_battery_manager tr : env_battery_manager tr = Ok tt;
  bar_volume_rx : is_Some (rx_new VOLUME_RX);
  bar_volume_fits tr pactl_args code output rx c :
    env_output (tr ++ [RunOutput "pactl" pactl_args]) = Ok (code, output) →
    rx_new VOLUME_RX = Some rx → captures rx output = Some c →
    ∃ digits, mjoin (c !! 1) = Some digits ∧ is_Some (parse_u8 digits);
  bar_no_volume_of_nothing rx c :
    rx_new VOLUME_RX = Some rx → captures rx EmptyString = Some c → False;
  bar_nmcli_lines tr nmcli_args code output line :
    env_output (tr ++ [RunOutput "nmcli" nmcli_args]) = Ok (code, output) →
    line ∈ lines output → starts_with "*" line = true → 4 ≤ length (split ":" line)
}.
End Healthy.

(** ** The interface *)

(** A command that a click on the module runs. *)
Definition clicked (cmd : list string) (cfg : ModuleConfig) : Prop :=
  ∃ clicks button, on_click cfg = Some clicks ∧ clicks !! button = Some cmd.

(** A module whose text can always be made, and whose clicks' arguments can always be
    substituted, in a command that keeps its length, when its configuration is [fit]. *)
Class BarModuleSafe (M : Type) `{!BarModuleFn M} := {
  fit : ModuleConfig → Prop;
  build_runs nai m :
    fit (get_config m) → runs false (build nai m) (λ r, get_config r.1 = get_config m);
  subst_args_runs cmd m :
    fit (get_config m) → clicked cmd (get_config m) →
    runs false (subst_args cmd m) (λ r, match r with
      | Some cmd' => length cmd' = length cmd
      | None => True
      end)
}.

Definition dyn_safe (m : dyn_module) : Prop :=
  ∃ S : @BarModuleSafe (dyn_type m) (dyn_fn m), @fit _ _ S (dyn_config m).

(** ** The modules *)

(** The texts a date module writes the time by are strftime formats: its format and all
    arguments of its clicks' commands. *)
Definition dates_valid `{BarEnv} (cfg : ModuleConfig) : Prop :=
  ∀ s, s = format cfg ∨ (∃ cmd, clicked cmd cfg ∧ s ∈ cmd) →
  ∀ tr, is_Some (env_local_time (tr ++ [LocalTime s])).

Section Modules.
Context `{Env} `{BarEnv} `{RegexCrate} `{Floats} `{RtFormatCrate} (Hb : HealthyBar).

Lemma subst_done arms html s :
  (∀ n o, arms n = Some o → ∃ a, o = Done a) →
  ∃ r, subst_placeholders arms html s = Done r.
Proof. destruct (bar_placeholders Hb) as (rx & E & Hl). by apply (subst_placeholders_total _ _ _ rx). Qed.

Lemma runs_subst {S} arms html s (k : string → io S) :
  (∀ n o, arms n = Some o → ∃ a, o = Done a) → (∀ t, safe false (k t)) →
  safe false (t ← lift (subst_placeholders arms html s); k t).
Proof. intros [t E]%(subst_done arms html s) Hk. apply runs_bind. by eapply runs_lift. Qed.

Lemma subst_all_done f cmd :
  (∀ s, ∃ r, f s = Done r) → ∃ cmd', subst_all f cmd = Done cmd' ∧ length cmd' = length cmd.
Proof.
  intros Hf. induction cmd as [|a cmd (cmd' & E & Hl)]; [by exists []|].
  destruct (Hf a) as [a' Ea]. exists (a' :: cmd'). cbn. rewrite Ea. cbn. rewrite E. cbn.
  by rewrite Hl.
Qed.

(** The arms of a module's placeholders only return. *)
Ltac arms_done :=
  let n := fresh in let o := fresh in intros n o;
  unfold window_arms, sysinfo_arms, battery_arms, pactl_arms, nmcli_arms;
  repeat case_decide; intros; simplify_eq/=; by eexists.

Lemma runs_build_state {S} NAME cfg (text : S → string) b (refresh : S → io S) st :
  (∀ st, safe false (refresh st)) → safe false (build_state NAME cfg text b refresh st).
Proof.
  intros Hr. apply runs_bind. apply (runs_mono _ _ (λ _, True)).
  - destruct b; [apply Hr|by apply runs_ret].
  - intros st' _. by apply runs_ret.
Qed.

(** [build] is a [build_state] followed by the new module, [subst_args] substitutes all
    arguments. *)
Ltac build_runs_tac :=
  intros nai m _; apply runs_bind; eapply runs_mono;
    [apply runs_build_state; intros st|intros r _; by apply runs_ret].

Lemma runs_subst_args f cmd :
  (∀ s, ∃ r, f s = Done r) →
  runs false (cmd' ← lift (subst_all f cmd); mret (Some cmd')) (λ r, match r with
    | Some cmd' => length cmd' = length cmd
    | None => True
    end).
Proof.
  intros (cmd' & E & Hl)%(subst_all_done f cmd). apply runs_bind.
  eapply runs_lift; [exact E|]. by apply runs_ret.
Qed.

Ltac subst_runs_tac :=
  intros cmd m _ _; apply runs_subst_args; intros s; apply subst_done; arms_done.

Lemma runs_get_root_node_typable : runs false (get_root_node false) typable.
Proof.
  unfold get_root_node, shared_connection. apply runs_bind, runs_bind, runs_ask. intros tr.
  assert (runs false (r ← con_get_tree;
    match r with
    | Ok root => mret (if false then root else drop_scratchpads root)
    | Err _ => panic "Couldn't get tree"
    end) typable) as Hget.
  { apply runs_bind, runs_request. intros tr1. destruct (bar_tree Hb tr1) as (root & -> & Ht).
    apply runs_ret. by apply drop_scratchpads_typable. }
  destruct (bool_decide _); [by apply runs_ret|].
  apply runs_bind, runs_perform, runs_bind, runs_ask. intros tr1. rewrite (bar_connect Hb).
  by apply runs_ret.
Qed.

#[local] Instance BarModuleWindow_safe : BarModuleSafe BarModuleWindow.
Proof.
  refine {| fit _ := True |}; [|subst_runs_tac]. build_runs_tac. apply runs_bind.
  eapply runs_mono; [apply runs_get_root_node_typable|]. intros root Ht.
  rewrite iter_done. do 2 io_step.
  rewrite (find_o_done _ (λ n, focused n && is_type Type_Window n)).
  2: { intros n Hn. unfold is_focused_window. destruct (focused n); [|done].
       by apply has_type_done, (typable_elem root). }
  do 2 io_step. destruct (find _ _) as [w|]; [|by apply runs_ret]. cbv zeta.
  apply runs_subst; [arms_done|intros t; by apply runs_ret].
Defined.

#[local] Instance BarModuleSysInfo_safe : BarModuleSafe BarModuleSysInfo.
Proof.
  refine {| fit _ := True |}; [|subst_runs_tac]. build_runs_tac.
  assert (∀ s, safe false (refresh_cpu s)) as Hcpu.
  { intros [sys upd]. unfold refresh_cpu. io_steps. }
  assert (∀ s, safe false (refresh_memory s)) as Hmem.
  { intros [sys upd]. unfold refresh_memory. io_steps. }
  unfold sysinfo_refresh_state, get_cpu_usage, get_memory_usage, get_load_average.
  repeat (apply runs_bind; apply (runs_mono _ _ (λ _, True));
    [apply runs_bind; (eapply runs_mono; [first [apply Hcpu|apply Hmem]|]); intros ? _;
     repeat case_match; by apply runs_ret|intros [[] ?] _]).
  apply runs_subst; [arms_done|intros t; by apply runs_ret].
Defined.

#[local] Instance BarModuleBattery_safe : BarModuleSafe BarModuleBattery.
Proof.
  refine {| fit _ := True |}; [|subst_runs_tac]. build_runs_tac. unfold battery_refresh_state.
  apply runs_bind, runs_perform, runs_bind, runs_ask. intros tr. rewrite (bar_battery_manager Hb).
  apply runs_bind, runs_ret, runs_bind. apply (runs_mono _ _ (λ _, True)).
  - apply runs_bind, runs_perform, runs_bind_ok, runs_ask. intros tr1.
    destruct (env_batteries tr1) as [l|]; [|done].
    induction l as [|b l IH]; [by apply runs_ret|]. cbn [refreshed_batteries].
    apply runs_bind_ok, runs_ret. destruct b as [b|e]; [|done].
    apply runs_bind, runs_perform, runs_bind, runs_ask. intros tr2.
    apply runs_bind_ok. eapply runs_mono; [exact IH|]. intros [bats|e] _; [|done].
    by apply runs_ret.
  - intros [bats|e] _; [|by apply runs_ret]. cbv zeta.
    apply runs_subst; [arms_done|intros t; by apply runs_ret].
Defined.

Lemma runs_chrono_format s :
  (∀ tr, is_Some (env_local_time (tr ++ [LocalTime s]))) → safe false (chrono_format s).
Proof.
  intros Hv tr. destruct (Hv tr) as [t E]. unfold chrono_format, mbind, io_bind. cbn.
  by rewrite E.
Qed.

#[local] Instance BarModuleDate_safe : BarModuleSafe BarModuleDate.
Proof.
  refine {| fit := dates_valid |}.
  - intros nai m Hf. apply runs_bind. eapply runs_mono.
    + apply runs_build_state. intros st. apply runs_chrono_format, Hf. by left.
    + intros r _. by apply runs_ret.
  - intros cmd m Hf Hcmd. apply runs_bind. apply (runs_mono _ _ (λ cmd', length cmd' = length cmd)).
    + assert (∀ s, s ∈ cmd → ∀ tr, is_Some (env_local_time (tr ++ [LocalTime s]))) as Hv
        by (intros s Hs; apply Hf; right; by exists cmd).
      clear Hcmd. induction cmd as [|a cmd IH]; [by apply runs_ret|]. cbn [chrono_format_all].
      apply runs_bind. eapply runs_mono; [apply runs_chrono_format, Hv; left|]. intros t _.
      apply runs_bind. eapply runs_mono; [apply IH; intros s Hs; apply Hv; by right|].
      intros cmd' Hl. apply runs_ret. cbn. by rewrite Hl.
    + intros cmd' Hl. by apply runs_ret.
Defined.

Lemma runs_get_volume : safe false get_volume.
Proof.
  unfold get_volume, run_pactl. destruct (bar_volume_rx Hb) as [rx Erx].
  assert (rx_unwrap VOLUME_RX = Done rx) as -> by (unfold rx_unwrap; by rewrite Erx).
  intros tr. set (tr1 := tr ++ [RunOutput "pactl" ["get-sink-volume"; "@DEFAULT_SINK@"]]).
  unfold mbind, io_bind. cbn. fold tr1.
  destruct (env_output tr1) as [[code out]|e] eqn:Eo; cbn.
  - destruct (captures rx out) as [c|] eqn:Ec; [|done].
    destruct (bar_volume_fits Hb _ _ _ _ rx c Eo Erx Ec) as (d & -> & v & Hv). cbn.
    by rewrite Hv.
  - destruct (captures rx EmptyString) as [c|] eqn:Ec; [|done].
    by destruct (bar_no_volume_of_nothing Hb rx c Erx Ec).
Qed.

#[local] Instance BarModulePactl_safe : BarModuleSafe BarModulePactl.
Proof.
  refine {| fit _ := True |}; [|subst_runs_tac]. build_runs_tac. unfold pactl_refresh_state.
  apply runs_bind. eapply runs_mono; [apply runs_get_volume|]. intros v _.
  apply runs_bind. apply (runs_mono _ _ (λ _, True)).
  - unfold get_mute_state, run_pactl. io_steps.
  - intros b _. apply runs_subst; [arms_done|intros t; by apply runs_ret].
Defined.
#[local] Instance BarModuleNmcli_safe : BarModuleSafe BarModuleNmcli.
Proof.
  refine {| fit _ := True |}; [|subst_runs_tac]. build_runs_tac. unfold nmcli_refresh_state.
  apply runs_bind. apply (runs_mono _ _ (λ r, ∀ output, r = Ok output →
    ∀ line, line ∈ lines output → starts_with "*" line = true → 4 ≤ length (split ":" line))).
  - intros tr. unfold run_nmcli, perform, ask, mbind, io_bind, mret, io_ret. cbn -[split lines].
    set (tr1 := tr ++ _). destruct (env_output tr1) as [[code out]|e] eqn:Eo; [|done].
    case_decide; [|done]. intros output [= <-] line.
    exact (bar_nmcli_lines Hb _ _ _ _ _ Eo).
  - intros r Hr. apply runs_bind. apply (runs_mono _ _ (λ _, True)).
    2: { intros st' _. apply runs_subst; [arms_done|intros t; by apply runs_ret]. }
    destruct r as [output|e]; [|by apply runs_ret]. specialize (Hr output eq_refl).
    unfold nmcli_parse. destruct (find _ _) as [line|] eqn:Ef; [|by io_steps].
    apply find_Some in Ef as [Hin Hst]. specialize (Hr line Hin Hst).
    destruct (split ":" line) as [|? [|? [|? [|? ?]]]]; cbn in Hr; try lia. cbn. by io_steps.
Defined.

(** ** Created modules *)
Lemma create_module_safe mc m :
  (name mc = "date" → dates_valid mc) → create_module mc = Some m → dyn_safe m.
Proof.
  intros Hd. unfold create_module. repeat case_decide; intros; simplify_eq; unfold dyn_safe; cbn.
  - by exists BarModuleWindow_safe.
  - by exists BarModuleSysInfo_safe.
  - by exists BarModuleBattery_safe.
  - exists BarModuleDate_safe. by apply Hd.
  - by exists BarModulePactl_safe.
  - by exists BarModuleNmcli_safe.
Qed.

(** The configuration's date modules have strftime formats. *)
Definition config_dates_valid (config : Config) : Prop :=
  Forall (λ mc, name mc = "date" → dates_valid mc) (modules config).

Lemma create_modules_safe config :
  config_dates_valid config → Forall dyn_safe (create_modules config).
Proof.
  unfold config_dates_valid. rewrite Forall_forall. intros Hd. apply Forall_forall.
  intros m (mc & Hmc & E)%list_elem_of_omap. by eapply create_module_safe; [apply Hd|].
Qed.
End Modules.

(** ** The threads *)
Section Threads.
Context `{SwaybarTypes} `{BarIO}.

(** The commands of a module's clicks have a program. *)
Definition commands_present (cfg : ModuleConfig) : Prop :=
  from_option (map_Forall (λ _ cmd, cmd ≠ [])) True (on_click cfg).

#[export] Instance commands_present_dec cfg : Decision (commands_present cfg).
Proof. unfold commands_present. destruct (on_click cfg); apply _. Defined.

Definition usable (m : dyn_module) : Prop :=
  dyn_safe m ∧ lawful m ∧ commands_present (dyn_config m).

Lemma runs_dyn_build nai m : dyn_safe m → runs false (dyn_build nai m) (λ r, dyn_safe r.1).
Proof.
  intros [S Hf]. apply runs_bind. eapply runs_mono; [exact (@build_runs _ _ S nai _ Hf)|].
  intros r Hr. apply runs_ret. exists S. unfold dyn_config in *. cbn. by rewrite Hr.
Qed.

Lemma runs_build_all nai mods :
  Forall dyn_safe mods → runs false (build_all nai mods) (λ r, Forall dyn_safe r.1).
Proof.
  induction 1 as [|m mods Hm _ IH]; [by apply runs_ret|]. cbn [build_all].
  apply runs_bind. eapply runs_mono; [by apply runs_dyn_build|]. intros r Hr.
  apply runs_bind. eapply runs_mono; [exact IH|]. intros rs Hrs. apply runs_ret. by constructor.
Qed.

Lemma runs_generate_status_1 nai mods :
  Forall dyn_safe mods → runs false (generate_status_1 mods nai) (Forall dyn_safe).
Proof.
  intros Hs. apply runs_bind. eapply runs_mono; [by apply runs_build_all|]. intros r Hr.
  by apply runs_bind, runs_perform, runs_ret.
Qed.

Lemma generate_status_1_usable mods nai tr :
  Forall usable mods →
  ∃ tr' mods', generate_status_1 mods nai tr = (tr', Done mods') ∧ Forall usable mods'
    ∧ dyn_config <$> mods' = dyn_config <$> mods.
Proof.
  intros Hu. assert (Forall dyn_safe mods) as Hs
    by (eapply Forall_impl; [exact Hu|]; by intros ? []).
  assert (Forall lawful mods) as Hl
    by (eapply Forall_impl; [exact Hu|]; by intros ? (_ & ? & _)).
  pose proof (runs_generate_status_1 nai mods Hs tr) as Hr.
  destruct (generate_status_1 mods nai tr) as [tr' [mods'| |]] eqn:E; [|done..]. cbn in Hr.
  exists tr', mods'. split; [done|].
  apply generate_status_1_config in E as [Hc Hl']; [|done].
  assert (Forall commands_present (dyn_config <$> mods')) as Hp.
  { rewrite Hc. apply Forall_fmap. eapply Forall_impl; [exact Hu|]. by intros ? (_ & _ & ?). }
  split; [|done]. rewrite Forall_fmap in Hp. clear -Hr Hl' Hp. rewrite Forall_forall in *.
  intros m Hm. split_and!; auto. by apply Hp.
Qed.

Lemma generate_all_usable mods events tr :
  Forall usable mods →
  ∃ tr' mods', generate_all mods events tr = (tr', Done mods') ∧ Forall usable mods'
    ∧ dyn_config <$> mods' = dyn_config <$> mods.
Proof.
  revert mods tr. induction events as [|ev events IH]; intros mods tr Hu; [by exists tr, mods|].
  destruct (generate_status_1_usable mods ev tr Hu) as (tr1 & mods1 & E & Hu1 & Hc1).
  destruct (IH mods1 tr1 Hu1) as (tr2 & mods2 & E2 & Hu2 & Hc2).
  exists tr2, mods2. split; [|split; [done|by rewrite Hc2]]. cbn [generate_all]. by rewrite (io_bind_done _ _ _ _ _ E).
Qed.

Lemma runs_execute_command cmd : cmd ≠ [] → safe false (execute_command cmd).
Proof. intros Hc. destruct cmd as [|prog args]; [done|]. cbn. io_steps. Qed.

Lemma runs_handle_click click mods :
  Forall usable mods → safe false (handle_click click mods).
Proof.
  intros Hu. destruct click as [[[n|] [i|]] b]; try by apply runs_ret.
  cbn [handle_click]. induction Hu as [|m mods ([S Hf] & _ & Hc) _ IH]; [by apply runs_ret|].
  cbn [handle_click_in]. destruct (dyn_on_click_map m n i ≫= lookup (button_debug b)) as [cmd|] eqn:E;
    [|exact IH].
  assert (clicked cmd (dyn_config m)) as Hcl.
  { unfold dyn_on_click_map, get_on_click_map in E. destruct (_ && _); [|done].
    fold (dyn_config m) in E. destruct (on_click (dyn_config m)) as [map|] eqn:Em; [|done].
    by exists map, (button_debug b). }
  assert (cmd ≠ []) as Hne.
  { destruct Hcl as (map & button & Em & Hb). unfold commands_present in Hc. rewrite Em in Hc.
    exact (Hc button cmd Hb). }
  apply runs_bind. eapply runs_mono; [exact (@subst_args_runs _ _ S cmd _ Hf Hcl)|].
  intros r Hr. apply runs_bind. eapply runs_mono.
  - apply runs_execute_command. destruct r as [cmd'|]; [|done]. cbn.
    intros ->. by destruct cmd.
  - intros _ _. by apply runs_ret.
Qed.

Lemma runs_handle_line buf mods : Forall usable mods → safe false (handle_line buf mods).
Proof.
  intros Hu. destruct buf as [buf|e]; [|by apply runs_ret]. cbn [handle_line].
  destruct (click_from_json _) as [click|]; [|by apply runs_ret].
  apply runs_bind. eapply runs_mono; [by apply runs_handle_click|]. intros ev _.
  destruct (is_some ev); [by apply runs_perform|by apply runs_ret].
Qed.

Lemma created_usable `{Env} `{BarEnv} `{RegexCrate} `{Floats} `{RtFormatCrate} config :
  HealthyBar → config_dates_valid config → Forall commands_present (modules config) →
  Forall usable (create_modules config).
Proof.
  intros Hb Hd Hp. pose proof (create_modules_safe Hb config Hd) as Hs.
  pose proof (created_lawful config) as Hl. rewrite Forall_forall in *.
  intros m Hm. split; [by apply Hs|]. split; [by apply Hl|].
  apply list_elem_of_omap in Hm as (mc & Hmc & [-> _]%create_module_spec).
  exact (proj1 (Forall_forall _ _) Hp mc Hmc).
Qed.

(** ** Claim *)

(** C20: While sway is up with well-formed trees, the battery service is there, volumes fit
    a byte, nmcli's lines have their four parts, every configured click has a program and
    the formats and click arguments of date modules are strftime formats, swayrbar keeps
    running: a status line is printed for every refresh event, whatever
    they are and however many, and at any time any line of input is handled, be it a
    click or not, without a panic of either thread. *)
Theorem swayrbar_keeps_running `{Env} `{BarEnv} `{RegexCrate} `{Floats} `{RtFormatCrate}
    config events tr :
  HealthyBar → config_dates_valid config → Forall commands_present (modules config) →
  ∃ tr' mods', generate_status (create_modules config) events tr = (tr', Done mods')
    ∧ dyn_config <$> mods' = dyn_config <$> create_modules config
    ∧ ∀ buf tr2, ∃ tr3, handle_line buf mods' tr2 = (tr3, Done tt).
Proof.
  intros Hb Hd Hp. unfold generate_status.
  rewrite !(io_bind_done (perform _) _ _ _ _ eq_refl).
  set (tr1 := (tr ++ _) ++ _).
  destruct (generate_all_usable (create_modules config) events tr1
    (created_usable config Hb Hd Hp))
    as (tr' & mods' & E & Hu & Hc).
  exists tr', mods'. split; [done|]. split; [done|].
  intros buf tr2. pose proof (runs_handle_line buf mods' Hu tr2) as Hr.
  destruct (handle_line buf mods' tr2) as [tr3 [[]| |]]; [by exists tr3|done..].
Qed.
End Threads.

(** ** Witness *)
Section Witness.
Import Samples.
Local Abbreviation env := (quiet_env sample_root).
Local Abbreviation programs := (printing "Volume: 40%").

Lemma sample_healthy_bar : @HealthyBar env programs volume_regexes.
Proof.
  split.
  - done.
  - intros tr. exists sample_root. split; [done|apply sample_typable].
  - exists PLACEHOLDER_RX. split; [done|]. split.
    + intros s ms rest [= <- <-]. done.
    + intros s ms rest [= <- <-]. constructor.
  - done.
  - by eexists.
  - intros tr args code output rx c [= <- <-] _. cbn. intros [= <-].
    exists "40". split; [done|]. by eexists.
  - intros rx c _. vm_compute. discriminate.
  - intros tr args code output line [= <- <-] Hl.
    assert (line = "Volume: 40%") as -> by (by apply list_elem_of_singleton in Hl). done.
Qed.

Lemma swayrbar_keeps_running_witness :
  ∃ tr' mods',
    @generate_status no_json
      (@create_modules env programs volume_regexes no_floats three_chars Config_default)
      [None; Some ("window", "0", SwayEvent)] [] = (tr', Done mods').
Proof.
  destruct (@swayrbar_keeps_running no_json only_header env programs volume_regexes no_floats
    three_chars Config_default [None; Some ("window", "0", SwayEvent)] [])
    as (tr' & mods' & E & _).
  - apply sample_healthy_bar.
  - apply Forall_forall. intros mc _ _ s _ tr. by eexists.
  - decide_now.
  - exists tr', mods'. exact E.
Defined.
End Witness.
