(* ===== verification/BarThreads.v ===== *)
(** * swayrbar: the threads together (swayrbar/src/bar.rs)

    The ticker, the input thread and the thread for sway's events send refresh events
    through a channel with 16 places to the main thread, which prints a status line
    for each.  A thread that sends to a full channel waits.  [bar_step] is one step of
    one of the threads; the functions they run are those of Bar.v. *)

From S2P Require Import Prelude RString Regex Fmt Ipc Sway Hoare Cfg BarModule BarModules Bar BarSafety.
From S2P Require Samples.

(** ** The interface *)

(** An effect that is no event sent to the main thread. *)
Definition no_send (e : effect) : Prop := match e with SendRefresh _ => False | _ => True end.

(** A module leaves sending to the threads. *)
Class BarModuleQuiet (M : Type) `{!BarModuleFn M} : Prop := {
  build_adds nai m : adds no_send (build nai m);
  subst_args_adds cmd m : adds no_send (subst_args cmd m)
}.

Definition dyn_quiet (m : dyn_module) : Prop := @BarModuleQuiet (dyn_type m) (dyn_fn m).

Section Modules.
Context `{Env} `{BarEnv} `{RegexCrate} `{Floats} `{RtFormatCrate}.

Ltac quiet_tac :=
  split; [intros nai m|intros cmd m];
    cbn [build subst_args BarModuleWindow_fn BarModuleSysInfo_fn BarModuleBattery_fn
         BarModuleDate_fn BarModulePactl_fn BarModuleNmcli_fn];
    unfold build_state; adds_steps.

#[local] Instance BarModuleWindow_quiet : BarModuleQuiet BarModuleWindow.
Proof.
  quiet_tac. unfold window_refresh_state, get_root_node, shared_connection, con_get_tree.
  adds_steps.
Qed.

#[local] Instance BarModuleSysInfo_quiet : BarModuleQuiet BarModuleSysInfo.
Proof.
  quiet_tac. unfold sysinfo_refresh_state, get_cpu_usage, get_memory_usage, get_load_average,
    refresh_cpu, refresh_memory. adds_steps.
Qed.

#[local] Instance BarModuleBattery_quiet : BarModuleQuiet BarModuleBattery.
Proof.
  quiet_tac. unfold battery_refresh_state, get_refreshed_batteries, unwrap_ok. adds_steps.
  match goal with |- adds _ (refreshed_batteries ?l) => induction l; cbn; adds_steps; done end.
Qed.

#[local] Instance BarModuleDate_quiet : BarModuleQuiet BarModuleDate.
Proof.
  quiet_tac; unfold chrono_format; adds_steps.
  induction cmd; cbn; unfold chrono_format; by adds_steps.
Qed.

#[local] Instance BarModulePactl_quiet : BarModuleQuiet BarModulePactl.
Proof.
  quiet_tac. unfold pactl_refresh_state, get_volume, get_mute_state, run_pactl. adds_steps.
Qed.

#[local] Instance BarModuleNmcli_quiet : BarModuleQuiet BarModuleNmcli.
Proof. quiet_tac. unfold nmcli_refresh_state, run_nmcli. adds_steps. Qed.

Lemma create_modules_quiet config : Forall dyn_quiet (create_modules config).
Proof.
  apply Forall_forall. intros m (mc & _ & E)%list_elem_of_omap. revert E.
  unfold create_module. repeat case_decide; intros; simplify_eq; unfold dyn_quiet; cbn; apply _.
Qed.
End Modules.

(** ** State *)
Inductive sender := Ticker | Input | SwayEvents.

#[export] Instance sender_eq_dec : EqDecision sender.
Proof. solve_decision. Defined.

Abbreviation refresh := (option NameInstanceAndReason).

(** [sync_channel(16)]. *)
Definition channel_capacity : nat := 16.

(** What happens around swayrbar: an interval passes, a line is read from the standard
    input, sway reports a change of a window or a workspace. *)
Inductive happening := Ticked | LineRead (buf : result string string) | SwayChanged.

(** Each event in the channel is marked with its sender.  [sending t] are the events
    that the thread [t] has still to send, the first one in a call of [send] that may
    be waiting; [printing_ev] is the event whose status line is being made.  [bar_line] is
    the effect that printed the last status line, [happened] records what has happened
    and [printed] which events have been printed. *)
Record bar_system := {
  queue : list (sender * refresh);
  sending : sender → list refresh;
  printing_ev : option (sender * refresh);
  bar_modules : list dyn_module;
  bar_trace : trace;
  bar_line : option effect;
  happened : list happening;
  printed : list (sender * refresh)
}.

Definition bar_init (mods : list dyn_module) (tr : trace) : bar_system :=
  {| queue := []; sending _ := []; printing_ev := None; bar_modules := mods; bar_trace := tr;
     bar_line := None; happened := []; printed := [] |}.

Definition upd {A} (t : sender) (x : A) (f : sender → A) : sender → A :=
  λ u, if decide (u = t) then x else f u.

(** The events sent between two traces. *)
Definition send_of (e : effect) : option refresh :=
  match e with SendRefresh ev => Some ev | _ => None end.
Definition sent (tr tr' : trace) : list refresh := omap send_of (drop (length tr) tr').

(** A thread that is not sending handles what has happened, which takes the trace to
    [tr]; the events it sends meanwhile have to get into the channel one by one. *)
Definition produce (t : sender) (h : happening) (tr : trace) (s : bar_system) : bar_system :=
  {| queue := queue s; sending := upd t (sent (bar_trace s) tr) (sending s);
     printing_ev := printing_ev s; bar_modules := bar_modules s; bar_trace := tr;
     bar_line := bar_line s; happened := happened s ++ [h]; printed := printed s |}.

(** [send] puts the first event of the thread into the channel. *)
Definition enqueue (t : sender) (ev : refresh) (evs : list refresh) (s : bar_system)
    : bar_system :=
  {| queue := queue s ++ [(t, ev)]; sending := upd t evs (sending s);
     printing_ev := printing_ev s; bar_modules := bar_modules s; bar_trace := bar_trace s;
     bar_line := bar_line s; happened := happened s; printed := printed s |}.

Definition receive (x : sender * refresh) (q : list (sender * refresh)) (s : bar_system)
    : bar_system :=
  {| queue := q; sending := sending s; printing_ev := Some x; bar_modules := bar_modules s;
     bar_trace := bar_trace s; bar_line := bar_line s; happened := happened s;
     printed := printed s |}.

Definition print (x : sender * refresh) (mods : list dyn_module) (tr : trace) (s : bar_system)
    : bar_system :=
  {| queue := queue s; sending := sending s; printing_ev := None; bar_modules := mods;
     bar_trace := tr; bar_line := last tr; happened := happened s; printed := printed s ++ [x] |}.

Section Steps.
Context `{SwaybarTypes} `{BarIO}.

(** One turn of the loop of the thread for what has happened: of [tick_periodically], of
    the loop over the input lines, of the loop over sway's events. *)
Definition tick_turn : io unit := send_refresh_event None.
Definition input_turn (buf : result string string) (mods : list dyn_module) : io unit :=
  perform ReadLine ;; handle_line buf mods.
Definition sway_turn (mods : list dyn_module) : io unit :=
  perform NextEvent ;; refresh_windows (window_mods mods).

Inductive bar_step (s : bar_system) : bar_system → Prop :=
| step_tick tr :
    sending s Ticker = [] →
    tick_turn (bar_trace s) = (tr, Done tt) →
    bar_step s (produce Ticker Ticked tr s)
| step_line buf tr :
    sending s Input = [] →
    input_turn buf (bar_modules s) (bar_trace s) = (tr, Done tt) →
    bar_step s (produce Input (LineRead buf) tr s)
| step_sway tr :
    sending s SwayEvents = [] → window_mods (bar_modules s) ≠ [] →
    sway_turn (bar_modules s) (bar_trace s) = (tr, Done tt) →
    bar_step s (produce SwayEvents SwayChanged tr s)
| step_send t ev evs :
    sending s t = ev :: evs → length (queue s) < channel_capacity →
    bar_step s (enqueue t ev evs s)
| step_receive x q :
    printing_ev s = None → queue s = x :: q →
    bar_step s (receive x q s)
| step_print x tr mods :
    printing_ev s = Some x →
    generate_status_1 (bar_modules s) (snd x) (bar_trace s) = (tr, Done mods) →
    bar_step s (print x mods tr s).

(** The steps that only move events on, which need nothing from outside. *)
Inductive drain_step (s : bar_system) : bar_system → Prop :=
| drain_send t ev evs :
    sending s t = ev :: evs → length (queue s) < channel_capacity →
    drain_step s (enqueue t ev evs s)
| drain_receive x q :
    printing_ev s = None → queue s = x :: q →
    drain_step s (receive x q s)
| drain_print x tr mods :
    printing_ev s = Some x →
    generate_status_1 (bar_modules s) (snd x) (bar_trace s) = (tr, Done mods) →
    drain_step s (print x mods tr s).
End Steps.

(** ** The specification: which refreshes are due

    From the configuration and what has happened alone. *)
Definition known_names : list string :=
  ["window"; "sysinfo"; "battery"; "date"; "pactl"; "nmcli"].

(** The configurations of the modules that are shown. *)
Definition shown_configs (config : Config) : list ModuleConfig :=
  filter (λ mc, name mc ∈ known_names) (modules config).

Section Due.
Context `{SwaybarTypes}.

(** The refresh for a click: of the first module that has its name and instance and a
    command for the button, unless it is a window module. *)
Definition click_due (cfgs : list ModuleConfig)
    (click : option string * option string * ClickButton) : list refresh :=
  match click with
  | (Some n, Some i, button) =>
      match find (λ cfg, bool_decide ((name cfg, instance cfg) = (n, i))
                         && is_some (on_click cfg ≫= lookup (button_debug button))) cfgs with
      | Some cfg => if decide (n = "window") then [] else [Some (n, i, ClickEvent)]
      | None => []
      end
  | _ => []
  end.

Definition due_for (cfgs : list ModuleConfig) (t : sender) (h : happening) : list refresh :=
  match t, h with
  | Ticker, Ticked => [None]
  | Input, LineRead (Ok buf) =>
      match click_from_json (default buf (strip_prefix "," buf)) with
      | Some click => click_due cfgs click
      | None => []
      end
  | SwayEvents, SwayChanged =>
      (λ cfg, Some (name cfg, instance cfg, SwayEvent)) <$> filter (λ cfg, name cfg = "window") cfgs
  | _, _ => []
  end.

Definition due (cfgs : list ModuleConfig) (t : sender) (hs : list happening) : list refresh :=
  hs ≫= due_for cfgs t.
End Due.

(** ** What the threads maintain *)

(** The events of one sender. *)
Definition of_sender (t : sender) (l : list (sender * refresh)) : list refresh :=
  snd <$> filter (λ x, fst x = t) l.

(** All events that are under way to the main thread or past it, in order. *)
Definition delivered (s : bar_system) : list (sender * refresh) :=
  printed s ++ option_list (printing_ev s) ++ queue s.

(** What each sender has sent is what was due to it. *)
Definition bar_invariant `{SwaybarTypes} (cfgs : list ModuleConfig) (s : bar_system) : Prop :=
  length (queue s) ≤ channel_capacity
  ∧ (∀ t, of_sender t (delivered s) ++ sending s t = due cfgs t (happened s))
  ∧ dyn_config <$> bar_modules s = cfgs
  ∧ Forall lawful (bar_modules s) ∧ Forall dyn_quiet (bar_modules s).

(** The number of drain steps left. *)
Definition work (s : bar_system) : nat :=
  3 * (length (sending s Ticker) + length (sending s Input) + length (sending s SwayEvents))
  + 2 * length (queue s) + length (option_list (printing_ev s)).

(** ** Lemmas *)
Lemma of_sender_app t l1 l2 : of_sender t (l1 ++ l2) = of_sender t l1 ++ of_sender t l2.
Proof. unfold of_sender. by rewrite filter_app, fmap_app. Qed.

Lemma of_sender_singleton t u ev :
  of_sender t [(u, ev)] = if decide (t = u) then [ev] else [].
Proof.
  unfold of_sender. rewrite filter_cons, filter_nil. cbn.
  destruct (decide (u = t)) as [->|Hne]; [by rewrite decide_True|by rewrite decide_False].
Qed.

Lemma upd_spec {A} t u (x : A) f : upd t x f u = if decide (u = t) then x else f u.
Proof. reflexivity. Qed.

(** *** What the turns of the loops send *)
Lemma sent_app tr l : sent tr (tr ++ l) = omap send_of l.
Proof. unfold sent. by rewrite drop_app_length. Qed.

Lemma no_send_sends l : Forall no_send l → omap send_of l = [].
Proof. induction 1 as [|e l He _ IH]; [done|]. by destruct e. Qed.

Section Facts.
Context `{SwaybarTypes} `{BarIO}.

Lemma tick_turn_sends tr tr' : tick_turn tr = (tr', Done tt) → sent tr tr' = [None].
Proof. intros [= <-]. by rewrite sent_app. Qed.

Lemma window_mods_configs mods :
  window_mods mods
  = (λ cfg, (name cfg, instance cfg)) <$> filter (λ cfg, name cfg = "window") (dyn_config <$> mods).
Proof.
  induction mods as [|m mods IH]; [done|]. rewrite fmap_cons, filter_cons.
  unfold window_mods in *. cbn [omap list_omap].
  destruct (decide (name (dyn_config m) = "window")); [|exact IH]. rewrite fmap_cons. f_equal. exact IH.
Qed.

Lemma sway_turn_eq mods tr :
  sway_turn mods tr
  = (tr ++ NextEvent :: (SendRefresh <$> due_for (dyn_config <$> mods) SwayEvents SwayChanged),
     Done tt).
Proof.
  unfold sway_turn. rewrite (io_bind_done _ _ _ _ _ eq_refl). unfold refresh_windows.
  rewrite (for_each_done _ (λ m, [SendRefresh (Some (m.1, m.2, SwayEvent))])) by done.
  rewrite <- (assoc_L (++)). do 2 f_equal. cbn. f_equal. rewrite window_mods_configs.
  induction (filter _ _) as [|cfg l IH]; [done|]. cbn. by rewrite <- IH.
Qed.

Lemma send_of_refreshes (l : list refresh) : omap send_of (SendRefresh <$> l) = l.
Proof. induction l as [|x l IH]; [done|]. cbn. f_equal. exact IH. Qed.

Lemma handle_click_in_sends n i b mods tr tr' ev :
  Forall dyn_quiet mods → handle_click_in n i b mods tr = (tr', Done ev) →
  (∃ l, tr' = tr ++ l ∧ Forall no_send l)
  ∧ ev = (cfg ← find (λ cfg, bool_decide ((name cfg, instance cfg) = (n, i))
                             && is_some (on_click cfg ≫= lookup b)) (dyn_config <$> mods);
          if decide (n = "window") then None else Some (n, i, ClickEvent)).
Proof.
  intros Hq. induction Hq as [|m mods Hm _ IH]; intros E.
  { injection E as <- <-. split; [exists []; by rewrite app_nil_r|done]. }
  cbn [handle_click_in] in E. rewrite on_click_map_spec in E. rewrite fmap_cons. cbn [find].
  assert (bool_decide (named n i m)
    = bool_decide ((name (dyn_config m), instance (dyn_config m)) = (n, i))) as En.
  { apply bool_decide_ext. unfold named. split; congruence. }
  rewrite En in E. clear En. case_bool_decide as Hn; cbn [andb]; [|by apply IH].
  injection Hn as <- <-.
  destruct (on_click (dyn_config m) ≫= lookup b) as [cmd|]; cbn [is_some is_none negb];
    [|by apply IH]. cbn [mbind option_bind].
  apply io_bind_inv in E as (tr1 & r & E1 & E). apply io_bind_inv in E as (tr2 & u & E2 & E3).
  injection E3 as <- <-. split; [|done].
  apply (adds_done no_send) in E1 as (l1 & -> & H1);
    [|exact (@subst_args_adds _ _ Hm cmd (dyn_obj m))].
  apply (adds_done no_send) in E2 as (l2 & -> & H2); [|unfold execute_command; adds_steps].
  exists (l1 ++ l2). split; [by rewrite (assoc_L (++))|by apply Forall_app].
Qed.

Lemma handle_click_sends click mods tr tr' ev :
  Forall dyn_quiet mods → handle_click click mods tr = (tr', Done ev) →
  (∃ l, tr' = tr ++ l ∧ Forall no_send l)
  ∧ (if ev is Some _ then [ev] else []) = click_due (dyn_config <$> mods) click.
Proof.
  intros Hq E. destruct click as [[[n|] [i|]] b].
  2-4: injection E as <- <-; split; [exists []; by rewrite app_nil_r|done].
  apply handle_click_in_sends in E as [Hl ->]; [|done]. split; [done|]. cbn.
  destruct (find _ _); [|done]. cbn. by case_decide.
Qed.

Lemma input_turn_adds buf mods tr tr' :
  Forall dyn_quiet mods → input_turn buf mods tr = (tr', Done tt) →
  ∃ l, tr' = tr ++ l ∧ omap send_of l = due_for (dyn_config <$> mods) Input (LineRead buf).
Proof.
  intros Hq E. unfold input_turn in E. rewrite (io_bind_done _ _ _ _ _ eq_refl) in E.
  destruct buf as [buf|e]; cbn [handle_line due_for] in *; [|injection E as <-; by eexists].
  destruct (click_from_json _) as [click|]; [|injection E as <-; by eexists].
  apply io_bind_inv in E as (tr1 & ev & E1 & E).
  apply handle_click_sends in E1 as [(l & -> & Hl) <-]; [|done].
  apply no_send_sends in Hl. destruct ev as [ev|]; cbn in E; injection E as <-.
  - exists (ReadLine :: l ++ [SendRefresh (Some ev)]). split; [by rewrite <- !(assoc_L (++))|].
    cbn. by rewrite omap_app, Hl.
  - exists (ReadLine :: l). split; [by rewrite <- (assoc_L (++))|done].
Qed.

(** Every turn sends what is due, and takes back no effect. *)
Lemma bar_turn_sends s s' :
  Forall dyn_quiet (bar_modules s) → bar_step s s' →
  drain_step s s'
  ∨ ∃ t h tr, s' = produce t h tr s ∧ sending s t = [] ∧ bar_trace s `prefix_of` tr
      ∧ (∀ u, (if decide (u = t) then sent (bar_trace s) tr else [])
              = due_for (dyn_config <$> bar_modules s) u h).
Proof.
  intros Hq Hs. destruct Hs as [tr Ht E|buf tr Ht E|tr Ht _ E|t ev evs Ht Hlt|x q Hn Hx|x tr ms Hx Hg];
    [right|right|right|left; by constructor..].
  - exists Ticker, Ticked, tr. split_and!; [done|done|injection E as <-; by apply prefix_app_r|].
    apply tick_turn_sends in E as ->. by intros [].
  - apply input_turn_adds in E as (l & -> & El); [|done].
    exists Input, (LineRead buf), (bar_trace s ++ l).
    split_and!; [done|done|by apply prefix_app_r|]. intros u. rewrite sent_app, El. by destruct u.
  - rewrite sway_turn_eq in E. injection E as <-. eexists SwayEvents, SwayChanged, _.
    split_and!; [done|done|by apply prefix_app_r|]. intros u. rewrite sent_app. cbn [omap list_omap send_of].
    rewrite send_of_refreshes. by destruct u.
Qed.

(** *** The invariant *)
Lemma shown_configs_created `{Env} `{BarEnv} `{RegexCrate} `{Floats} `{RtFormatCrate} config :
  dyn_config <$> create_modules config = shown_configs config.
Proof.
  unfold create_modules, shown_configs. induction (modules config) as [|mc l IH]; [done|].
  cbn [omap list_omap]. rewrite filter_cons.
  assert (is_Some (create_module mc) ↔ name mc ∈ known_names) as Hk.
  { unfold create_module, known_names. rewrite !elem_of_cons, elem_of_nil.
    repeat case_decide; split; intros Hc; first [by eexists|tauto|by destruct Hc|idtac]. }
  destruct (create_module mc) as [m|] eqn:E.
  - rewrite decide_True by (apply Hk; by eexists). cbn.
    apply create_module_spec in E as [-> _]. f_equal. exact IH.
  - rewrite decide_False by (rewrite <- Hk; by intros []). exact IH.
Qed.

Lemma bar_init_invariant mods tr :
  Forall lawful mods → Forall dyn_quiet mods →
  bar_invariant (dyn_config <$> mods) (bar_init mods tr).
Proof. intros Hl Hq. split_and!; try done. cbn. unfold channel_capacity. lia. Qed.

Lemma dyn_build_quiet nai m tr tr' m' b :
  dyn_quiet m → dyn_build nai m tr = (tr', Done (m', b)) → tr `prefix_of` tr' ∧ dyn_quiet m'.
Proof.
  intros Hq E. split.
  - apply (adds_done no_send) in E as (l & -> & _); [by apply prefix_app_r|]. unfold dyn_build.
    apply adds_bind; [apply (@build_adds _ _ Hq)|intros; apply adds_ret].
  - unfold dyn_build in E. by apply io_bind_inv in E as (? & ? & _ & [= _ <- _]).
Qed.

Lemma build_all_quiet nai mods tr tr' mods' bs :
  Forall dyn_quiet mods → build_all nai mods tr = (tr', Done (mods', bs)) → Forall dyn_quiet mods'.
Proof.
  intros Hq. revert tr mods' bs.
  induction Hq as [|m mods Hm _ IH]; intros tr mods' bs E; [by injection E as _ <- _|].
  cbn [build_all] in E. apply io_bind_inv in E as (tr1 & [m1 b1] & Em & E).
  apply io_bind_inv in E as (tr2 & [ms1 bs1] & Ems & [= -> <- <-]).
  constructor; [by eapply dyn_build_quiet|by eapply IH].
Qed.

Lemma generate_status_1_quiet mods nai tr tr' mods' :
  Forall dyn_quiet mods → generate_status_1 mods nai tr = (tr', Done mods') → Forall dyn_quiet mods'.
Proof.
  intros Hq E. unfold generate_status_1 in E.
  apply io_bind_inv in E as (tr1 & [ms bs] & E & E2).
  apply io_bind_inv in E2 as (tr2 & [] & _ & [= _ <-]). by eapply build_all_quiet.
Qed.

Lemma drain_step_invariant cfgs s s' :
  bar_invariant cfgs s → drain_step s s' → bar_invariant cfgs s'.
Proof.
  intros (Hq & Hp & Hc & Hl & Hqu) Hs. destruct Hs as [t ev evs Ht Hlt|x q Hn Hx|x tr ms Hx Hg].
  - split_and!; try done.
    + cbn. rewrite length_app. cbn. lia.
    + intros u. pose proof (Hp u) as Hu. unfold delivered in *.
      cbn [enqueue printed printing_ev queue sending happened]. rewrite <- Hu.
      rewrite !of_sender_app, of_sender_singleton, upd_spec.
      destruct (decide (u = t)) as [->|]; [|by rewrite app_nil_r].
      by rewrite Ht, <- !(assoc_L (++)).
  - split_and!; try done.
    + cbn. rewrite Hx in Hq. cbn in Hq. lia.
    + intros u. pose proof (Hp u) as Hu. unfold delivered in *.
      cbn [receive printed printing_ev queue sending happened]. rewrite <- Hu. by rewrite Hn, Hx.
  - pose proof (generate_status_1_quiet _ _ _ _ _ Hqu Hg) as Hqu'.
    apply generate_status_1_config in Hg as [Hc' Hl']; [|done].
    split_and!; try done.
    + intros u. pose proof (Hp u) as Hu. unfold delivered in *.
      cbn [print printed printing_ev queue sending happened]. rewrite <- Hu. rewrite Hx. cbn.
      by rewrite <- (assoc_L (++)).
    + cbn. by rewrite Hc'.
Qed.

Lemma bar_step_invariant cfgs s s' :
  bar_invariant cfgs s → bar_step s s' → bar_invariant cfgs s'.
Proof.
  intros Hi Hs. pose proof Hi as (Hq & Hp & Hc & Hl & Hqu).
  destruct (bar_turn_sends s s' Hqu Hs) as [Hd|(t & h & tr & -> & Ht & _ & Hdue)];
    [by eapply drain_step_invariant|].
  split_and!; try done. intros u. unfold delivered, due.
  cbn [produce printed printing_ev queue sending happened].
  rewrite bind_app, bind_singleton, <- Hc, <- Hdue, Hc.
  specialize (Hp u). unfold due, delivered in Hp. rewrite <- Hp, upd_spec.
  destruct (decide (u = t)) as [->|]; [by rewrite Ht, app_nil_r|by rewrite app_nil_r].
Qed.

Lemma bar_reachable_invariant mods tr s :
  Forall lawful mods → Forall dyn_quiet mods → rtc bar_step (bar_init mods tr) s →
  bar_invariant (dyn_config <$> mods) s.
Proof.
  intros Hl Hq Hr. remember (bar_init mods tr) as s0 eqn:E0.
  assert (bar_invariant (dyn_config <$> mods) s0) as Hi by (subst; by apply bar_init_invariant).
  clear E0. induction Hr as [s|s s1 s2 Hs _ IH]; [done|].
  apply IH. by eapply bar_step_invariant.
Qed.

Lemma drain_step_work s s' : drain_step s s' → work s' < work s.
Proof.
  destruct 1 as [t ev evs Ht Hlt|x q Hn Hx|x tr ms Hx Hg]; unfold work; cbn.
  - rewrite !upd_spec, length_app. cbn [length].
    destruct t; repeat case_decide; try done; rewrite Ht; cbn [length]; lia.
  - rewrite Hn, Hx. cbn. lia.
  - rewrite Hx. cbn. lia.
Qed.

Lemma drain_steps_bounded n s s' : nsteps drain_step n s s' → n + work s' ≤ work s.
Proof.
  induction 1 as [s|n s1 s2 s3 Hs _ IH]; [lia|]. apply drain_step_work in Hs. lia.
Qed.

Lemma drain_step_happened s s' :
  drain_step s s' → happened s' = happened s ∧ printed s `prefix_of` printed s'.
Proof. destruct 1; cbn; split; try done. by eexists. Qed.

(** A state in which no thread waits and the channel is empty. *)
Definition drained (s : bar_system) : Prop :=
  queue s = [] ∧ printing_ev s = None ∧ ∀ t, sending s t = [].

(** The modules can always be shown, whatever has happened. *)
Definition showable (P : list dyn_module → Prop) : Prop :=
  ∀ mods nai tr, P mods → ∃ tr' mods', generate_status_1 mods nai tr = (tr', Done mods') ∧ P mods'.

(** In a reachable state. *)
Lemma showable_reachable P s s' :
  showable P → P (bar_modules s) → rtc bar_step s s' → P (bar_modules s').
Proof.
  intros Hsh HP Hr. induction Hr as [s|s s1 s2 Hs _ IH]; [done|]. apply IH.
  destruct Hs as [| | | | |x tr ms Hx Hg]; try done. cbn.
  destruct (Hsh (bar_modules s) (snd x) (bar_trace s) HP) as (tr' & ms' & E & HP').
  rewrite E in Hg. by injection Hg as _ <-.
Qed.

Lemma safe_showable : showable (Forall dyn_safe).
Proof.
  intros mods nai tr Hs. pose proof (runs_generate_status_1 nai mods Hs tr) as Hr.
  destruct (generate_status_1 mods nai tr) as [tr' [mods'| |]]; [by eauto|done..].
Qed.

Lemma drain_progress P s :
  showable P → P (bar_modules s) →
  drained s ∨ ∃ s', drain_step s s' ∧ P (bar_modules s').
Proof.
  intros Hsh HP. destruct (printing_ev s) as [x|] eqn:Ep.
  { destruct (Hsh (bar_modules s) (snd x) (bar_trace s) HP) as (tr & ms & E & HP').
    right. eexists. split; [by eapply drain_print|done]. }
  destruct (queue s) as [|x q] eqn:Eq.
  2: { right. eexists. split; [by eapply drain_receive|done]. }
  destruct (sending s Ticker) as [|e1 l1] eqn:E1;
    [destruct (sending s Input) as [|e2 l2] eqn:E2;
      [destruct (sending s SwayEvents) as [|e3 l3] eqn:E3|]|].
  { left. split; [done|]. split; [done|]. by intros []. }
  all: right; eexists; (split; [eapply drain_send; [done|]|done]);
    rewrite Eq; unfold channel_capacity; cbn; lia.
Qed.

Lemma drain_exists P s :
  showable P → P (bar_modules s) → ∃ s', rtc drain_step s s' ∧ drained s'.
Proof.
  intros Hsh. remember (work s) as k eqn:Ek. revert s Ek.
  induction (lt_wf k) as [k _ IH]. intros s -> HP.
  destruct (drain_progress P s Hsh HP) as [Hd|(s1 & Hs & HP1)]; [by exists s|].
  destruct (IH (work s1) (drain_step_work _ _ Hs) s1 eq_refl HP1) as (s2 & Hr & Hd).
  exists s2. split; [by eapply rtc_l|done].
Qed.

Lemma drain_steps_happened s s' :
  rtc drain_step s s' → happened s' = happened s ∧ printed s `prefix_of` printed s'.
Proof.
  induction 1 as [s|s s1 s2 Hs _ [IH1 IH2]]; [done|].
  apply drain_step_happened in Hs as [H1 H2]. split; [congruence|by trans (printed s1)].
Qed.

(** ** Claims *)

(** C17: In every interleaving of swayrbar's threads the channel holds at most 16 events,
    and for each sending thread the events printed, being printed, in the channel and still
    to be sent are, in this order, exactly those that the configuration and what has
    happened make due: one for all modules per tick, one for each window module per change
    of sway, and for a click one for the module that is clicked, unless that is a window
    module or has no command for the button.  No refresh is forgotten, misaddressed, lost,
    doubled or overtaken by a later one of the same thread, and the modules keep their
    configurations and their order. *)
Theorem bar_threads_deliver `{Env} `{BarEnv} `{RegexCrate} `{Floats} `{RtFormatCrate}
    config tr s :
  rtc bar_step (bar_init (create_modules config) tr) s →
  length (queue s) ≤ 16
  ∧ (∀ t, of_sender t (printed s ++ option_list (printing_ev s) ++ queue s) ++ sending s t
          = due (shown_configs config) t (happened s))
  ∧ dyn_config <$> bar_modules s = shown_configs config.
Proof.
  intros Hr. apply bar_reachable_invariant in Hr as (? & ? & ? & _);
    [|apply created_lawful|apply create_modules_quiet].
  by rewrite shown_configs_created in *.
Qed.

(** C18: The threads do not block each other for ever: while the modules can be shown
    (sway is up, volumes fit a byte, date formats are strftime formats, and so on), from
    every reachable state the steps that only move events on come to an end, after at most
    [work] of them, and they reach a state in which no thread waits, the channel is empty
    and every event that was due has been printed, after those printed before, in its
    sender's order. *)
Theorem bar_threads_drain `{Env} `{BarEnv} `{RegexCrate} `{Floats} `{RtFormatCrate}
    config tr s :
  HealthyBar → config_dates_valid config → rtc bar_step (bar_init (create_modules config) tr) s →
  (∀ n s', nsteps drain_step n s s' → n ≤ work s)
  ∧ ∃ s', rtc drain_step s s' ∧ drained s'
        ∧ printed s `prefix_of` printed s'
        ∧ ∀ t, of_sender t (printed s') = due (shown_configs config) t (happened s).
Proof.
  intros Hb Hdates Hr. split.
  { intros n s' Hn%drain_steps_bounded. lia. }
  pose proof (showable_reachable _ (bar_init _ tr) _ safe_showable
    (create_modules_safe Hb config Hdates) Hr) as HP.
  destruct (drain_exists _ s safe_showable HP) as (s' & Hd & Hq & Hp & Hsend).
  exists s'. split; [done|]. split; [done|].
  pose proof (drain_steps_happened _ _ Hd) as [Hh Hpre]. split; [done|]. intros t.
  assert (bar_invariant (shown_configs config) s') as (_ & Hinv & _).
  { rewrite <- shown_configs_created. clear -Hr Hd.
    apply bar_reachable_invariant in Hr; [|apply created_lawful|apply create_modules_quiet].
    induction Hd; [done|]. apply IHHd. by eapply drain_step_invariant. }
  specialize (Hinv t). unfold delivered in Hinv.
  rewrite Hq, Hp, Hsend, Hh in Hinv. cbn in Hinv. by rewrite !app_nil_r in Hinv.
Qed.
End Facts.

(** ** Witnesses *)
Section Witnesses.
Import Samples.
Local Abbreviation env := (quiet_env sample_root).
Local Abbreviation programs := (printing "Volume: 40%").

(** A click on the volume: every line is a click on [pactl 0] with the wheel. *)
Definition wheel_json : SwaybarTypes := {|
  ClickButton := string;
  button_debug b := b;
  click_from_json _ := Some (Some "pactl", Some "0", "WheelUp");
  blocks_to_json _ := None
|}.

Definition volume_and_window : Config :=
  {| refresh_interval := 1000; modules := [pactl_default_config "0"; window_default_config "0"] |}.
Definition two_modules : list dyn_module :=
  @create_modules env programs volume_regexes no_floats three_chars volume_and_window.

Definition click_effects : trace :=
  [ReadLine; RunStatus "pactl" ["set-sink-volume"; "@DEFAULT_SINK@"; "+1%"];
   SendRefresh (Some ("pactl", "0", ClickEvent))].

(** The volume is clicked, sway reports a change, and the first event is sent. *)
Definition clicked_state : bar_system :=
  produce Input (LineRead (Ok "{}")) click_effects (bar_init two_modules []).
Definition changed_state : bar_system :=
  produce SwayEvents SwayChanged
    (click_effects ++ [NextEvent; SendRefresh (Some ("window", "0", SwayEvent))]) clicked_state.
Definition sent_state : bar_system :=
  enqueue Input (Some ("pactl", "0", ClickEvent)) [] changed_state.

Lemma sent_reachable :
  rtc (@bar_step wheel_json only_header) (bar_init two_modules []) sent_state.
Proof.
  eapply rtc_l; [by apply (step_line _ (Ok "{}") click_effects)|].
  eapply rtc_l; [by apply (step_sway clicked_state
    (click_effects ++ [NextEvent; SendRefresh (Some ("window", "0", SwayEvent))]))|].
  apply rtc_once. apply (step_send _ Input); [done|]. cbn. unfold channel_capacity. lia.
Qed.

Definition all_sent (t : sender) : list refresh :=
  of_sender t (printed sent_state ++ option_list (printing_ev sent_state) ++ queue sent_state)
  ++ sending sent_state t.

Lemma bar_threads_deliver_witness :
  all_sent Ticker = []
  ∧ all_sent Input = [Some ("pactl", "0", ClickEvent)]
  ∧ all_sent SwayEvents = [Some ("window", "0", SwayEvent)].
Proof.
  destruct (@bar_threads_deliver wheel_json only_header env programs volume_regexes no_floats
    three_chars volume_and_window [] sent_state sent_reachable) as (_ & E & _).
  unfold all_sent. rewrite !E. by vm_compute.
Defined.

Lemma volume_dates_valid : @config_dates_valid programs volume_and_window.
Proof. apply Forall_forall. intros mc _ _ s _ tr. by eexists. Qed.

Lemma bar_threads_drain_witness :
  ∃ s', rtc (@drain_step wheel_json) sent_state s'
    ∧ of_sender Input (printed s') = [Some ("pactl", "0", ClickEvent)].
Proof.
  destruct (@bar_threads_drain wheel_json only_header env programs volume_regexes no_floats
    three_chars volume_and_window [] sent_state sample_healthy_bar volume_dates_valid
    sent_reachable) as (_ & s' & Hr & _ & _ & Hp).
  exists s'. split; [done|]. rewrite Hp. by vm_compute.
Defined.
End Witnesses.
