(* ===== verification/BarFresh.v ===== *)
(** * swayrbar: the window that is shown is the focused one
    (swayrbar/src/bar.rs, swayrbar/src/module/window.rs)

    From a change of sway to the status line: the event of sway makes the thread for
    sway's events send one refresh for each window module, and when these are printed,
    the last line shows what sway answers, whatever the other threads do meanwhile. *)

From S2P Require Import Prelude RString Regex Fmt Ipc Sway Hoare BarModule BarModules Bar BarSafety BarThreads.
From S2P Require Samples Tests.

(** ** What is shown *)
Section Fresh.
Context `{Env} `{BarEnv} `{RegexCrate} `{Floats} `{RtFormatCrate} `{SwaybarTypes} `{BarIO}.

(** The text of a window module for the windows of [root]: that of the focused window in
    the module's format, and nothing without one. *)
Definition window_text (root : node) (cfg : ModuleConfig) : outcome string :=
  match shown_window root with
  | Some win =>
      window_subst (format cfg) (is_html_escape cfg)
        {| w_name := get_name win; w_app_name := get_app_name win;
           w_pid := default UNKNOWN_PID (pid win); w_cached_text := EmptyString |}
  | None => Done EmptyString
  end.

(** From [tr] on, sway answers and its tree is [root]. *)
Definition settled_on (root : node) (tr : trace) : Prop :=
  typable (drop_scratchpads root)
  ∧ ∀ tr', tr `prefix_of` tr' →
      sway_up tr' ∧ env_get_tree (tr' ++ root_effects tr') = Ok root.

(** The effect that prints a status line. *)
Definition line_of (bs : list Block) : effect :=
  Println (default EmptyString (blocks_to_json bs) +:+ "," +:+ nl).

(** No event of the thread for sway's events is under way. *)
Definition sway_events_printed (s : bar_system) : Prop :=
  sending s SwayEvents = []
  ∧ of_sender SwayEvents (option_list (printing_ev s) ++ queue s) = [].

(** ** Lemmas *)
Local Abbreviation WindowModule := (@Dyn BarModuleWindow BarModuleWindow_fn).

Definition refresh_of (cfg : ModuleConfig) : refresh := Some (name cfg, instance cfg, SwayEvent).

Lemma settled_on_later root tr tr' :
  settled_on root tr → tr `prefix_of` tr' → settled_on root tr'.
Proof.
  intros [Hty Hs] Hp. split; [done|]. intros tr2 Hp2. apply Hs. by trans tr'.
Qed.

(** The text does not depend on the one before. *)
Lemma window_subst_cached fmt esc st text :
  window_subst fmt esc st
  = window_subst fmt esc {| w_name := w_name st; w_app_name := w_app_name st;
                            w_pid := w_pid st; w_cached_text := text |}.
Proof. reflexivity. Qed.

Lemma dyn_build_window nai m root tr tr' d b :
  settled_on root tr → dyn_build nai (WindowModule m) tr = (tr', Done (d, b)) →
  ∃ m', d = WindowModule m' ∧ window_config m' = window_config m
    ∧ full_text b = w_cached_text (window_state m')
    ∧ (m' = m ∨ window_text root (window_config m) = Done (w_cached_text (window_state m')))
    ∧ (nai = refresh_of (window_config m) →
       window_text root (window_config m) = Done (w_cached_text (window_state m'))).
Proof.
  intros [Hty Hs] E. destruct (Hs tr) as [Hup Ht]; [done|].
  unfold dyn_build in E. apply io_bind_inv in E as (tr1 & [m1 b1] & E & [= _ <- <-]).
  cbn [dyn_fn dyn_obj dyn_type fst] in *. rewrite (window_module_shows_focused m nai root tr Hup Ht Hty) in E.
  exists m1. split; [done|]. unfold window_text.
  set (cfg := window_config m) in *. set (st := window_state m) in *.
  destruct (bool_decide (w_pid st = INITIAL_PID) || bool_decide (nai = Some (name cfg, instance cfg, SwayEvent))) eqn:Er.
  - destruct (shown_window root) as [win|].
    + cbv zeta in E. rewrite (window_subst_cached _ _ _ EmptyString) in E.
      cbn [w_name w_app_name w_pid] in E.
      destruct (window_subst _ _ _) as [text| |]; cbn in E; [|done..].
      injection E as _ <- <-. cbn. auto.
    + injection E as _ <- <-. cbn. auto.
  - injection E as _ <- <-. split_and!; auto. intros ->.
    apply orb_false_iff in Er as [_ Er]. by rewrite bool_decide_eq_false in Er.
Qed.

(** A module in its place: it is built after some time, and its block has its place. *)
Lemma build_all_nth nai mods tr tr' mods' bs i m :
  Forall dyn_quiet mods → build_all nai mods tr = (tr', Done (mods', bs)) →
  tr `prefix_of` tr' ∧ Forall dyn_quiet mods'
  ∧ (mods !! i = Some m →
     ∃ tr1 tr2 m' b, tr `prefix_of` tr1 ∧ dyn_build nai m tr1 = (tr2, Done (m', b))
       ∧ mods' !! i = Some m' ∧ bs !! i = Some b).
Proof.
  intros Hg. revert i tr tr' mods' bs.
  induction Hg as [|x mods Hx Hg IH]; intros i tr tr' mods' bs E; [by injection E as <- <- <-|].
  cbn [build_all] in E. apply io_bind_inv in E as (tr1 & [x1 b1] & Ex & E).
  apply io_bind_inv in E as (tr2 & [ms1 bs1] & Ems & [= <- <- <-]). cbn [fst snd].
  destruct (dyn_build_quiet _ _ _ _ _ _ Hx Ex) as [Hp Hx1].
  destruct (IH (pred i) _ _ _ _ Ems) as (Hp2 & Hg2 & Hn).
  split_and!; [by trans tr1|by constructor|]. destruct i as [|i]; cbn.
  - intros [= <-]. by exists tr, tr1, x1, b1.
  - intros (tr3 & tr4 & m' & b & Hp3 & ?)%Hn. exists tr3, tr4, m', b. split; [by trans tr1|done].
Qed.

Lemma generate_status_1_nth nai mods tr tr' mods' i m :
  Forall dyn_quiet mods → generate_status_1 mods nai tr = (tr', Done mods') →
  mods !! i = Some m →
  tr `prefix_of` tr' ∧ Forall dyn_quiet mods'
  ∧ ∃ tr1 tr2 m' b bs, tr `prefix_of` tr1 ∧ dyn_build nai m tr1 = (tr2, Done (m', b))
      ∧ mods' !! i = Some m' ∧ last tr' = Some (line_of bs) ∧ bs !! i = Some b.
Proof.
  intros Hg E Hi. unfold generate_status_1 in E.
  apply io_bind_inv in E as (tr1 & [ms bs] & E & E2).
  apply io_bind_inv in E2 as (tr2 & [] & [= <-] & [= <- <-]). cbn [fst snd].
  destruct (build_all_nth _ _ _ _ _ _ i m Hg E) as (Hp & Hg2 & Hn).
  destruct (Hn Hi) as (tr3 & tr4 & m' & b & Hp3 & Hb & Hm & Hbs).
  split_and!; [by apply prefix_app_r|done|].
  exists tr3, tr4, m', b, bs. split_and!; try done. by rewrite last_snoc.
Qed.

(** ** The invariant *)

(** The module at place [i] has a refresh under way, or it and the last line show the
    focused window. *)
Definition under_way (cfg : ModuleConfig) (s : bar_system) : Prop :=
  refresh_of cfg ∈ sending s SwayEvents
  ∨ (SwayEvents, refresh_of cfg) ∈ option_list (printing_ev s) ++ queue s.

Definition shows_now (root : node) (i : nat) (m : BarModuleWindow) (s : bar_system) : Prop :=
  window_text root (window_config m) = Done (w_cached_text (window_state m))
  ∧ ∃ bs b, bar_line s = Some (line_of bs) ∧ bs !! i = Some b
      ∧ full_text b = w_cached_text (window_state m).

Definition fresh_invariant (root : node) (i : nat) (cfg : ModuleConfig) (s : bar_system) : Prop :=
  settled_on root (bar_trace s) ∧ Forall dyn_quiet (bar_modules s)
  ∧ ∃ m, bar_modules s !! i = Some (WindowModule m) ∧ window_config m = cfg
    ∧ (under_way cfg s ∨ shows_now root i m s).

(** Printing [x]: a refresh for the module makes it show the focused window, any other
    event leaves what it shows or does the same. *)
Lemma print_fresh root i cfg s x tr mods :
  fresh_invariant root i cfg s → printing_ev s = Some x →
  generate_status_1 (bar_modules s) (snd x) (bar_trace s) = (tr, Done mods) →
  fresh_invariant root i cfg (print x mods tr s).
Proof.
  intros (Hs & Hg & m & Hi & Hc & Hf) Hx E.
  destruct (generate_status_1_nth _ _ _ _ _ _ _ Hg E Hi)
    as (Hp & Hg' & tr1 & tr2 & d & b & bs & Hp1 & Hb & Hi' & Hl & Hbs).
  apply (dyn_build_window _ _ root) in Hb as (m' & -> & Hc' & Ht & Hsame & Hnew);
    [|by eapply settled_on_later].
  split_and!; [by eapply settled_on_later|done|].
  exists m'. split_and!; [done|congruence|].
  assert (window_text root (window_config m) = Done (w_cached_text (window_state m')) →
    shows_now root i m' (print x mods tr s)) as Hshow.
  { intros Htx. split; [by rewrite Hc'|]. by exists bs, b. }
  destruct Hf as [Hu|[Htx _]].
  - destruct (decide (snd x = refresh_of cfg)) as [Hev|Hev]; [right; apply Hshow, Hnew; congruence|].
    left. destruct Hu as [Hu|Hu]; [by left|]. right. rewrite Hx in Hu. cbn in Hu |- *.
    apply elem_of_cons in Hu as [<-|Hu]; [done|exact Hu].
  - right. apply Hshow. by destruct Hsame as [->|].
Qed.

Lemma produce_fresh root i cfg s t h tr :
  fresh_invariant root i cfg s → sending s t = [] → bar_trace s `prefix_of` tr →
  fresh_invariant root i cfg (produce t h tr s).
Proof.
  intros (Hs & Hg & m & Hi & Hc & Hf) Ht Hp.
  split_and!; [by eapply settled_on_later|done|]. exists m. split_and!; [done..|].
  destruct Hf as [[Hu|Hu]|Hf]; [left; left|left; by right|by right].
  cbn. rewrite upd_spec. destruct (decide (SwayEvents = t)) as [<-|]; [|done].
  rewrite Ht in Hu. by apply elem_of_nil in Hu.
Qed.

Lemma drain_step_fresh root i cfg s s' :
  fresh_invariant root i cfg s → drain_step s s' → fresh_invariant root i cfg s'.
Proof.
  intros Hf Hs. destruct Hs as [t ev evs Ht Hlt|x q Hn Hq|x tr mods Hx E].
  - destruct Hf as (Hs & Hg & m & Hi & Hc & Hf). split_and!; [done..|].
    exists m. split_and!; [done..|].
    destruct Hf as [[Hu|Hu]|Hf]; [| |by right].
    2: { left. right. cbn. rewrite (assoc_L (++)). apply elem_of_app. by left. }
    left. cbn. destruct (decide (t = SwayEvents)) as [->|Hne].
    + rewrite Ht in Hu. apply elem_of_cons in Hu as [Hu|Hu];
        [right|left; cbn; by rewrite upd_spec, decide_True].
      cbn. rewrite !elem_of_app, Hu. right. right. by left.
    + left. cbn. by rewrite upd_spec, decide_False.
  - destruct Hf as (Hs & Hg & m & Hi & Hc & Hf). split_and!; [done..|].
    exists m. split_and!; [done..|].
    destruct Hf as [[Hu|Hu]|Hf]; [left; by left| |by right].
    left. right. cbn. by rewrite Hn, Hq in Hu.
  - by eapply print_fresh.
Qed.

Lemma bar_step_fresh root i cfg s s' :
  fresh_invariant root i cfg s → bar_step s s' → fresh_invariant root i cfg s'.
Proof.
  intros Hf Hs. pose proof Hf as (_ & Hg & _).
  destruct (bar_turn_sends s s' Hg Hs) as [Hd|(t & h & tr & -> & Ht & Hp & _)].
  - by eapply drain_step_fresh.
  - by apply produce_fresh.
Qed.

Lemma bar_steps_fresh root i cfg s s' :
  fresh_invariant root i cfg s → rtc bar_step s s' → fresh_invariant root i cfg s'.
Proof. intros Hf Hr. induction Hr as [|s s1 s2 Hs _ IH]; [done|]. by eapply IH, bar_step_fresh. Qed.

(** *** Places *)

(** Modules stay of their kind and in their places. *)
Definition keeps_places (i : nat) (cfg : ModuleConfig) (s : bar_system) : Prop :=
  Forall dyn_quiet (bar_modules s)
  ∧ ∃ m, bar_modules s !! i = Some (WindowModule m) ∧ window_config m = cfg.

Lemma window_build_config nai m tr tr' d b :
  dyn_build nai (WindowModule m) tr = (tr', Done (d, b)) →
  ∃ m', d = WindowModule m' ∧ window_config m' = window_config m.
Proof.
  intros E. unfold dyn_build in E. apply io_bind_inv in E as (tr1 & [m1 b1] & E & [= _ <- _]).
  exists m1. split; [done|]. by apply (@build_config _ _ BarModuleWindow_laws) in E as [? _].
Qed.

Lemma bar_step_places i cfg s s' : keeps_places i cfg s → bar_step s s' → keeps_places i cfg s'.
Proof.
  intros [Hg (m & Hi & Hc)] Hs. destruct Hs as [| | | | |x tr mods Hx E]; try (split; [done|by exists m]).
  destruct (generate_status_1_nth _ _ _ _ _ _ _ Hg E Hi)
    as (_ & Hg' & tr1 & tr2 & d & b & bs & _ & Hb & Hi' & _).
  apply window_build_config in Hb as (m' & -> & Hc').
  split; [done|]. exists m'. split; [done|congruence].
Qed.

Lemma bar_steps_places i cfg s s' :
  keeps_places i cfg s → rtc bar_step s s' → keeps_places i cfg s'.
Proof. intros Hk Hr. induction Hr as [|s s1 s2 Hs _ IH]; [done|]. by eapply IH, bar_step_places. Qed.

Lemma window_due mods i m :
  mods !! i = Some (WindowModule m) → name (window_config m) = "window" →
  refresh_of (window_config m) ∈ due_for (dyn_config <$> mods) SwayEvents SwayChanged.
Proof.
  intros Hi%list_elem_of_lookup_2 Hn. cbn. apply list_elem_of_fmap.
  exists (window_config m). split; [done|]. apply list_elem_of_filter. split; [done|].
  apply list_elem_of_fmap. by exists (WindowModule m).
Qed.

(** ** Claim *)

(** C19: When sway has reported a change and its tree then stays the same, the refreshes sent
    for it are not lost on the way: in every interleaving of swayrbar's threads, with
    ticks, clicks and later events of sway in between, once the events of the thread for
    sway's events have been printed, the last status line shows in the place of each
    window module the focused window of sway's tree, in the module's format. *)
Theorem window_shown_is_focused config tr root i mc s s1 s' :
  rtc bar_step (bar_init (create_modules config) tr) s →
  bar_step s s1 → happened s1 = happened s ++ [SwayChanged] →
  settled_on root (bar_trace s ++ [NextEvent]) →
  create_modules config !! i = Some (Dyn (BarModuleWindow_create mc)) → name mc = "window" →
  rtc bar_step s1 s' → sway_events_printed s' →
  ∃ bs b, bar_line s' = Some (line_of bs) ∧ bs !! i = Some b
    ∧ window_text root mc = Done (full_text b).
Proof.
  intros Hr Hstep Hh Hset Hi Hn Hr' [Hs1 Hs2].
  assert (keeps_places i mc s) as [Hg (m & Hm & Hc)].
  { eapply bar_steps_places; [|exact Hr]. split; [apply create_modules_quiet|]. by eexists. }
  assert (∃ tr1, sway_turn (bar_modules s) (bar_trace s) = (tr1, Done tt)
    ∧ s1 = produce SwayEvents SwayChanged tr1 s) as (tr1 & E & ->).
  { assert (∀ l : list happening, l ≠ l ++ [SwayChanged]) as Hne.
    { intros l El%(f_equal length). rewrite length_app in El. cbn in El. lia. }
    destruct Hstep; cbn in Hh; try (by apply Hne in Hh);
      apply app_inj_tail in Hh as [_ Hh]; try done.
    by eexists. }
  rewrite sway_turn_eq in E. injection E as <-.
  assert (fresh_invariant root i mc s') as (_ & _ & m' & _ & Hc' & Hf).
  { eapply bar_steps_fresh; [|exact Hr']. split_and!; [|done|].
    - eapply settled_on_later; [exact Hset|]. cbn [produce bar_trace].
      match goal with |- _ `prefix_of` _ ++ _ :: ?l => exists l end. by rewrite <- (assoc_L (++)).
    - exists m. split_and!; [done..|]. left. left. cbn [produce sending].
      rewrite upd_spec, decide_True, sent_app by done. cbn [omap list_omap send_of].
      rewrite send_of_refreshes. subst mc. by eapply window_due. }
  destruct Hf as [[Hu|Hu]|(Ht & bs & b & Hl & Hb & Hx)].
  - rewrite Hs1 in Hu. by apply elem_of_nil in Hu.
  - assert (refresh_of mc ∈ of_sender SwayEvents (option_list (printing_ev s') ++ queue s')) as Hin.
    { unfold of_sender. apply list_elem_of_fmap. exists (SwayEvents, refresh_of mc). split; [done|].
      by apply list_elem_of_filter. }
    rewrite Hs2 in Hin. by apply elem_of_nil in Hin.
  - exists bs, b. split_and!; [done..|]. by rewrite Hx, <- Hc'.
Qed.
End Fresh.

(** ** Witness *)
Section Witness.
Import Samples.
Local Abbreviation env := (quiet_env sample_root).
Local Abbreviation programs := (printing "Volume: 40%").

Definition window_and_clock : Config :=
  {| refresh_interval := 1000; modules := [date_default_config "0"; window_default_config "0"] |}.
Definition two_modules : list dyn_module :=
  @create_modules env programs Tests.placeholder_regexes no_floats Tests.precision_crate window_and_clock.

Definition change_effects : trace :=
  [NextEvent; SendRefresh (Some ("window", "0", SwayEvent))].
Definition reported : bar_system :=
  produce SwayEvents SwayChanged change_effects (bar_init two_modules []).
Definition received : bar_system :=
  receive (SwayEvents, Some ("window", "0", SwayEvent)) []
    (enqueue SwayEvents (Some ("window", "0", SwayEvent)) [] reported).
Definition shown : bar_system :=
  match @generate_status_1 no_json two_modules (Some ("window", "0", SwayEvent)) change_effects with
  | (tr, Done mods) => print (SwayEvents, Some ("window", "0", SwayEvent)) mods tr received
  | _ => received
  end.

Lemma shown_done :
  match (@generate_status_1 no_json two_modules (Some ("window", "0", SwayEvent)) change_effects).2 with
  | Done _ => true
  | _ => false
  end = true.
Proof. by vm_compute. Qed.

Lemma reported_step : @bar_step no_json only_header (bar_init two_modules []) reported.
Proof. by apply step_sway. Qed.

Lemma shown_reachable : rtc (@bar_step no_json only_header) reported shown.
Proof.
  eapply rtc_l; [apply (step_send _ SwayEvents (Some ("window", "0", SwayEvent)) []); [done|]|].
  { cbn. unfold channel_capacity. lia. }
  eapply rtc_l; [by apply (step_receive _ (SwayEvents, Some ("window", "0", SwayEvent)) [])|].
  apply rtc_once. pose proof shown_done as Hd. unfold shown.
  destruct (generate_status_1 _ _ _) as [tr [mods| |]] eqn:E; [|done..].
  by apply (step_print _ (SwayEvents, Some ("window", "0", SwayEvent))).
Qed.

Lemma window_shown_is_focused_witness :
  ∃ bs b, bar_line shown = Some (@line_of no_json bs) ∧ bs !! 1 = Some b
    ∧ full_text b = "🪟 title of foot — foot".
Proof.
  destruct (@window_shown_is_focused env programs Tests.placeholder_regexes no_floats
    Tests.precision_crate no_json only_header window_and_clock [] sample_root 1 (window_default_config "0")
    (bar_init two_modules []) reported shown) as (bs & b & Hl & Hb & Ht).
  - done.
  - exact reported_step.
  - done.
  - split; [unfold typable; decide_now|]. intros tr' _. split; [by right|done].
  - done.
  - done.
  - exact shown_reachable.
  - by vm_compute.
  - exists bs, b. split_and!; [done..|]. revert Ht. vm_compute. by intros [= <-].
Defined.
End Witness.
